(* ===== verification/_CoqProject ===== *)
-Q . S2P
Prelude.v
JsString.v
JsValue.v
JsText.v
JsUtf8.v
JsDate.v
Settings.v
Effects.v
AuditEvents.v
AuditFile.v
RateLimit.v
RedisRateLimit.v
JsForm.v
Tokens.v
Base64.v
Sessions.v
Jwt.v
Login.v
Refresh.v
Cookies.v
ChangePassword.v
ChangeRefinement.v
Users.v
Http.v
ServiceSetup.v
ServiceRuntime.v
WebAccess.v
Rbac.v
JsArray.v
ListColumns.v
Pagination.v
LocalTime.v
QuickFilter.v
FilterEditor.v
PredicateText.v
DestinationList.v
Nav.v
Detail.v
RefreshFetch.v
BrowserService.v
Shell.v
BrowserApi.v
RecordPage.v
Gate.v
PasswordForms.v
SignIn.v
Renewal.v
SignOut.v
PolicyPages.v
CoherenceBus.v
ListControls.v
DetailControls.v
RecordChrome.v
ListChrome.v
