(* ===== verification/Prelude.v ===== *)
(** * Untangled: a verification development of its authentication service and
      its web frontend

    The repository is a web application.  Its authentication service
    (src/auth/src, TypeScript) logs users in, keeps their sessions and refresh
    tokens, limits the rate of attempts and changes passwords.  Its frontend
    (src/frontend/app, TypeScript) is a server that renders documents for
    readers with a valid token, and the pages in the browser: lists with
    filters, sorting and paging, record pages with an editor, and the forms of
    the passwords.  This library models both and proves what makes them correct.

    ** The service: parts and files

    A request enters [serve] (server.ts) and [handle_request] (http.ts), which
    routes it to a handler.  A handler that changes state first passes the
    origin and CSRF guard, reads the operator settings, runs a pipeline and
    writes one response.  The pipelines call the rate limiter, the users, the
    password hashes, the session repository, the access tokens and the audit
    sink, each of which is a component of its own.

    - [Prelude]: exceptions and outcomes, programs as trees of external calls
      ([prog], [IO]) with their notation, runs, weakest preconditions over all
      runs ([wp]), handlers and their executions ([interp]), the tactics
      [wp_run] and [split_goal], the hint databases and shared list lemmas.
    - [JsString], [JsValue], [JsDate], [JsText], [JsUtf8], [JsArray]: the
      language and platform functions the code uses, on strings of UTF-16 units,
      values of type unknown, dates as time values, UTF-8, JSON,
      URLSearchParams, stable sorting, [splice] and maps.
    - [Settings]: login_settings.ts, session_settings.ts, system_config.ts,
      padding.ts, uv_threadpool.ts.
    - [Effects]: the signature [AuthE] of the calls that leave the pure code
      (config.ts bundles them), the records they exchange, and the readers of
      a run's calls that the theorems use.
    - [AuditEvents]: audit.ts, the events.  [AuditFile]: its sinks, the chain of
      writes over a file system whose calls may fail or write only a part.
    - [RateLimit]: rate_limit.ts, the evaluation of one context and the
      in-memory limiter.
    - [RedisRateLimit]: rate_limit_redis.ts, the limiter kept in Redis under
      optimistic locks; encodeURIComponent and its inverse.
    - [Tokens], [Base64]: uuidv7.ts, csrf.ts, refresh_hmac.ts, origin.ts,
      next_path.ts, username.ts.
    - [Sessions]: session_issue.ts, sessions.ts, session_cleanup.ts; the
      meaning of the SQL statements on the tables ([exec]), a connection whose
      statements may be lost ([pg_handler]) and a program logic for it
      ([pgwp]).
    - [Jwt]: jwt.ts.  [Login]: login_pipeline.ts, expiry.ts, hash_slots.ts.
      [Refresh]: refresh_pipeline.ts, logout_pipeline.ts.  [Cookies]:
      cookies.ts, cookie_secure.ts, forwarded.ts.  [ChangePassword]:
      change_password.ts, change_password_apply.ts (the interface of a change
      with its implementations on PostgreSQL and in memory),
      password_strength.ts.  [ChangeRefinement]: the first implementation
      against the second.
      [Users]: users.ts on the table of accounts, and the attempts of many
      requests on it.  [Http]: http.ts, server.ts.
    - [ServiceSetup]: config.ts, main.ts, keys.ts, redis_url.ts, coherence.ts,
      passwords.ts, the start of the service.  [ServiceRuntime]: the queue of
      hash_slots.ts and the timer of session_cleanup.ts.
    - [Rbac]: rbac/permissions.ts, the query effective_permissions.sql and
      [roles_and_permissions] of users.ts.

    ** The frontend: parts and files

    A document request meets the gate, which verifies the token of its cookie,
    and then the loader of its route, which calls the services with that token.
    In the browser a page keeps its state in React state and refs; the reader's
    actions and the answers of its requests are the events that change it; the
    requests go through one function that renews an expired session.

    - [ListColumns]: list/columns.ts, list/column_layout.ts,
      list/header_sort.ts.  [Pagination]: list/pagination.ts,
      list/list_pagination.tsx.  [LocalTime]: the files of datetime/.
    - [QuickFilter]: list/quick_filter.ts, list/list_destination_sync.ts.
      [FilterEditor]: list/filter_ops.ts and the panel of
      list/filter_chrome.tsx.  [PredicateText]: list/predicate_text.ts.
    - [DestinationList]: the page of routes/destination_list.tsx with its
      searches under way.  [ListControls]: list/basic_list.tsx and
      list/list_context_bar.tsx, which turn what the reader does into events of
      that page.  [ListChrome]: what the table, the pager, the filter panel and
      the bar show.
    - [Nav]: the navigation of shell/ and records/record_paths.ts.  [Shell]:
      shell/nav_rail.tsx with its storage, header.tsx, shell_context_bar.tsx,
      shell_layout.tsx and auth/logout_form.tsx.
    - [Detail]: the layout, editor and request bodies of detail/ and records/.
      [RecordPage]: the pages of routes/destination_detail.tsx and
      routes/destination_new.tsx.  [DetailControls]: detail/detail_form.tsx,
      which turns what the reader does into events of them.  [RecordChrome]:
      detail/use_record_editor_undo.ts, detail/detail_context_bar.tsx, the rows
      of the form, and the pair of inputs of datetime/local_datetime_input.tsx
      and time_24_field.tsx.
    - [RefreshFetch]: auth/refresh_fetch.ts, auth/csrf_browser.ts,
      auth/refresh_bootstrap.tsx.  [BrowserApi]: records/browser_api.ts.
      [BrowserService]: a browser with its cookies that runs [RefreshFetch]
      against [Http], each request of the one being served by the other.
      [JsForm]: the texts of [URLSearchParams], with their round trip.
      [SignIn]: the form of routes/login.tsx, [Http], the cookies of the browser
      and [Gate] connected, from the request of a CSRF token to the documents
      that the reader asks for afterwards.
      [Renewal]: the page of auth/refresh_bootstrap.tsx against [Http] and the
      gate, with all its requests.
      [SignOut]: the form of auth/logout_form.tsx, the action of
      routes/logout.tsx, its call to [Http] and the cookies that expire.
    - [WebAccess]: auth/access_jwt.ts, auth/config.server.ts,
      route_error_copy.ts and the error page of root.tsx.  [CoherenceBus]:
      coherence/redis_bus.server.ts and topics.ts.
    - [Gate]: the gate and the sessions of auth/*.server.ts, the calls of the
      services, and the loaders of the routes.
    - [PasswordForms]: auth/password_strength.ts,
      auth/change_password_form.tsx and the form of routes/login.tsx.
      [PolicyPages]: auth/password_policy.ts,
      auth/system_config_cache.server.ts and the loaders of
      routes/change_password.tsx and routes/expired_password.tsx.

    ** How the code is modelled

    A pure function is a function.  An async function is a program: its
    [await]s and other outside calls are nodes of the tree, and a theorem of
    the form [wp p Q] speaks of every sequence of answers the outside may give,
    which covers every interleaving with other requests, every failure and
    every clock.  [try], [catch] and [finally] are [try_catch], [attempt] and
    [finally].  Mutable state that a component owns (the limiter's map, the
    cache's entry, the number of slots) is passed explicitly, and where calls
    overlap it is a step relation.  Milliseconds and counts are integers;
    clock readings with a fraction are not distinguished.

    Two parts are also run concurrently.  [RedisRateLimit.cluster] and
    [Rbac.world] are shared stores with any number of requests, of which any
    action list advances one call at a time: calls are served, refused or lost,
    other processes write, the database changes.  Their invariants state, for
    each request, that whatever happens between its calls it keeps the store in
    order and ends as promised ([safe]).

    The PostgreSQL repository runs on tables; any statement may be lost before
    or after the server ran it, a failed statement aborts its transaction, and
    a released connection carries no transaction over.  Identifiers are
    compared in canonical text.

    A page of the browser is a state with a list of the requests under way.  An
    event is handled with the values of the last render, then the effects run
    whose dependencies changed; the answer of a request is an event that may
    come at any later time, in any order, or be an exception.  What a handler
    captured when it started (the generation of a search, the box of a form) is
    kept with the request.  What the browser measures comes with the event.

    ** What is proved

    - Sessions: the PostgreSQL repository refines the in-memory one under lost
      statements, atomically; a refresh token is exchanged at most once in any
      history; replays are detected; lifetimes are bounded; the cleanup loses
      nothing of use.
    - Login, refresh, logout and password change: when each succeeds, what it
      has done then, and that nothing is left half done; the time a refusal
      takes; the work a lookup costs; that no path throws or leaks a hash slot.
      A password change on PostgreSQL refines the one in memory.
    - HTTP: nothing sensitive happens before the guard is passed, and every
      request is answered exactly once.
    - Rate limiter: accounting, transparency of the purge, spacing and length
      of lockouts.  The Redis limiter is atomic under interleaving and answers
      as the in-memory one; its purge finds every context but one.
    - Permissions: exact and closed on cycles and depth; the cache never serves
      stale permissions and Redis never decides an outcome.
    - Settings, tokens, cookies, forwarded headers, base 64: well-formedness and
      round trips.
    - Accounts: the count of failures locks an account, for attempts that come
      one after the other.
    - Audit file: it holds what the in-memory sink holds up to the writes that
      failed, its files stay within their limits, and every emit settles.
    - Start: the service listens with everything checked and connected or not at
      all; its threads for hashing stay within their number, and one cleanup at
      a time is scheduled.
    - The two tiers: the browser's refresh passes the guard of the service and
      leaves in the cookies what the service gave out; the web server verifies
      tokens exactly as the service does.
    - Documents: nothing is asked of a service before the token is verified, and
      then only with that token.  Browser requests: sent once, and again only
      after a renewal, which ends after at most ten attempts.
    - Passwords: what the form accepts the service accepts, within the drift
      factor of the policy; a form sends one submission at a time.
    - Lists: searches settle; an answer that arrives belongs to the list that is
      shown; the columns are always those of the list; the pager stays inside
      it; filters survive the editor and are complete when they are sent; a
      quick filter searches for the values that are shown; gestures commit only
      real moves and widths.
    - Records: undo restores the baseline; a save sends exactly what changed,
      one at a time; a new record has no field of the server's; the form edits
      only what may be edited.
    - Navigation: only permitted pages are offered and landed on; paths are
      found again; the rail keeps its width within bounds and is remembered; one
      page at a time owns the context bar.
    - What is shown: every row and column once and in order, the operators of a
      filter row for the group it is in, the controls read-only without the
      permission; saving by the mouse is saving by the key.

    Where the code does not keep what it means to, an [Example] shows the run:
    the late answers and lost edits of the pages, the invalidations lost while a
    record is fetched, failures that count once because they overlap, the line
    that swallows the next, the connection that is not closed.

    ** Fuel

    Recursion is structural except in [JsString.digits_fuel] (the binary
    logarithm bounds the decimal digits), [JsText.decimals] (a finite expansion
    has no more decimals than its denominator has bits), [JsText.utf8_decode_fuel] (each round
    consumes a byte), the JSON parser (each call consumes a unit or ends; a
    text that [JSON.stringify] wrote is always read back),
    [RedisRateLimit.uri_decode] (each round consumes a unit),
    [Rbac.working_tables] (the depth bound; the tables after it are empty) and
    [RefreshFetch.refresh_loop] (ten, the greatest bound the server can tell;
    [run_refresh_attempts_end] proves that it is never exhausted).
    [Nav.tokens] has the length of the text as its fuel, and a round consumes a
    unit.  [RedisRateLimit.scan_loop] takes the number of SCAN rounds, which is
    the server's choice, and says when the loop goes on after them.

    ** Not modelled

    jose, argon2, zxcvbn, zod, HMAC-SHA-256 and the WHATWG URL parser are
    parameters, with the documented behaviour that a theorem needs as a named
    class of laws; so are [localeCompare], the time zone of the browser,
    [Date.parse] outside the ISO format, and the metadata and schemas that the
    backend generates.  The rounding of fractions is not modelled.  The Redis
    client, the file system and the key import are calls of a signature, with
    the meaning that a theorem needs as a handler.  Of the frontend the markup
    is modelled where it decides something (which rows, choices, controls and
    labels are shown, what is disabled); class names, icons, the layout and the
    pages of routes/home.tsx and routes/authenticated.tsx are left out, and so
    are schemas that only tests use.  The Python backend is
    outside this library. *)
From stdpp Require Export base tactics list strings gmap sorting.
From Stdlib Require Export ZArith Lia.
Export Z.
#[global] Open Scope Z_scope.

(** ** Exceptions and outcomes *)

(** A JS string is the list of its UTF-16 code units. *)
Definition jstr : Type := list Z.

(** The error classes that the modelled code distinguishes with [instanceof];
    every other thrown value is an [Error_] with its message. *)
Inductive exn : Type :=
| Error_ (message : jstr)
| SessionSettingsAbortError (message : jstr)
| RoleGraphError (message : jstr).

(** What a call that may throw gives. *)
Inductive outcome (A : Type) : Type :=
| Val (a : A)
| Exc (e : exn).
Arguments Val {A} a.
Arguments Exc {A} e.

(** ** Programs over a signature of external calls

    [prog E A] is a computation that performs calls of [E] and returns an [A];
    an [IO E A] may end with an exception instead. *)
Inductive prog (E : Type -> Type) (A : Type) : Type :=
| Ret (a : A)
| Vis (X : Type) (e : E X) (k : X -> prog E A).
Arguments Ret {E A} a.
Arguments Vis {E A X} e k.

Definition IO (E : Type -> Type) (A : Type) : Type := prog E (outcome A).

Fixpoint bind {E A B} (p : prog E A) (f : A -> prog E B) : prog E B :=
  match p with
  | Ret a => f a
  | Vis e k => Vis e (fun x => bind (k x) f)
  end.

Definition ret {E A} (a : A) : IO E A := Ret (Val a).

Definition throw {E A} (e : exn) : IO E A := Ret (Exc e).

(** Sequencing: an exception skips the continuation. *)
Definition then_ {E A B} (p : IO E A) (f : A -> IO E B) : IO E B :=
  bind p (fun o => match o with Val a => f a | Exc e => Ret (Exc e) end).

(** [try { p } catch (e) { h e }] *)
Definition try_catch {E A} (p : IO E A) (h : exn -> IO E A) : IO E A :=
  bind p (fun o => match o with Val a => Ret (Val a) | Exc e => h e end).

(** [try { x = p } catch { ... early return ... }]: the outcome as a value. *)
Definition attempt {E A} (p : IO E A) : IO E (outcome A) :=
  bind p (fun o => Ret (Val o)).

(** [try { p } finally { f }]: [f]'s exception replaces the outcome. *)
Definition finally {E A} (p : IO E A) (f : IO E unit) : IO E A :=
  bind p (fun o => bind f (fun o' =>
    match o' with Val _ => Ret o | Exc e => Ret (Exc e) end)).

(** A call that cannot throw, and one that can. *)
Definition perform {E X} (e : E X) : IO E X := Vis e (fun x => Ret (Val x)).

Definition call {E X} (e : E (outcome X)) : IO E X := Vis e (fun o => Ret o).

Declare Scope io_scope.
Delimit Scope io_scope with io.
Notation "'let*' x := p 'in' q" := (then_ p (fun x => q))
  (at level 10, x pattern, p at level 200, q at level 200) : io_scope.
Notation "p >> q" := (then_ p (fun _ => q))
  (at level 199, right associativity) : io_scope.
#[global] Open Scope io_scope.

(** ** Traces of a program *)

(** A call with the answer the environment gave. *)
Inductive event (E : Type -> Type) : Type :=
| Ev (X : Type) (e : E X) (x : X).
Arguments Ev {E X} e x.

(** [runs p tr a]: with the answers of [tr] to its calls, [p] makes exactly
    these calls in this order and returns [a]. *)
Fixpoint runs {E A} (p : prog E A) (tr : list (event E)) (a : A) : Prop :=
  match p with
  | Ret a' => tr = [] /\ a = a'
  | Vis e k => exists x tr', tr = Ev e x :: tr' /\ runs (k x) tr' a
  end.

(** The weakest condition under which every run of [p] satisfies [Q]. *)
Fixpoint wp {E A} (p : prog E A) (Q : list (event E) -> A -> Prop) : Prop :=
  match p with
  | Ret a => Q [] a
  | Vis e k => forall x, wp (k x) (fun tr a => Q (Ev e x :: tr) a)
  end.

(** A handler answers the calls from a state of its own. *)
Definition handler (E : Type -> Type) (S : Type) : Type :=
  forall X, E X -> S -> X * S.

Fixpoint interp {E S A} (h : handler E S) (p : prog E A) (s : S) : A * S :=
  match p with
  | Ret a => (a, s)
  | Vis e k => let '(x, s') := h _ e s in interp h (k x) s'
  end.

(** The same execution with the calls it made. *)
Fixpoint trace_of {E S A} (h : handler E S) (p : prog E A) (s : S) : list (event E) :=
  match p with
  | Ret _ => []
  | Vis e k => let '(x, s') := h _ e s in Ev e x :: trace_of h (k x) s'
  end.

(** ** Tactics *)

(** Splits a [match] or [if] of the goal and simplifies the equations it gives. *)
Ltac split_goal := repeat (case_match; simplify_eq/=).

(** Unfolds sequencing so that [wp] computes on the calls. *)
Ltac io_unfold :=
  unfold then_, try_catch, attempt, finally, perform, call, ret, throw in *.

(** Case analysis on what the next step of a program depends on. *)
Ltac head_case p :=
  lazymatch p with
  | bind ?q _ => head_case q
  | match ?x with _ => _ end => destruct x eqn:?; try discriminate
  end.

(** One step of a [wp] goal: the next call's answer, or the next case. *)
Ltac wp_step :=
  lazymatch goal with |- context [@wp] => idtac end;
  first
    [ progress cbn [wp bind]
    | match goal with
      | |- wp ?p _ => head_case p
      | |- forall x : outcome _, _ => intros [?|?]
      | |- forall x : bool, _ => intros [|]
      | |- forall x : unit, _ => intros []
      | |- forall x, _ => intros ?
      end ].

Ltac wp_run :=
  io_unfold; repeat wp_step; intros;
  repeat match goal with x : unit |- _ => destruct x end.

(** ** Lemmas on programs *)

Section Programs.
Context {E : Type -> Type}.

Lemma wp_runs {A} (p : prog E A) Q :
  wp p Q <-> forall tr a, runs p tr a -> Q tr a.
Proof.
  revert Q. induction p as [a|X e k IH]; intros Q; simpl.
  - split; [by intros ? ? ? [-> ->] | auto].
  - split.
    + intros H tr a (x & tr' & -> & Hr).
      apply (proj1 (IH x _) (H x) _ _ Hr).
    + intros H x. apply IH. eauto 6.
Qed.

Lemma wp_mono {A} (p : prog E A) (Q Q' : list (event E) -> A -> Prop) :
  (forall tr a, Q tr a -> Q' tr a) -> wp p Q -> wp p Q'.
Proof. intros HQ. rewrite !wp_runs. eauto. Qed.

Lemma wp_and {A} (p : prog E A) (Q Q' : list (event E) -> A -> Prop) :
  wp p Q -> wp p Q' -> wp p (fun tr a => Q tr a /\ Q' tr a).
Proof. rewrite !wp_runs. eauto. Qed.

Lemma wp_bind {A B} (p : prog E A) (f : A -> prog E B) Q :
  wp (bind p f) Q <-> wp p (fun tr a => wp (f a) (fun tr' b => Q (tr ++ tr') b)).
Proof.
  revert Q. induction p as [a|X e k IH]; intros Q; simpl; [done|].
  split; intros H x; apply (IH x (fun tr b => Q (Ev e x :: tr) b)), H.
Qed.

(** The rule used to cut a program at a sub-program with a known contract. *)
Lemma wp_bind_rule {A B} (p : prog E A) (f : A -> prog E B) (P : list (event E) -> A -> Prop) Q :
  wp p P ->
  (forall tr a, P tr a -> wp (f a) (fun tr' b => Q (tr ++ tr') b)) ->
  wp (bind p f) Q.
Proof. intros Hp Hf. apply wp_bind. eapply wp_mono; [|exact Hp]. auto. Qed.

(** The same for [then_]: an exception of the first part is the whole's. *)
Lemma wp_then {A B} (p : IO E A) (f : A -> IO E B) (P : list (event E) -> outcome A -> Prop)
    (R : list (event E) -> outcome B -> Prop) :
  wp p P ->
  (forall tr a, P tr (Val a) -> wp (f a) (fun tr' b => R (tr ++ tr') b)) ->
  (forall tr e, P tr (Exc e) -> R tr (Exc e)) ->
  wp (then_ p f) R.
Proof.
  intros Hp Hv He. apply (wp_bind_rule p _ P); [done|]. intros tr [a|e] HP; [by apply Hv|].
  simpl. rewrite app_nil_r. by apply He.
Qed.

Lemma wp_all {A} (p : prog E A) (Q : list (event E) -> A -> Prop) : (forall tr a, Q tr a) -> wp p Q.
Proof. intros H. apply wp_runs. auto. Qed.

Lemma runs_bind {A B} (p : prog E A) (f : A -> prog E B) tr b :
  runs (bind p f) tr b <->
  exists tr1 a tr2, tr = tr1 ++ tr2 /\ runs p tr1 a /\ runs (f a) tr2 b.
Proof.
  revert tr. induction p as [a|X e k IH]; intros tr; simpl.
  - split.
    + intros H. by exists [], a, tr.
    + by intros (? & ? & ? & -> & [-> ->] & ?).
  - split.
    + intros (x & tr' & -> & H). apply IH in H as (t1 & a & t2 & -> & ? & ?).
      exists (Ev e x :: t1), a, t2. eauto 8.
    + intros (t1 & a & t2 & -> & (x & t1' & -> & H1) & H2).
      exists x, (t1' ++ t2). split; [done|]. apply IH. eauto 8.
Qed.

Lemma interp_bind {S A B} (h : handler E S) (p : prog E A) (f : A -> prog E B) s :
  interp h (bind p f) s = let '(a, s') := interp h p s in interp h (f a) s'.
Proof.
  revert s. induction p as [a|X e k IH]; intros s; simpl; [done|].
  destruct (h X e s). apply IH.
Qed.

(** Every handler's execution is one of the runs, so a property of all runs
    holds of every execution. *)
Lemma interp_runs {S A} (h : handler E S) (p : prog E A) s :
  runs p (trace_of h p s) (fst (interp h p s)).
Proof.
  revert s. induction p as [a|X e k IH]; intros s; simpl; [done|].
  destruct (h X e s) as [x s']. eauto.
Qed.

Lemma wp_interp {S A} (h : handler E S) (p : prog E A) s Q :
  wp p Q -> Q (trace_of h p s) (fst (interp h p s)).
Proof. rewrite wp_runs. intros H. apply H, interp_runs. Qed.

(** An invariant of the handler's state is an invariant of the execution. *)
Lemma interp_invariant {S A} (h : handler E S) (I : S -> Prop) (p : prog E A) s :
  (forall X (e : E X) s, I s -> I (snd (h X e s))) ->
  I s -> I (snd (interp h p s)).
Proof.
  intros Hh. revert s. induction p as [a|X e k IH]; intros s HI; simpl; [done|].
  specialize (Hh X e s HI). destruct (h X e s) as [x s']. by apply IH.
Qed.

End Programs.

(** ** Lists *)

Definition sumZ (l : list Z) : Z := foldr Z.add 0 l.

Definition option_to_list {A} (o : option A) : list A :=
  match o with Some a => [a] | None => [] end.

Lemma sumZ_app l1 l2 : sumZ (l1 ++ l2) = sumZ l1 + sumZ l2.
Proof. induction l1; simpl; lia. Qed.

Lemma sumZ_perm l1 l2 : l1 ≡ₚ l2 -> sumZ l1 = sumZ l2.
Proof. induction 1; simpl; lia. Qed.

Lemma filter_length_le {A} (P : A -> Prop) `{forall x, Decision (P x)} (l : list A) :
  (length (filter P l) <= length l)%nat.
Proof. apply length_filter. Qed.

Lemma filter_twice_le {A} (P Q : A -> Prop)
    `{forall x, Decision (P x)} `{forall x, Decision (Q x)} (l : list A) :
  (forall x, P x -> Q x) -> filter P (filter Q l) = filter P l.
Proof.
  intros HPQ. induction l as [|x l IH]; [done|].
  rewrite !filter_cons. destruct (decide (Q x)), (decide (P x)).
  - rewrite filter_cons. by rewrite decide_True, IH.
  - rewrite filter_cons. by rewrite decide_False, IH.
  - naive_solver.
  - done.
Qed.

Create HintDb untangled discriminated.
#[export] Hint Resolve wp_mono : untangled.
Create Rewrite HintDb untangled_rw.
#[export] Hint Rewrite sumZ_app @app_nil_r @length_app : untangled_rw.
