(* ===== verification/JsString.v ===== *)
(** The string operations of the language that the modelled code uses, on
    lists of UTF-16 code units: [trim], [toLowerCase], [slice], [split],
    [join], [startsWith], [includes], decimal printing and parsing, and the
    UTF-8 bytes of a string.  [toLowerCase] covers ASCII, Latin-1 and the two
    characters outside them that map into ASCII (U+212A and U+0130); other
    letters are left as they are. *)
From S2P Require Import Prelude.
From Stdlib Require Import Ascii String.

(** A source literal. *)
Definition u (s : string) : jstr :=
  map (fun c => Z.of_N (N_of_ascii c)) (list_ascii_of_string s).
Arguments u s%_string : simpl never.
Coercion u : string >-> jstr.

Definition seqb (a b : jstr) : bool := bool_decide (a = b).
Arguments seqb : simpl never.

(** [s.length] *)
Definition jlen (s : jstr) : Z := Z.of_nat (List.length s).

(** WhiteSpace and LineTerminator of the language; the class [\s]. *)
Definition is_space (c : Z) : bool :=
  ((9 <=? c) && (c <=? 13)) || (c =? 32) || (c =? 160) || (c =? 5760) ||
  ((8192 <=? c) && (c <=? 8202)) || (c =? 8232) || (c =? 8233) ||
  (c =? 8239) || (c =? 8287) || (c =? 12288) || (c =? 65279).

Definition is_digit (c : Z) : bool := (48 <=? c) && (c <=? 57).

Definition is_lower (c : Z) : bool := (97 <=? c) && (c <=? 122).

Definition is_upper (c : Z) : bool := (65 <=? c) && (c <=? 90).

Fixpoint drop_while (f : Z -> bool) (s : jstr) : jstr :=
  match s with
  | c :: s' => if f c then drop_while f s' else s
  | [] => []
  end.

Fixpoint take_while (f : Z -> bool) (s : jstr) : jstr :=
  match s with
  | c :: s' => if f c then c :: take_while f s' else []
  | [] => []
  end.

(** [s.trim()] *)
Definition trim (s : jstr) : jstr :=
  rev (drop_while is_space (rev (drop_while is_space s))).

(** The lower-case form of one code unit: ASCII, Latin-1 and the two other
    characters whose lower case has an ASCII character; the rest, which the
    code only tests against ASCII, are left as they are. *)
Definition lower_unit (c : Z) : list Z :=
  if is_upper c then [c + 32]
  else if (192 <=? c) && (c <=? 222) && negb (c =? 215) then [c + 32]
  else if c =? 8490 then [107]
  else if c =? 304 then [105; 775]
  else [c].

(** [s.toLowerCase()] *)
Definition to_lower (s : jstr) : jstr := List.concat (map lower_unit s).

(** [s.slice(a, b)] and [s.slice(a)] for [0 <= a <= b]. *)
Definition slice (s : jstr) (a b : Z) : jstr :=
  firstn (Z.to_nat b - Z.to_nat a) (skipn (Z.to_nat a) s).

Definition slice_from (s : jstr) (a : Z) : jstr := skipn (Z.to_nat a) s.

(** [s.startsWith(p)] *)
Fixpoint starts_with (p s : jstr) : bool :=
  match p, s with
  | [], _ => true
  | a :: p', b :: s' => (a =? b) && starts_with p' s'
  | _ :: _, [] => false
  end.

(** [s.endsWith(p)] *)
Definition ends_with (p s : jstr) : bool := starts_with (rev p) (rev s).

(** [s.includes(p)] *)
Fixpoint includes (p s : jstr) : bool :=
  starts_with p s || match s with [] => false | _ :: s' => includes p s' end.

(** [s.indexOf(c)] for a one-unit string [c]; [None] is [-1]. *)
Fixpoint index_of (c : Z) (s : jstr) : option nat :=
  match s with
  | [] => None
  | d :: s' => if c =? d then Some O else S <$> index_of c s'
  end.

(** [s.split(c)] for a one-unit separator. *)
Fixpoint split_on (c : Z) (s : jstr) : list jstr :=
  match s with
  | [] => [[]]
  | d :: s' =>
      if c =? d then [] :: split_on c s'
      else match split_on c s' with
           | h :: t => (d :: h) :: t
           | [] => [[d]]
           end
  end.

(** [parts.join(sep)] *)
Fixpoint join (sep : jstr) (parts : list jstr) : jstr :=
  match parts with
  | [] => []
  | [p] => p
  | p :: rest => p ++ sep ++ join sep rest
  end.

(** Code-unit order, the order of [Array.prototype.sort] on strings. *)
Fixpoint str_leb (a b : jstr) : bool :=
  match a, b with
  | [], _ => true
  | _ :: _, [] => false
  | x :: a', y :: b' => (x <? y) || ((x =? y) && str_leb a' b')
  end.

Definition str_le (a b : jstr) : Prop := str_leb a b = true.

(** The decimal digits of a natural number, most significant first. *)
Fixpoint digits_fuel (fuel : nat) (n : Z) (acc : jstr) : jstr :=
  match fuel with
  | O => acc
  | S f =>
      let acc' := (48 + n mod 10) :: acc in
      if n <? 10 then acc' else digits_fuel f (n / 10) acc'
  end.

Definition digits (n : Z) : jstr := digits_fuel (S (Z.to_nat (Z.log2 n))) n [].

(** [String(n)] for an integer of at most 21 digits. *)
Definition num_to_string (n : Z) : jstr :=
  if n <? 0 then 45 :: digits (- n) else digits n.

(** The value of a run of decimal digits. *)
Definition digits_value (s : jstr) : Z := fold_left (fun a c => 10 * a + (c - 48)) s 0.

(** The integer that [/^-?\d+$/] text denotes. *)
Definition parse_integer (s : jstr) : option Z :=
  match s with
  | 45 :: ds =>
      if negb (bool_decide (ds = [])) && forallb is_digit ds
      then Some (- digits_value ds) else None
  | ds =>
      if negb (bool_decide (ds = [])) && forallb is_digit ds
      then Some (digits_value ds) else None
  end.

(** The UTF-8 bytes of a string; a surrogate without its pair gives the bytes
    of U+FFFD, as [Buffer.from(s)] does. *)
Definition utf8_point (c : Z) : list Z :=
  if c <? 128 then [c]
  else if c <? 2048 then [192 + c / 64; 128 + c mod 64]
  else if c <? 65536 then [224 + c / 4096; 128 + (c / 64) mod 64; 128 + c mod 64]
  else [240 + c / 262144; 128 + (c / 4096) mod 64; 128 + (c / 64) mod 64; 128 + c mod 64].

Definition is_high_surrogate (c : Z) : bool := (55296 <=? c) && (c <=? 56319).

Definition is_low_surrogate (c : Z) : bool := (56320 <=? c) && (c <=? 57343).

Fixpoint utf8_bytes (s : jstr) : list Z :=
  match s with
  | [] => []
  | c :: s' =>
      if is_high_surrogate c then
        match s' with
        | d :: s'' =>
            if is_low_surrogate d
            then utf8_point (65536 + (c - 55296) * 1024 + (d - 56320)) ++ utf8_bytes s''
            else utf8_point 65533 ++ utf8_bytes s'
        | [] => utf8_point 65533
        end
      else if is_low_surrogate c then utf8_point 65533 ++ utf8_bytes s'
      else utf8_point c ++ utf8_bytes s'
  end.

(** Every unit of the string is an ASCII character. *)
Definition ascii_str (s : jstr) : Prop := Forall (fun c => 0 <= c < 128) s.

#[export] Instance str_le_dec : RelDecision str_le.
Proof. intros a b. unfold str_le. apply _. Defined.

Arguments trim : simpl never.
Arguments to_lower : simpl never.
Arguments includes : simpl nomatch.
Arguments digits : simpl never.
Arguments num_to_string : simpl never.
Arguments slice : simpl never.
Arguments slice_from : simpl never.

(** ** Lemmas *)

Lemma seqb_eq a b : seqb a b = true <-> a = b.
Proof. apply bool_decide_eq_true. Qed.

Lemma seqb_refl a : seqb a a = true.
Proof. by apply seqb_eq. Qed.

Lemma seqb_neq a b : seqb a b = false <-> a <> b.
Proof. apply bool_decide_eq_false. Qed.

Lemma drop_while_clean f s : forallb (fun c => negb (f c)) s = true -> drop_while f s = s.
Proof. destruct s as [|c s]; simpl; [auto|]. destruct (f c); simpl; [discriminate|auto]. Qed.

Lemma trim_nil : trim [] = [].
Proof. done. Qed.

(** A string that neither starts nor ends with white space is its own trim. *)
Lemma trim_id s :
  (forall c, head s = Some c -> is_space c = false) ->
  (forall c, last s = Some c -> is_space c = false) ->
  trim s = s.
Proof.
  intros Hh Hl. unfold trim.
  assert (Hd : forall l, (forall c, head l = Some c -> is_space c = false) ->
                 drop_while is_space l = l).
  { intros [|c l] H; [done|]. simpl in *. by rewrite (H c eq_refl). }
  rewrite (Hd s Hh), Hd; [apply rev_involutive|].
  intros c Hc. apply Hl. rewrite <- Hc.
  rewrite <- (rev_involutive s) at 1. destruct (rev s) as [|d r]; [done|].
  simpl. by rewrite last_snoc.
Qed.

Lemma trim_nospace s : forallb (fun c => negb (is_space c)) s = true -> trim s = s.
Proof.
  intros H. rewrite forallb_forall in H. apply trim_id; intros c Hc.
  - apply negb_true_iff, H. apply list_elem_of_In, list_elem_of_lookup.
    exists 0%nat. by rewrite <- head_lookup.
  - apply negb_true_iff, H. apply list_elem_of_In, list_elem_of_lookup.
    rewrite last_lookup in Hc. eauto.
Qed.

Lemma drop_while_head f s c : head (drop_while f s) = Some c -> f c = false.
Proof.
  induction s as [|d s IH]; simpl; [done|].
  destruct (f d) eqn:Hd; [done|]. simpl. by intros [= ->].
Qed.

Lemma drop_while_suffix f s : exists p, s = p ++ drop_while f s.
Proof.
  induction s as [|c s [p IH]]; [by exists []|]. simpl. destruct (f c).
  - exists (c :: p). simpl. by rewrite <- IH.
  - by exists [].
Qed.

Lemma trim_idemp s : trim (trim s) = trim s.
Proof.
  apply trim_id.
  - intros c. unfold trim. set (l := drop_while is_space s).
    destruct (drop_while_suffix is_space (rev l)) as [p Hp].
    intros Hc. apply (drop_while_head is_space s). fold l.
    rewrite <- (rev_involutive l), Hp, rev_app_distr.
    destruct (rev (drop_while is_space (rev l))); [done|]. done.
  - intros c. unfold trim. intros Hc.
    apply (drop_while_head is_space (rev (drop_while is_space s))).
    destruct (drop_while is_space (rev (drop_while is_space s))) as [|d r]; [done|].
    simpl in Hc. rewrite last_snoc in Hc. done.
Qed.

Lemma starts_with_app p s : starts_with p (p ++ s) = true.
Proof. induction p; simpl; [done|]. by rewrite Z.eqb_refl. Qed.

Lemma starts_with_spec p s : starts_with p s = true <-> exists r, s = p ++ r.
Proof.
  split.
  - revert s. induction p as [|a p IH]; intros [|b s]; simpl; intros H; try done; eauto.
    apply andb_true_iff in H as [Hab H]. apply Z.eqb_eq in Hab as ->.
    destruct (IH _ H) as [r ->]. eauto.
  - intros [r ->]. apply starts_with_app.
Qed.

Lemma index_of_Some c s i : index_of c s = Some i ->
  exists a b, s = a ++ c :: b /\ List.length a = i /\ c ∉ a.
Proof.
  revert i. induction s as [|d s IH]; intros i; simpl; [done|].
  destruct (Z.eqb_spec c d) as [->|Hcd].
  - intros [= <-]. exists [], s. repeat split. apply not_elem_of_nil.
  - destruct (index_of c s) as [j|] eqn:Hj; simpl; [|done]. intros [= <-].
    destruct (IH j eq_refl) as (a & b & -> & <- & Hn).
    exists (d :: a), b. repeat split. rewrite not_elem_of_cons. done.
Qed.

Lemma index_of_app c a b : c ∉ a -> index_of c (a ++ c :: b) = Some (List.length a).
Proof.
  induction a as [|d a IH]; simpl.
  - by rewrite Z.eqb_refl.
  - rewrite not_elem_of_cons. intros [Hd Ha].
    rewrite (proj2 (Z.eqb_neq c d)) by done. by rewrite IH.
Qed.

Lemma split_on_nonnil c s : split_on c s <> [].
Proof. destruct s as [|d s]; simpl; [done|]. destruct (c =? d); [done|]. by destruct (split_on c s). Qed.

Lemma split_on_app c a b : c ∉ a -> split_on c (a ++ c :: b) = a :: split_on c b.
Proof.
  induction a as [|d a IH]; simpl.
  - by rewrite Z.eqb_refl.
  - rewrite not_elem_of_cons. intros [Hd Ha].
    rewrite (proj2 (Z.eqb_neq c d)) by done. by rewrite IH.
Qed.

Lemma split_on_none c a : c ∉ a -> split_on c a = [a].
Proof.
  induction a as [|d a IH]; simpl; [done|].
  rewrite not_elem_of_cons. intros [Hd Ha].
  rewrite (proj2 (Z.eqb_neq c d)) by done. by rewrite IH.
Qed.

(** The decimal text of a number has its value. *)
Lemma digits_fuel_value f n acc :
  0 <= n < 10 ^ Z.of_nat (S f) ->
  fold_left (fun a c => 10 * a + (c - 48)) (digits_fuel (S f) n acc) 0 =
  fold_left (fun a c => 10 * a + (c - 48)) acc n.
Proof.
  revert n acc. induction f as [|f IH]; intros n acc Hn.
  - change (10 ^ Z.of_nat 1) with 10 in Hn. simpl.
    rewrite (proj2 (Z.ltb_lt _ _)) by lia. simpl. f_equal.
    rewrite Z.mod_small; lia.
  - rewrite Nat2Z.inj_succ, Z.pow_succ_r in Hn by lia.
    pose proof (Z.div_mod n 10 ltac:(lia)). pose proof (Z.mod_pos_bound n 10 ltac:(lia)).
    change (digits_fuel (S (S f)) n acc) with
      (if n <? 10 then (48 + n mod 10) :: acc
       else digits_fuel (S f) (n / 10) ((48 + n mod 10) :: acc)).
    destruct (Z.ltb_spec n 10).
    + cbn [fold_left]. f_equal. rewrite Z.mod_small; lia.
    + rewrite IH by (split; [apply Z.div_pos; lia | apply Z.div_lt_upper_bound; lia]).
      cbn [fold_left]. f_equal. lia.
Qed.

Lemma digits_value_digits n : 0 <= n -> digits_value (digits n) = n.
Proof.
  intros Hn. unfold digits_value, digits.
  rewrite digits_fuel_value.
  - done.
  - split; [done|].
    rewrite Nat2Z.inj_succ, Z2Nat.id by apply Z.log2_nonneg.
    destruct (Z.eq_dec n 0) as [->|]; [done|].
    apply Z.lt_le_trans with (2 ^ Z.succ (Z.log2 n)).
    + apply Z.log2_spec. lia.
    + apply Z.pow_le_mono_l. lia.
Qed.

Lemma digits_fuel_digits fuel n acc :
  0 <= n -> Forall (fun c => 48 <= c <= 57) acc ->
  Forall (fun c => 48 <= c <= 57) (digits_fuel fuel n acc).
Proof.
  revert n acc. induction fuel as [|f IH]; intros n acc Hn Ha; simpl; [done|].
  pose proof (Z.mod_pos_bound n 10 ltac:(lia)).
  destruct (n <? 10); [|apply IH; [apply Z.div_pos; lia|]]; constructor; auto; lia.
Qed.

Lemma digits_all n : 0 <= n -> Forall (fun c => 48 <= c <= 57) (digits n).
Proof. intros. by apply digits_fuel_digits. Qed.

Lemma digits_nonnil n : digits n <> [].
Proof.
  unfold digits. generalize (Z.to_nat (Z.log2 n)) as f. intros f. simpl.
  destruct (n <? 10); [done|].
  assert (H : forall f n acc, acc <> [] -> digits_fuel f n acc <> []).
  { clear. induction f as [|f IH]; intros n acc Ha; simpl; [done|].
    destruct (n <? 10); [done|]. by apply IH. }
  by apply H.
Qed.

Lemma digits_fuel_head f n acc : 0 < n -> (Z.log2 n < Z.of_nat f) ->
  match digits_fuel f n acc with c :: _ => c <> 48 | [] => False end.
Proof.
  revert n acc. induction f as [|f IH]; intros n acc Hn Hf; [pose proof (Z.log2_nonneg n); lia|].
  cbn [digits_fuel]. destruct (Z.ltb_spec n 10).
  - rewrite Z.mod_small by lia. lia.
  - apply IH; [apply Z.div_str_pos; lia|].
    assert (n / 10 <= n / 2) by (apply Z.div_le_compat_l; lia).
    pose proof (Z.log2_le_mono (n / 10) (n / 2) ltac:(lia)).
    assert (Z.log2 (n / 2) = Z.log2 n - 1).
    { rewrite <- Z.div2_div, Z.div2_spec, Z.log2_shiftr by lia.
      pose proof (Z.log2_le_mono 2 n ltac:(lia)) as Hl. simpl Z.log2 in Hl. lia. }
    lia.
Qed.

(** No leading zeros. *)
Lemma digits_head n : 0 <= n -> exists c ds, digits n = c :: ds /\ (ds = [] \/ c <> 48).
Proof.
  intros Hn. destruct (decide (n = 0)) as [->|Hz]; [by exists 48, []; auto|].
  pose proof (digits_fuel_head (S (Z.to_nat (Z.log2 n))) n [] ltac:(lia)) as H.
  pose proof (Z.log2_nonneg n). fold (digits n) in H.
  destruct (digits n) as [|c ds]; [exfalso; apply H; lia|].
  exists c, ds. split; [done|right; apply H; lia].
Qed.

Lemma digits_forallb n : 0 <= n -> forallb is_digit (digits n) = true.
Proof.
  intros Hn. apply forallb_forall. intros c Hc%list_elem_of_In.
  pose proof (proj1 (Forall_forall _ _) (digits_all n Hn) c Hc).
  unfold is_digit. apply andb_true_iff; split; apply Z.leb_le; simpl in *; lia.
Qed.

Lemma parse_integer_num_to_string n : parse_integer (num_to_string n) = Some n.
Proof.
  unfold num_to_string. destruct (Z.ltb_spec n 0).
  - simpl. rewrite bool_decide_eq_false_2 by apply digits_nonnil.
    rewrite digits_forallb, digits_value_digits by lia. simpl. f_equal. lia.
  - pose proof (digits_nonnil n) as Hn. pose proof (digits_forallb n ltac:(done)) as Hd.
    pose proof (digits_value_digits n ltac:(done)) as Hv.
    destruct (digits n) as [|c ds]; [done|].
    assert (Hc : c <> 45).
    { simpl in Hd. apply andb_true_iff in Hd as [Hd _]. unfold is_digit in Hd.
      apply andb_true_iff in Hd as [Hd%Z.leb_le _]. lia. }
    unfold parse_integer. rewrite Hd, Hv. simpl.
    repeat case_match; simplify_eq; done.
Qed.

#[export] Instance num_to_string_inj : Inj (=) (=) num_to_string.
Proof.
  intros a b H. apply (f_equal parse_integer) in H.
  rewrite !parse_integer_num_to_string in H. congruence.
Qed.

(** Strings of ASCII characters are their own UTF-8 bytes. *)
Lemma utf8_bytes_ascii s : ascii_str s -> utf8_bytes s = s.
Proof.
  unfold ascii_str. induction 1 as [|c s Hc Hs IH]; [done|]. simpl.
  unfold is_high_surrogate, is_low_surrogate, utf8_point.
  rewrite (proj2 (Z.leb_gt _ _)) by lia. simpl.
  rewrite (proj2 (Z.leb_gt _ _)) by lia. simpl.
  rewrite (proj2 (Z.ltb_lt _ _)) by lia. simpl. by rewrite IH.
Qed.

Lemma utf8_point_length c : (1 <= List.length (utf8_point c))%nat.
Proof. unfold utf8_point. repeat case_match; simpl; lia. Qed.

Lemma utf8_bytes_length s : (List.length s <= List.length (utf8_bytes s))%nat.
Proof.
  induction s as [s IH] using (induction_ltof1 _ (@List.length Z)). unfold ltof in IH.
  destruct s as [|c s]; [simpl; lia|]. pose proof (IH s ltac:(simpl; lia)) as Hs.
  cbn [utf8_bytes]. pose proof (utf8_point_length c). pose proof (utf8_point_length 65533).
  destruct (is_high_surrogate c) eqn:Hc;
    [|destruct (is_low_surrogate c); rewrite length_app; simpl List.length in *; lia].
  destruct s as [|d s']; [simpl; lia|].
  destruct (is_low_surrogate d) eqn:Hd; rewrite length_app; [|simpl List.length in *; lia].
  pose proof (IH s' ltac:(simpl; lia)). unfold is_high_surrogate, is_low_surrogate in Hc, Hd.
  rewrite andb_true_iff, !Z.leb_le in Hc, Hd. unfold utf8_point.
  rewrite !(proj2 (Z.ltb_ge _ _)) by lia. simpl List.length. lia.
Qed.

Lemma str_leb_refl a : str_leb a a = true.
Proof. induction a; simpl; [done|]. rewrite Z.eqb_refl, IHa. by rewrite orb_true_r. Qed.

#[export] Instance str_le_preorder : PreOrder str_le.
Proof.
  split.
  - intros a. apply str_leb_refl.
  - intros a b c. unfold str_le. revert b c.
    induction a as [|x a IH]; intros [|y b] [|z c]; simpl; try done.
    rewrite !orb_true_iff, !andb_true_iff, !Z.ltb_lt, !Z.eqb_eq.
    intros [?|[-> ?]] [?|[-> ?]]; try (left; lia). right. eauto.
Qed.

#[export] Instance str_le_total : Total str_le.
Proof.
  intros a b. unfold str_le. revert b.
  induction a as [|x a IH]; intros [|y b]; simpl; auto.
  rewrite !orb_true_iff, !andb_true_iff, !Z.ltb_lt, !Z.eqb_eq.
  destruct (Z.lt_trichotomy x y) as [?|[->|?]]; auto.
  destruct (IH b); auto.
Qed.

#[export] Instance str_le_antisym : AntiSymm (=) str_le.
Proof.
  intros a b. unfold str_le. revert b.
  induction a as [|x a IH]; intros [|y b]; simpl; try done.
  rewrite !orb_true_iff, !andb_true_iff, !Z.ltb_lt, !Z.eqb_eq.
  intros [?|[-> ?]] [?|[? ?]]; try lia. f_equal. auto.
Qed.

#[export] Hint Resolve seqb_refl trim_idemp : untangled.
#[export] Hint Rewrite seqb_refl seqb_eq seqb_neq : untangled_rw.
