(* ===== verification/JsValue.v ===== *)
(** Values of TypeScript type [unknown]: what JSON, a JWT payload or an
    untyped database column holds, with the number operations the modelled
    code applies to them.  A number is an integer, a fraction, an infinity or
    NaN; fractions are exact rationals, so the rounding of a double is not
    modelled, and neither is the sign of zero. *)
From S2P Require Import Prelude JsString.

Inductive num : Type :=
| NInt (z : Z)
| NFrac (n : Z) (d : positive)      (* n / d, not an integer *)
| NInf (negative : bool)
| NNaN.

Inductive jsval : Type :=
| VUndef
| VNull
| VBool (b : bool)
| VNum (n : num)
| VStr (s : jstr)
| VArr (l : list jsval)
| VObj (fields : list (jstr * jsval)).

#[export] Instance num_eq_dec : EqDecision num.
Proof. solve_decision. Defined.

(** The fraction [n / d] as a number. *)
Definition num_of_fraction (n : Z) (d : positive) : num :=
  if n mod Zpos d =? 0 then NInt (n / Zpos d) else NFrac n d.

(** [Number.isInteger(n)] *)
Definition is_integer (n : num) : bool := match n with NInt _ => true | _ => false end.

(** [Number.isFinite(n)] *)
Definition is_finite (n : num) : bool :=
  match n with NInt _ | NFrac _ _ => true | _ => false end.

(** [a < b]: false when either side is NaN. *)
Definition num_ltb (a b : num) : bool :=
  match a, b with
  | NNaN, _ | _, NNaN => false
  | NInf true, NInf true => false
  | NInf true, _ => true
  | _, NInf true => false
  | NInf false, _ => false
  | _, NInf false => true
  | NInt x, NInt y => x <? y
  | NInt x, NFrac n d => x * Zpos d <? n
  | NFrac n d, NInt y => n <? y * Zpos d
  | NFrac n d, NFrac m e => n * Zpos e <? m * Zpos d
  end.

(** [a + z] for an integer [z]. *)
Definition num_add (a : num) (z : Z) : num :=
  match a with
  | NInt x => NInt (x + z)
  | NFrac n d => NFrac (n + z * Zpos d) d
  | n => n
  end.

(** [a <= b]: false when either side is NaN. *)
Definition num_leb (a b : num) : bool :=
  match a, b with
  | NNaN, _ | _, NNaN => false
  | _, _ => negb (num_ltb b a)
  end.

(** [Math.max(a, b)]: NaN when either side is NaN. *)
Definition num_max (a b : num) : num :=
  match a, b with
  | NNaN, _ | _, NNaN => NNaN
  | _, _ => if num_ltb a b then b else a
  end.

(** [Math.trunc(n)] *)
Definition num_trunc (n : num) : num :=
  match n with
  | NFrac a d => NInt (Z.quot a (Zpos d))
  | _ => n
  end.

(** Property access on a value that is an object; [undefined] when absent. *)
Definition fields_get (k : jstr) (fields : list (jstr * jsval)) : jsval :=
  match find (fun kv => seqb kv.1 k) fields with
  | Some (_, v) => v
  | None => VUndef
  end.

(** Assigning a property: replaces it, or adds it after the others. *)
Definition fields_set (k : jstr) (v : jsval) (fields : list (jstr * jsval)) : list (jstr * jsval) :=
  if existsb (fun kv => seqb kv.1 k) fields
  then map (fun kv => if seqb kv.1 k then (k, v) else kv) fields
  else fields ++ [(k, v)].

Definition vget (v : jsval) (k : jstr) : jsval :=
  match v with VObj fields => fields_get k fields | _ => VUndef end.

(** [typeof v === "string" ? v : undefined] and the like. *)
Definition as_string (v : jsval) : option jstr :=
  match v with VStr s => Some s | _ => None end.

Definition as_number (v : jsval) : option num :=
  match v with VNum n => Some n | _ => None end.

Definition is_true (v : jsval) : bool := match v with VBool true => true | _ => false end.

Definition opt_str (o : option jstr) : jsval :=
  match o with Some s => VStr s | None => VNull end.

(** ** [Number(s)] *)

Definition split_digits (s : jstr) : jstr * jstr := (take_while is_digit s, drop_while is_digit s).

Definition exponent_value (s : jstr) : option Z :=
  let '(neg, ds) := match s with
                    | 45 :: r => (true, r)
                    | 43 :: r => (false, r)
                    | _ => (false, s)
                    end in
  if negb (bool_decide (ds = [])) && forallb is_digit ds
  then Some (if neg then - digits_value ds else digits_value ds)
  else None.

(** [m * 10 ^ e] *)
Definition scale10 (m e : Z) : num :=
  if 0 <=? e then NInt (m * 10 ^ e)
  else num_of_fraction m (Z.to_pos (10 ^ (- e))).

(** An unsigned decimal literal: digits, a fraction, an exponent. *)
Definition decimal_number (s : jstr) : num :=
  let '(ip, r1) := split_digits s in
  let '(fp, r2) := match r1 with 46 :: r => split_digits r | _ => ([], r1) end in
  let e := match r2 with
           | [] => Some 0
           | c :: r => if (c =? 101) || (c =? 69) then exponent_value r else None
           end in
  match e with
  | Some e =>
      if bool_decide (ip ++ fp = []) then NNaN
      else scale10 (digits_value (ip ++ fp)) (e - jlen fp)
  | None => NNaN
  end.

Definition num_opp (n : num) : num :=
  match n with
  | NInt z => NInt (- z)
  | NFrac a d => NFrac (- a) d
  | NInf b => NInf (negb b)
  | NNaN => NNaN
  end.

Definition hex_digit (c : Z) : option Z :=
  if is_digit c then Some (c - 48)
  else if (97 <=? c) && (c <=? 102) then Some (c - 87)
  else if (65 <=? c) && (c <=? 70) then Some (c - 55)
  else None.

(** The digits after [0x], [0o] or [0b]. *)
Definition radix_number (radix : Z) (s : jstr) : num :=
  match s with
  | [] => NNaN
  | _ =>
      let step acc c :=
        match acc, hex_digit c with
        | Some a, Some d => if d <? radix then Some (radix * a + d) else None
        | _, _ => None
        end in
      match fold_left step s (Some 0) with Some z => NInt z | None => NNaN end
  end.

(** [Number(text)] *)
Definition js_number (text : jstr) : num :=
  let s := trim text in
  match s with
  | [] => NInt 0
  | 48 :: c :: r =>
      if (c =? 120) || (c =? 88) then radix_number 16 r
      else if (c =? 111) || (c =? 79) then radix_number 8 r
      else if (c =? 98) || (c =? 66) then radix_number 2 r
      else decimal_number s
  | 45 :: r => if seqb r "Infinity" then NInf true else num_opp (decimal_number r)
  | 43 :: r => if seqb r "Infinity" then NInf false else decimal_number r
  | _ => if seqb s "Infinity" then NInf false else decimal_number s
  end.

(** ** Lemmas *)

Lemma fields_get_set_eq k v fields : fields_get k (fields_set k v fields) = v.
Proof.
  unfold fields_get, fields_set. destruct (existsb _ _) eqn:Hex.
  - induction fields as [|[k' v'] fs IH]; simpl in *; [done|].
    destruct (seqb k' k) eqn:Hk; simpl; [by rewrite seqb_refl|].
    rewrite Hk. by apply IH.
  - induction fields as [|[k' v'] fs IH]; simpl in *; [by rewrite seqb_refl|].
    apply orb_false_iff in Hex as [-> Hex]. by apply IH.
Qed.

Lemma num_ltb_int x y : num_ltb (NInt x) (NInt y) = (x <? y).
Proof. done. Qed.

Lemma take_while_all f s : forallb f s = true -> take_while f s = s.
Proof. induction s as [|c s IH]; simpl; [done|]. intros [-> H]%andb_true_iff. by rewrite IH. Qed.

Lemma drop_while_all f s : forallb f s = true -> drop_while f s = [].
Proof. induction s as [|c s IH]; simpl; [done|]. intros [-> H]%andb_true_iff. by apply IH. Qed.

(** Digits denote the integer they spell. *)
Lemma decimal_number_digits s : s <> [] -> forallb is_digit s = true ->
  decimal_number s = NInt (digits_value s).
Proof.
  intros Hn Hd. unfold decimal_number, split_digits.
  rewrite take_while_all, drop_while_all by done. rewrite app_nil_r.
  rewrite bool_decide_eq_false_2 by done. unfold scale10, jlen. simpl.
  by rewrite Z.mul_1_r.
Qed.

Lemma is_digit_space c : is_digit c = true -> is_space c = false.
Proof.
  unfold is_digit. rewrite andb_true_iff, !Z.leb_le. intros Hc.
  assert (H : forall n, 48 <= Z.of_nat n + 48 <= 57 -> is_space (Z.of_nat n + 48) = false).
  { intros n Hn. do 10 (destruct n as [|n]; [done|]). lia. }
  specialize (H (Z.to_nat (c - 48))). rewrite Z2Nat.id in H by lia.
  rewrite Z.sub_add in H. auto.
Qed.

Lemma trim_digits s : forallb is_digit s = true -> trim s = s.
Proof.
  intros H. apply trim_nospace. rewrite forallb_forall in *. intros c Hc.
  by rewrite is_digit_space by auto.
Qed.

(** [Number] reads back what [String] wrote of an integer. *)
Lemma js_number_num_to_string z : js_number (num_to_string z) = NInt z.
Proof.
  unfold num_to_string. destruct (Z.ltb_spec z 0).
  - assert (Hd : forallb is_digit (digits (- z)) = true) by (apply digits_forallb; lia).
    assert (Ht : trim (45 :: digits (- z)) = 45 :: digits (- z)).
    { apply trim_nospace. simpl. rewrite forallb_forall in *. intros c Hc.
      by rewrite is_digit_space by auto. }
    unfold js_number. rewrite Ht. cbv iota.
    rewrite decimal_number_digits, digits_value_digits by first [done | apply digits_nonnil | lia].
    destruct (digits_head (- z)) as (c & ds & Hh & _); [lia|]. rewrite Hh in *.
    simpl in Hd. apply andb_true_iff in Hd as [Hc _].
    rewrite (proj2 (seqb_neq _ _)); [simpl; f_equal; lia|]. intros [= -> _]. done.
  - assert (Hd : forallb is_digit (digits z) = true) by (by apply digits_forallb).
    pose proof (decimal_number_digits (digits z) (digits_nonnil z) Hd) as Hv.
    rewrite digits_value_digits in Hv by done. unfold js_number. rewrite trim_digits by done.
    destruct (digits_head z) as (c & ds & Hh & Hz); [done|]. rewrite Hh in *.
    simpl in Hd. apply andb_true_iff in Hd as [Hc Hd]. unfold is_digit in Hc.
    rewrite andb_true_iff, !Z.leb_le in Hc.
    assert (Hi : seqb (c :: ds) "Infinity" = false) by (apply seqb_neq; intros [= -> _]; lia).
    rewrite Hi, Hv.
    destruct (decide (c = 48)) as [->|Hc48]; [by destruct Hz as [->|?]|].
    by repeat case_match; simplify_eq.
Qed.
