(* ===== verification/JsText.v ===== *)
(** Text formats of the platform that the HTTP layer reads and writes:
    UTF-8 decoding ([buffer.toString("utf8")]), [JSON.stringify] and
    [JSON.parse] on plain values, and [URLSearchParams]. *)
From S2P Require Import Prelude JsString JsValue.

(** ** UTF-8 *)

(** The code units of a code point. *)
Definition units_of_point (p : Z) : jstr :=
  if p <? 65536 then [p]
  else [55296 + (p - 65536) / 1024; 56320 + (p - 65536) mod 1024].

Definition is_cont (b : Z) : bool := (128 <=? b) && (b <=? 191).

(** The range of the second byte after a lead byte, and how many follow it. *)
Definition lead_info (b : Z) : option (Z * Z * nat) :=
  if (194 <=? b) && (b <=? 223) then Some (128, 191, 1%nat)
  else if b =? 224 then Some (160, 191, 2%nat)
  else if b =? 237 then Some (128, 159, 2%nat)
  else if (225 <=? b) && (b <=? 239) then Some (128, 191, 2%nat)
  else if b =? 240 then Some (144, 191, 3%nat)
  else if (241 <=? b) && (b <=? 243) then Some (128, 191, 3%nat)
  else if b =? 244 then Some (128, 143, 3%nat)
  else None.

Definition lead_bits (b : Z) : Z :=
  if b <? 224 then b - 192 else if b <? 240 then b - 224 else b - 240.

(** The continuation bytes: the code point and the rest, or the bytes left
    after a truncated sequence. *)
Fixpoint utf8_rest (n : nat) (lo hi acc : Z) (bs : list Z) : option Z * list Z :=
  match n with
  | O => (Some acc, bs)
  | S n' =>
      match bs with
      | b :: bs' =>
          if (lo <=? b) && (b <=? hi) then utf8_rest n' 128 191 (acc * 64 + (b - 128)) bs'
          else (None, bs)
      | [] => (None, [])
      end
  end.

(** Each ill-formed sequence gives one U+FFFD.  Every round consumes a byte,
    so the length is fuel enough. *)
Fixpoint utf8_decode_fuel (fuel : nat) (bs : list Z) : jstr :=
  match fuel with
  | O => []
  | S f =>
      match bs with
      | [] => []
      | b :: bs' =>
          if b <? 128 then b :: utf8_decode_fuel f bs'
          else match lead_info b with
               | None => 65533 :: utf8_decode_fuel f bs'
               | Some (lo, hi, n) =>
                   match utf8_rest n lo hi (lead_bits b) bs' with
                   | (Some p, rest) => units_of_point p ++ utf8_decode_fuel f rest
                   | (None, rest) => 65533 :: utf8_decode_fuel f rest
                   end
               end
      end
  end.

Definition utf8_decode (bs : list Z) : jstr := utf8_decode_fuel (length bs) bs.

(** ** JSON.stringify *)

Definition hex4 (c : Z) : jstr :=
  let h d := if d <? 10 then 48 + d else 87 + d in
  [h (c / 4096 mod 16); h (c / 256 mod 16); h (c / 16 mod 16); h (c mod 16)].

(** One unit of a string literal that is not a surrogate. *)
Definition json_unit (c : Z) : jstr :=
  if c =? 34 then [92; 34]
  else if c =? 92 then [92; 92]
  else if c =? 8 then [92; 98]
  else if c =? 12 then [92; 102]
  else if c =? 10 then [92; 110]
  else if c =? 13 then [92; 114]
  else if c =? 9 then [92; 116]
  else if c <? 32 then [92; 117] ++ hex4 c
  else [c].

(** A string literal's inside; a surrogate without its pair is escaped. *)
Fixpoint json_units (s : jstr) : jstr :=
  match s with
  | [] => []
  | c :: s' =>
      if is_high_surrogate c then
        match s' with
        | d :: s'' => if is_low_surrogate d then c :: d :: json_units s''
                      else [92; 117] ++ hex4 c ++ json_units s'
        | [] => [92; 117] ++ hex4 c
        end
      else if is_low_surrogate c then [92; 117] ++ hex4 c ++ json_units s'
      else json_unit c ++ json_units s'
  end.

Definition json_string (s : jstr) : jstr := [34] ++ json_units s ++ [34].

(** The least number of decimals, up to a bound, that writes [a / d] exactly. *)
Fixpoint decimals (fuel : nat) (k : nat) (a : Z) (d : positive) : option nat :=
  if (a * 10 ^ Z.of_nat k) mod Zpos d =? 0 then Some k
  else match fuel with O => None | S f => decimals f (S k) a d end.

(** [String(n)] of a positive fraction with a finite decimal expansion, which
    every double has: plain decimals from a millionth on, an exponent below.
    A quotient with no such expansion is no double, and prints as such. *)
Definition fraction_text (a : Z) (d : positive) : jstr :=
  match decimals (Pos.size_nat d) 0 a d with
  | None => num_to_string a ++ u "/" ++ num_to_string (Zpos d)
  | Some k =>
      let ds := digits (a * 10 ^ Z.of_nat k / Zpos d) in
      if Zpos d <=? a * 1000000 then
        let ds := repeat 48 (S k - length ds) ++ ds in
        take (length ds - k) ds ++ (if (k =? 0)%nat then [] else 46 :: drop (length ds - k) ds)
      else
        match ds with
        | [] => []
        | c :: rest =>
            c :: (if bool_decide (rest = []) then [] else 46 :: rest) ++ u "e-" ++
            digits (Z.of_nat k - Z.of_nat (length rest))
        end
  end.

(** [String(n)] *)
Definition num_text (n : num) : jstr :=
  match n with
  | NInt z => num_to_string z
  | NFrac a d => if a <? 0 then 45 :: fraction_text (- a) d else fraction_text a d
  | NInf negative => if negative then u "-Infinity" else u "Infinity"
  | NNaN => u "NaN"
  end.

Definition json_num (n : num) : jstr :=
  match n with
  | NInt _ | NFrac _ _ => num_text n
  | _ => u "null"
  end.

Example num_text_fractions :
  map num_text [NFrac 3 2; NFrac (-1) 8; NFrac 1 1000; NFrac 1 1000000; NFrac 15 100000000]
  = [u "1.5"; u "-0.125"; u "0.001"; u "0.000001"; u "1.5e-7"].
Proof. vm_compute. reflexivity. Qed.

(** [JSON.stringify]: undefined members are left out, undefined elements are
    null. *)
Fixpoint json_stringify (v : jsval) : option jstr :=
  match v with
  | VUndef => None
  | VNull => Some (u "null")
  | VBool b => Some (if b then u "true" else u "false")
  | VNum n => Some (json_num n)
  | VStr s => Some (json_string s)
  | VArr l =>
      Some ([91] ++ join [44] (map (fun x => match json_stringify x with Some t => t | None => u "null" end) l)
                 ++ [93])
  | VObj fields =>
      Some ([123] ++
            join [44] (omap (fun kv => match json_stringify kv.2 with
                                       | Some t => Some (json_string kv.1 ++ [58] ++ t)
                                       | None => None
                                       end) fields)
            ++ [125])
  end.

(** ** JSON.parse *)

Definition json_space (c : Z) : bool := (c =? 32) || (c =? 9) || (c =? 10) || (c =? 13).

Definition skip_ws (s : jstr) : jstr := drop_while json_space s.

Definition hex_value (s : jstr) : option Z :=
  fold_left (fun acc c => match acc, hex_digit c with
                          | Some a, Some d => Some (16 * a + d)
                          | _, _ => None
                          end) s (Some 0).

(** What a one-letter escape stands for. *)
Definition json_escape (c : Z) : option Z :=
  if (c =? 34) || (c =? 92) || (c =? 47) then Some c
  else if c =? 98 then Some 8
  else if c =? 102 then Some 12
  else if c =? 110 then Some 10
  else if c =? 114 then Some 13
  else if c =? 116 then Some 9
  else None.

(** The inside of a string literal up to its closing quote. *)
Fixpoint json_parse_units (fuel : nat) (s : jstr) : option (jstr * jstr) :=
  match fuel, s with
  | S f, c :: rest =>
      let more c rest := match json_parse_units f rest with
                         | Some (t, r) => Some (c :: t, r)
                         | None => None
                         end in
      if c =? 34 then Some ([], rest)
      else if c =? 92 then
        match rest with
        | e :: rest' =>
            if e =? 117 then
              match rest' with
              | h1 :: h2 :: h3 :: h4 :: rest'' =>
                  match hex_value [h1; h2; h3; h4] with Some v => more v rest'' | None => None end
              | _ => None
              end
            else match json_escape e with Some v => more v rest' | None => None end
        | [] => None
        end
      else if c <? 32 then None
      else more c rest
  | _, _ => None
  end.

(** The parts of a number: its sign, its fraction and its exponent, each with
    the text after it. *)
Definition json_sign (s : jstr) : jstr * jstr :=
  match s with c :: r => if c =? 45 then ([45], r) else ([], s) | [] => ([], s) end.

Definition json_fraction (s : jstr) : option (jstr * jstr) :=
  match s with
  | c :: r =>
      if c =? 46 then
        let '(ds, r') := split_digits r in
        if bool_decide (ds = []) then None else Some (46 :: ds, r')
      else Some ([], s)
  | [] => Some ([], s)
  end.

Definition json_exponent (s : jstr) : option (jstr * jstr) :=
  match s with
  | e :: r =>
      if (e =? 101) || (e =? 69) then
        let '(es, r1) := match r with
                         | c :: r1 => if (c =? 43) || (c =? 45) then ([c], r1) else ([], r)
                         | [] => ([], r)
                         end in
        let '(ds, r2) := split_digits r1 in
        if bool_decide (ds = []) then None else Some (e :: es ++ ds, r2)
      else Some ([], s)
  | [] => Some ([], s)
  end.

(** No leading zeros. *)
Definition json_int_ok (ip : jstr) : bool :=
  match ip with [] => false | [_] => true | c :: _ => negb (c =? 48) end.

(** The longest prefix that is a JSON number. *)
Definition json_number_prefix (s : jstr) : option (jstr * jstr) :=
  let '(sign, s1) := json_sign s in
  let '(ip, s2) := split_digits s1 in
  if negb (json_int_ok ip) then None
  else match json_fraction s2 with
       | None => None
       | Some (fp, s3) =>
           match json_exponent s3 with
           | None => None
           | Some (ep, s4) => Some (sign ++ ip ++ fp ++ ep, s4)
           end
       end.

(** What follows an array's element or an object's member: a comma, the
    closing bracket [close], or a syntax error. *)
Inductive after_item := Another (rest : jstr) | Closed (rest : jstr) | Malformed.

Definition json_after (close : Z) (s : jstr) : after_item :=
  match skip_ws s with
  | c :: r => if c =? 44 then Another r else if c =? close then Closed r else Malformed
  | [] => Malformed
  end.

(** A string literal with its opening quote. *)
Definition json_literal (s : jstr) : option (jstr * jstr) :=
  match s with
  | c :: r => if c =? 34 then json_parse_units (S (length r)) r else None
  | [] => None
  end.

(** A member's name and its colon. *)
Definition json_name (s : jstr) : option (jstr * jstr) :=
  match json_literal (skip_ws s) with
  | Some (k, r) =>
      match skip_ws r with
      | c :: r' => if c =? 58 then Some (k, r') else None
      | [] => None
      end
  | None => None
  end.

(** The literal names and numbers. *)
Definition json_scalar (t : jstr) : option (jsval * jstr) :=
  if starts_with (u "null") t then Some (VNull, slice_from t 4)
  else if starts_with (u "true") t then Some (VBool true, slice_from t 4)
  else if starts_with (u "false") t then Some (VBool false, slice_from t 5)
  else match json_number_prefix t with
       | Some (lexeme, r) => Some (VNum (js_number lexeme), r)
       | None => None
       end.

(** A value, an array's remaining elements and an object's remaining members,
    with the text after them; each call consumes a unit or ends, so twice the
    length is fuel enough. *)
Fixpoint json_value (fuel : nat) (s : jstr) : option (jsval * jstr) :=
  match fuel with
  | O => None
  | S f =>
      match skip_ws s with
      | [] => None
      | c :: r =>
          if c =? 34 then
            match json_literal (c :: r) with Some (t, r') => Some (VStr t, r') | None => None end
          else if c =? 91 then
            match json_after 93 r with
            | Closed r' => Some (VArr [], r')
            | _ => match json_elements f r with
                   | Some (l, r'') => Some (VArr l, r'')
                   | None => None
                   end
            end
          else if c =? 123 then
            match json_after 125 r with
            | Closed r' => Some (VObj [], r')
            | _ => match json_members f [] r with
                   | Some (l, r'') => Some (VObj l, r'')
                   | None => None
                   end
            end
          else json_scalar (c :: r)
      end
  end
with json_elements (fuel : nat) (s : jstr) : option (list jsval * jstr) :=
  match fuel with
  | O => None
  | S f =>
      match json_value f s with
      | None => None
      | Some (v, r) =>
          match json_after 93 r with
          | Another r' =>
              match json_elements f r' with Some (l, r'') => Some (v :: l, r'') | None => None end
          | Closed r' => Some ([v], r')
          | Malformed => None
          end
      end
  end
with json_members (fuel : nat) (seen : list (jstr * jsval)) (s : jstr)
    : option (list (jstr * jsval) * jstr) :=
  match fuel with
  | O => None
  | S f =>
      match json_name s with
      | None => None
      | Some (k, r) =>
          match json_value f r with
          | None => None
          | Some (v, r') =>
              let seen' := fields_set k v seen in
              match json_after 125 r' with
              | Another r'' => json_members f seen' r''
              | Closed r'' => Some (seen', r'')
              | Malformed => None
              end
          end
      end
  end.

(** [JSON.parse(text)]; [None] is a [SyntaxError]. *)
Definition json_parse (text : jstr) : option jsval :=
  match json_value (2 * length text + 2) text with
  | Some (v, r) => if seqb (skip_ws r) [] then Some v else None
  | None => None
  end.

(** ** URLSearchParams *)

(** Percent decoding of bytes, [+] being a space. *)
Fixpoint percent_decode (bs : list Z) : list Z :=
  match bs with
  | 37 :: ((a :: b :: rest) as tail) =>
      match hex_digit a, hex_digit b with
      | Some x, Some y => (16 * x + y) :: percent_decode rest
      | _, _ => 37 :: percent_decode tail
      end
  | 43 :: rest => 32 :: percent_decode rest
  | b :: rest => b :: percent_decode rest
  | [] => []
  end.

(** [new URLSearchParams(text)]: the pairs in order (a leading [?] is
    dropped). *)
Definition url_search_params (text : jstr) : list (jstr * jstr) :=
  let text := match text with 63 :: r => r | _ => text end in
  let decode s := utf8_decode (percent_decode (utf8_bytes s)) in
  omap (fun part =>
          if seqb part [] then None
          else match index_of 61 part with
               | Some i => Some (decode (firstn i part), decode (skipn (S i) part))
               | None => Some (decode part, [])
               end) (split_on 38 text).

(** [Object.fromEntries(pairs)] *)
Definition object_from_entries (pairs : list (jstr * jstr)) : jsval :=
  VObj (fold_left (fun fields kv => fields_set kv.1 (VStr kv.2) fields) pairs []).

(** ** Examples *)

Definition sample_json : jstr := u "{'csrf_token': 'a\u0062c', 'n': [1, -2.5e1, true, null]}".

(** JSON text with the quotes written as apostrophes. *)
Definition quoted (s : jstr) : jstr := map (fun c => if c =? 39 then 34 else c) s.

Example json_parse_sample :
  json_parse (quoted sample_json) =
  Some (VObj [(u "csrf_token", VStr (u "abc"));
              (u "n", VArr [VNum (NInt 1); VNum (NInt (-25)); VBool true; VNull])]).
Proof. vm_compute. reflexivity. Qed.

Example json_stringify_sample :
  json_stringify (VObj [(u "ok", VBool true); (u "detail", VStr [34; 10; 55296])]) =
  Some (quoted (u "{'ok':true,'detail':'\") ++ [34; 92; 110; 92; 117] ++ u "d800" ++ [34; 125]).
Proof. vm_compute. reflexivity. Qed.

Example url_search_params_sample :
  url_search_params (u "username=al%69ce&x&password=a+b%C3%A9") =
  [(u "username", u "alice"); (u "x", []); (u "password", [97; 32; 98; 233])].
Proof. vm_compute. reflexivity. Qed.

(** ** JSON round trip *)

Definition units_ok (s : jstr) : bool := forallb (fun c => (0 <=? c) && (c <? 65536)) s.

(** The values that JSON carries exactly: no [undefined], numbers that are
    safe integers, strings of 16-bit units, objects without repeated names. *)
Fixpoint json_ok (v : jsval) : bool :=
  match v with
  | VUndef => false
  | VNull | VBool _ => true
  | VNum n => match n with NInt z => Z.abs z <=? 2 ^ 53 - 1 | _ => false end
  | VStr s => units_ok s
  | VArr l => forallb json_ok l
  | VObj fields =>
      bool_decide (NoDup (map fst fields)) &&
      forallb (fun kv => units_ok kv.1 && json_ok kv.2) fields
  end.

Definition jsval_rect' (P : jsval -> Prop)
    (Hu : P VUndef) (Hnull : P VNull) (Hb : forall b, P (VBool b)) (Hn : forall n, P (VNum n))
    (Hs : forall s, P (VStr s)) (Ha : forall l, Forall P l -> P (VArr l))
    (Ho : forall fields, Forall (fun kv => P kv.2) fields -> P (VObj fields))
    : forall v, P v :=
  fix go v :=
    match v with
    | VUndef => Hu
    | VNull => Hnull
    | VBool b => Hb b
    | VNum n => Hn n
    | VStr s => Hs s
    | VArr l => Ha l ((fix all l : Forall P l :=
                         match l with [] => Forall_nil_2 _ | x :: r => Forall_cons_2 _ _ _ (go x) (all r) end) l)
    | VObj fs => Ho fs ((fix all l : Forall (fun kv => P kv.2) l :=
                         match l with [] => Forall_nil_2 _ | x :: r => Forall_cons_2 _ _ _ (go x.2) (all r) end) fs)
    end.

Lemma hex_digit_of d : 0 <= d < 16 ->
  hex_digit (if d <? 10 then 48 + d else 87 + d) = Some d.
Proof.
  intros Hd. unfold hex_digit, is_digit. destruct (Z.ltb_spec d 10).
  - rewrite !(proj2 (Z.leb_le _ _)) by lia. simpl. f_equal. lia.
  - rewrite (proj2 (Z.leb_gt (87 + d) 57)) by lia. rewrite andb_false_r.
    rewrite !(proj2 (Z.leb_le _ _)) by lia. simpl. f_equal. lia.
Qed.

Lemma hex_value_hex4 c : 0 <= c < 65536 -> hex_value (hex4 c) = Some c.
Proof.
  intros Hc. unfold hex_value, hex4. cbn [fold_left].
  rewrite !hex_digit_of by (apply Z.mod_pos_bound; lia). f_equal.
  Z.to_euclidean_division_equations. lia.
Qed.

(** A unit put before what the rest of a literal gives. *)
Definition cons_unit (c : Z) (o : option (jstr * jstr)) : option (jstr * jstr) :=
  match o with Some (t, r) => Some (c :: t, r) | None => None end.

Lemma parse_plain f c rest : 32 <= c -> c <> 34 -> c <> 92 ->
  json_parse_units (S f) (c :: rest) = cons_unit c (json_parse_units f rest).
Proof.
  intros H1 H2 H3. cbn [json_parse_units].
  rewrite (proj2 (Z.eqb_neq _ _) H2), (proj2 (Z.eqb_neq _ _) H3), (proj2 (Z.ltb_ge _ _) H1). done.
Qed.

Lemma parse_hex4 f c rest : 0 <= c < 65536 ->
  json_parse_units (S f) ([92; 117] ++ hex4 c ++ rest) = cons_unit c (json_parse_units f rest).
Proof.
  intros Hc. pose proof (hex_value_hex4 c Hc) as H. unfold hex4 in *. simpl app.
  cbn [json_parse_units]. simpl Z.eqb. cbv iota. by rewrite H.
Qed.

Lemma parse_unit f c rest : 0 <= c < 65536 ->
  json_parse_units (S f) (json_unit c ++ rest) = cons_unit c (json_parse_units f rest).
Proof.
  intros Hc. unfold json_unit.
  repeat (match goal with |- context [c =? ?k] => destruct (Z.eqb_spec c k) as [->|?] end;
          [reflexivity|]).
  destruct (Z.ltb_spec c 32); [rewrite <- app_assoc; by apply parse_hex4|]. by apply parse_plain.
Qed.

Lemma units_ok_cons c s : units_ok (c :: s) = true -> 0 <= c < 65536 /\ units_ok s = true.
Proof. unfold units_ok. simpl. rewrite !andb_true_iff, Z.leb_le, Z.ltb_lt. tauto. Qed.

Lemma json_parse_units_units s : units_ok s = true ->
  forall f r, (length s < f)%nat -> json_parse_units f (json_units s ++ 34 :: r) = Some (s, r).
Proof.
  induction s as [s IH] using (induction_ltof1 _ (@length Z)). unfold ltof in IH.
  intros Hok f r Hf. destruct f as [|f]; [lia|]. destruct s as [|c s]; [done|].
  apply units_ok_cons in Hok as [Hc Hok]. simpl in Hf.
  assert (Hs : cons_unit c (json_parse_units f (json_units s ++ 34 :: r)) = Some (c :: s, r)).
  { rewrite IH; [done|simpl; lia|done|lia]. }
  cbn [json_units]. destruct (is_high_surrogate c) eqn:Hhi; [|destruct (is_low_surrogate c)].
  - destruct s as [|d s']; [rewrite <- app_assoc; by rewrite parse_hex4|].
    destruct (is_low_surrogate d) eqn:Hlo; [|rewrite <- !app_assoc; by rewrite parse_hex4].
    unfold is_high_surrogate, is_low_surrogate in Hhi, Hlo. rewrite andb_true_iff, !Z.leb_le in *.
    simpl app. rewrite parse_plain by lia. destruct f as [|f]; [simpl in Hf; lia|].
    rewrite parse_plain by lia. rewrite IH; [done|simpl; lia| |simpl in Hf; lia].
    by apply units_ok_cons in Hok as [_ ?].
  - rewrite <- !app_assoc. by rewrite parse_hex4.
  - rewrite <- app_assoc. by rewrite parse_unit.
Qed.

Lemma json_unit_length c : (1 <= length (json_unit c))%nat.
Proof. unfold json_unit. repeat case_match; simpl; lia. Qed.

Lemma json_units_length s : (length s <= length (json_units s))%nat.
Proof.
  induction s as [s IH] using (induction_ltof1 _ (@length Z)). unfold ltof in IH.
  destruct s as [|c s]; [simpl; lia|]. pose proof (json_unit_length c).
  pose proof (IH s ltac:(simpl; lia)). cbn [json_units].
  destruct (is_high_surrogate c); [destruct s as [|d s']; [simpl; lia|destruct (is_low_surrogate d)]
    |destruct (is_low_surrogate c)]; rewrite ?length_app; simpl in *; try lia.
  pose proof (IH s' ltac:(lia)). lia.
Qed.

Lemma json_literal_string s r : units_ok s = true ->
  json_literal (json_string s ++ r) = Some (s, r).
Proof.
  intros Hs. unfold json_string, json_literal. simpl app. simpl Z.eqb. cbv iota.
  rewrite <- app_assoc. simpl app. apply json_parse_units_units; [done|].
  rewrite length_app. pose proof (json_units_length s). simpl. lia.
Qed.

(** *** Numbers *)

(** What may follow a value inside a JSON text that [JSON.stringify] wrote. *)
Definition closes (r : jstr) : bool :=
  match r with [] => true | c :: _ => (c =? 44) || (c =? 93) || (c =? 125) end.

Lemma split_digits_app ds r : forallb is_digit ds = true -> closes r = true ->
  split_digits (ds ++ r) = (ds, r).
Proof.
  intros Hd Hr. unfold split_digits. induction ds as [|c ds IH]; simpl in *.
  - destruct r as [|c r]; [done|]. simpl in *.
    rewrite !orb_true_iff, !Z.eqb_eq in Hr. by destruct Hr as [[->| ->]| ->].
  - apply andb_true_iff in Hd as [-> Hd]. specialize (IH Hd). injection IH as -> ->. done.
Qed.

Lemma closes_number_end r : closes r = true ->
  json_fraction r = Some ([], r) /\ json_exponent r = Some ([], r).
Proof.
  destruct r as [|c r]; [done|]. simpl. rewrite !orb_true_iff, !Z.eqb_eq.
  by intros [[->| ->]| ->].
Qed.

Lemma json_number_prefix_num z r : closes r = true ->
  json_number_prefix (num_to_string z ++ r) = Some (num_to_string z, r).
Proof.
  intros Hr.
  assert (Hd : forall n, 0 <= n -> json_sign (digits n ++ r) = ([], digits n ++ r) /\
    split_digits (digits n ++ r) = (digits n, r) /\ json_int_ok (digits n) = true).
  { intros n Hn. pose proof (digits_forallb n Hn) as Hd.
    destruct (digits_head n Hn) as (c & ds & Hh & Hz). rewrite Hh in *.
    split; [|split; [by apply split_digits_app|]].
    - simpl in *. destruct (Z.eqb_spec c 45) as [->|?]; done.
    - destruct ds; [done|]. destruct Hz as [?|Hz]; [done|]. by apply negb_true_iff, Z.eqb_neq. }
  destruct (closes_number_end r Hr) as [Hf He].
  unfold num_to_string, json_number_prefix. destruct (Z.ltb_spec z 0).
  - destruct (Hd (- z)) as (_ & Hs & Hok); [lia|].
    change (json_sign ((45 :: digits (- z)) ++ r)) with ([45] : jstr, digits (- z) ++ r).
    cbv beta iota. by rewrite Hs, Hok, Hf, He, !app_nil_r.
  - destruct (Hd z) as (Hg & Hs & Hok); [lia|]. by rewrite Hg, Hs, Hok, Hf, He, !app_nil_r.
Qed.

(** *** Values *)

Lemma skip_ws_head c s : json_space c = false -> skip_ws (c :: s) = c :: s.
Proof. intros H. unfold skip_ws. simpl. by rewrite H. Qed.

Lemma json_after_item close s : close <> 44 -> json_space close = false ->
  json_after close (44 :: s) = Another s /\ json_after close (close :: s) = Closed s.
Proof.
  intros Hc Hs. unfold json_after. rewrite !skip_ws_head by done.
  by rewrite !Z.eqb_refl, (proj2 (Z.eqb_neq _ _) Hc).
Qed.

(** What is written of a value that JSON carries. *)
Definition json_text (v : jsval) : jstr :=
  match json_stringify v with Some t => t | None => [] end.

Definition member_text (kv : jstr * jsval) : jstr := json_string kv.1 ++ [58] ++ json_text kv.2.

Lemma json_stringify_ok v : json_ok v = true -> json_stringify v = Some (json_text v).
Proof. destruct v; [done|..]; reflexivity. Qed.

Lemma json_text_arr l : forallb json_ok l = true ->
  json_text (VArr l) = [91] ++ join [44] (map json_text l) ++ [93].
Proof.
  intros H. unfold json_text at 1. simpl json_stringify. do 3 f_equal.
  apply map_ext_in. intros v Hv. rewrite forallb_forall in H.
  by rewrite json_stringify_ok by auto.
Qed.

Lemma json_text_obj fields : forallb (fun kv => json_ok kv.2) fields = true ->
  json_text (VObj fields) = [123] ++ join [44] (map member_text fields) ++ [125].
Proof.
  intros H. unfold json_text at 1. cbn [json_stringify]. do 3 f_equal.
  induction fields as [|[k v] fields IH]; [done|]. cbn [forallb snd] in H.
  apply andb_true_iff in H as [Hv H]. specialize (IH H).
  change (omap ?g ((k, v) :: fields)) with
    (match g (k, v) with Some y => y :: omap g fields | None => omap g fields end).
  cbn [snd fst]. rewrite json_stringify_ok by done. by rewrite IH.
Qed.

Lemma join_cons sep p ps : ps <> [] -> join sep (p :: ps) = p ++ sep ++ join sep ps.
Proof. by destruct ps. Qed.

(** The text of a value starts with no white space and is read back with
    twice its length as fuel. *)
Definition reads (v : jsval) : Prop :=
  json_ok v = true -> forall f r, (2 * length (json_text v) < f)%nat -> closes r = true ->
    json_value f (json_text v ++ r) = Some (v, r).

Lemma json_elements_read l : l <> [] -> Forall reads l -> forallb json_ok l = true ->
  forall f r, (2 * length (join [44%Z] (map json_text l)) + 1 < f)%nat ->
    json_elements f (join [44] (map json_text l) ++ 93 :: r) = Some (l, r).
Proof.
  intros Hne Hr Hok. induction Hr as [|v l Hv Hl IH]; [done|]. intros f r Hf.
  destruct f as [|f]; [lia|]. simpl in Hok. apply andb_true_iff in Hok as [Hv1 Hl1].
  destruct (decide (l = [])) as [->|Hl0].
  - simpl in *. rewrite Hv by first [done | lia].
    by rewrite (proj2 (json_after_item 93 r ltac:(done) ltac:(done))).
  - cbn [map] in *. rewrite join_cons in * by (by destruct l).
    rewrite !length_app in Hf. simpl in Hf. rewrite <- !app_assoc. cbn [json_elements].
    rewrite Hv by first [done | lia]. simpl app.
    rewrite (proj1 (json_after_item 93 _ ltac:(done) ltac:(done))).
    rewrite IH; [done|done|done|lia].
Qed.

Lemma json_name_string k r : units_ok k = true -> json_name (json_string k ++ [58] ++ r) = Some (k, r).
Proof.
  intros Hk. unfold json_name.
  change (skip_ws (json_string k ++ [58] ++ r)) with (json_string k ++ [58] ++ r).
  by rewrite json_literal_string.
Qed.

Lemma fields_set_new k v fields : k ∉ map fst fields -> fields_set k v fields = fields ++ [(k, v)].
Proof.
  intros Hk. unfold fields_set.
  assert (existsb (fun kv => seqb kv.1 k) fields = false) as ->; [|done].
  apply not_true_iff_false. rewrite existsb_exists. intros ([k' v'] & Hin & Hs%seqb_eq). simpl in Hs. subst k'.
  apply Hk. apply list_elem_of_In, in_map_iff. by exists (k, v').
Qed.

Lemma json_members_read fields : fields <> [] -> Forall (fun kv => reads kv.2) fields ->
  forallb (fun kv => units_ok kv.1 && json_ok kv.2) fields = true ->
  forall seen f r, NoDup (map fst (seen ++ fields)) ->
    (2 * length (join [44%Z] (map member_text fields)) + 1 < f)%nat ->
    json_members f seen (join [44] (map member_text fields) ++ 125 :: r) = Some (seen ++ fields, r).
Proof.
  intros Hne Hr Hok. induction Hr as [|[k v] fields Hv Hl IH]; [done|]. intros seen f r Hnd Hf.
  cbn [snd] in Hv.
  destruct f as [|f]; [lia|]. simpl in Hok. apply andb_true_iff in Hok as [[Hk Hv1]%andb_true_iff Hl1].
  assert (Hk' : k ∉ map fst seen).
  { rewrite map_app in Hnd. simpl in Hnd. apply NoDup_app in Hnd as (_ & Hnd & _).
    intros Hin. apply (Hnd k Hin). by left. }
  destruct (decide (fields = [])) as [->|Hl0].
  - cbn [map join json_members] in *. unfold member_text in *. cbn [fst snd] in *.
    rewrite !length_app in Hf. simpl in Hf. rewrite <- !app_assoc, json_name_string by done.
    rewrite Hv by first [done | lia].
    by rewrite (proj2 (json_after_item 125 r ltac:(done) ltac:(done))), fields_set_new.
  - cbn [map] in *. rewrite join_cons in * by (by destruct fields).
    unfold member_text at 1 in Hf. rewrite !length_app in Hf. simpl in Hf. cbn [json_members].
    unfold member_text at 1. simpl fst. simpl snd. rewrite <- !app_assoc, json_name_string by done.
    rewrite Hv by first [done | lia]. simpl app.
    rewrite (proj1 (json_after_item 125 _ ltac:(done) ltac:(done))), fields_set_new by done.
    rewrite IH; [by rewrite <- app_assoc|done|done|by rewrite <- app_assoc|lia].
Qed.

Lemma num_to_string_head z : exists c s, num_to_string z = c :: s /\ (c = 45 \/ 48 <= c <= 57).
Proof.
  unfold num_to_string. destruct (Z.ltb_spec z 0); [by repeat eexists; auto|].
  destruct (digits_head z) as (c & ds & Hh & _); [done|].
  pose proof (digits_forallb z ltac:(done)) as Hd. rewrite Hh in *. simpl in Hd.
  apply andb_true_iff in Hd as [Hc _]. unfold is_digit in Hc.
  rewrite andb_true_iff, !Z.leb_le in Hc. exists c, ds. auto.
Qed.

Lemma json_text_head v : json_ok v = true ->
  exists c t, json_text v = c :: t /\ json_space c = false /\ c <> 44 /\ c <> 93.
Proof.
  destruct v as [| |[]|[z| | |]|s|l|fields]; intros Hok; try done; try (by repeat eexists).
  unfold json_text. simpl. destruct (num_to_string_head z) as (c & t & -> & Hc).
  exists c, t. split; [done|]. unfold json_space. rewrite !orb_false_iff, !Z.eqb_neq. lia.
Qed.

Lemma json_list_head l : l <> [] -> forallb json_ok l = true ->
  exists c t, join [44] (map json_text l) = c :: t /\ json_space c = false /\ c <> 44 /\ c <> 93.
Proof.
  destruct l as [|v l]; [done|]. intros _ Hok. simpl in Hok. apply andb_true_iff in Hok as [Hv _].
  destruct (json_text_head v Hv) as (c & t & Ht & H). cbn [map join]. rewrite Ht.
  by destruct (map json_text l); repeat eexists; try apply H.
Qed.

Lemma member_list_head fields : fields <> [] ->
  exists c t, join [44] (map member_text fields) = c :: t /\ json_space c = false /\ c <> 44 /\ c <> 125.
Proof.
  destruct fields as [|[k v] fields]; [done|]. intros _. exists 34. cbn [map join].
  destruct (map member_text fields); by eexists.
Qed.

Lemma members_values_ok (fields : list (jstr * jsval)) :
  forallb (fun kv => units_ok kv.1 && json_ok kv.2) fields = true ->
  forallb (fun kv => json_ok kv.2) fields = true.
Proof.
  rewrite !forallb_forall. intros H kv Hin. specialize (H kv Hin). by apply andb_true_iff in H as [_ ?].
Qed.

Lemma json_scalar_num z r : closes r = true ->
  json_scalar (num_to_string z ++ r) = Some (VNum (NInt z), r).
Proof.
  intros Hr.
  unfold json_scalar. rewrite json_number_prefix_num, js_number_num_to_string by done.
  destruct (num_to_string_head z) as (c & s & -> & Hc). simpl app.
  change (u "null") with [110; 117; 108; 108]. change (u "true") with [116; 114; 117; 101].
  change (u "false") with [102; 97; 108; 115; 101]. cbn [starts_with].
  by rewrite !(proj2 (Z.eqb_neq _ _)) by lia.
Qed.

(** The parser's choice for a text that starts with [c]. *)
Lemma json_value_scalar f c t r : json_space c = false -> c <> 34 -> c <> 91 -> c <> 123 ->
  json_scalar (c :: t) = Some r -> json_value (S f) (c :: t) = Some r.
Proof.
  intros Hs H1 H2 H3 H. cbn [json_value]. rewrite skip_ws_head by done.
  by rewrite (proj2 (Z.eqb_neq c 34)), (proj2 (Z.eqb_neq c 91)), (proj2 (Z.eqb_neq c 123)).
Qed.

Lemma json_value_num z f r : closes r = true ->
  json_value (S f) (num_to_string z ++ r) = Some (VNum (NInt z), r).
Proof.
  intros Hr. pose proof (json_scalar_num z r Hr) as Hz.
  destruct (num_to_string_head z) as (c & t & Ht & Hc). rewrite Ht in *.
  apply json_value_scalar; [|lia..|done]. unfold json_space. rewrite !orb_false_iff, !Z.eqb_neq. lia.
Qed.

(** A non-empty list does not look like an empty one to the parser. *)
Lemma json_after_open close t r :
  (exists c t', t = c :: t' /\ json_space c = false /\ c <> 44 /\ c <> close) ->
  json_after close (t ++ r) = Malformed.
Proof.
  intros (c & t' & -> & Hs & H1 & H2). unfold json_after. simpl app. rewrite skip_ws_head by done.
  by rewrite (proj2 (Z.eqb_neq _ _) H1), (proj2 (Z.eqb_neq _ _) H2).
Qed.

Lemma json_value_reads v : reads v.
Proof.
  induction v as [| |[]|n|s|l IH|fields IH] using jsval_rect'; intros Hok f r Hf Hr;
    (destruct f as [|f]; [lia|]); try done.
  - destruct n as [z| | |]; try done. by apply json_value_num.
  - change (json_text (VStr s)) with (json_string s). cbn [json_value].
    pose proof (json_literal_string s r Hok) as Hl. simpl app in *. rewrite skip_ws_head by done.
    simpl Z.eqb. cbv iota. by rewrite Hl.
  - cbn [json_ok] in Hok. rewrite json_text_arr in * by done.
    rewrite !length_app in Hf. simpl in Hf. simpl app. cbn [json_value].
    rewrite skip_ws_head by done. simpl Z.eqb. cbv iota. rewrite <- app_assoc.
    destruct (decide (l = [])) as [->|Hl]; [done|].
    rewrite json_after_open; [|by apply json_list_head].
    simpl app. rewrite json_elements_read; [done..|lia].
  - cbn [json_ok] in Hok. apply andb_true_iff in Hok as [Hnd%bool_decide_eq_true Hok].
    rewrite json_text_obj in * by (by apply members_values_ok).
    rewrite !length_app in Hf. simpl in Hf. simpl app. cbn [json_value].
    rewrite skip_ws_head by done. simpl Z.eqb. cbv iota. rewrite <- app_assoc.
    destruct (decide (fields = [])) as [->|Hl]; [done|].
    rewrite json_after_open; [|by apply member_list_head].
    simpl app. rewrite json_members_read; [done..|lia].
Qed.

Lemma json_parse_text v : json_ok v = true -> json_parse (json_text v) = Some v.
Proof.
  intros Hok. unfold json_parse.
  pose proof (json_value_reads v Hok (2 * length (json_text v) + 2)%nat [] ltac:(lia) eq_refl) as H.
  rewrite app_nil_r in H. by rewrite H.
Qed.

(** [JSON.parse] gives back every value that [JSON.stringify]
    wrote, for values without [undefined], non-integers and repeated names:
    quotes, control characters, unpaired surrogates and nesting included. *)
Theorem json_roundtrip v : json_ok v = true ->
  exists t, json_stringify v = Some t /\ json_parse t = Some v.
Proof.
  intros Hok. exists (json_text v). split; [by apply json_stringify_ok|by apply json_parse_text].
Qed.

Lemma json_roundtrip_witness :
  let v := VObj [(u "v", VNum (NInt (-120))); (u "keys", VArr [VStr [34; 10; 55296]; VStr []])] in
  exists t, json_stringify v = Some t /\ json_parse t = Some v.
Proof. intros v. apply (json_roundtrip v). vm_compute. reflexivity. Defined.
