(* ===== verification/JsUtf8.v ===== *)
(** UTF-8 round trip: the text that [Buffer.from] wrote without unpaired
    surrogates is read back by [toString("utf8")], and what [JSON.stringify]
    writes is such a text, on a single line. *)
From S2P Require Import Prelude JsString JsValue JsText.

(** Units of 16 bits in which every surrogate has its pair. *)
Fixpoint well_formed (s : jstr) : bool :=
  match s with
  | [] => true
  | c :: s' =>
      if is_high_surrogate c then
        match s' with
        | d :: s'' => is_low_surrogate d && well_formed s''
        | [] => false
        end
      else negb (is_low_surrogate c) && (0 <=? c) && (c <? 65536) && well_formed s'
  end.

(** Induction that follows the surrogate pairs. *)
Lemma units_ind (P : jstr -> Prop) :
  P [] ->
  (forall c s, is_high_surrogate c = false -> P s -> P (c :: s)) ->
  (forall c, is_high_surrogate c = true -> P [c]) ->
  (forall c d s, is_high_surrogate c = true -> P s -> P (d :: s) -> P (c :: d :: s)) ->
  forall s, P s.
Proof.
  intros Hnil Hplain Hlast Hpair s. remember (length s) as n eqn:Hn.
  revert s Hn. induction (lt_wf n) as [n _ IH]. intros [|c s] ->; [done|]. simpl in IH.
  assert (Hs : forall t, (length t <= length s)%nat -> P t) by (intros t ?; eapply IH; [|done]; lia).
  destruct (is_high_surrogate c) eqn:Hc; [|by apply Hplain; [|apply Hs]].
  destruct s as [|d s]; [by apply Hlast|].
  apply Hpair; [done| |]; apply Hs; simpl; lia.
Qed.

Lemma well_formed_app a b : well_formed a = true -> well_formed b = true -> well_formed (a ++ b) = true.
Proof.
  intros Ha Hb. induction a as [|c a Hc IH|c Hc|c d a Hc IH _] using units_ind; simpl in *; [done|..].
  - rewrite Hc in *. rewrite !andb_true_iff in *. intuition.
  - by rewrite Hc in Ha.
  - rewrite Hc in *. apply andb_true_iff in Ha as [-> Ha]. simpl. auto.
Qed.

(** ** Decoding what was encoded *)

Ltac decide_tests :=
  repeat match goal with
  | |- context [?a <? ?b] => destruct (Z.ltb_spec a b); try lia
  | |- context [?a <=? ?b] => destruct (Z.leb_spec a b); try lia
  | |- context [?a =? ?b] => destruct (Z.eqb_spec a b); try lia
  end.

Lemma utf8_rest_cont n lo hi acc b bs : lo <= b <= hi ->
  utf8_rest (S n) lo hi acc (b :: bs) = utf8_rest n 128 191 (acc * 64 + (b - 128)) bs.
Proof. intros. simpl. by decide_tests. Qed.

(** A decoding step at a lead byte. *)
Lemma utf8_decode_lead f b bs lo hi n p rest : 128 <= b -> lead_info b = Some (lo, hi, n) ->
  utf8_rest n lo hi (lead_bits b) bs = (Some p, rest) ->
  utf8_decode_fuel (S f) (b :: bs) = units_of_point p ++ utf8_decode_fuel f rest.
Proof. intros Hb Hl Hr. simpl. rewrite Hl, Hr. by destruct (Z.ltb_spec b 128); [lia|]. Qed.

(** Each quotient is named once, so that the arithmetic stays linear. *)
Ltac name_quotients p :=
  pose proof (Z.div_mod p 64 ltac:(lia)); pose proof (Z.mod_pos_bound p 64 ltac:(lia));
  pose proof (Z.div_mod (p / 64) 64 ltac:(lia)); pose proof (Z.mod_pos_bound (p / 64) 64 ltac:(lia));
  pose proof (Z.div_mod (p / 64 / 64) 64 ltac:(lia)); pose proof (Z.mod_pos_bound (p / 64 / 64) 64 ltac:(lia)).

Lemma utf8_decode_point2 f p rest : 128 <= p < 2048 ->
  utf8_decode_fuel (S f) ([192 + p / 64; 128 + p mod 64] ++ rest) = units_of_point p ++ utf8_decode_fuel f rest.
Proof.
  intros Hp. name_quotients p.
  apply (utf8_decode_lead f _ _ 128 191 1); [lia|unfold lead_info; by decide_tests|].
  unfold lead_bits. decide_tests. simpl app. rewrite utf8_rest_cont by lia. simpl. do 2 f_equal. lia.
Qed.

Lemma utf8_decode_point3 f p rest : 2048 <= p < 65536 -> ~ 55296 <= p <= 57343 ->
  utf8_decode_fuel (S f) ([224 + p / 4096; 128 + (p / 64) mod 64; 128 + p mod 64] ++ rest) =
  units_of_point p ++ utf8_decode_fuel f rest.
Proof.
  intros Hp Hs. replace (p / 4096) with (p / 64 / 64) by (by rewrite Z.div_div by lia).
  name_quotients p. set (a := p / 64 / 64) in *. set (b := (p / 64) mod 64) in *. set (c := p mod 64) in *.
  assert (Hlead : exists lo hi, lead_info (224 + a) = Some (lo, hi, 2%nat) /\ lo <= 128 + b <= hi).
  { unfold lead_info. decide_tests; simpl; eexists _, _; (split; [done|lia]). }
  destruct Hlead as (lo & hi & Hlead & Hb).
  apply (utf8_decode_lead f _ _ lo hi 2); [lia|done|].
  unfold lead_bits. decide_tests. simpl app. rewrite !utf8_rest_cont by lia. simpl. do 2 f_equal. lia.
Qed.

Lemma utf8_decode_point4 f p rest : 65536 <= p < 1114112 ->
  utf8_decode_fuel (S f)
    ([240 + p / 262144; 128 + (p / 4096) mod 64; 128 + (p / 64) mod 64; 128 + p mod 64] ++ rest) =
  units_of_point p ++ utf8_decode_fuel f rest.
Proof.
  intros Hp. replace (p / 262144) with (p / 64 / 64 / 64) by (by rewrite !Z.div_div by lia).
  replace (p / 4096) with (p / 64 / 64) by (by rewrite Z.div_div by lia).
  name_quotients p. set (a := p / 64 / 64 / 64) in *. set (b := (p / 64 / 64) mod 64) in *.
  set (c := (p / 64) mod 64) in *. set (d := p mod 64) in *.
  assert (Hlead : exists lo hi, lead_info (240 + a) = Some (lo, hi, 3%nat) /\ lo <= 128 + b <= hi).
  { unfold lead_info. decide_tests; simpl; eexists _, _; (split; [done|lia]). }
  destruct Hlead as (lo & hi & Hlead & Hb).
  apply (utf8_decode_lead f _ _ lo hi 3); [lia|done|].
  unfold lead_bits. decide_tests. simpl app. rewrite !utf8_rest_cont by lia. simpl. do 2 f_equal. lia.
Qed.

Lemma utf8_decode_point f p rest : 0 <= p < 1114112 -> ~ 55296 <= p <= 57343 ->
  utf8_decode_fuel (S f) (utf8_point p ++ rest) = units_of_point p ++ utf8_decode_fuel f rest.
Proof.
  intros Hp Hs. unfold utf8_point. destruct (Z.ltb_spec p 128).
  - simpl. unfold units_of_point. by decide_tests.
  - destruct (Z.ltb_spec p 2048); [by apply utf8_decode_point2|].
    destruct (Z.ltb_spec p 65536); [by apply utf8_decode_point3|apply utf8_decode_point4; lia].
Qed.

Lemma surrogate_pair c d : is_high_surrogate c = true -> is_low_surrogate d = true ->
  let p := 65536 + (c - 55296) * 1024 + (d - 56320) in
  65536 <= p < 1114112 /\ units_of_point p = [c; d].
Proof.
  unfold is_high_surrogate, is_low_surrogate. rewrite !andb_true_iff, !Z.leb_le. cbv zeta. intros Hc Hd. set (p := _ + _ + _).
  assert (Hp : 65536 <= p < 1114112) by (unfold p; lia). split; [done|].
  unfold units_of_point. destruct (Z.ltb_spec p 65536); [lia|].
  replace (p - 65536) with ((d - 56320) + (c - 55296) * 1024) by (unfold p; lia).
  rewrite Z.div_add, Z.mod_add by lia. rewrite Z.div_small, Z.mod_small by lia. repeat f_equal; lia.
Qed.

Lemma utf8_decode_bytes f s : well_formed s = true -> (length (utf8_bytes s) <= f)%nat ->
  utf8_decode_fuel f (utf8_bytes s) = s.
Proof.
  revert f. induction s as [|c s Hc IH|c Hc|c d s Hc IH _] using units_ind; intros f Hs Hf; simpl in *.
  - by destruct f.
  - rewrite Hc in *. rewrite !andb_true_iff, negb_true_iff, Z.leb_le, Z.ltb_lt in Hs.
    destruct Hs as [[[Hl H0] H1] Hs]. rewrite Hl in *. rewrite length_app in Hf.
    pose proof (utf8_point_length c). destruct f as [|f]; [lia|].
    unfold is_high_surrogate, is_low_surrogate in Hc, Hl.
    rewrite andb_false_iff, !Z.leb_gt in Hc, Hl.
    rewrite utf8_decode_point by lia. unfold units_of_point. destruct (Z.ltb_spec c 65536); [|lia].
    simpl. rewrite IH; [done|done|lia].
  - by rewrite Hc in Hs.
  - rewrite Hc in *. apply andb_true_iff in Hs as [Hd Hs]. rewrite Hd in *. rewrite length_app in Hf.
    destruct (surrogate_pair c d Hc Hd) as [Hp Hu]. pose proof (utf8_point_length (65536 + (c - 55296) * 1024 + (d - 56320))).
    destruct f as [|f]; [lia|]. rewrite utf8_decode_point by lia. rewrite Hu. simpl. rewrite IH; [done|done|lia].
Qed.

(** Decoding inverts encoding. *)
Lemma utf8_roundtrip s : well_formed s = true -> utf8_decode (utf8_bytes s) = s.
Proof. intros. by apply utf8_decode_bytes. Qed.

(** ** Bytes of a concatenation, and the byte of a line feed *)

Lemma utf8_bytes_app a b : well_formed a = true -> utf8_bytes (a ++ b) = utf8_bytes a ++ utf8_bytes b.
Proof.
  induction a as [|c a Hc IH|c Hc|c d a Hc IH _] using units_ind; intros Ha; simpl in *; [done|..].
  - rewrite Hc in *. rewrite !andb_true_iff, negb_true_iff in Ha. destruct Ha as [[[-> _] _] Ha].
    by rewrite IH, app_assoc.
  - by rewrite Hc in Ha.
  - rewrite Hc in *. apply andb_true_iff in Ha as [-> Ha]. by rewrite IH, app_assoc.
Qed.

(** A multi-byte sequence holds no ASCII byte. *)
Lemma utf8_point_high p b : 0 <= p < 1114112 -> b ∈ utf8_point p -> b < 128 -> b = p.
Proof.
  intros Hp. unfold utf8_point. name_quotients p.
  pose proof (Z.mod_pos_bound (p / 4096) 64 ltac:(lia)). pose proof (Z.div_pos p 4096 ltac:(lia) ltac:(lia)).
  pose proof (Z.div_pos p 262144 ltac:(lia) ltac:(lia)). pose proof (Z.div_pos p 64 ltac:(lia) ltac:(lia)).
  repeat case_match; rewrite ?elem_of_cons, elem_of_nil; intuition lia.
Qed.

Lemma utf8_bytes_ascii_in s b : well_formed s = true -> b < 128 -> b ∈ utf8_bytes s -> b ∈ s.
Proof.
  intros Hs Hb. induction s as [|c s Hc IH|c Hc|c d s Hc IH _] using units_ind; simpl in *; [done|..].
  - rewrite Hc in *. rewrite !andb_true_iff, negb_true_iff, Z.leb_le, Z.ltb_lt in Hs.
    destruct Hs as [[[Hl H0] H1] Hs]. rewrite Hl, elem_of_app, elem_of_cons.
    intros [Hin|Hin]; [left; apply utf8_point_high in Hin; lia|auto].
  - by rewrite Hc in Hs.
  - rewrite Hc in *. apply andb_true_iff in Hs as [Hd Hs]. rewrite Hd, elem_of_app, !elem_of_cons.
    destruct (surrogate_pair c d Hc Hd) as [Hp _].
    intros [Hin|Hin]; [apply utf8_point_high in Hin; lia|auto].
Qed.

(** ** The texts of JSON are single lines *)

(** A well-formed text without a line feed. *)
Definition line_text (s : jstr) : bool := well_formed s && forallb (fun c => negb (c =? 10)) s.

Lemma line_text_app a b : line_text a = true -> line_text b = true -> line_text (a ++ b) = true.
Proof.
  unfold line_text. rewrite !andb_true_iff, forallb_app. intros [Ha ->] [Hb ->]. split; [|done].
  by apply well_formed_app.
Qed.

Lemma line_text_join sep parts : line_text sep = true -> Forall (fun p => line_text p = true) parts ->
  line_text (join sep parts) = true.
Proof.
  intros Hsep. induction 1 as [|p parts Hp Hps IH]; [done|].
  destruct parts as [|q parts]; [done|]. change (line_text (p ++ sep ++ join sep (q :: parts)) = true).
  auto using line_text_app.
Qed.

(** Printable ASCII. *)
Definition printable (s : jstr) : bool := forallb (fun c => (32 <=? c) && (c <? 127)) s.

Lemma printable_unit c s : (32 <=? c) && (c <? 127) = true -> line_text s = true -> line_text (c :: s) = true.
Proof.
  rewrite andb_true_iff, Z.leb_le, Z.ltb_lt. intros Hc. unfold line_text.
  simpl. unfold is_high_surrogate, is_low_surrogate. by decide_tests.
Qed.

Lemma printable_line s : printable s = true -> line_text s = true.
Proof. induction s as [|c s IH]; [done|]. simpl. intros [Hc Hs]%andb_true_iff. auto using printable_unit. Qed.

Lemma printable_digits n : 0 <= n -> printable (digits n) = true.
Proof.
  intros Hn. apply forallb_forall. intros c Hc.
  pose proof (proj1 (List.Forall_forall _ _) (digits_all n Hn) c Hc). simpl in *. apply andb_true_iff. lia.
Qed.

Lemma printable_num_to_string z : printable (num_to_string z) = true.
Proof.
  unfold num_to_string. destruct (Z.ltb_spec z 0).
  - change (printable (45 :: digits (- z)) = true). simpl. apply printable_digits. lia.
  - by apply printable_digits.
Qed.

Lemma hex_unit_printable d : 0 <= d < 16 ->
  (32 <=? (if d <? 10 then 48 + d else 87 + d)) && ((if d <? 10 then 48 + d else 87 + d) <? 127) = true.
Proof. intros. case_match; apply andb_true_iff; lia. Qed.

Lemma printable_hex4 c : printable (hex4 c) = true.
Proof. unfold hex4. simpl. by rewrite !hex_unit_printable by (apply Z.mod_pos_bound; lia). Qed.

Lemma json_unit_line c : 0 <= c < 65536 -> is_high_surrogate c = false -> is_low_surrogate c = false ->
  line_text (json_unit c) = true.
Proof.
  intros Hc Hh Hl. unfold json_unit. repeat (case_match; [done|]).
  case_match; [apply printable_line; simpl; apply printable_hex4|].
  unfold line_text. simpl. rewrite Hh, Hl. simpl. rewrite !Z.eqb_neq in *. by decide_tests.
Qed.

Lemma json_units_pair c d s : is_high_surrogate c = true ->
  json_units (c :: d :: s) =
  if is_low_surrogate d then c :: d :: json_units s else [92; 117] ++ hex4 c ++ json_units (d :: s).
Proof. intros Hc. change (json_units (c :: d :: s)) with
  (if is_high_surrogate c then
     if is_low_surrogate d then c :: d :: json_units s else [92; 117] ++ hex4 c ++ json_units (d :: s)
   else if is_low_surrogate c then [92; 117] ++ hex4 c ++ json_units (d :: s)
   else json_unit c ++ json_units (d :: s)). by rewrite Hc. Qed.

Lemma json_units_line s : units_ok s = true -> line_text (json_units s) = true.
Proof.
  induction s as [|c s Hc IH|c Hc|c d s Hc IH IH'] using units_ind; intros Hs; [done|..];
    apply units_ok_cons in Hs as [Hr Hs]; [simpl; rewrite Hc.. |rewrite (json_units_pair _ _ _ Hc)].
  - destruct (is_low_surrogate c) eqn:Hl.
    + apply (line_text_app (92 :: 117 :: hex4 c)); [|by apply IH].
      apply printable_line. simpl. apply printable_hex4.
    + apply line_text_app; [by apply json_unit_line|by apply IH].
  - apply (line_text_app (92 :: 117 :: hex4 c) []); [|done].
    apply printable_line. simpl. apply printable_hex4.
  - destruct (is_low_surrogate d) eqn:Hd.
    + apply (line_text_app [c; d]); [|apply IH; by apply units_ok_cons in Hs as [_ Hs]].
      unfold line_text. simpl. rewrite Hc, Hd. unfold is_high_surrogate, is_low_surrogate in *.
      rewrite andb_true_iff, !Z.leb_le in Hc, Hd. by decide_tests.
    + apply (line_text_app (92 :: 117 :: hex4 c)); [|by apply IH'].
      apply printable_line. apply printable_hex4.
Qed.

Lemma json_string_line s : units_ok s = true -> line_text (json_string s) = true.
Proof. intros. unfold json_string. auto using line_text_app, json_units_line. Qed.

(** [JSON.stringify] writes one line. *)
Lemma json_text_line v : json_ok v = true -> line_text (json_text v) = true.
Proof.
  induction v as [| |b|n|s|l IH|fields IH] using jsval_rect'; intros Hok; [done|done| | | | |].
  - by destruct b.
  - destruct n; try done. apply printable_line, printable_num_to_string.
  - by apply json_string_line.
  - rewrite json_text_arr by done. apply (line_text_app [91]); [done|]. apply line_text_app; [|done].
    apply line_text_join; [done|]. apply Forall_map.
    simpl in Hok. rewrite forallb_forall in Hok. rewrite List.Forall_forall in *. simpl. auto.
  - simpl in Hok. apply andb_true_iff in Hok as [_ Hok].
    rewrite json_text_obj by (rewrite forallb_forall in *; intros kv Hin; specialize (Hok kv Hin);
                              by apply andb_true_iff in Hok as [_ Hok]).
    apply (line_text_app [123]); [done|]. apply line_text_app; [|done].
    apply line_text_join; [done|]. apply Forall_map. rewrite forallb_forall in Hok.
    rewrite List.Forall_forall in *. intros kv Hin. specialize (Hok kv Hin). apply andb_true_iff in Hok as [Hk Hv].
    unfold compose, member_text. apply line_text_app; [by apply json_string_line|].
    apply (line_text_app [58]); [done|]. auto.
Qed.

Lemma line_text_well_formed s : line_text s = true -> well_formed s = true.
Proof. unfold line_text. by intros [? _]%andb_true_iff. Qed.

(** Its bytes hold no line feed. *)
Lemma line_text_bytes s : line_text s = true -> 10 ∉ utf8_bytes s.
Proof.
  intros Hs Hin. apply utf8_bytes_ascii_in in Hin; [|by apply line_text_well_formed|lia].
  unfold line_text in Hs. rewrite andb_true_iff, forallb_forall in Hs. destruct Hs as [_ Hs].
  apply list_elem_of_In in Hin. by specialize (Hs 10 Hin).
Qed.

(** A value written and encoded is decoded and read back. *)
Lemma json_bytes_roundtrip v : json_ok v = true ->
  json_parse (utf8_decode (utf8_bytes (json_text v))) = Some v.
Proof.
  intros Hv. rewrite utf8_roundtrip by auto using line_text_well_formed, json_text_line.
  by apply json_parse_text.
Qed.

#[export] Hint Resolve line_text_app line_text_well_formed json_text_line printable_line : untangled.
