(* ===== verification/JsDate.v ===== *)
(** Dates as the language has them: a [Date] is its time value in
    milliseconds.  [toISOString], and the rounding of [datetime_utc.ts]. *)
From S2P Require Import Prelude JsString.

Definition MS_PER_DAY := 86400000.

(** [s.padStart(n, "0")] *)
Definition pad_zero (n : nat) (s : jstr) : jstr := repeat 48 (n - List.length s) ++ s.

(** Year, month and day of a day number counted from 1970-01-01. *)
Definition civil_from_days (days : Z) : Z * Z * Z :=
  let z := days + 719468 in
  let era := z / 146097 in
  let doe := z mod 146097 in
  let yoe := (doe - doe / 1460 + doe / 36524 - doe / 146096) / 365 in
  let doy := doe - (365 * yoe + yoe / 4 - yoe / 100) in
  let mp := (5 * doy + 2) / 153 in
  let d := doy - (153 * mp + 2) / 5 + 1 in
  let m := if mp <? 10 then mp + 3 else mp - 9 in
  let y := yoe + era * 400 + (if m <=? 2 then 1 else 0) in
  (y, m, d).

Definition iso_year (y : Z) : jstr :=
  if (0 <=? y) && (y <=? 9999) then pad_zero 4 (num_to_string y)
  else (if y <? 0 then 45 else 43) :: pad_zero 6 (num_to_string (Z.abs y)).

(** [new Date(ms).toISOString()] *)
Definition to_iso_string (ms : Z) : jstr :=
  let '(y, m, d) := civil_from_days (ms / MS_PER_DAY) in
  let t := ms mod MS_PER_DAY in
  let two n := pad_zero 2 (num_to_string n) in
  iso_year y ++ u "-" ++ two m ++ u "-" ++ two d ++ u "T" ++
  two (t / 3600000) ++ u ":" ++ two (t / 60000 mod 60) ++ u ":" ++ two (t / 1000 mod 60) ++
  u "." ++ pad_zero 3 (num_to_string (t mod 1000)) ++ u "Z".
Arguments to_iso_string : simpl never.

(** [utc_seconds]: the nearest whole second, half up. *)
Definition utc_seconds (value : Z) : Z := (value + 500) / 1000 * 1000.

(** ** Lemmas *)

(** [to_iso_string] on known instants. *)
Example to_iso_string_epoch : to_iso_string 0 = u "1970-01-01T00:00:00.000Z".
Proof. by vm_compute. Qed.

Example to_iso_string_leap : to_iso_string 951782399999 = u "2000-02-28T23:59:59.999Z".
Proof. by vm_compute. Qed.

Example to_iso_string_recent : to_iso_string 1709164800123 = u "2024-02-29T00:00:00.123Z".
Proof. by vm_compute. Qed.

Lemma utc_seconds_spec v :
  utc_seconds v mod 1000 = 0 /\ v - 500 < utc_seconds v <= v + 500.
Proof.
  unfold utc_seconds. rewrite Z.mod_mul by lia.
  pose proof (Z.div_mod (v + 500) 1000 ltac:(lia)).
  pose proof (Z.mod_pos_bound (v + 500) 1000 ltac:(lia)). lia.
Qed.

Lemma utc_seconds_idemp v : utc_seconds (utc_seconds v) = utc_seconds v.
Proof.
  unfold utc_seconds. f_equal.
  rewrite Z.div_add_l by lia. change (500 / 1000) with 0. lia.
Qed.

(** ** Days and calendar dates *)

Definition leap_year (y : Z) : bool := (y mod 4 =? 0) && (negb (y mod 100 =? 0) || (y mod 400 =? 0)).

Definition days_in_month (y m : Z) : Z :=
  if m =? 2 then if leap_year y then 29 else 28
  else if (m =? 4) || (m =? 6) || (m =? 9) || (m =? 11) then 30 else 31.

Definition valid_date (y m d : Z) : Prop := 1 <= m <= 12 /\ 1 <= d <= days_in_month y m.

(** The day number of a date, the language's [MakeDay] without its carry. *)
Definition days_from_civil (y m d : Z) : Z :=
  let y' := if m <=? 2 then y - 1 else y in
  let era := y' / 400 in
  let yoe := y' mod 400 in
  let mp := if 2 <? m then m - 3 else m + 9 in
  let doy := (153 * mp + 2) / 5 + d - 1 in
  let doe := yoe * 365 + yoe / 4 - yoe / 100 + doy in
  era * 146097 + doe - 719468.

(** The parts of the two functions that stay within one era of 400 years,
    which a computation over an era settles. *)
Definition doe_of (yoe mp d : Z) : Z :=
  yoe * 365 + yoe / 4 - yoe / 100 + ((153 * mp + 2) / 5 + d - 1).

Definition civil_of_doe (doe : Z) : Z * Z * Z :=
  let yoe := (doe - doe / 1460 + doe / 36524 - doe / 146096) / 365 in
  let doy := doe - (365 * yoe + yoe / 4 - yoe / 100) in
  let mp := (5 * doy + 2) / 153 in
  (yoe, mp, doy - (153 * mp + 2) / 5 + 1).

(** The length of month [mp], counted from March, of year [yoe] of an era. *)
Definition era_month_days (yoe mp : Z) : Z :=
  days_in_month (if 10 <=? mp then yoe + 1 else yoe) (if mp <? 10 then mp + 3 else mp - 9).

Definition seqZ (n : nat) : list Z := map Z.of_nat (seq 0 n).

Lemma in_seqZ x n : 0 <= x < Z.of_nat n -> In x (seqZ n).
Proof. intros H. apply in_map_iff. exists (Z.to_nat x). split; [lia|]. apply in_seq. lia. Qed.

Lemma forallb_seqZ (f : Z -> bool) n x : forallb f (seqZ n) = true -> 0 <= x < Z.of_nat n -> f x = true.
Proof. intros H Hx. apply (proj1 (forallb_forall _ _) H). by apply in_seqZ. Qed.

(** The first day of year [yoe] in its era, and the year of a day. *)
Definition year_start (yoe : Z) : Z :=
  if yoe =? 400 then 146097 else yoe * 365 + yoe / 4 - yoe / 100.

Definition year_days (doe : Z) : Z := doe - doe / 1460 + doe / 36524 - doe / 146096.

Definition month_of_doy (doy : Z) : Z * Z :=
  let mp := (5 * doy + 2) / 153 in (mp, doy - (153 * mp + 2) / 5 + 1).

Definition month_days (leap : bool) (mp : Z) : Z := days_in_month (if leap then 4 else 1) (if mp <? 10 then mp + 3 else mp - 9).

(** The years of an era, checked at their first and last days. *)
Lemma era_years : forallb (fun y =>
    (year_start y + (if leap_year (y + 1) then 366 else 365) =? year_start (y + 1)) &&
    (year_days (year_start y) / 365 =? y) && (year_days (year_start (y + 1) - 1) / 365 =? y))
  (seqZ 400) = true.
Proof. vm_compute. reflexivity. Qed.

(** The days of a year, and the dates of a year. *)
Lemma year_dates : forallb (fun leap => forallb (fun doy =>
    negb (doy <? (if leap : bool then 366 else 365)) ||
    let '(mp, d) := month_of_doy doy in
    (0 <=? mp) && (mp <? 12) && (1 <=? d) && (d <=? month_days leap mp) &&
    ((153 * mp + 2) / 5 + d - 1 =? doy)) (seqZ 366)) [true; false] = true.
Proof. vm_compute. reflexivity. Qed.

Lemma month_dates : forallb (fun leap => forallb (fun mp => forallb (fun e =>
    (month_days leap mp <? e + 1) ||
    let doy := (153 * mp + 2) / 5 + e in
    (0 <=? doy) && (doy <? (if leap : bool then 366 else 365)) &&
    let '(a, b) := month_of_doy doy in (a =? mp) && (b =? e + 1)) (seqZ 31)) (seqZ 12)) [true; false] = true.
Proof. vm_compute. reflexivity. Qed.

Lemma year_days_mono a b : 0 <= a <= b -> year_days a <= year_days b.
Proof.
  intros [Ha Hab]. pattern b. apply Zlt_lower_bound_ind with a; [|done].
  intros x IH Hx. destruct (decide (x = a)) as [->|Hne]; [done|].
  etrans; [apply (IH (x - 1)); lia|]. clear IH. unfold year_days.
  pose proof (Z.div_mod x 1460 ltac:(lia)). pose proof (Z.mod_pos_bound x 1460 ltac:(lia)).
  pose proof (Z.div_mod (x - 1) 1460 ltac:(lia)). pose proof (Z.mod_pos_bound (x - 1) 1460 ltac:(lia)).
  replace 146096 with (36524 * 4) by lia. rewrite <- !Z.div_div by lia.
  pose proof (Z.div_mod x 36524 ltac:(lia)). pose proof (Z.mod_pos_bound x 36524 ltac:(lia)).
  pose proof (Z.div_mod (x - 1) 36524 ltac:(lia)). pose proof (Z.mod_pos_bound (x - 1) 36524 ltac:(lia)).
  set (p := x / 36524) in *. set (q := (x - 1) / 36524) in *. assert (q = p \/ q = p - 1) as [->| ->] by lia; [lia|].
  pose proof (Z.div_mod p 4 ltac:(lia)). pose proof (Z.mod_pos_bound p 4 ltac:(lia)).
  pose proof (Z.div_mod (p - 1) 4 ltac:(lia)). pose proof (Z.mod_pos_bound (p - 1) 4 ltac:(lia)). lia.
Qed.

Lemma era_year y : 0 <= y < 400 ->
  year_start (y + 1) = year_start y + (if leap_year (y + 1) then 366 else 365) /\
  0 <= year_start y /\ year_start (y + 1) <= 146097 /\
  forall doe, year_start y <= doe < year_start (y + 1) -> year_days doe / 365 = y.
Proof.
  intros Hy. pose proof (forallb_seqZ _ 400 y era_years ltac:(lia)) as H.
  rewrite !andb_true_iff, !Z.eqb_eq in H. destruct H as [[H1 H2] H3].
  assert (H0 : 0 <= year_start y).
  { unfold year_start. rewrite (proj2 (Z.eqb_neq y 400)) by lia.
    pose proof (Z.div_mod y 4 ltac:(lia)). pose proof (Z.mod_pos_bound y 4 ltac:(lia)).
    pose proof (Z.div_mod y 100 ltac:(lia)). pose proof (Z.mod_pos_bound y 100 ltac:(lia)). lia. }
  split; [done|]. split; [done|]. split.
  - unfold year_start. destruct (Z.eqb_spec (y + 1) 400); [lia|].
    pose proof (Z.div_mod (y + 1) 4 ltac:(lia)). pose proof (Z.mod_pos_bound (y + 1) 4 ltac:(lia)).
    pose proof (Z.div_mod (y + 1) 100 ltac:(lia)). pose proof (Z.mod_pos_bound (y + 1) 100 ltac:(lia)). lia.
  - intros doe Hd. apply Z.le_antisymm.
    + transitivity (year_days (year_start (y + 1) - 1) / 365); [|lia].
      apply Z.div_le_mono; [lia|]. apply year_days_mono. lia.
    + transitivity (year_days (year_start y) / 365); [lia|].
      apply Z.div_le_mono; [lia|]. apply year_days_mono. lia.
Qed.

Lemma era_month_days_leap yoe mp : 0 <= mp < 12 ->
  era_month_days yoe mp = month_days (leap_year (yoe + 1)) mp.
Proof.
  intros Hm. unfold era_month_days, month_days, days_in_month.
  destruct (Z.leb_spec 10 mp), (Z.ltb_spec mp 10); try lia.
  - destruct (leap_year (yoe + 1)); done.
  - destruct (Z.eqb_spec (mp + 3) 2); [lia|]. by destruct (leap_year (yoe + 1)).
Qed.

Lemma in_bools b : In b [true; false].
Proof. destruct b; simpl; auto. Qed.

Lemma month_of_doy_ok leap mp d : 0 <= mp < 12 -> 1 <= d <= month_days leap mp ->
  0 <= (153 * mp + 2) / 5 + d - 1 < (if leap : bool then 366 else 365) /\
  month_of_doy ((153 * mp + 2) / 5 + d - 1) = (mp, d).
Proof.
  intros Hm Hd.
  assert (month_days leap mp <= 31) by (unfold month_days, days_in_month; repeat case_match; lia).
  pose proof (proj1 (forallb_forall _ _) month_dates leap (in_bools leap)) as H'.
  apply (forallb_seqZ _ 12 mp) in H'; [|lia]. apply (forallb_seqZ _ 31 (d - 1)) in H'; [|lia].
  cbv beta zeta in H'. rewrite (proj2 (Z.ltb_ge _ _)) in H' by lia. rewrite orb_false_l in H'.
  replace ((153 * mp + 2) / 5 + d - 1) with ((153 * mp + 2) / 5 + (d - 1)) by lia.
  destruct (month_of_doy _) as [a b].
  rewrite !andb_true_iff, Z.leb_le, Z.ltb_lt, !Z.eqb_eq in H'. destruct H' as [[? ?] [-> ->]].
  split; [lia|]. f_equal. lia.
Qed.

Lemma doy_month_ok leap doy : 0 <= doy < (if leap : bool then 366 else 365) ->
  exists mp d, month_of_doy doy = (mp, d) /\ 0 <= mp < 12 /\ 1 <= d <= month_days leap mp /\
    (153 * mp + 2) / 5 + d - 1 = doy.
Proof.
  intros Hd. pose proof (proj1 (forallb_forall _ _) year_dates leap (in_bools leap)) as H'.
  apply (forallb_seqZ _ 366 doy) in H'; [|destruct leap; lia].
  cbv beta in H'. rewrite (proj2 (Z.ltb_lt doy _)) in H' by lia. rewrite orb_false_l in H'.
  destruct (month_of_doy doy) as [mp d]. exists mp, d.
  rewrite !andb_true_iff, !Z.leb_le, Z.ltb_lt, Z.eqb_eq in H'. naive_solver.
Qed.

Lemma civil_of_doe_year yoe doe : 0 <= yoe < 400 -> year_start yoe <= doe < year_start (yoe + 1) ->
  civil_of_doe doe = (let '(mp, d) := month_of_doy (doe - year_start yoe) in (yoe, mp, d)).
Proof.
  intros Hy Hd. destruct (era_year yoe Hy) as (_ & _ & _ & Hyear). specialize (Hyear doe Hd).
  unfold civil_of_doe, month_of_doy. fold (year_days doe). rewrite Hyear.
  unfold year_start. rewrite (proj2 (Z.eqb_neq yoe 400)) by lia. cbv zeta.
  replace (365 * yoe + yoe / 4 - yoe / 100) with (yoe * 365 + yoe / 4 - yoe / 100) by lia. done.
Qed.

Lemma era_date yoe mp d : 0 <= yoe < 400 -> 0 <= mp < 12 -> 1 <= d <= era_month_days yoe mp ->
  0 <= doe_of yoe mp d < 146097 /\ civil_of_doe (doe_of yoe mp d) = (yoe, mp, d).
Proof.
  intros Hy Hm Hd. rewrite era_month_days_leap in Hd by done.
  destruct (era_year yoe Hy) as (Hnext & H0 & Hmax & _).
  destruct (month_of_doy_ok (leap_year (yoe + 1)) mp d Hm Hd) as [Hdoy Hmd].
  assert (Hdoe : doe_of yoe mp d = year_start yoe + ((153 * mp + 2) / 5 + d - 1)).
  { unfold doe_of, year_start. by rewrite (proj2 (Z.eqb_neq yoe 400)) by lia. }
  rewrite Hdoe. split; [lia|]. rewrite (civil_of_doe_year yoe) by (done || lia).
  rewrite Z.add_simpl_l, Hmd. done.
Qed.

Lemma year_of_day n doe : 0 <= n <= 400 -> 0 <= doe < year_start n ->
  exists y, 0 <= y < n /\ year_start y <= doe < year_start (y + 1).
Proof.
  intros Hn. revert doe. pattern n. apply natlike_rec2; [| |lia].
  - intros doe Hd. change (year_start 0) with 0 in Hd. lia.
  - intros m Hm IH doe Hd. unfold Z.succ in *. destruct (Z.lt_ge_cases doe (year_start m)).
    + destruct (IH doe) as (y & ? & ?); [lia|]. exists y. lia.
    + exists m. lia.
Qed.

Lemma era_day doe : 0 <= doe < 146097 ->
  exists yoe mp d, civil_of_doe doe = (yoe, mp, d) /\ 0 <= yoe < 400 /\ 0 <= mp < 12 /\
    1 <= d <= era_month_days yoe mp /\ doe_of yoe mp d = doe.
Proof.
  intros Hd. destruct (year_of_day 400 doe) as (yoe & Hy & Hyd); [lia|done|].
  destruct (era_year yoe Hy) as (Hnext & _ & _ & _).
  destruct (doy_month_ok (leap_year (yoe + 1)) (doe - year_start yoe)) as (mp & d & Hm & Hmp & Hdd & Hsum);
    [lia|].
  exists yoe, mp, d. rewrite (civil_of_doe_year yoe) by done. rewrite Hm.
  rewrite era_month_days_leap by done. repeat split; try lia.
  unfold doe_of. unfold year_start in Hsum. rewrite (proj2 (Z.eqb_neq yoe 400)) in Hsum by lia. lia.
Qed.

Lemma leap_year_era y k : leap_year (y + k * 400) = leap_year y.
Proof.
  unfold leap_year. replace (y + k * 400) with (y + (k * 4) * 100) by lia.
  rewrite (Z.mod_add _ _ 100) by lia. replace (y + k * 4 * 100) with (y + (k * 100) * 4) by lia.
  rewrite (Z.mod_add _ _ 4) by lia. replace (y + k * 100 * 4) with (y + k * 400) by lia.
  rewrite (Z.mod_add _ _ 400) by lia. done.
Qed.

Lemma days_in_month_era y k m : days_in_month (y + k * 400) m = days_in_month y m.
Proof. unfold days_in_month. by rewrite leap_year_era. Qed.

(** A calendar date is recovered from its day number. *)
Lemma civil_from_days_from_civil y m d : valid_date y m d ->
  civil_from_days (days_from_civil y m d) = (y, m, d).
Proof.
  intros [Hm Hd]. set (y' := if m <=? 2 then y - 1 else y). set (mp := if 2 <? m then m - 3 else m + 9).
  assert (Hmp : 0 <= mp < 12) by (subst mp; destruct (Z.ltb_spec 2 m); lia).
  pose proof (Z.mod_pos_bound y' 400 ltac:(lia)) as Hyoe.
  pose proof (Z.div_mod y' 400 ltac:(lia)) as Hy'.
  assert (Hmon : (if mp <? 10 then mp + 3 else mp - 9) = m)
    by (subst mp; destruct (Z.ltb_spec 2 m), (Z.ltb_spec (m - 3) 10), (Z.ltb_spec (m + 9) 10); lia).
  assert (Hlen : era_month_days (y' mod 400) mp = days_in_month y m).
  { unfold era_month_days. rewrite Hmon. rewrite <- (days_in_month_era _ (y' / 400)). f_equal.
    subst mp y'. destruct (Z.ltb_spec 2 m), (Z.leb_spec m 2); try lia;
      [destruct (Z.leb_spec 10 (m - 3))|destruct (Z.leb_spec 10 (m + 9))]; lia. }
  destruct (era_date (y' mod 400) mp d Hyoe Hmp) as [Hb Hc]; [by rewrite Hlen|].
  assert (Hdays : days_from_civil y m d + 719468 = y' / 400 * 146097 + doe_of (y' mod 400) mp d).
  { unfold days_from_civil, doe_of. fold y' mp. cbv zeta. lia. }
  unfold civil_from_days. rewrite Hdays. set (doe := doe_of (y' mod 400) mp d) in *.
  rewrite Z.div_add_l, (Z.div_small doe), Z.add_0_r by lia.
  rewrite (Z.add_comm _ doe), Z.mod_add, (Z.mod_small doe) by lia.
  unfold civil_of_doe in Hc. injection Hc as Hc1 Hc2 Hc3. cbv zeta. rewrite Hc1 in *. rewrite Hc2 in *.
  rewrite Hc3, Hmon. apply (f_equal (fun x => (x, m, d))). subst y'. destruct (Z.leb_spec m 2); lia.
Qed.

(** Every day number is that of a calendar date. *)
Lemma civil_from_days_spec days :
  let '(y, m, d) := civil_from_days days in
  valid_date y m d /\ days_from_civil y m d = days.
Proof.
  set (z := days + 719468). pose proof (Z.mod_pos_bound z 146097 ltac:(lia)) as Hb.
  pose proof (Z.div_mod z 146097 ltac:(lia)) as Hz.
  destruct (era_day (z mod 146097) Hb) as (yoe & mp & d & Hc & Hy & Hm & Hd & Hdoe).
  unfold civil_of_doe in Hc. injection Hc as Hc1 Hc2 Hc3.
  unfold civil_from_days. fold z. cbv zeta. rewrite Hc1 in *. rewrite Hc2 in *. rewrite Hc3.
  set (m := if mp <? 10 then mp + 3 else mp - 9).
  set (y := yoe + z / 146097 * 400 + (if m <=? 2 then 1 else 0)).
  assert (Hm' : 1 <= m <= 12) by (subst m; destruct (Z.ltb_spec mp 10); lia).
  assert (H2 : (m <=? 2) = (10 <=? mp)).
  { subst m. destruct (Z.ltb_spec mp 10), (Z.leb_spec 10 mp); try lia; apply Z.leb_le || apply Z.leb_gt; lia. }
  split.
  - split; [done|]. unfold era_month_days in Hd. fold m in Hd. subst y. rewrite H2.
    destruct (10 <=? mp); [|rewrite Z.add_0_r, days_in_month_era; lia].
    replace (yoe + z / 146097 * 400 + 1) with (yoe + 1 + z / 146097 * 400) by lia.
    rewrite days_in_month_era. lia.
  - unfold days_from_civil.
    assert (Hy' : (if m <=? 2 then y - 1 else y) = yoe + z / 146097 * 400)
      by (subst y; destruct (m <=? 2); lia).
    rewrite Hy', Z.div_add, (Z.div_small yoe), Z.mod_add, (Z.mod_small yoe) by lia.
    assert (Hmp : (if 2 <? m then m - 3 else m + 9) = mp)
      by (subst m; destruct (Z.ltb_spec mp 10); [destruct (Z.ltb_spec 2 (mp + 3))|destruct (Z.ltb_spec 2 (mp - 9))]; lia).
    rewrite Hmp. unfold doe_of in Hdoe. cbv zeta. subst z. lia.
Qed.
