(* ===== verification/Settings.v ===== *)
(** The operator settings of the auth service: the bounds and clamps of
    [login_settings.ts] and [session_settings.ts], the row decoding and the
    cache of [system_config.ts], the padding draw of [padding.ts] and the
    thread-pool size of [uv_threadpool.ts]. *)
From S2P Require Import Prelude JsString JsValue.

(** ** login_settings.ts *)

Definition SYSTEM_USER_ID : jstr := "01900000-0000-7000-8000-000000000006".

Definition LOGIN_PROCESS_TIME_MINIMUM_MIN := 100.
Definition LOGIN_PROCESS_TIME_MAXIMUM_MIN := 200.
Definition LOGIN_HASH_CONCURRENCY_MIN := 1.
Definition LOGIN_HASH_CONCURRENCY_DEFAULT := 4.
Definition LOGIN_HASH_CONCURRENCY_MAX := 10.
Definition LOGIN_MAXIMUM_FAILED_COUNT_MIN := 1.
Definition PASSWORD_EXPIRY_DAYS_MIN := 3.
Definition PASSWORD_GRACE_DAYS_MIN := 3.
Definition LOGIN_RATE_LIMIT_THRESHOLD_MIN := 1.
Definition LOGIN_RATE_LIMIT_THRESHOLD_DEFAULT := 10.
Definition LOGIN_RATE_LIMIT_SAMPLE_PERIOD_MIN := 1.
Definition LOGIN_RATE_LIMIT_SAMPLE_PERIOD_DEFAULT := 300.
Definition LOGIN_RATE_LIMIT_DELAY_MIN := 0.
Definition LOGIN_RATE_LIMIT_L1_DELAY_DEFAULT := 500.
Definition LOGIN_RATE_LIMIT_L2_DELAY_DEFAULT := 2000.
Definition LOGIN_RATE_LIMIT_LOCKOUT_MIN := 1.
Definition LOGIN_RATE_LIMIT_LOCKOUT_DEFAULT := 900.
Definition LOGIN_RATE_LIMIT_MAX_KIB_MIN := 8192.
Definition LOGIN_RATE_LIMIT_MAX_KIB_DEFAULT := 16384.
Definition LOGIN_RATE_LIMIT_MAX_KIB_MAX := 262144.
Definition PASSWORD_SCHEMA_MAX_CHARS := 256.
Definition USERNAME_EVENT_BOUND := 256.

Definition INVALID_OR_OVERSIZE : jstr := "invalid-or-oversize".
Definition ACCESS_DENIED : jstr := "Access denied".
Definition SERVICE_UNAVAILABLE : jstr := "Service unavailable".
Definition LOGIN_HASH_CAPACITY : jstr := "Sign-in is temporarily busy. Try again in a moment.".
Definition CHANGE_PASSWORD_HASH_CAPACITY : jstr :=
  "Password change is temporarily busy. Try again in a moment.".

Record RateLimitSettings := {
  per_user_threshold : Z;
  per_user_sample_period_s : Z;
  per_ip_threshold : Z;
  per_ip_sample_period_s : Z;
  l1_delay_ms : Z;
  l2_delay_ms : Z;
  lockout_s : Z;
  max_kib : Z }.

Record LoginProcessSettings := {
  process_time_minimum_ms : Z;
  process_time_maximum_ms : Z;
  hash_concurrency_limit : Z;
  maximum_failed_count : Z;
  cache_ttl_seconds : Z;
  password_expiry_days : Z;
  password_grace_days : Z;
  password_minimum_chars : Z;
  password_maximum_chars : Z;
  password_acceptable_crack_time_days : Z;
  password_guess_per_second : Z;
  password_estimate_drift_factor : num;
  rate_limit : RateLimitSettings }.

Definition default_rate_limit_settings : RateLimitSettings := {|
  per_user_threshold := LOGIN_RATE_LIMIT_THRESHOLD_DEFAULT;
  per_user_sample_period_s := LOGIN_RATE_LIMIT_SAMPLE_PERIOD_DEFAULT;
  per_ip_threshold := LOGIN_RATE_LIMIT_THRESHOLD_DEFAULT;
  per_ip_sample_period_s := LOGIN_RATE_LIMIT_SAMPLE_PERIOD_DEFAULT;
  l1_delay_ms := LOGIN_RATE_LIMIT_L1_DELAY_DEFAULT;
  l2_delay_ms := LOGIN_RATE_LIMIT_L2_DELAY_DEFAULT;
  lockout_s := LOGIN_RATE_LIMIT_LOCKOUT_DEFAULT;
  max_kib := LOGIN_RATE_LIMIT_MAX_KIB_DEFAULT |}.

Definition clamp_min (value min : Z) : Z := Z.max min value.

Definition clamp_rate_limit (raw : RateLimitSettings) : RateLimitSettings := {|
  per_user_threshold := clamp_min (per_user_threshold raw) LOGIN_RATE_LIMIT_THRESHOLD_MIN;
  per_user_sample_period_s :=
    clamp_min (per_user_sample_period_s raw) LOGIN_RATE_LIMIT_SAMPLE_PERIOD_MIN;
  per_ip_threshold := clamp_min (per_ip_threshold raw) LOGIN_RATE_LIMIT_THRESHOLD_MIN;
  per_ip_sample_period_s :=
    clamp_min (per_ip_sample_period_s raw) LOGIN_RATE_LIMIT_SAMPLE_PERIOD_MIN;
  l1_delay_ms := clamp_min (l1_delay_ms raw) LOGIN_RATE_LIMIT_DELAY_MIN;
  l2_delay_ms := clamp_min (l2_delay_ms raw) LOGIN_RATE_LIMIT_DELAY_MIN;
  lockout_s := clamp_min (lockout_s raw) LOGIN_RATE_LIMIT_LOCKOUT_MIN;
  max_kib := Z.min LOGIN_RATE_LIMIT_MAX_KIB_MAX
               (clamp_min (max_kib raw) LOGIN_RATE_LIMIT_MAX_KIB_MIN) |}.

Definition clamp_login_process (raw : LoginProcessSettings) : LoginProcessSettings := {|
  process_time_minimum_ms := Z.max LOGIN_PROCESS_TIME_MINIMUM_MIN (process_time_minimum_ms raw);
  process_time_maximum_ms := Z.max LOGIN_PROCESS_TIME_MAXIMUM_MIN (process_time_maximum_ms raw);
  hash_concurrency_limit :=
    Z.min LOGIN_HASH_CONCURRENCY_MAX
      (Z.max LOGIN_HASH_CONCURRENCY_MIN (hash_concurrency_limit raw));
  maximum_failed_count := Z.max LOGIN_MAXIMUM_FAILED_COUNT_MIN (maximum_failed_count raw);
  cache_ttl_seconds := Z.min 86400 (Z.max 1 (cache_ttl_seconds raw));
  password_expiry_days := Z.max PASSWORD_EXPIRY_DAYS_MIN (password_expiry_days raw);
  password_grace_days := Z.max PASSWORD_GRACE_DAYS_MIN (password_grace_days raw);
  password_minimum_chars := Z.max 1 (password_minimum_chars raw);
  password_maximum_chars := Z.max 1 (password_maximum_chars raw);
  password_acceptable_crack_time_days := Z.max 1 (password_acceptable_crack_time_days raw);
  password_guess_per_second := Z.max 1 (password_guess_per_second raw);
  password_estimate_drift_factor := num_max (NInt 1) (password_estimate_drift_factor raw);
  rate_limit := clamp_rate_limit (rate_limit raw) |}.

(** ** session_settings.ts *)

Definition SESSION_REFRESH_REUSE_GRACE_MIN := 5.
Definition SESSION_REFRESH_REUSE_GRACE_MAX := 60.
Definition SESSION_MAX_REFRESH_RETRIES_MIN := 1.
Definition SESSION_MAX_REFRESH_RETRIES_DEFAULT := 5.
Definition SESSION_MAX_REFRESH_RETRIES_MAX := 10.
Definition SESSION_REFRESH_CLEANUP_DEFAULT := 14400.
Definition SESSION_REFRESH_PROCESS_TIME_MINIMUM_MIN := 100.
Definition SESSION_REFRESH_PROCESS_TIME_MINIMUM_MAX := 500.
Definition SESSION_REFRESH_PROCESS_TIME_MAXIMUM_MIN := 200.
Definition SESSION_REFRESH_PROCESS_TIME_MAXIMUM_MAX := 1000.

Definition session_max_refresh_retries_for_client (value : jsval) : Z :=
  match value with
  | VNum (NInt n) =>
      if (SESSION_MAX_REFRESH_RETRIES_MIN <=? n) && (n <=? SESSION_MAX_REFRESH_RETRIES_MAX)
      then n else SESSION_MAX_REFRESH_RETRIES_DEFAULT
  | _ => SESSION_MAX_REFRESH_RETRIES_DEFAULT
  end.

(** ** system_config.ts: decoding the singleton row *)

(** [AuthRuntimeSettings]: the login settings and the session settings. *)
Record AuthRuntimeSettings := {
  login : LoginProcessSettings;
  session_access_ttl_seconds : Z;
  session_refresh_ttl_seconds : Z;
  session_total_ttl_seconds : Z;
  session_refresh_reuse_grace_seconds : Z;
  session_refresh_reuse_window_seconds : Z;
  session_max_refresh_retries : Z;
  session_refresh_cleanup_seconds : Z;
  session_refresh_process_time_minimum : Z;
  session_refresh_process_time_maximum : Z }.

(** The columns the SELECT names, typed as the query's row type: the ones of
    type [number], the drift factor ([string | number]) and the ones left
    [unknown].  The login columns are grouped as [clamp_login_process] takes
    them. *)
Record SettingsRow := {
  row_login : LoginProcessSettings;       (* login_*, password_*, cache TTL *)
  row_drift_factor : jsval;
  row_reuse_grace_seconds : Z;
  row_reuse_window_seconds : Z;
  row_process_time_minimum : Z;
  row_process_time_maximum : Z;
  row_access_ttl_seconds : jsval;
  row_refresh_ttl_seconds : jsval;
  row_total_ttl_seconds : jsval;
  row_max_refresh_retries : jsval;
  row_cleanup_seconds : jsval }.

(** [Number(v)] on a value of type [string | number]. *)
Definition to_number (v : jsval) : num :=
  match v with VNum n => n | VStr s => js_number s | _ => NNaN end.

Definition require_positive_int (value : jsval) (name : jstr) : outcome Z :=
  let n := match value with
           | VNum n => n
           | VStr s => if seqb (trim s) [] then NNaN else js_number s
           | _ => NNaN
           end in
  match n with
  | NInt z =>
      if z <? 1 then Exc (SessionSettingsAbortError (name ++ u " is unusable; auth abort"))
      else Val z
  | _ => Exc (SessionSettingsAbortError (name ++ u " is unusable; auth abort"))
  end.

(** Sequencing of computations that only throw. *)
Definition obind {A B} (o : outcome A) (f : A -> outcome B) : outcome B :=
  match o with Val a => f a | Exc e => Exc e end.

Notation "'try!' x := o 'in' q" := (obind o (fun x => q))
  (at level 10, x pattern, o at level 200, q at level 200).

Definition with_drift (l : LoginProcessSettings) (d : num) : LoginProcessSettings := {|
  process_time_minimum_ms := process_time_minimum_ms l;
  process_time_maximum_ms := process_time_maximum_ms l;
  hash_concurrency_limit := hash_concurrency_limit l;
  maximum_failed_count := maximum_failed_count l;
  cache_ttl_seconds := cache_ttl_seconds l;
  password_expiry_days := password_expiry_days l;
  password_grace_days := password_grace_days l;
  password_minimum_chars := password_minimum_chars l;
  password_maximum_chars := password_maximum_chars l;
  password_acceptable_crack_time_days := password_acceptable_crack_time_days l;
  password_guess_per_second := password_guess_per_second l;
  password_estimate_drift_factor := d;
  rate_limit := rate_limit l |}.

Definition abort (message : string) : exn := SessionSettingsAbortError message.

Definition abort_at (before : string) (n : Z) : exn :=
  SessionSettingsAbortError (u before ++ u " is out of range (" ++ num_to_string n ++ u "); auth abort").

Definition settings_from_row (row : SettingsRow) : outcome AuthRuntimeSettings :=
  let grace := row_reuse_grace_seconds row in
  let window_seconds := row_reuse_window_seconds row in
  let process_min := row_process_time_minimum row in
  let process_max := row_process_time_maximum row in
  if (grace <? SESSION_REFRESH_REUSE_GRACE_MIN) || (SESSION_REFRESH_REUSE_GRACE_MAX <? grace) then
    Exc (abort_at "session_refresh_reuse_grace_seconds" grace)
  else if (process_min <? SESSION_REFRESH_PROCESS_TIME_MINIMUM_MIN)
       || (SESSION_REFRESH_PROCESS_TIME_MINIMUM_MAX <? process_min) then
    Exc (abort_at "session_refresh_process_time_minimum" process_min)
  else if (process_max <? SESSION_REFRESH_PROCESS_TIME_MAXIMUM_MIN)
       || (SESSION_REFRESH_PROCESS_TIME_MAXIMUM_MAX <? process_max) then
    Exc (abort_at "session_refresh_process_time_maximum" process_max)
  else if process_max <? process_min then
    Exc (abort "session_refresh_process_time_minimum must be <= session_refresh_process_time_maximum; auth abort")
  else if window_seconds <=? grace then
    Exc (abort "session_refresh_reuse_window_seconds must be > session_refresh_reuse_grace_seconds; auth abort")
  else
    try! access_ttl := require_positive_int (row_access_ttl_seconds row) "session_access_ttl_seconds" in
    try! refresh_ttl := require_positive_int (row_refresh_ttl_seconds row) "session_refresh_ttl_seconds" in
    try! total_ttl := require_positive_int (row_total_ttl_seconds row) "session_total_ttl_seconds" in
    try! retries := require_positive_int (row_max_refresh_retries row) "session_max_refresh_retries" in
    try! cleanup := require_positive_int (row_cleanup_seconds row) "session_refresh_cleanup_seconds" in
    let login := clamp_login_process
                   (with_drift (row_login row) (to_number (row_drift_factor row))) in
    if process_time_maximum_ms login <? process_time_minimum_ms login then
      Exc (Error_ "login_process_time_minimum must be <= login_process_time_maximum")
    else Val {|
      login := login;
      session_access_ttl_seconds := access_ttl;
      session_refresh_ttl_seconds := refresh_ttl;
      session_total_ttl_seconds := total_ttl;
      session_refresh_reuse_grace_seconds := grace;
      session_refresh_reuse_window_seconds := window_seconds;
      session_max_refresh_retries := retries;
      session_refresh_cleanup_seconds := cleanup;
      session_refresh_process_time_minimum := process_min;
      session_refresh_process_time_maximum := process_max |}.

(** ** system_config.ts: the cache *)

Record CacheEntry := { cached_value : AuthRuntimeSettings; cached_expires_at : Z }.

Definition SETTINGS_RELOAD_BACKOFF_MS := 30000.

(** [invalidate()] *)
Definition cache_invalidate (entry : option CacheEntry) : option CacheEntry :=
  match entry with
  | None => None
  | Some e => Some {| cached_value := cached_value e; cached_expires_at := 0 |}
  end.

(** [get()] up to its [await pool.query]: the cached value when it is fresh,
    else the time and the entry that the rest of the call has captured. *)
Record CachePending := { pending_now : Z; pending_previous : option CacheEntry }.

Definition cache_begin (entry : option CacheEntry) (now : Z) : AuthRuntimeSettings + CachePending :=
  match entry with
  | Some e =>
      if now <? cached_expires_at e then inl (cached_value e)
      else inr {| pending_now := now; pending_previous := entry |}
  | None => inr {| pending_now := now; pending_previous := entry |}
  end.

(** [get()] from the query's outcome on: its own outcome, and the entry it
    stores when it stores one. *)
Definition cache_end (p : CachePending) (query : outcome (list SettingsRow))
    : outcome AuthRuntimeSettings * option CacheEntry :=
  let loaded :=
    try! rows := query in
    match rows with
    | [] => Exc (Error_ "system-config singleton could not be read")
    | row :: _ => settings_from_row row
    end in
  match loaded with
  | Val value =>
      (Val value, Some {| cached_value := value;
                          cached_expires_at := pending_now p + cache_ttl_seconds (login value) * 1000 |})
  | Exc error =>
      match error, pending_previous p with
      | SessionSettingsAbortError _, _ | _, None => (Exc error, None)
      | _, Some previous =>
          (Val (cached_value previous),
           Some {| cached_value := cached_value previous;
                   cached_expires_at := pending_now p + SETTINGS_RELOAD_BACKOFF_MS |})
      end
  end.

(** The cache under concurrent calls: the shared entry, and the calls that
    wait for their query.  A step may serve an outcome. *)
Record CacheState := { shared_entry : option CacheEntry; waiting : list CachePending }.

Inductive cache_step : CacheState -> option (outcome AuthRuntimeSettings) -> CacheState -> Prop :=
| CacheHit s now v : cache_begin (shared_entry s) now = inl v -> cache_step s (Some (Val v)) s
| CacheWait s now p : cache_begin (shared_entry s) now = inr p ->
    cache_step s None {| shared_entry := shared_entry s; waiting := p :: waiting s |}
| CacheAnswer s l1 p l2 query o stored : waiting s = l1 ++ p :: l2 -> cache_end p query = (o, stored) ->
    cache_step s (Some o)
      {| shared_entry := match stored with Some e => Some e | None => shared_entry s end;
         waiting := l1 ++ l2 |}
| CacheInvalidate s :
    cache_step s None {| shared_entry := cache_invalidate (shared_entry s); waiting := waiting s |}.

(** The states a new cache reaches. *)
Inductive cache_reaches : CacheState -> Prop :=
| CacheNew : cache_reaches {| shared_entry := None; waiting := [] |}
| CacheNext s o s' : cache_reaches s -> cache_step s o s' -> cache_reaches s'.

(** ** padding.ts and uv_threadpool.ts *)

(** [draw_process_time_ms], with [random] the value of [randomInt]. *)
Definition draw_process_time_ms (min max random : Z) : outcome Z :=
  if max <? min
  then Exc (Error_ "login_process_time_minimum must be <= login_process_time_maximum")
  else Val random.

Definition remaining_wait_ms (t_ms rl_delays_ms elapsed_ms : Z) : Z :=
  Z.max 0 (t_ms + rl_delays_ms - elapsed_ms).

Definition UV_THREADPOOL_HEADROOM := 2.
Definition UV_THREADPOOL_MIN := LOGIN_HASH_CONCURRENCY_MAX + UV_THREADPOOL_HEADROOM.

(** The size that [ensure_uv_threadpool] writes to the environment and returns. *)
Definition ensure_uv_threadpool (UV_THREADPOOL_SIZE : option jstr) : Z :=
  let raw := match UV_THREADPOOL_SIZE with Some s => trim s | None => [] end in
  match (if seqb raw [] then NNaN else js_number raw) with
  | NInt current => if UV_THREADPOOL_MIN <=? current then current else UV_THREADPOOL_MIN
  | _ => UV_THREADPOOL_MIN
  end.

(** ** A row to evaluate the decoding on *)

Definition sample_settings_row : SettingsRow := {|
  row_login := {| process_time_minimum_ms := 300; process_time_maximum_ms := 500;
    hash_concurrency_limit := 4; maximum_failed_count := 5; cache_ttl_seconds := 60;
    password_expiry_days := 90; password_grace_days := 14; password_minimum_chars := 12;
    password_maximum_chars := 128; password_acceptable_crack_time_days := 365;
    password_guess_per_second := 1000; password_estimate_drift_factor := NInt 1;
    rate_limit := default_rate_limit_settings |};
  row_drift_factor := VStr "1";
  row_reuse_grace_seconds := 15; row_reuse_window_seconds := 86400;
  row_process_time_minimum := 300; row_process_time_maximum := 500;
  row_access_ttl_seconds := VNum (NInt 900); row_refresh_ttl_seconds := VNum (NInt 604800);
  row_total_ttl_seconds := VStr "2592000"; row_max_refresh_retries := VNum (NInt 5);
  row_cleanup_seconds := VNum (NInt 14400) |}.

Definition sample_settings : AuthRuntimeSettings := {|
  login := clamp_login_process (row_login sample_settings_row);
  session_access_ttl_seconds := 900; session_refresh_ttl_seconds := 604800;
  session_total_ttl_seconds := 2592000; session_refresh_reuse_grace_seconds := 15;
  session_refresh_reuse_window_seconds := 86400; session_max_refresh_retries := 5;
  session_refresh_cleanup_seconds := 14400; session_refresh_process_time_minimum := 300;
  session_refresh_process_time_maximum := 500 |}.

(** ** Well-formed settings *)

Definition rate_limit_ok (r : RateLimitSettings) : Prop :=
  1 <= per_user_threshold r /\ 1 <= per_user_sample_period_s r /\
  1 <= per_ip_threshold r /\ 1 <= per_ip_sample_period_s r /\
  0 <= l1_delay_ms r /\ 0 <= l2_delay_ms r /\ 1 <= lockout_s r /\
  LOGIN_RATE_LIMIT_MAX_KIB_MIN <= max_kib r <= LOGIN_RATE_LIMIT_MAX_KIB_MAX.

Definition login_settings_ok (l : LoginProcessSettings) : Prop :=
  100 <= process_time_minimum_ms l /\ 200 <= process_time_maximum_ms l /\
  LOGIN_HASH_CONCURRENCY_MIN <= hash_concurrency_limit l <= LOGIN_HASH_CONCURRENCY_MAX /\
  1 <= maximum_failed_count l /\ 1 <= cache_ttl_seconds l <= 86400 /\
  3 <= password_expiry_days l /\ 3 <= password_grace_days l /\
  1 <= password_minimum_chars l /\ 1 <= password_maximum_chars l /\
  1 <= password_acceptable_crack_time_days l /\ 1 <= password_guess_per_second l /\
  rate_limit_ok (rate_limit l).

Definition settings_ok (s : AuthRuntimeSettings) : Prop :=
  login_settings_ok (login s) /\
  process_time_minimum_ms (login s) <= process_time_maximum_ms (login s) /\
  5 <= session_refresh_reuse_grace_seconds s <= 60 /\
  session_refresh_reuse_grace_seconds s < session_refresh_reuse_window_seconds s /\
  100 <= session_refresh_process_time_minimum s
    <= session_refresh_process_time_maximum s /\
  session_refresh_process_time_maximum s <= 1000 /\
  1 <= session_access_ttl_seconds s /\ 1 <= session_refresh_ttl_seconds s /\
  1 <= session_total_ttl_seconds s /\ 1 <= session_max_refresh_retries s /\
  1 <= session_refresh_cleanup_seconds s.

Definition entry_ok (e : option CacheEntry) : Prop :=
  match e with Some e => settings_ok (cached_value e) | None => True end.


(** ** Lemmas *)

Lemma clamp_rate_limit_ok raw : rate_limit_ok (clamp_rate_limit raw).
Proof.
  unfold rate_limit_ok, clamp_rate_limit, clamp_min; cbn.
  unfold LOGIN_RATE_LIMIT_THRESHOLD_MIN, LOGIN_RATE_LIMIT_SAMPLE_PERIOD_MIN,
    LOGIN_RATE_LIMIT_DELAY_MIN, LOGIN_RATE_LIMIT_LOCKOUT_MIN,
    LOGIN_RATE_LIMIT_MAX_KIB_MIN, LOGIN_RATE_LIMIT_MAX_KIB_MAX. lia.
Qed.

Lemma clamp_login_process_ok raw : login_settings_ok (clamp_login_process raw).
Proof.
  unfold login_settings_ok, clamp_login_process; cbn [rate_limit process_time_minimum_ms
    process_time_maximum_ms hash_concurrency_limit maximum_failed_count cache_ttl_seconds
    password_expiry_days password_grace_days password_minimum_chars password_maximum_chars
    password_acceptable_crack_time_days password_guess_per_second].
  pose proof (clamp_rate_limit_ok (rate_limit raw)).
  unfold LOGIN_PROCESS_TIME_MINIMUM_MIN, LOGIN_PROCESS_TIME_MAXIMUM_MIN,
    LOGIN_HASH_CONCURRENCY_MIN, LOGIN_HASH_CONCURRENCY_MAX, LOGIN_MAXIMUM_FAILED_COUNT_MIN,
    PASSWORD_EXPIRY_DAYS_MIN, PASSWORD_GRACE_DAYS_MIN.
  split_and!; try done; lia.
Qed.

Lemma require_positive_int_pos v name n : require_positive_int v name = Val n -> 1 <= n.
Proof.
  unfold require_positive_int. intros H. repeat case_match; simplify_eq.
  all: match goal with E : (_ <? _) = false |- _ => apply Z.ltb_ge in E; lia end.
Qed.

Lemma obind_Val {A B} (o : outcome A) (f : A -> outcome B) b :
  obind o f = Val b -> exists a, o = Val a /\ f a = Val b.
Proof. destruct o; simpl; [eauto|done]. Qed.

(** Inverts a chain of [try!] that ended normally. *)
Ltac obind_inv H :=
  repeat match type of H with
  | obind _ _ = Val _ => apply obind_Val in H as (? & ? & H)
  end.

Lemma settings_from_row_ok row s : settings_from_row row = Val s -> settings_ok s.
Proof.
  unfold settings_from_row. intros H.
  repeat match type of H with
  | (if ?b then _ else _) = _ => destruct b eqn:?; [done|]
  end.
  obind_inv H. destruct (_ <? _) eqn:? in H; [done|]. injection H as <-.
  repeat match goal with
  | E : _ || _ = false |- _ => apply orb_false_iff in E as [? ?]
  | E : (_ <? _) = false |- _ => apply Z.ltb_ge in E
  | E : (_ <=? _) = false |- _ => apply Z.leb_gt in E
  | E : require_positive_int _ _ = Val _ |- _ => apply require_positive_int_pos in E
  end.
  unfold settings_ok, SESSION_REFRESH_REUSE_GRACE_MIN, SESSION_REFRESH_REUSE_GRACE_MAX,
    SESSION_REFRESH_PROCESS_TIME_MINIMUM_MIN, SESSION_REFRESH_PROCESS_TIME_MINIMUM_MAX,
    SESSION_REFRESH_PROCESS_TIME_MAXIMUM_MIN, SESSION_REFRESH_PROCESS_TIME_MAXIMUM_MAX in *.
  pose proof (clamp_login_process_ok
    (with_drift (row_login row) (to_number (row_drift_factor row)))).
  cbn -[clamp_login_process login_settings_ok] in *. split_and!; try done; lia.
Qed.

Lemma sample_settings_ok : settings_ok sample_settings.
Proof. apply (settings_from_row_ok sample_settings_row). reflexivity. Qed.

Lemma cache_end_ok p query o stored : cache_end p query = (o, stored) -> entry_ok (pending_previous p) ->
  match o with Val v => settings_ok v | Exc _ => True end /\ entry_ok stored.
Proof.
  unfold cache_end. intros H Hp.
  destruct (obind query _) as [v|e] eqn:Hl.
  - injection H as <- <-. apply obind_Val in Hl as (rows & _ & Hl).
    destruct rows as [|row rows]; [done|]. apply settings_from_row_ok in Hl. done.
  - destruct e, (pending_previous p); injection H as <- <-; done.
Qed.

Lemma cache_reaches_ok s : cache_reaches s ->
  entry_ok (shared_entry s) /\ Forall (fun p => entry_ok (pending_previous p)) (waiting s).
Proof.
  induction 1 as [|s o s' _ [IH1 IH2] Hstep]; [done|].
  destruct Hstep as [s now v Hb|s now p Hb|s l1 p l2 query o stored Hw He|s]; simpl; [done| | |].
  - unfold cache_begin in Hb. split; [done|]. constructor; [|done].
    destruct (shared_entry s) as [e|]; [destruct (_ <? _)|]; by simplify_eq/=.
  - rewrite Hw, Forall_app, Forall_cons in IH2. destruct IH2 as (IH2 & Hp & IH3).
    apply cache_end_ok in He as [_ He]; [|done].
    split; [by destruct stored|]. by apply Forall_app.
  - split; [|done]. by destruct (shared_entry s).
Qed.

(** ** The properties *)



(** However calls of the settings cache overlap, each is served
    well-formed settings or an exception, and a value is never served without
    a query at or after its expiry. *)
Theorem cache_serves_wf s o s' : cache_reaches s -> cache_step s (Some o) s' ->
  (forall v, o = Val v -> settings_ok v) /\
  (forall e now, shared_entry s = Some e -> cached_expires_at e <= now ->
     cache_begin (shared_entry s) now = inr {| pending_now := now; pending_previous := Some e |}).
Proof.
  intros [Hs Hw]%cache_reaches_ok Hstep. split.
  - intros v ->. inversion Hstep as [? now ? Hb| |? l1 p l2 query ? stored Hl He|]; subst.
    + unfold cache_begin in Hb. destruct (shared_entry s') as [e|]; [|done].
      destruct (_ <? _); by simplify_eq/=.
    + rewrite Hl, Forall_app, Forall_cons in Hw. destruct Hw as (_ & Hp & _).
      apply cache_end_ok in He as [He _]; done.
  - intros e now -> Hle. unfold cache_begin.
    by rewrite (proj2 (Z.ltb_ge _ _) Hle).
Qed.

Lemma cache_serves_wf_witness : settings_ok sample_settings.
Proof.
  assert (H0 : cache_reaches {| shared_entry := None;
                                waiting := [{| pending_now := 5; pending_previous := None |}] |})
    by exact (CacheNext _ _ _ CacheNew (CacheWait {| shared_entry := None; waiting := [] |} 5 _ eq_refl)).
  destruct (cache_serves_wf _ (Val sample_settings) _ H0
    (CacheAnswer {| shared_entry := None; waiting := [{| pending_now := 5; pending_previous := None |}] |} [] {| pending_now := 5; pending_previous := None |} [] (Val [sample_settings_row])
       _ _ eq_refl eq_refl)) as [H _].
  exact (H _ eq_refl).
Defined.

(** An invalidation during a reload is lost: there is a run in
    which the cache is invalidated while a call waits for its query, and the
    value that this call then stores, which it may have read before the change,
    is served without a query until its whole lifetime has passed. *)
Theorem invalidation_lost_in_flight :
  exists s stored, cache_reaches s /\
    cache_step s None {| shared_entry := cache_invalidate (shared_entry s); waiting := waiting s |} /\
    cache_step {| shared_entry := cache_invalidate (shared_entry s); waiting := waiting s |}
      (Some (Val sample_settings)) stored /\
    forall now, now < 1005 + 60 * 1000 -> cache_begin (shared_entry stored) now = inl sample_settings.
Proof.
  set (p := {| pending_now := 1005; pending_previous := None |}).
  exists {| shared_entry := None; waiting := [p] |}.
  exists {| shared_entry := Some {| cached_value := sample_settings; cached_expires_at := 1005 + 60 * 1000 |};
            waiting := [] |}.
  split_and!.
  - exact (CacheNext _ _ _ CacheNew (CacheWait {| shared_entry := None; waiting := [] |} 1005 p eq_refl)).
  - exact (CacheInvalidate {| shared_entry := None; waiting := [p] |}).
  - exact (CacheAnswer {| shared_entry := None; waiting := [p] |} [] p [] (Val [sample_settings_row])
             (Val sample_settings) _ eq_refl eq_refl).
  - intros now Hnow. unfold cache_begin. simpl. by rewrite (proj2 (Z.ltb_lt _ _) Hnow).
Qed.
