(* ===== verification/Effects.v ===== *)
(** The calls the auth service makes outside its own pure code, as one
    signature [AuthE]: the dependencies that [AuthConfig] (config.ts) bundles,
    the clock and the random source, the statements sent to the database and
    the writes to the HTTP response.  An answer of type [outcome] is a call
    that may throw.  Nothing is assumed of the answers: a run may interleave
    with other requests in any way, since each call can answer anything of its
    type. *)
From S2P Require Import Prelude JsString JsValue Settings.

(** ** Data shared by the components *)

(** [AuditEvent] of audit.ts *)
Record AuditEvent := {
  event_type : jstr;
  actor_channel : jstr;
  outcome_ : jstr;
  reason : jstr;
  severity : jstr;
  correlation_id : jstr;
  event_user_id : option jstr;
  event_ip_address : option jstr;
  timestamp : jstr;
  data : list (jstr * jsval) }.

(** [LoadedUser] of users.ts; a [Date] is its time value. *)
Record LoadedUser := {
  user_id : jstr;
  username : jstr;
  password_hash : jstr;
  display_name : jstr;
  is_active : bool;
  failed_login_count : Z;
  password_expires_at : Z }.

(** [NewUserSession] of sessions.ts *)
Record NewUserSession := {
  session_id : jstr;
  session_user_id : jstr;
  refresh_hmac : option jstr;
  session_expires_at : Z;
  refresh_expires_at : Z;
  ip_address : option jstr;
  user_agent : option jstr }.

(** [AttemptRotateArgs] of sessions.ts *)
Record AttemptRotateArgs := {
  old_hmac : jstr;
  new_hmac : jstr;
  rotate_user_id : jstr;
  rotate_session_id : jstr;
  rotate_now : Z;
  refresh_ttl_seconds : Z;
  reuse_grace_seconds : Z;
  reuse_window_seconds : Z;
  rotate_ip_address : option jstr;
  rotate_user_agent : option jstr }.

(** [AttemptRotateResult] of sessions.ts *)
Inductive AttemptRotateResult :=
| Rotated (refresh_expires_at session_expires_at : Z)
| Expired
| SoftReuse
| HardReuse
| UnknownToken.

(** [RateLimitResult] of rate_limit.ts *)
Record RateLimitResult := { delay_ms : Z; lockout : bool }.

(** [JWTPayload] of the jose package: the decoded claims. *)
Definition JWTPayload : Type := list (jstr * jsval).

(** A row of user_session as read under lock. *)
Record LockedSessionRow := {
  locked_session_expires_at : Z;
  locked_refresh_expires_at : Z }.

(** The statements of sessions.ts, users.ts, change_password_apply.ts and
    session_cleanup.ts with the type of their answer: the selected rows, or
    the number of rows changed. *)
Inductive query : Type -> Type :=
| QBegin : query unit
| QCommit : query unit
| QRollback : query unit
| QInsertSession (row : NewUserSession) (stamped : Z) (actor : jstr) : query Z
| QSelectSessionForUpdate (hmac uid sid : jstr) : query (list LockedSessionRow)
| QInsertUsedToken (id hmac uid sid : jstr) (used_at expires_at stamped : Z) (actor : jstr) : query Z
| QUpdateSessionRotate (hmac : jstr) (refresh_expires : Z) (ip ua : option jstr)
    (stamped : Z) (actor sid uid : jstr) : query Z
| QSelectUsed (hmac uid sid : jstr) : query (list Z)
| QDeleteUsedBySession (sid uid : jstr) : query Z
| QDeleteSession (sid uid : jstr) : query Z
| QDeleteUsedExpired (now : Z) : query Z
| QDeleteSessionsExpired (now : Z) : query Z
| QSelectUserForUpdate (uid : jstr) : query (list LoadedUser)
| QSelectSession (sid uid : jstr) : query (list NewUserSession)
| QUpdatePassword (hash : jstr) (expires_at stamped : Z) (actor uid : jstr) : query Z
| QUpdateFirstRefresh (hmac : jstr) (refresh_expires : Z) (ip ua : option jstr)
    (stamped : Z) (actor sid uid : jstr) : query Z
| QDeleteUsedByUser (uid : jstr) : query Z
| QDeleteSessionsByUser (uid : jstr) : query Z
| QSelectUserByName (name : jstr) : query (list LoadedUser)
| QSelectUserById (uid : jstr) : query (list LoadedUser)
| QUpdateFailedCount (count stamped : Z) (actor uid : jstr) : query Z.

Inductive AuthE : Type -> Type :=
(* clock and random source *)
| NowMs : AuthE Z
| NewDate : AuthE Z
| DrawT (min max : Z) : AuthE (outcome Z)
| Sleep (ms : Z) : AuthE unit
| RandomBytes (n : Z) : AuthE (list Z)
| RandomUUID : AuthE jstr
(* audit sink and settings *)
| AuditEmit (event : AuditEvent) : AuthE (outcome unit)
| GetSettings : AuthE (outcome AuthRuntimeSettings)
(* hash slots and rate limit *)
| SlotTryAcquire : AuthE bool
| SlotRelease : AuthE unit
| RlEvaluate (username_key : jstr) (source_ip : option jstr) : AuthE (outcome RateLimitResult)
| RlRecordFailure (username_key : jstr) (source_ip : option jstr) : AuthE (outcome unit)
(* users and passwords *)
| LoadByUsername (folded : jstr) : AuthE (outcome (option LoadedUser))
| LoadById (id : jstr) : AuthE (outcome (option LoadedUser))
| SetFailedLoginCount (id : jstr) (count : Z) : AuthE (outcome unit)
| RolesAndPermissions (id : jstr) : AuthE (outcome (list jstr * list jstr))
| VerifyPassword (hash password : jstr) : AuthE (outcome bool)
| HashPassword (password : jstr) : AuthE (outcome jstr)
(* sessions and tokens *)
| SessCreate (row : NewUserSession) : AuthE (outcome unit)
| SessAttemptRotate (args : AttemptRotateArgs) : AuthE (outcome AttemptRotateResult)
| SessInvalidate (uid sid : jstr) : AuthE (outcome unit)
| SignJwt (claims : JWTPayload) (subject : jstr) (issued : Z) (exp : num) : AuthE (outcome jstr)
(* database connection *)
| PgConnect : AuthE (outcome unit)
| PgQuery (X : Type) (q : query X) : AuthE (outcome X)
| PgRelease : AuthE unit
(* HTTP response *)
| RespStatus (status : Z) : AuthE unit
| RespHeader (name : jstr) (values : list jstr) : AuthE unit
| RespEnd (body : list Z) : AuthE unit
| RespHeadersSent : AuthE bool.
Arguments PgQuery {X} q.

(** A program of the auth service. *)
Abbreviation M := (IO AuthE).

Abbreviation trace := (list (event AuthE)).

(** An environment that answers each call by a function of its arguments. *)
Definition answers (f : forall X, AuthE X -> X) : handler AuthE unit := fun X e s => (f X e, s).

(** An environment to evaluate programs on, without a database. *)
Definition sample_calls : forall X, AuthE X -> X := fun X c =>
  match c in AuthE X return X with
  | NowMs => 0 | NewDate => 1000000 | DrawT lo _ => Val lo | Sleep _ => tt
  | RandomBytes n => repeat 7 (Z.to_nat n) | RandomUUID => u "uuid"
  | AuditEmit _ => Val tt | GetSettings => Exc (Error_ "down")
  | SlotTryAcquire => true | SlotRelease => tt
  | RlEvaluate _ _ => Val {| delay_ms := 0; lockout := false |} | RlRecordFailure _ _ => Val tt
  | LoadByUsername _ => Val None | LoadById _ => Val None
  | SetFailedLoginCount _ _ => Val tt | RolesAndPermissions _ => Val ([], [])
  | VerifyPassword _ _ => Val false | HashPassword p => Val p
  | SessCreate _ => Val tt | SessAttemptRotate _ => Val UnknownToken | SessInvalidate _ _ => Val tt
  | SignJwt _ _ _ _ => Val [] | PgConnect => Val tt
  | PgQuery _ => Exc (Error_ "no database") | PgRelease => tt
  | RespStatus _ => tt | RespHeader _ _ => tt | RespEnd _ => tt | RespHeadersSent => false
  end.

(** ** Reading a trace *)

(** Is the event an answered call of this kind? *)
Definition is_sleep (e : event AuthE) : option Z :=
  match e with
  | Ev c _ => match c with Sleep ms => Some ms | _ => None end
  end.

(** The clock readings of a run, in order. *)
Definition clock_reading (e : event AuthE) : option Z :=
  match e with
  | @Ev _ X c x =>
      match c in AuthE X return X -> option Z with
      | NowMs => fun t => Some t
      | _ => fun _ => None
      end x
  end.

(** The processing time drawn for a run. *)
Definition drawn (e : event AuthE) : option Z :=
  match e with
  | @Ev _ X c x =>
      match c in AuthE X return X -> option Z with
      | DrawT _ _ => fun o => match o with Val t => Some t | Exc _ => None end
      | _ => fun _ => None
      end x
  end.

(** The delay the rate limiter asked for. *)
Definition rl_delay (e : event AuthE) : option Z :=
  match e with
  | @Ev _ X c x =>
      match c in AuthE X return X -> option Z with
      | RlEvaluate _ _ => fun o => match o with Val r => Some (delay_ms r) | Exc _ => None end
      | _ => fun _ => None
      end x
  end.

(** +1 for a slot obtained, -1 for a slot released. *)
Definition slot_change (e : event AuthE) : Z :=
  match e with
  | @Ev _ X c x =>
      match c in AuthE X return X -> Z with
      | SlotTryAcquire => fun b : bool => if b then 1 else 0
      | SlotRelease => fun _ => -1
      | _ => fun _ => 0
      end x
  end.

(** The audit event sent, with whether the sink took it. *)
Definition audited (e : event AuthE) : option (AuditEvent * bool) :=
  match e with
  | @Ev _ X c x =>
      match c in AuthE X return X -> option (AuditEvent * bool) with
      | AuditEmit ev => fun o => Some (ev, match o with Val _ => true | Exc _ => false end)
      | _ => fun _ => None
      end x
  end.

Definition slot_balance (tr : trace) : Z := sumZ (map slot_change tr).

(** From [held] slots held: never more than one held, never one released that
    is not held, and none at the end. *)
Fixpoint slot_discipline (held : Z) (tr : trace) : bool :=
  match tr with
  | [] => held =? 0
  | e :: tr' =>
      let h := held + slot_change e in
      (0 <=? h) && (h <=? 1) && slot_discipline h tr'
  end.

(** No slot is touched. *)
Definition slot_quiet (tr : trace) : bool := forallb (fun e => slot_change e =? 0) tr.

Definition is_response (e : event AuthE) : bool :=
  match e with
  | Ev c _ => match c with
              | RespStatus _ | RespHeader _ _ | RespEnd _ | RespHeadersSent => true
              | _ => false
              end
  end.

(** The response is not touched. *)
Definition response_quiet (tr : trace) : bool := forallb (fun e => negb (is_response e)) tr.

Definition sleeps (tr : trace) : list Z := omap is_sleep tr.
Definition clocks (tr : trace) : list Z := omap clock_reading tr.
Definition draws (tr : trace) : list Z := omap drawn tr.
Definition rl_delays (tr : trace) : list Z := omap rl_delay tr.
Definition audits (tr : trace) : list (AuditEvent * bool) := omap audited tr.

(** The elapsed time between the first and the last clock reading. *)
Definition elapsed (tr : trace) : Z :=
  match clocks tr with
  | [] => 0
  | t :: ts => List.last ts t - t
  end.

(** ** Lemmas *)

Lemma slot_balance_app t1 t2 : slot_balance (t1 ++ t2) = slot_balance t1 + slot_balance t2.
Proof. unfold slot_balance. by rewrite map_app, sumZ_app. Qed.

Lemma audits_app t1 t2 : audits (t1 ++ t2) = audits t1 ++ audits t2.
Proof. apply omap_app. Qed.

Lemma slot_discipline_quiet held t1 t2 : slot_quiet t1 = true -> 0 <= held <= 1 ->
  slot_discipline held (t1 ++ t2) = slot_discipline held t2.
Proof.
  intros Hq Hh. induction t1 as [|e t1 IH]; simpl in *; [done|].
  apply andb_true_iff in Hq as [He Hq]. apply Z.eqb_eq in He. rewrite He, Z.add_0_r, IH by done.
  by rewrite !(proj2 (Z.leb_le _ _)) by lia.
Qed.

Lemma slot_discipline_app held t1 t2 : slot_discipline held t1 = true -> slot_discipline 0 t2 = true ->
  slot_discipline held (t1 ++ t2) = true.
Proof.
  revert held. induction t1 as [|e t1 IH]; intros held; simpl.
  - intros Hh%Z.eqb_eq. by subst.
  - rewrite !andb_true_iff. intros [? ?] ?. auto.
Qed.

Lemma slot_quiet_app t1 t2 : slot_quiet (t1 ++ t2) = slot_quiet t1 && slot_quiet t2.
Proof. apply forallb_app. Qed.

Lemma response_quiet_app t1 t2 : response_quiet (t1 ++ t2) = response_quiet t1 && response_quiet t2.
Proof. apply forallb_app. Qed.

#[export] Hint Rewrite slot_balance_app audits_app : untangled_rw.
