(* ===== verification/AuditEvents.v ===== *)
(** audit.ts: the audit events of the auth service and the bound on the text
    they carry.  Building an event draws a correlation id and reads the
    clock. *)
From S2P Require Import Prelude JsString JsValue JsDate Settings Effects.

Definition AUTH_REFRESH : jstr := "auth.refresh".
Definition AUTH_REFRESH_REUSE : jstr := "auth.refresh_reuse".
Definition AUTH_LOGOUT : jstr := "auth.logout".
Definition AUTH_CSRF_DENIED : jstr := "auth.csrf_denied".
Definition AUTH_RATE_LIMIT_TRIP : jstr := "auth.rate_limit_trip".
Definition CSRF_DENIED_ORIGIN : jstr := "origin_mismatch".
Definition CSRF_DENIED_CSRF : jstr := "csrf_mismatch".

Definition bound_event_text_at (limit : Z) (raw : jstr) : jstr :=
  if jlen raw <=? limit then raw else slice raw 0 limit.

Definition bound_event_text (raw : jstr) : jstr := bound_event_text_at USERNAME_EVENT_BOUND raw.
Arguments bound_event_text : simpl never.

Definition new_correlation_id : M jstr := perform RandomUUID.

Definition audit_timestamp : M jstr := let* now := perform NewDate in ret (to_iso_string now).

(** The fields in the order the literals evaluate them: the correlation id,
    then the timestamp. *)
Definition make_event (event_type actor_channel outcome_ reason severity : jstr)
    (user_id ip_address : option jstr) (data : list (jstr * jsval)) : M AuditEvent :=
  let* correlation_id := new_correlation_id in
  let* timestamp := audit_timestamp in
  ret {| event_type := event_type; actor_channel := actor_channel; outcome_ := outcome_;
         reason := reason; severity := severity; correlation_id := correlation_id;
         event_user_id := user_id; event_ip_address := ip_address;
         timestamp := timestamp; data := data |}.

Definition login_audit_event (success : bool) (reason : jstr) (user_id ip_address : option jstr)
    (data : list (jstr * jsval)) (capacity : bool) : M AuditEvent :=
  make_event (if success then u "auth.login" else u "auth.failed") "human"
    (if success then u "success" else u "failure") reason
    (if success then u "info" else if capacity then u "warning" else u "notice")
    user_id ip_address data.

Definition rate_limit_trip_audit_event (kind context_key : jstr) (ip_address : option jstr)
    : M AuditEvent :=
  make_event AUTH_RATE_LIMIT_TRIP "system" "failure" "lockout_started" "notice" None ip_address
    [(u "context_kind", VStr kind); (u "context_key", VStr (bound_event_text context_key))].

Definition refresh_audit_event (success : bool) (reason : jstr) (user_id ip_address : option jstr)
    (data : list (jstr * jsval)) : M AuditEvent :=
  make_event AUTH_REFRESH "human" (if success then u "success" else u "failure") reason
    (if success then u "info" else u "notice") user_id ip_address data.

Definition refresh_reuse_audit_event (user_id ip_address : option jstr)
    (data : list (jstr * jsval)) : M AuditEvent :=
  make_event AUTH_REFRESH_REUSE "human" "failure" "replay" "warning" user_id ip_address data.

Definition logout_audit_event (user_id ip_address : option jstr)
    (data : list (jstr * jsval)) : M AuditEvent :=
  make_event AUTH_LOGOUT "human" "success" "logout_ok" "info" user_id ip_address data.

Definition csrf_denied_audit_event (reason : jstr) (ip_address : option jstr)
    (data : list (jstr * jsval)) : M AuditEvent :=
  make_event AUTH_CSRF_DENIED "human" "failure" reason "notice" None ip_address data.

(** [password_change_audit] of change_password.ts *)
Definition password_change_audit (success : bool) (user_id ip_address : option jstr)
    (reason : jstr) (data : list (jstr * jsval)) : M unit :=
  let* event := make_event "auth.password_change" "human"
    (if success then u "success" else u "failure") reason
    (if success then u "info" else u "warning") user_id ip_address data in
  call (AuditEmit event).

(** ** Lemmas *)

Lemma jlen_slice_le s a b : 0 <= a <= b -> jlen (slice s a b) <= b - a.
Proof. intros. unfold jlen, slice. rewrite length_firstn, length_skipn. lia. Qed.

Lemma bound_event_text_at_le limit raw : 0 <= limit -> jlen (bound_event_text_at limit raw) <= limit.
Proof.
  intros. unfold bound_event_text_at. destruct (Z.leb_spec (jlen raw) limit); [done|].
  pose proof (jlen_slice_le raw 0 limit). lia.
Qed.

Lemma bound_event_text_prefix raw : exists rest, raw = bound_event_text raw ++ rest.
Proof.
  unfold bound_event_text, bound_event_text_at. destruct (_ <=? _).
  - exists []. by rewrite app_nil_r.
  - unfold slice. simpl. eexists. symmetry. apply firstn_skipn.
Qed.
