(* ===== verification/AuditFile.v ===== *)
(** audit.ts: the sinks.  The memory sink is a list; the rolling file sink
    keeps one file open, appends a line per event and begins a new file by
    size or age.  Its [emit]s are chained on one promise, so that the writes
    run one at a time in the order they were asked for.  The calls of the file
    system and of the clock may fail or answer anything at any point. *)
From S2P Require Import Prelude JsString JsValue JsText JsDate JsUtf8 Effects.

(** ** Data *)

Definition opt_json (o : option jstr) : jsval := match o with Some s => VStr s | None => VNull end.

(** The event as an object, its fields in the order of the literals. *)
Definition event_value (e : AuditEvent) : jsval :=
  VObj [(u "event_type", VStr (event_type e)); (u "actor_channel", VStr (actor_channel e));
        (u "outcome", VStr (outcome_ e)); (u "reason", VStr (reason e));
        (u "severity", VStr (severity e)); (u "correlation_id", VStr (correlation_id e));
        (u "user_id", opt_json (event_user_id e)); (u "ip_address", opt_json (event_ip_address e));
        (u "timestamp", VStr (timestamp e)); (u "data", VObj (data e))].

Definition compact_json (event : AuditEvent) : jstr := json_text (event_value event).

(** [memory_audit_sink]: what [emit] leaves in the array. *)
Definition memory_audit_sink (events : list AuditEvent) (event : AuditEvent) : list AuditEvent :=
  events ++ [event].

(** The calls of node:fs/promises, the clock and stderr.  A handle is named by
    the number of its [open]. *)
Inductive FileE : Type -> Type :=
| FMkdir (directory : jstr) : FileE (outcome unit)
| FNewDate : FileE Z
| FDateNow : FileE Z
| FOpen (path : jstr) : FileE (outcome Z)
| FStat (path : jstr) : FileE (outcome Z)
| FWrite (fd : Z) (line : jstr) : FileE (outcome unit)
| FSync (fd : Z) : FileE (outcome unit)
| FClose (fd : Z) : FileE (outcome unit)
| FStderr (text : jstr) : FileE unit.

(** The variables of [make_file_audit_sink]; [opened_at] in milliseconds. *)
Record FileSink := {
  sink_seq : Z;
  sink_handle : option Z;
  sink_path : option jstr;
  sink_opened_at : Z }.

Definition new_file_sink : FileSink :=
  {| sink_seq := 0; sink_handle := None; sink_path := None; sink_opened_at := 0 |}.

(** The options with their defaults. *)
Record SinkOptions := {
  opt_directory : jstr;
  rollover_bytes : num;
  rollover_seconds : num;
  sink_pid : Z }.

Definition file_sink_options (directory : jstr) (bytes seconds : option num) (pid : option Z) (own_pid : Z)
    : SinkOptions :=
  {| opt_directory := directory;
     rollover_bytes := match bytes with Some n => n | None => NInt 1048576 end;
     rollover_seconds := match seconds with Some n => n | None => NInt 86400 end;
     sink_pid := match pid with Some p => p | None => own_pid end |}.

(** ** Programs that assign the sink's variables

    An exception keeps the assignments made before it. *)
Definition FM (A : Type) : Type := FileSink -> prog FileE (outcome A * FileSink).

Definition fret {A} (a : A) : FM A := fun s => Ret (Val a, s).
Definition fthrow {A} (e : exn) : FM A := fun s => Ret (Exc e, s).
Definition fbind {A B} (m : FM A) (k : A -> FM B) : FM B := fun s =>
  bind (m s) (fun r => match r with (Val a, s') => k a s' | (Exc e, s') => Ret (Exc e, s') end).
Definition fcatch {A} (m : FM A) (h : exn -> FM A) : FM A := fun s =>
  bind (m s) (fun r => match r with (Val a, s') => Ret (Val a, s') | (Exc e, s') => h e s' end).
Definition fget : FM FileSink := fun s => Ret (Val s, s).
Definition fput (s : FileSink) : FM unit := fun _ => Ret (Val tt, s).
Definition fcall {A} (c : FileE (outcome A)) : FM A := fun s => Vis c (fun o => Ret (o, s)).
Definition fperform {A} (c : FileE A) : FM A := fun s => Vis c (fun a => Ret (Val a, s)).

Declare Scope file_scope.
Delimit Scope file_scope with file.
Notation "'let!' x := p 'in' q" := (fbind p (fun x => q))
  (at level 10, x pattern, p at level 200, q at level 200) : file_scope.
Notation "p ;; q" := (fbind p (fun _ => q)) (at level 100, right associativity) : file_scope.
#[local] Open Scope file_scope.

Definition set_handle (h : option Z) (p : option jstr) (s : FileSink) : FileSink :=
  {| sink_seq := sink_seq s; sink_handle := h; sink_path := p; sink_opened_at := sink_opened_at s |}.

(** ** The operations *)

Definition close_unlocked : FM unit :=
  let! s := fget in
  match sink_handle s with
  | Some fd => fcall (FClose fd) ;; fput (set_handle None None s)
  | None => fret tt
  end.

(** [.replace(/[-:]/g, "")] and [.replace(/\.\d{3}Z$/, "Z")] *)
Definition strip_millis (t : jstr) : jstr :=
  match rev t with
  | z :: c :: b :: a :: dot :: rest =>
      if (z =? 90) && is_digit c && is_digit b && is_digit a && (dot =? 46) then rev rest ++ [90] else t
  | _ => t
  end.

Definition file_stamp (now : Z) : jstr :=
  strip_millis (List.filter (fun c => negb ((c =? 45) || (c =? 58))) (to_iso_string now)).

Definition file_path (o : SinkOptions) (stamp : jstr) (seq : Z) : jstr :=
  opt_directory o ++ u "/audit-" ++ stamp ++ u "-" ++ num_to_string (sink_pid o) ++ u "-" ++
  num_to_string seq ++ u ".ndjson".

Definition open_new (o : SinkOptions) : FM unit :=
  fcall (FMkdir (opt_directory o)) ;;
  let! s := fget in
  let seq := sink_seq s + 1 in
  fput {| sink_seq := seq; sink_handle := sink_handle s; sink_path := sink_path s;
          sink_opened_at := sink_opened_at s |} ;;
  let! now := fperform FNewDate in
  let path := file_path o (file_stamp now) seq in
  let! s := fget in
  fput (set_handle (sink_handle s) (Some path) s) ;;
  let! fd := fcall (FOpen path) in
  let! s := fget in
  fput (set_handle (Some fd) (sink_path s) s) ;;
  let! now := fperform FDateNow in
  let! s := fget in
  fput {| sink_seq := sink_seq s; sink_handle := sink_handle s; sink_path := sink_path s;
          sink_opened_at := now |}.

(** [size >= rollover_bytes || age >= rollover_seconds]; a comparison with NaN
    is false. *)
Definition rollover_due (o : SinkOptions) (size opened_at now : Z) : bool :=
  num_leb (rollover_bytes o) (NInt size) ||
  num_leb (rollover_seconds o) (num_of_fraction (now - opened_at) 1000).

Definition ensure_file (o : SinkOptions) : FM unit :=
  let! s := fget in
  match sink_handle s, sink_path s with
  | Some _, Some path =>
      let! size := fcatch (fcall (FStat path)) (fun _ => fret 0) in
      let! now := fperform FDateNow in
      if rollover_due o size (sink_opened_at s) now then close_unlocked ;; open_new o else fret tt
  | _, _ => open_new o
  end.

(** [error.message], the error's class having one. *)
Definition error_message (e : exn) : jstr :=
  match e with Error_ m | SessionSettingsAbortError m | RoleGraphError m => m end.

(** The part of [write] after the line is stored. *)
Definition close_when_due (o : SinkOptions) : FM unit :=
  let! s := fget in
  match sink_path s with
  | Some path =>
      let! size := fcall (FStat path) in
      let! now := fperform FDateNow in
      if rollover_due o size (sink_opened_at s) now then close_unlocked else fret tt
  | None => fret tt
  end.

Definition event_line (event : AuditEvent) : jstr := compact_json event ++ [10].
#[local] Arguments event_line : simpl never.

Definition write_body (o : SinkOptions) (event : AuditEvent) : FM unit :=
  ensure_file o ;;
  let! s := fget in
  match sink_handle s with
  | None => fthrow (Error_ (u "audit file handle missing"))
  | Some fd =>
      fcall (FWrite fd (event_line event)) ;;
      fcall (FSync fd) ;;
      close_when_due o
  end.

Definition write (o : SinkOptions) (event : AuditEvent) : FM unit :=
  fcatch (write_body o event) (fun error =>
    fperform (FStderr (u "untangled-auth audit write failed: " ++ error_message error ++ [10])) ;;
    fthrow error).

(** ** The file system

    The files of the sink's directory in the order of their creation, and the
    open handles.  A call may fail; what a failed write leaves, and whether
    [stat] may fail, are the environment's choice. *)
Record FsKind := { torn_writes : bool; stat_fails : bool }.

Record Fs := {
  fs_files : list (jstr * list Z);
  fs_open : list (Z * jstr);
  fs_next : Z;
  fs_peak : nat }.

Definition empty_fs : Fs := {| fs_files := []; fs_open := []; fs_next := 1; fs_peak := 0 |}.

Definition has_file (p : jstr) (files : list (jstr * list Z)) : bool := existsb (fun f => seqb p f.1) files.

Definition file_append (p : jstr) (bytes : list Z) (files : list (jstr * list Z)) : list (jstr * list Z) :=
  map (fun f => if seqb p f.1 then (f.1, f.2 ++ bytes) else f) files.

Definition fs_append (p : jstr) (bytes : list Z) (f : Fs) : Fs :=
  {| fs_files := file_append p bytes (fs_files f); fs_open := fs_open f; fs_next := fs_next f; fs_peak := fs_peak f |}.

Definition fs_opened (p : jstr) (f : Fs) : Fs :=
  {| fs_files := if has_file p (fs_files f) then fs_files f else fs_files f ++ [(p, [])];
     fs_open := fs_open f ++ [(fs_next f, p)]; fs_next := fs_next f + 1;
     fs_peak := Nat.max (fs_peak f) (S (length (fs_open f))) |}.

Definition fs_closed (fd : Z) (f : Fs) : Fs :=
  {| fs_files := fs_files f; fs_open := List.filter (fun h => negb (h.1 =? fd)) (fs_open f);
     fs_next := fs_next f; fs_peak := fs_peak f |}.

(** The answers a call may have, and the files after it.  A handle is dead
    once its close was asked for, even if that failed. *)
Definition fs_answer (w : FsKind) {X} (c : FileE X) : Fs -> X -> Fs -> Prop :=
  match c in FileE X return Fs -> X -> Fs -> Prop with
  | FMkdir _ => fun f _ f' => f' = f
  | FNewDate => fun f _ f' => f' = f
  | FDateNow => fun f _ f' => f' = f
  | FOpen p => fun f o f' =>
      match o with Val fd => fd = fs_next f /\ f' = fs_opened p f | Exc _ => f' = f end
  | FStat p => fun f o f' => f' = f /\
      match o with
      | Val n => exists c, (p, c) ∈ fs_files f /\ n = Z.of_nat (length c)
      | Exc _ => stat_fails w = true \/ has_file p (fs_files f) = false
      end
  | FWrite fd line => fun f o f' =>
      match o with
      | Val _ => exists p, (fd, p) ∈ fs_open f /\ f' = fs_append p (utf8_bytes line) f
      | Exc _ => f' = f \/ (torn_writes w = true /\
          exists p k, (fd, p) ∈ fs_open f /\ f' = fs_append p (take k (utf8_bytes line)) f)
      end
  | FSync _ => fun f _ f' => f' = f
  | FClose fd => fun f _ f' => f' = fs_closed fd f
  | FStderr _ => fun f _ f' => f' = f
  end.

(** The program may run from the files [f] to the result [a] and the files
    [f']. *)
Fixpoint fs_run (w : FsKind) {A} (p : prog FileE A) (f : Fs) (a : A) (f' : Fs) : Prop :=
  match p with
  | Ret a' => a = a' /\ f' = f
  | Vis c k => exists x f1, fs_answer w c f x f1 /\ fs_run w (k x) f1 a f'
  end.

(** ** The chain of emits

    [emit] puts the write at the end of the promise chain; it begins when the
    one before it has settled either way. *)
Record Chain := {
  chain_sink : FileSink;
  chain_running : option (prog FileE (outcome unit * FileSink));
  chain_waiting : list AuditEvent;
  chain_emitted : list AuditEvent;            (* every event so far *)
  chain_settled : list (outcome unit) }.      (* how the promises settled *)

Definition new_chain : Chain :=
  {| chain_sink := new_file_sink; chain_running := None; chain_waiting := [];
     chain_emitted := []; chain_settled := [] |}.

Definition emit (event : AuditEvent) (c : Chain) : Chain :=
  {| chain_sink := chain_sink c; chain_running := chain_running c;
     chain_waiting := chain_waiting c ++ [event];
     chain_emitted := chain_emitted c ++ [event]; chain_settled := chain_settled c |}.

(** The running write makes its next call. *)
Definition prog_step (w : FsKind) {A} (p : prog FileE A) (f : Fs) (p' : prog FileE A) (f' : Fs) : Prop :=
  match p with
  | Ret _ => False
  | Vis c k => exists x, fs_answer w c f x f' /\ p' = k x
  end.

Inductive chain_step (w : FsKind) (o : SinkOptions) : Chain * Fs -> Chain * Fs -> Prop :=
| step_emit event c f : chain_step w o (c, f) (emit event c, f)
| step_begin sink event rest emitted settled f :
    chain_step w o
      ({| chain_sink := sink; chain_running := None; chain_waiting := event :: rest;
          chain_emitted := emitted; chain_settled := settled |}, f)
      ({| chain_sink := sink; chain_running := Some (write o event sink); chain_waiting := rest;
          chain_emitted := emitted; chain_settled := settled |}, f)
| step_call sink p p' rest emitted settled f f' :
    prog_step w p f p' f' ->
    chain_step w o
      ({| chain_sink := sink; chain_running := Some p; chain_waiting := rest;
          chain_emitted := emitted; chain_settled := settled |}, f)
      ({| chain_sink := sink; chain_running := Some p'; chain_waiting := rest;
          chain_emitted := emitted; chain_settled := settled |}, f')
| step_settle sink sink' r rest emitted settled f :
    chain_step w o
      ({| chain_sink := sink; chain_running := Some (Ret (r, sink')); chain_waiting := rest;
          chain_emitted := emitted; chain_settled := settled |}, f)
      ({| chain_sink := sink'; chain_running := None; chain_waiting := rest;
          chain_emitted := emitted; chain_settled := settled ++ [r] |}, f).

Definition chain_reaches (w : FsKind) (o : SinkOptions) : Chain * Fs -> Prop :=
  rtc (chain_step w o) (new_chain, empty_fs).

(** ** Reading the log back *)

(** The lines of a file, each ended by a line feed. *)
Definition file_lines (bytes : list Z) : list (list Z) := removelast (split_on 10 bytes).

Definition read_file (bytes : list Z) : list (option jsval) :=
  map (fun l => json_parse (utf8_decode l)) (file_lines bytes).

Definition read_log (f : Fs) : list (option jsval) := concat (map (fun x => read_file x.2) (fs_files f)).

(** The values of the event survive JSON. *)
Definition event_ok (e : AuditEvent) : bool := json_ok (event_value e).

(** ** Program logic *)

Section Logic.
Context (w : FsKind).

Lemma fs_run_bind {A B} (p : prog FileE A) (k : A -> prog FileE B) f b f' :
  fs_run w (bind p k) f b f' <-> exists a f1, fs_run w p f a f1 /\ fs_run w (k a) f1 b f'.
Proof.
  revert f. induction p as [a|X c p IH]; intros f; simpl.
  - split; [intros H; by exists a, f|by intros (? & ? & [-> ->] & ?)].
  - split.
    + intros (x & f1 & Hc & Hr). apply IH in Hr as (a & f2 & ? & ?). eauto 8.
    + intros (a & f2 & (x & f1 & Hc & Hr) & Hk). exists x, f1. split; [done|]. apply IH. eauto.
Qed.

(** Every run from here ends as [Q] says. *)
Definition fwp {A} (m : FM A) (Q : outcome A -> FileSink -> Fs -> Prop) (s : FileSink) (f : Fs) : Prop :=
  forall r s' f', fs_run w (m s) f (r, s') f' -> Q r s' f'.

Lemma fwp_mono {A} (m : FM A) (Q Q' : outcome A -> FileSink -> Fs -> Prop) s f :
  fwp m Q s f -> (forall r s' f', Q r s' f' -> Q' r s' f') -> fwp m Q' s f.
Proof. unfold fwp. eauto. Qed.

Lemma fwp_ret {A} (a : A) (Q : outcome A -> FileSink -> Fs -> Prop) s f : Q (Val a) s f -> fwp (fret a) Q s f.
Proof. intros HQ r s' f' [[= -> ->] ->]. done. Qed.

Lemma fwp_throw {A} e (Q : outcome A -> FileSink -> Fs -> Prop) s f : Q (Exc e) s f -> fwp (fthrow e) Q s f.
Proof. intros HQ r s' f' [[= -> ->] ->]. done. Qed.

Lemma fwp_get (Q : outcome FileSink -> FileSink -> Fs -> Prop) s f : Q (Val s) s f -> fwp fget Q s f.
Proof. intros HQ r s' f' [[= -> ->] ->]. done. Qed.

Lemma fwp_put s1 (Q : outcome unit -> FileSink -> Fs -> Prop) s f : Q (Val tt) s1 f -> fwp (fput s1) Q s f.
Proof. intros HQ r s' f' [[= -> ->] ->]. done. Qed.

Lemma fwp_call {A} (c : FileE (outcome A)) (Q : outcome A -> FileSink -> Fs -> Prop) s f :
  (forall o f1, fs_answer w c f o f1 -> Q o s f1) -> fwp (fcall c) Q s f.
Proof. intros HQ r s' f' (x & f1 & Hc & [= -> ->] & ->). auto. Qed.

Lemma fwp_perform {A} (c : FileE A) (Q : outcome A -> FileSink -> Fs -> Prop) s f :
  (forall a f1, fs_answer w c f a f1 -> Q (Val a) s f1) -> fwp (fperform c) Q s f.
Proof. intros HQ r s' f' (x & f1 & Hc & [= -> ->] & ->). auto. Qed.

Lemma fwp_bind {A B} (m : FM A) (k : A -> FM B) (Q : outcome B -> FileSink -> Fs -> Prop) s f :
  fwp m (fun r s1 f1 => match r with Val a => fwp (k a) Q s1 f1 | Exc e => Q (Exc e) s1 f1 end) s f ->
  fwp (fbind m k) Q s f.
Proof.
  intros Hm r s' f' Hr. unfold fbind in Hr. apply fs_run_bind in Hr as ([[a|e] s1] & f1 & Hr & Hk).
  - apply (Hm _ _ _ Hr), Hk.
  - destruct Hk as [[= -> ->] ->]. apply (Hm _ _ _ Hr).
Qed.

Lemma fwp_catch {A} (m : FM A) (h : exn -> FM A) (Q : outcome A -> FileSink -> Fs -> Prop) s f :
  fwp m (fun r s1 f1 => match r with Val a => Q (Val a) s1 f1 | Exc e => fwp (h e) Q s1 f1 end) s f ->
  fwp (fcatch m h) Q s f.
Proof.
  intros Hm r s' f' Hr. unfold fcatch in Hr. apply fs_run_bind in Hr as ([[a|e] s1] & f1 & Hr & Hk).
  - destruct Hk as [[= -> ->] ->]. apply (Hm _ _ _ Hr).
  - apply (Hm _ _ _ Hr), Hk.
Qed.

End Logic.

(** One step of a program in the goal. *)
Ltac fstep :=
  cbv beta iota; lazymatch goal with
  | |- fwp _ (fbind _ _) _ _ _ => apply fwp_bind
  | |- fwp _ (fcatch _ _) _ _ _ => apply fwp_catch
  | |- fwp _ (fret _) _ _ _ => apply fwp_ret
  | |- fwp _ (fthrow _) _ _ _ => apply fwp_throw
  | |- fwp _ fget _ _ _ => apply fwp_get
  | |- fwp _ (fput _) _ _ _ => apply fwp_put
  | |- fwp _ (fcall _) _ _ _ => apply fwp_call; intros [?|?] ? ?; cbn [fs_answer] in *; try subst
  | |- fwp _ (fperform _) _ _ _ => apply fwp_perform; intros ? ? ?; cbn [fs_answer] in *; try subst
  end.

(** ** Paths *)

Lemma after_last {A} (c : A) a b a' b' : c ∉ b -> c ∉ b' -> a ++ c :: b = a' ++ c :: b' -> b = b'.
Proof.
  intros Hb Hb' H. apply app_eq_inv in H as [(k & -> & Hk)|(k & -> & Hk)];
    destruct k as [|x k]; simplify_eq/=; try done; exfalso; set_solver.
Qed.

Lemma digits_inj a b : 0 <= a -> 0 <= b -> digits a = digits b -> a = b.
Proof. intros Ha Hb H. by rewrite <- (digits_value_digits a), <- (digits_value_digits b), H. Qed.

Lemma digits_no_dash n : 0 <= n -> 45 ∉ digits n.
Proof.
  intros Hn Hin. pose proof (digits_all n Hn) as H. rewrite Forall_forall in H.
  apply H in Hin. lia.
Qed.

(** The number of the file can be read off its path. *)
Lemma file_path_seq o st k st' k' : 0 <= k -> 0 <= k' -> file_path o st k = file_path o st' k' -> k = k'.
Proof.
  intros Hk Hk'. unfold file_path. assert (Hd : forall n, 0 <= n -> num_to_string n = digits n).
  { intros n Hn. unfold num_to_string. by rewrite (proj2 (Z.ltb_ge n 0) Hn). }
  rewrite (Hd k), (Hd k') by done. rewrite !app_assoc. intros [H _]%app_inj_2; [|done].
  change (u "-") with [45] in H. rewrite <- !(app_assoc _ [45] (digits _)) in H.
  apply after_last in H; [by apply digits_inj|by apply digits_no_dash..].
Qed.

(** ** The invariant of the sink

    The log is described by its files in order, each with the texts that were
    appended to it. *)
Section Invariant.
Context (w : FsKind) (o : SinkOptions).

Definition files_of (G : list (jstr * list (list Z))) : list (jstr * list Z) :=
  map (fun g => (g.1, concat g.2)) G.

Definition texts_of (G : list (jstr * list (list Z))) : list (list Z) := concat (map snd G).

(** The texts fill a file to its limit. *)
Definition fills (cs : list (list Z)) : bool :=
  num_leb (rollover_bytes o) (NInt (Z.of_nat (length (concat cs)))).

(** Nothing was appended to a full file, unless the file was new. *)
Definition in_bounds (cs : list (list Z)) : Prop :=
  forall pre c, cs = pre ++ [c] -> pre = [] \/ fills pre = false.

Definition numbered (n : Z) (G : list (jstr * list (list Z))) : Prop :=
  NoDup (map fst G) /\ Forall (fun g => exists st k, g.1 = file_path o st k /\ 1 <= k <= n) G.

(** No handle is open but the sink's, and that one on the last file. *)
Definition handle_ok (G : list (jstr * list (list Z))) (s : FileSink) (f : Fs) : Prop :=
  match sink_handle s with
  | None => fs_open f = []
  | Some fd => exists p G0 cs, sink_path s = Some p /\ G = G0 ++ [(p, cs)] /\
      (fs_open f = [] \/ fs_open f = [(fd, p)])
  end.

Record log_inv (G : list (jstr * list (list Z))) (s : FileSink) (f : Fs) : Prop := {
  li_seq : 0 <= sink_seq s;
  li_files : fs_files f = files_of G;
  li_numbered : numbered (sink_seq s) G;
  li_bounds : stat_fails w = false -> Forall (fun g => in_bounds g.2) G;
  li_handle : handle_ok G s f;
  li_peak : (fs_peak f <= 1)%nat }.

Lemma log_inv_new : log_inv [] new_file_sink empty_fs.
Proof. split; try done; [split; [apply NoDup_nil_2|apply Forall_nil_2]|simpl; lia]. Qed.

Lemma texts_of_app G1 G2 : texts_of (G1 ++ G2) = texts_of G1 ++ texts_of G2.
Proof. unfold texts_of. by rewrite map_app, concat_app. Qed.

Lemma files_of_app G1 G2 : files_of (G1 ++ G2) = files_of G1 ++ files_of G2.
Proof. apply map_app. Qed.

Lemma map_fst_files G : map fst (files_of G) = map fst G.
Proof. unfold files_of. by rewrite map_map. Qed.

Lemma numbered_mono n m G : n <= m -> numbered n G -> numbered m G.
Proof.
  intros Hnm [Hd Hf]. split; [done|]. eapply Forall_impl; [exact Hf|].
  intros g (st & k & ? & ?). exists st, k. split; [done|lia].
Qed.

(** The path of the next number is new. *)
Lemma numbered_next n G st : 0 <= n -> numbered n G ->
  file_path o st (n + 1) ∉ map fst G /\ numbered (n + 1) (G ++ [(file_path o st (n + 1), [])]).
Proof.
  intros Hn [Hd Hf]. assert (Hnew : file_path o st (n + 1) ∉ map fst G).
  { intros (g & Hp & Hg)%list_elem_of_fmap. rewrite Forall_forall in Hf.
    destruct (Hf g Hg) as (st' & k & Hk & Hb). rewrite Hk in Hp. apply file_path_seq in Hp; lia. }
  split; [done|]. split.
  - rewrite map_app. apply NoDup_app. split; [done|]. split; [|apply NoDup_singleton].
    intros x Hx ->%list_elem_of_singleton. done.
  - apply Forall_app. split.
    + eapply Forall_impl; [exact Hf|]. intros g (st' & k & ? & ?). exists st', k. split; [done|lia].
    + apply Forall_singleton. exists st, (n + 1). split; [done|lia].
Qed.

Lemma has_file_false p G : p ∉ map fst G -> has_file p (files_of G) = false.
Proof.
  intros Hp. apply not_true_iff_false. intros H. apply existsb_exists in H as ([q c] & Hin & Hq).
  apply seqb_eq in Hq. simpl in Hq. subst q. apply Hp. rewrite <- map_fst_files.
  apply list_elem_of_In in Hin. apply list_elem_of_fmap. by exists (p, c).
Qed.

(** The contents of a file of the log. *)
Lemma file_contents G0 p cs c : NoDup (map fst (G0 ++ [(p, cs)])) -> (p, c) ∈ files_of (G0 ++ [(p, cs)]) ->
  c = concat cs.
Proof.
  rewrite map_app, files_of_app. intros (_ & Hp & _)%NoDup_app [Hin|Hin]%elem_of_app.
  - exfalso. apply (Hp p); [|by left]. rewrite <- map_fst_files. apply list_elem_of_fmap. by exists (p, c).
  - apply list_elem_of_singleton in Hin. by simplify_eq.
Qed.

(** Appending to the last file. *)
Lemma file_append_last G0 p cs b : NoDup (map fst (G0 ++ [(p, cs)])) ->
  file_append p b (files_of (G0 ++ [(p, cs)])) = files_of (G0 ++ [(p, cs ++ [b])]).
Proof.
  rewrite map_app. intros (_ & Hp & _)%NoDup_app. unfold file_append. rewrite !files_of_app, map_app. f_equal.
  - rewrite <- (map_id (files_of G0)) at 2. apply map_ext_in. intros [q c] Hin%list_elem_of_In.
    simpl. destruct (seqb p q) eqn:Hq; [|done]. apply seqb_eq in Hq. subst q. exfalso.
    apply (Hp p); [|by left]. rewrite <- map_fst_files. apply list_elem_of_fmap. by exists (p, c).
  - simpl. rewrite seqb_refl, concat_app. simpl. by rewrite app_nil_r.
Qed.

Lemma in_bounds_append cs b : cs = [] \/ fills cs = false -> in_bounds (cs ++ [b]).
Proof. intros H pre c He. apply app_inj_2 in He as [-> _]; done. Qed.

(** A text appended through the sink's handle keeps the invariant. *)
Lemma log_inv_append G0 p cs b s f : log_inv (G0 ++ [(p, cs)]) s f ->
  (stat_fails w = false -> cs = [] \/ fills cs = false) ->
  sink_path s = Some p -> (exists fd, sink_handle s = Some fd) ->
  log_inv (G0 ++ [(p, cs ++ [b])]) s (fs_append p b f).
Proof.
  intros [Hseq Hfiles [Hd Hn] Hb Hh Hpeak] Hfull Hp [fd Hfd]. split; try done.
  - simpl. rewrite Hfiles. by apply file_append_last.
  - split; [by rewrite map_app in *|]. rewrite !Forall_app, !Forall_singleton in *. done.
  - intros Hs. specialize (Hb Hs). rewrite !Forall_app, !Forall_singleton in *. destruct Hb. split; [done|].
    by apply in_bounds_append, Hfull.
  - unfold handle_ok in *. rewrite Hfd in *. destruct Hh as (q & G1 & cs1 & Hq & He & Ho).
    rewrite Hp in Hq. injection Hq as <-. apply app_inj_2 in He as [-> He]; [|done]. by exists p, G1, (cs ++ [b]).
Qed.

Lemma close_unlocked_spec G s f : log_inv G s f ->
  fwp w close_unlocked (fun r s' f' => log_inv G s' f' /\ (r = Val tt -> sink_handle s' = None)) s f.
Proof.
  intros Hinv. destruct (Hinv) as [Hseq Hfiles Hn Hb Hh Hpeak]. unfold close_unlocked. unfold handle_ok in Hh. do 2 fstep. cbv beta iota.
  destruct (sink_handle s) as [fd|] eqn:Hfd; [|by fstep].
  destruct Hh as (p & G0 & cs & Hp & -> & Ho).
  assert (Hc : fs_open (fs_closed fd f) = []) by (simpl; destruct Ho as [-> | ->]; simpl; by rewrite ?Z.eqb_refl).
  fstep. fstep; [fstep|]; (split; [|done]); split; try done.
  unfold handle_ok. rewrite Hfd. exists p, G0, cs. auto.
Qed.

(** The sink has a handle on the last file. *)
Definition ready (G : list (jstr * list (list Z))) (s : FileSink) : Prop :=
  exists fd p G0 cs, sink_handle s = Some fd /\ sink_path s = Some p /\ G = G0 ++ [(p, cs)] /\
    (stat_fails w = false -> cs = [] \/ fills cs = false).

Lemma open_new_spec G s f : log_inv G s f -> sink_handle s = None ->
  fwp w (open_new o) (fun r s' f' => exists G', log_inv G' s' f' /\ texts_of G' = texts_of G /\
    (r = Val tt -> ready G' s')) s f.
Proof.
  intros [Hseq Hfiles Hn Hb Hh Hpeak] Hnone. unfold handle_ok in Hh. rewrite Hnone in Hh.
  assert (Hinv : forall s', sink_handle s' = None -> sink_seq s <= sink_seq s' -> log_inv G s' f).
  { intros s' Hs' Hle. split; try done; [lia|by eapply numbered_mono|]. unfold handle_ok. by rewrite Hs'. }
  unfold open_new. repeat fstep; try (exists G; split; [apply Hinv; simpl; (done || lia)|done]); simpl.
  match goal with H : _ = fs_next f /\ _ = fs_opened (file_path o ?stamp _) f |- _ =>
    destruct H as [-> ->]; destruct (numbered_next _ _ stamp Hseq Hn) as [Hnew Hn'];
    set (p := file_path o stamp (sink_seq s + 1)) in * end.
  exists (G ++ [(p, [])]). split; [|split].
  - split; simpl; try done.
    + lia.
    + rewrite Hfiles, has_file_false by done. by rewrite files_of_app.
    + intros Hs. apply Forall_app. split; [auto|]. apply Forall_singleton. intros pre c He.
      by destruct pre.
    + unfold handle_ok. simpl. exists p, G, []. rewrite Hh. auto.
    + rewrite Hh. simpl. lia.
  - rewrite texts_of_app. unfold texts_of at 2. simpl. by rewrite app_nil_r.
  - intros _. exists (fs_next f), p, G, []. simpl. auto.
Qed.

Lemma stat_ready G0 p cs f n : fs_files f = files_of (G0 ++ [(p, cs)]) ->
  NoDup (map fst (G0 ++ [(p, cs)])) -> (exists c, (p, c) ∈ fs_files f /\ n = Z.of_nat (length c)) ->
  n = Z.of_nat (length (concat cs)).
Proof. intros Hf Hd (c & Hin & ->). rewrite Hf in Hin. by rewrite (file_contents G0 p cs c). Qed.

Lemma ensure_file_spec G s f : log_inv G s f ->
  fwp w (ensure_file o) (fun r s' f' => exists G', log_inv G' s' f' /\ texts_of G' = texts_of G /\
    (r = Val tt -> ready G' s')) s f.
Proof.
  intros Hinv. pose proof (li_handle _ _ _ Hinv) as Hh. unfold handle_ok in Hh.
  unfold ensure_file. do 2 fstep. cbv beta iota.
  destruct (sink_handle s) as [fd|] eqn:Hfd; [|by apply open_new_spec].
  destruct Hh as (p & G0 & cs & Hp & -> & Ho). rewrite Hp.
  assert (Hroll : fwp w (close_unlocked ;; open_new o) (fun r s' f' => exists G', log_inv G' s' f' /\
    texts_of G' = texts_of (G0 ++ [(p, cs)]) /\ (r = Val tt -> ready G' s')) s f).
  { fstep. eapply fwp_mono; [by apply close_unlocked_spec|]. intros [[]|e] s1 f1 [H1 H2]; cbv beta iota.
    - by apply open_new_spec; [|apply H2].
    - exists (G0 ++ [(p, cs)]). done. }
  do 3 fstep; [|fstep]; destruct H as [-> H]; fstep; fstep;
    match goal with |- fwp _ (if ?b then _ else _) _ _ _ => destruct b eqn:Hdue end; try done; fstep;
    exists (G0 ++ [(p, cs)]); (split; [done|split; [done|]]); intros _;
    exists fd, p, G0, cs; (split; [done|split; [done|split; [done|]]]); intros Hst.
  - right. apply orb_false_iff in Hdue as [Hdue _]. unfold fills.
    by rewrite <- (stat_ready G0 p cs f a (li_files _ _ _ Hinv) (proj1 (li_numbered _ _ _ Hinv)) H).
  - destruct H as [H|H]; [by rewrite Hst in H|]. rewrite (li_files _ _ _ Hinv), files_of_app in H.
    unfold has_file in H. rewrite existsb_app in H. simpl in H. by rewrite seqb_refl, orb_true_r in H.
Qed.

(** What a write leaves in the log: its line, and when it failed maybe
    nothing, or the beginning of the line. *)
Definition stored (event : AuditEvent) (r : outcome unit) (texts : list (list Z)) : Prop :=
  let bytes := utf8_bytes (event_line event) in
  match r with
  | Val _ => texts = [bytes]
  | Exc _ => texts = [] \/ texts = [bytes] \/
      (torn_writes w = true /\ exists k, texts = [take k bytes])
  end.

Definition written (event : AuditEvent) (G : list (jstr * list (list Z))) (r : outcome unit)
    (s' : FileSink) (f' : Fs) : Prop :=
  exists G' texts, log_inv G' s' f' /\ texts_of G' = texts_of G ++ texts /\ stored event r texts.

Lemma close_when_due_spec G s f : log_inv G s f ->
  fwp w (close_when_due o) (fun _ s' f' => log_inv G s' f') s f.
Proof.
  intros Hinv. unfold close_when_due. do 2 fstep. cbv beta iota.
  destruct (sink_path s) as [p|]; [|by fstep].
  do 2 fstep; destruct H as [-> _]; [|done]. do 2 fstep. cbv beta iota.
  match goal with |- fwp _ (if ?b then _ else _) _ _ _ => destruct b end; [|by fstep].
  eapply fwp_mono; [by apply close_unlocked_spec|]. by intros r s' f' [? _].
Qed.

Lemma log_inv_stored G0 p cs b : texts_of (G0 ++ [(p, cs ++ [b])]) = texts_of (G0 ++ [(p, cs)]) ++ [b].
Proof. rewrite !texts_of_app, <- app_assoc. unfold texts_of. simpl. by rewrite !app_nil_r. Qed.

Lemma write_body_spec event G s f : log_inv G s f -> fwp w (write_body o event) (written event G) s f.
Proof.
  intros Hinv. unfold write_body. fstep. eapply fwp_mono; [by apply ensure_file_spec|].
  intros r1 s1 f1 (G1 & H1 & Ht & Hr).
  assert (Hw : written event G = written event G1) by (unfold written; by rewrite Ht).
  rewrite Hw. destruct r1 as [[]|e]; cbv beta iota.
  2:{ exists G1, []. rewrite app_nil_r. split; [done|]. split; [done|]. by left. }
  destruct (Hr eq_refl) as (fd & p & G0 & cs & Hfd & Hp & -> & Hfull).
  pose proof (li_handle _ _ _ H1) as Hh. unfold handle_ok in Hh. rewrite Hfd in Hh.
  destruct Hh as (p' & _ & _ & Hp' & _ & Ho). rewrite Hp in Hp'. injection Hp' as <-.
  assert (Hopen : forall q, (fd, q) ∈ fs_open f1 -> q = p).
  { intros q. destruct Ho as [-> | ->]; [by intros ?%elem_of_nil|]. intros ?%list_elem_of_singleton. by simplify_eq. }
  assert (Happ : forall b, log_inv (G0 ++ [(p, cs ++ [b])]) s1 (fs_append p b f1)).
  { intros b. apply log_inv_append; eauto. }
  do 2 fstep. cbv beta iota. rewrite Hfd. do 2 fstep.
  - destruct H as (q & Hq & ->). rewrite (Hopen q Hq).
    assert (Hdone : forall r s' f', log_inv (G0 ++ [(p, cs ++ [utf8_bytes (event_line event)])]) s' f' ->
      written event (G0 ++ [(p, cs)]) r s' f').
    { intros r s' f' H'. eexists _, [_]. split; [exact H'|]. split; [apply log_inv_stored|].
      destruct r as [[]|e]; simpl; auto. }
    do 2 fstep; [|by apply Hdone]. eapply fwp_mono; [by apply close_when_due_spec|]. by apply Hdone.
  - destruct H as [->|(Htorn & q & k & Hq & ->)].
    + exists (G0 ++ [(p, cs)]), []. rewrite app_nil_r. split; [done|]. split; [done|]. by left.
    + rewrite (Hopen q Hq). eexists _, [_]. split; [apply Happ|]. split; [apply log_inv_stored|].
      right. right. split; [done|]. by exists k.
Qed.

Lemma write_spec event G s f : log_inv G s f -> fwp w (write o event) (written event G) s f.
Proof.
  intros Hinv. unfold write. fstep. eapply fwp_mono; [by apply write_body_spec|].
  intros [[]|e] s1 f1 H; cbv beta iota; [done|]. do 3 fstep. done.
Qed.

End Invariant.

(** ** Reading back what was stored *)

Definition line_bytes (event : AuditEvent) : list Z := utf8_bytes (event_line event).

#[local] Arguments line_bytes : simpl never.
#[local] Arguments compact_json : simpl never.

Lemma line_bytes_eq event : event_ok event = true ->
  line_bytes event = utf8_bytes (compact_json event) ++ [10].
Proof.
  intros H. unfold line_bytes, event_line.
  rewrite utf8_bytes_app by (apply line_text_well_formed, json_text_line, H). done.
Qed.

Lemma split_lines events : Forall (fun e => event_ok e = true) events ->
  split_on 10 (concat (map line_bytes events)) = map (fun e => utf8_bytes (compact_json e)) events ++ [[]].
Proof.
  induction 1 as [|e events He Hes IH]; [done|]. cbn [map concat].
  rewrite line_bytes_eq, <- app_assoc by done. cbn [app].
  rewrite split_on_app by (apply line_text_bytes, json_text_line, He). by rewrite IH.
Qed.

(** A file of whole lines gives back the events. *)
Lemma read_file_lines events : Forall (fun e => event_ok e = true) events ->
  read_file (concat (map line_bytes events)) = map (fun e => Some (event_value e)) events.
Proof.
  intros H. unfold read_file, file_lines. rewrite split_lines, removelast_last, map_map by done.
  apply map_ext_in. intros e He%list_elem_of_In. rewrite Forall_forall in H. by apply json_bytes_roundtrip, H.
Qed.

(** The files hold the lines of these events, cut between lines. *)
Lemma read_log_lines G events f : fs_files f = files_of G -> texts_of G = map line_bytes events ->
  Forall (fun e => event_ok e = true) events ->
  read_log f = map (fun e => Some (event_value e)) events.
Proof.
  intros Hf. unfold read_log. rewrite Hf. clear Hf f. unfold texts_of, files_of. rewrite map_map. simpl.
  revert events. induction G as [|[p cs] G IH]; intros events Ht Hok; simpl in *.
  - by destruct events.
  - symmetry in Ht. apply map_eq_app in Ht as (e1 & e2 & -> & <- & H2). apply Forall_app in Hok as [Hok1 Hok2].
    rewrite read_file_lines, map_app by done. f_equal. by apply IH.
Qed.

(** ** Histories of the chain *)

(** The events for which the flag is set. *)
Fixpoint select {A} (flags : list bool) (l : list A) : list A :=
  match flags, l with
  | b :: flags', x :: l' => (if b then [x] else []) ++ select flags' l'
  | _, _ => []
  end.

Section Histories.
Context (w : FsKind) (o : SinkOptions).

(** Between two writes: what was settled, and the texts each left. *)
Record idle_inv (c : Chain) (f : Fs) (events : list AuditEvent) (texts : list (list (list Z))) : Prop := {
  ii_log : exists G, log_inv w o G (chain_sink c) f /\ texts_of G = concat texts;
  ii_stored : Forall3 (stored w) events (chain_settled c) texts }.

Definition chain_inv (cf : Chain * Fs) : Prop :=
  let '(c, f) := cf in
  match chain_running c with
  | None => exists events texts, idle_inv c f events texts /\ chain_emitted c = events ++ chain_waiting c
  | Some p => exists events event texts,
      chain_emitted c = events ++ event :: chain_waiting c /\
      Forall3 (stored w) events (chain_settled c) texts /\
      forall r s' f', fs_run w p f (r, s') f' ->
        exists G own, log_inv w o G s' f' /\ texts_of G = concat (texts ++ [own]) /\ stored w event r own
  end.

Lemma chain_inv_step cf cf' : chain_inv cf -> chain_step w o cf cf' -> chain_inv cf'.
Proof.
  intros Hi Hs. destruct Hs as [event c f|sink event rest em st f|sink p p' rest em st f f' Ha|sink sink' r rest em st f];
    simpl in *.
  - destruct (chain_running c) as [p|].
    + destruct Hi as (evs & ev & texts & He & H3 & Hr). exists evs, ev, texts.
      rewrite He, <- app_assoc. auto.
    + destruct Hi as (evs & texts & [Hl H3] & He). exists evs, texts. rewrite He, <- app_assoc. done.
  - destruct Hi as (evs & texts & [(G & HG & Ht) H3] & He). exists evs, event, texts.
    split; [done|]. split; [done|]. intros r s' f' Hr.
    destruct (write_spec w o event G sink f HG r s' f' Hr) as (G' & own & HG' & Ht' & Hst).
    exists G', own. rewrite Ht', Ht, concat_app. simpl. by rewrite app_nil_r.
  - destruct Hi as (evs & ev & texts & He & H3 & Hr). exists evs, ev, texts.
    split; [done|]. split; [done|]. intros r s' f2 Hk. apply Hr.
    destruct p as [|X call k]; [done|]. destruct Ha as (x & Ha & ->). simpl. eauto.
  - destruct Hi as (evs & ev & texts & He & H3 & Hr). destruct (Hr r sink' f) as (G & own & HG & Ht & Hst); [done|].
    exists (evs ++ [ev]), (texts ++ [own]). split; [|by rewrite He, <- app_assoc].
    split; simpl; [by exists G|]. apply Forall3_app; [done|]. by repeat constructor.
Qed.

Lemma chain_inv_reaches cf : chain_reaches w o cf -> chain_inv cf.
Proof.
  unfold chain_reaches. intros H. assert (H0 : chain_inv (new_chain, empty_fs)).
  { exists [], []. split; [|done]. split; [|constructor]. exists []. split; [apply log_inv_new|done]. }
  revert H0. induction H as [|x y z Hxy Hyz IH]; [done|]. intros Hx. eapply IH, chain_inv_step; eauto.
Qed.

(** When writes are not torn, the texts are the lines of some of the events,
    of every one whose [emit] resolved among them. *)
Lemma stored_lines events results texts : torn_writes w = false -> Forall3 (stored w) events results texts ->
  exists kept, Forall2 (fun r k => r = Val tt -> k = true) results kept /\
    concat texts = map line_bytes (select kept events).
Proof.
  intros Hw. induction 1 as [|e r t es rs ts Hst H3 (kept & Hk & Ht)].
  - exists []. by split; [constructor|].
  - assert (Hb : exists b : bool, (r = Val tt -> b = true) /\ t = map line_bytes (if b then [e] else [])).
    { destruct r as [[]|ex]; simpl in Hst; [by exists true|].
      destruct Hst as [->|[->|[Htorn _]]]; [by exists false|by exists true|by rewrite Hw in Htorn]. }
    destruct Hb as (b & Hb & ->). exists (b :: kept). split; [by constructor|].
    simpl. by rewrite Ht, map_app.
Qed.

Lemma select_forall {A} (P : A -> Prop) flags l : Forall P l -> Forall P (select flags l).
Proof.
  intros H. revert flags. induction H as [|x l Hx Hl IH]; intros [|b flags]; simpl; try constructor.
  apply Forall_app. split; [|apply IH]. destruct b; [by constructor|constructor].
Qed.

Lemma memory_audit_sink_all init events : fold_left memory_audit_sink events init = init ++ events.
Proof.
  revert init. induction events as [|e events IH]; intros init; simpl; [by rewrite app_nil_r|].
  rewrite IH. unfold memory_audit_sink. by rewrite <- app_assoc.
Qed.

Lemma select_app_short {A} flags (l1 l2 : list A) : (length flags <= length l1)%nat ->
  select flags (l1 ++ l2) = select flags l1.
Proof.
  revert flags. induction l1 as [|x l1 IH]; intros [|b flags] H; simpl in *; try done; try lia.
  rewrite IH by lia. done.
Qed.

End Histories.

Section Claims.
Context (w : FsKind) (o : SinkOptions).


Lemma stored_length event r texts t : stored w event r texts -> t ∈ texts ->
  (length t <= length (line_bytes event))%nat.
Proof.
  unfold stored, line_bytes. intros Hst Ht. destruct r as [a|e].
  - subst texts. by apply list_elem_of_singleton in Ht as ->.
  - destruct Hst as [->|[->|[_ [k ->]]]]; [by apply not_elem_of_nil in Ht|..];
      apply list_elem_of_singleton in Ht as ->; [done|]. rewrite length_take. lia.
Qed.

Lemma stored_texts events results texts t : Forall3 (stored w) events results texts -> t ∈ concat texts ->
  exists event, event ∈ events /\ (length t <= length (line_bytes event))%nat.
Proof.
  induction 1 as [|e r ts es rs tss Hst H3 IH]; simpl; [by intros ?%not_elem_of_nil|].
  intros [Ht|Ht]%elem_of_app.
  - exists e. split; [by left|]. by eapply stored_length.
  - destruct (IH Ht) as (ev & ? & ?). exists ev. split; [by right|done].
Qed.


(** A step of the chain other than a new [emit]. *)
Definition chain_work (x y : Chain * Fs) : Prop :=
  chain_step w o x y /\ chain_emitted x.1 = chain_emitted y.1.

Lemma fs_answer_exists {X} (call : FileE X) f : exists x f', fs_answer w call f x f'.
Proof.
  destruct call as [d| | |p|p|fd line|fd|fd|t]; simpl.
  1,4,6,7,8: by exists (Exc (Error_ [])); eauto.
  1,2: by exists 0; eauto.
  - destruct (has_file p (fs_files f)) eqn:Hf; [|exists (Exc (Error_ [])); eauto].
    apply existsb_exists in Hf as ([q c] & Hin%list_elem_of_In & Hq%seqb_eq). simpl in Hq. subst q.
    exists (Val (Z.of_nat (length c))), f. split; [done|]. by exists c.
  - by exists tt; eauto.
Qed.

Lemma chain_work_progress c f : (forall y, ~ chain_work (c, f) y) ->
  chain_running c = None /\ chain_waiting c = [].
Proof.
  intros Hno. destruct c as [sink [[[r s']|X call k]|] [|ev rest] em st]; simpl in *; try done; exfalso.
  1,2: by eapply Hno; split; [apply step_settle|].
  1,2: destruct (fs_answer_exists call f) as (x & f' & Ha);
       by eapply Hno; split; [apply step_call; simpl; eauto|].
  by eapply Hno; split; [apply step_begin|].
Qed.

Lemma emit_grows (em : list AuditEvent) e : em <> em ++ [e].
Proof. intros H%(f_equal length). rewrite length_app in H. simpl in H. lia. Qed.

Lemma acc_running rest em :
  (forall sink st f, Acc (fun y x => chain_work x y)
     ({| chain_sink := sink; chain_running := None; chain_waiting := rest; chain_emitted := em;
         chain_settled := st |}, f)) ->
  forall p sink st f, Acc (fun y x => chain_work x y)
     ({| chain_sink := sink; chain_running := Some p; chain_waiting := rest; chain_emitted := em;
         chain_settled := st |}, f).
Proof.
  intros Hidle p. induction p as [a|X call k IH]; intros sink st f; constructor; intros [c' f'] [Hs He];
    inversion Hs as [event|?|? ? ? ? ? ? ? ? Hp|]; subst; cbn [fst emit chain_emitted prog_step] in *.
  1,4: by apply emit_grows in He.
  - done.
  - apply Hidle.
  - destruct Hp as (x & _ & ->). apply IH.
Qed.

Lemma acc_idle rest : forall em sink st f, Acc (fun y x => chain_work x y)
  ({| chain_sink := sink; chain_running := None; chain_waiting := rest; chain_emitted := em;
      chain_settled := st |}, f).
Proof.
  induction rest as [|ev rest IH]; intros em sink st f; constructor; intros [c' f'] [Hs He];
    inversion Hs; subst; cbn [fst emit chain_emitted] in He.
  1,2: by apply emit_grows in He.
  apply acc_running. apply IH.
Qed.

Lemma chain_work_reaches cf cf' : chain_reaches w o cf -> rtc chain_work cf cf' -> chain_reaches w o cf'.
Proof. intros Hr H. induction H as [|x y z [Hxy _] Hyz IH]; [done|]. apply IH. by eapply rtc_r. Qed.

(** Property C38. Every emit settles: from any reachable state the work of the chain comes
    to an end whatever the calls answer, it never stops earlier, and then the
    promise of every emitted event has settled. *)
Theorem audit_emits_settle c f : chain_reaches w o (c, f) ->
  Acc (fun y x => chain_work x y) (c, f) /\
  (forall c' f', rtc chain_work (c, f) (c', f') -> (forall y, ~ chain_work (c', f') y) ->
     length (chain_settled c') = length (chain_emitted c')).
Proof.
  intros Hr. split.
  - destruct c as [sink [p|] rest em st]; [apply acc_running; intros; apply acc_idle|apply acc_idle].
  - intros c' f' Hw Hno. apply chain_work_progress in Hno as [Hidle Hwait].
    pose proof (chain_inv_reaches w o _ (chain_work_reaches _ _ Hr Hw)) as Hi. simpl in Hi. rewrite Hidle in Hi.
    destruct Hi as (evs & texts & [_ H3] & He). rewrite Hwait, app_nil_r in He. rewrite He.
    symmetry. by eapply Forall3_length_lm.
Qed.

End Claims.

(** ** Executions

    A file system that fails the calls it is told to fail, a failed write
    leaving [torn] bytes. *)
Definition fs_serve (torn : nat) (fails : bool) {X} (c : FileE X) (f : Fs) : X * Fs :=
  let failed {A} : outcome A := Exc (Error_ (u "EIO")) in
  match c in FileE X return X * Fs with
  | FMkdir _ => (if fails then failed else Val tt, f)
  | FNewDate | FDateNow => (1786615200000, f)
  | FOpen p => if fails then (failed, f) else (Val (fs_next f), fs_opened p f)
  | FStat p =>
      match List.find (fun x => seqb p x.1) (fs_files f) with
      | Some x => (if fails then failed else Val (Z.of_nat (length x.2)), f)
      | None => (failed, f)
      end
  | FWrite fd line =>
      match List.find (fun h => h.1 =? fd) (fs_open f) with
      | Some h =>
          if fails then (failed, if (torn =? 0)%nat then f else fs_append h.2 (take torn (utf8_bytes line)) f)
          else (Val tt, fs_append h.2 (utf8_bytes line) f)
      | None => (failed, f)
      end
  | FSync _ => (if fails then failed else Val tt, f)
  | FClose fd => (if fails then failed else Val tt, fs_closed fd f)
  | FStderr _ => (tt, f)
  end.

(** Each call consumes one flag. *)
Definition serve_next (torn : nat) : handler FileE (Fs * list bool) := fun X c s =>
  let '(x, f) := fs_serve torn (match s.2 with b :: _ => b | [] => false end) c s.1 in (x, (f, tail s.2)).

Lemma fs_serve_ok w torn fails X (c : FileE X) f : stat_fails w = true ->
  (torn = O \/ torn_writes w = true) ->
  fs_answer w c f (fs_serve torn fails c f).1 (fs_serve torn fails c f).2.
Proof.
  intros Hs Ht. destruct c as [d| | |p|p|fd line|fd|fd|t]; simpl; try (by destruct fails).
  - destruct (List.find _ _) as [[q c]|] eqn:Hf; [|by split; [|left]].
    apply List.find_some in Hf as [Hin%list_elem_of_In Hq%seqb_eq]. simpl in Hq. subst q.
    destruct fails; (split; [done|]); [by left|]. by exists c.
  - destruct (List.find _ _) as [[h p]|] eqn:Hf; [|by left].
    apply List.find_some in Hf as [Hin%list_elem_of_In Hh%Z.eqb_eq]. simpl in Hh. subst h.
    destruct fails; simpl; [|by exists p].
    destruct (Nat.eqb_spec torn 0); [by left|]. destruct Ht as [?|Ht]; [done|]. right. split; [done|].
    by exists p, torn.
Qed.

(** All events are emitted at once, then the writes run to their end. *)
Fixpoint write_all (torn : nat) (o : SinkOptions) (events : list AuditEvent) (sink : FileSink)
    (settled : list (outcome unit)) (s : Fs * list bool) : FileSink * list (outcome unit) * (Fs * list bool) :=
  match events with
  | [] => (sink, settled, s)
  | e :: rest =>
      let '((r, sink'), s') := interp (serve_next torn) (write o e sink) s in
      write_all torn o rest sink' (settled ++ [r]) s'
  end.

Definition sequential (torn : nat) (o : SinkOptions) (fails : list bool) (events : list AuditEvent) : Chain * Fs :=
  let '(sink, settled, (f, _)) := write_all torn o events new_file_sink [] (empty_fs, fails) in
  ({| chain_sink := sink; chain_running := None; chain_waiting := []; chain_emitted := events;
      chain_settled := settled |}, f).

Section Executions.
Context (w : FsKind) (o : SinkOptions) (torn : nat).
Context (Hstat : stat_fails w = true) (Htorn : torn = O \/ torn_writes w = true).

Lemma emit_all events c f : rtc (chain_step w o) (c, f)
  ({| chain_sink := chain_sink c; chain_running := chain_running c; chain_waiting := chain_waiting c ++ events;
      chain_emitted := chain_emitted c ++ events; chain_settled := chain_settled c |}, f).
Proof.
  revert c. induction events as [|e events IH]; intros c.
  - rewrite !app_nil_r. by destruct c.
  - eapply rtc_l; [apply (step_emit _ _ e)|]. specialize (IH (emit e c)). simpl in IH.
    by rewrite <- !app_assoc in IH.
Qed.

Lemma sink_run_write p sink rest em st s :
  rtc (chain_step w o)
    ({| chain_sink := sink; chain_running := Some p; chain_waiting := rest; chain_emitted := em;
        chain_settled := st |}, s.1)
    ({| chain_sink := sink; chain_running := Some (Ret (interp (serve_next torn) p s).1); chain_waiting := rest;
        chain_emitted := em; chain_settled := st |}, (interp (serve_next torn) p s).2.1).
Proof.
  revert s. induction p as [a|X c k IH]; intros s; [done|].
  cbn [interp]. destruct (serve_next torn X c s) as [x s1] eqn:Hn.
  assert (Ha : fs_answer w c s.1 x s1.1).
  { pose proof (fs_serve_ok w torn (match s.2 with b :: _ => b | [] => false end) X c s.1 Hstat Htorn) as Ha.
    unfold serve_next in Hn. destruct (fs_serve _ _ c s.1) as [x' f']. by simplify_eq/=. }
  eapply rtc_l; [apply step_call; simpl; eauto|]. apply IH.
Qed.

Lemma write_all_reaches events em sink st s :
  let '(sink', st', s') := write_all torn o events sink st s in
  rtc (chain_step w o)
    ({| chain_sink := sink; chain_running := None; chain_waiting := events; chain_emitted := em;
        chain_settled := st |}, s.1)
    ({| chain_sink := sink'; chain_running := None; chain_waiting := []; chain_emitted := em;
        chain_settled := st' |}, s'.1).
Proof.
  revert sink st s. induction events as [|e events IH]; intros sink st s; cbn [write_all]; [done|].
  pose proof (sink_run_write (write o e sink) sink events em st s) as Hrun.
  destruct (interp (serve_next torn) (write o e sink) s) as [[r sink'] s']. simpl in Hrun.
  specialize (IH sink' (st ++ [r]) s'). destruct (write_all _ _ _ _ _ _) as [[sink2 st2] s2].
  eapply rtc_l; [apply step_begin|]. etransitivity; [exact Hrun|].
  eapply rtc_l; [apply step_settle|]. exact IH.
Qed.

Lemma sequential_reaches fails events : chain_reaches w o (sequential torn o fails events).
Proof.
  unfold sequential, chain_reaches.
  pose proof (write_all_reaches events events new_file_sink [] (empty_fs, fails)) as H.
  destruct (write_all _ _ _ _ _ _) as [[sink st] [f fl]]. etransitivity; [|exact H].
  apply (emit_all events new_chain empty_fs).
Qed.

End Executions.

Definition sample_options : SinkOptions := file_sink_options (u "/tmp") (Some (NInt 100)) None (Some 7) 1.

Definition sample_event (user : string) : AuditEvent :=
  {| event_type := u "auth.login"; actor_channel := u "human"; outcome_ := u "success"; reason := u "ok";
     severity := u "info"; correlation_id := u "c"; event_user_id := Some (u user ++ [10; 34]);
     event_ip_address := None; timestamp := u "t"; data := [(u "n", VNum (NInt 3))] |}.

(** The directory, stamp, process and number of a file. *)
Example first_path :
  map fst (fs_files (sequential 0 sample_options [] [sample_event "a"; sample_event "b"]).2) =
  [u "/tmp/audit-20260813T100000Z-7-1.ndjson"; u "/tmp/audit-20260813T100000Z-7-2.ndjson"].
Proof. vm_compute. reflexivity. Qed.

(** Calls that fail: the first write, then the sync of the second event. *)
Definition sample_faults : list bool := [false; false; false; false; true; false; false; false; false; true].



Lemma audit_emits_settle_witness :
  let w := {| torn_writes := false; stat_fails := true |} in
  let c := emit (sample_event "a") new_chain in
  Acc (fun y x => chain_work w sample_options x y) (c, empty_fs).
Proof. intros w c. apply (audit_emits_settle w sample_options c empty_fs). apply rtc_once, step_emit. Defined.

(** A write that fails half way leaves the beginning of its line in the open
    file; the next event is appended to it, and although its emit resolves no
    reader of the lines finds it. *)
Example torn_line_swallows_next :
  let '(c, f) := sequential 10 sample_options [false; false; false; false; true]
                   [sample_event "a"; sample_event "b"] in
  chain_settled c = [Exc (Error_ (u "EIO")); Val tt] /\ read_log f = [None].
Proof. vm_compute. split; reflexivity. Qed.

(** A limit that is not a number never ends a file. *)
Example nan_never_rolls o size opened_at now : rollover_bytes o = NNaN -> rollover_seconds o = NNaN ->
  rollover_due o size opened_at now = false.
Proof. unfold rollover_due. by intros -> ->. Qed.
