(* ===== verification/RateLimit.v ===== *)
(** rate_limit.ts: the failure contexts of the login rate limiter, their
    evaluation, and the in-memory limiter built on them.

    A context counts the failures of a user name or of a client address over
    three sample periods.  [evaluate_context] gives the delay and lockout of
    an attempt; [make_memory_rate_limit] keeps the contexts in a map with a
    byte estimate and purges the expired ones. *)
From S2P Require Import Prelude JsString JsValue Settings Effects AuditEvents.

Inductive ContextKind := User | Ip.

#[export] Instance ContextKind_eq_dec : EqDecision ContextKind.
Proof. solve_decision. Defined.

Definition kind_str (k : ContextKind) : jstr :=
  match k with User => u "user" | Ip => u "ip" end.

Arguments kind_str : simpl never.

Record ContextState := {
  lockout_until_ms : option Z;
  grace_until_ms : option Z;
  failures_ms : list Z }.

Record ContextParams := {
  threshold : Z;
  sample_period_s : Z;
  ctx_l1_delay_ms : Z;
  ctx_l2_delay_ms : Z;
  ctx_lockout_s : Z }.

Definition CONTEXT_BASE_BYTES := 256.
Definition FAILURE_MEMBER_BYTES := 64.
Definition WATCH_RETRY_LIMIT := 8%nat.

Definition empty_context : ContextState :=
  {| lockout_until_ms := None; grace_until_ms := None; failures_ms := [] |}.

Definition prune_failures (failures : list Z) (now_ms period_s : Z) : list Z :=
  filter (fun stamp => now_ms - 3 * period_s * 1000 <= stamp) failures.

(** [limit == null || now_ms >= limit] *)
Definition limit_done (limit : option Z) (now_ms : Z) : bool :=
  match limit with None => true | Some l => l <=? now_ms end.

Definition context_is_expired (state : ContextState) (now_ms : Z) : bool :=
  let lockout_done := limit_done (lockout_until_ms state) now_ms in
  let grace_done := limit_done (grace_until_ms state) now_ms in
  (Z.of_nat (length (failures_ms state)) =? 0) && lockout_done && grace_done.

Definition estimate_context_bytes (state : ContextState) : Z :=
  CONTEXT_BASE_BYTES + Z.of_nat (length (failures_ms state)) * FAILURE_MEMBER_BYTES.

Definition budget_bytes (max_kib : Z) : Z := max_kib * 1024.

Record EvaluateContextResult := {
  eval_delay_ms : Z;
  eval_lockout : bool;
  eval_next : option ContextState;
  lockout_started : bool }.

(** The failures stamped at [since] or later. *)
Definition count_since (failures : list Z) (since : Z) : Z :=
  Z.of_nat (length (filter (fun stamp => since <= stamp) failures)).

Definition evaluate_context (state : option ContextState) (now_ms : Z) (params : ContextParams)
    : EvaluateContextResult :=
  match state with
  | None => {| eval_delay_ms := 0; eval_lockout := false; eval_next := None;
               lockout_started := false |}
  | Some state =>
      let failures := prune_failures (failures_ms state) now_ms (sample_period_s params) in
      let lockout_until := lockout_until_ms state in
      let grace_until := grace_until_ms state in
      let next lockout_until grace_until :=
        Some {| lockout_until_ms := lockout_until; grace_until_ms := grace_until;
                failures_ms := failures |} in
      if negb (limit_done lockout_until now_ms) then
        {| eval_delay_ms := ctx_l2_delay_ms params; eval_lockout := true;
           eval_next := next lockout_until grace_until; lockout_started := false |}
      else
        let in_grace := negb (limit_done grace_until now_ms) in
        let window_s := sample_period_s params * 1000 in
        let n1 := count_since failures (now_ms - window_s) in
        let n2 := count_since failures (now_ms - 2 * window_s) in
        let n3 := Z.of_nat (length failures) in
        if (3 * threshold params <? n3) && negb in_grace then
          let lockout_until := now_ms + ctx_lockout_s params * 1000 in
          let grace_until := lockout_until + ctx_lockout_s params * 1000 in
          {| eval_delay_ms := ctx_l2_delay_ms params; eval_lockout := true;
             eval_next := next (Some lockout_until) (Some grace_until); lockout_started := true |}
        else if 2 * threshold params <? n2 then
          {| eval_delay_ms := ctx_l2_delay_ms params; eval_lockout := false;
             eval_next := next lockout_until grace_until; lockout_started := false |}
        else if threshold params <? n1 then
          {| eval_delay_ms := ctx_l1_delay_ms params; eval_lockout := false;
             eval_next := next lockout_until grace_until; lockout_started := false |}
        else
          {| eval_delay_ms := 0; eval_lockout := false;
             eval_next := next lockout_until grace_until; lockout_started := false |}
  end.

Definition record_on_context (state : option ContextState) (now_ms : Z) : ContextState :=
  let base := match state with Some s => s | None => empty_context end in
  {| lockout_until_ms := lockout_until_ms base; grace_until_ms := grace_until_ms base;
     failures_ms := failures_ms base ++ [now_ms] |}.

Definition user_params (settings : RateLimitSettings) : ContextParams := {|
  threshold := per_user_threshold settings;
  sample_period_s := per_user_sample_period_s settings;
  ctx_l1_delay_ms := l1_delay_ms settings;
  ctx_l2_delay_ms := l2_delay_ms settings;
  ctx_lockout_s := lockout_s settings |}.

Definition ip_params (settings : RateLimitSettings) : ContextParams := {|
  threshold := per_ip_threshold settings;
  sample_period_s := per_ip_sample_period_s settings;
  ctx_l1_delay_ms := l1_delay_ms settings;
  ctx_l2_delay_ms := l2_delay_ms settings;
  ctx_lockout_s := lockout_s settings |}.

Definition kind_params (kind : ContextKind) (settings : RateLimitSettings) : ContextParams :=
  match kind with User => user_params settings | Ip => ip_params settings end.

(** The pruned copy a purge stores, or [None] when it removes the context. *)
Definition purged_context (state : ContextState) (now period_s : Z) : option ContextState :=
  let pruned := {| lockout_until_ms := lockout_until_ms state;
                   grace_until_ms := grace_until_ms state;
                   failures_ms := prune_failures (failures_ms state) now period_s |} in
  if context_is_expired pruned now then None else Some pruned.

(** ** make_memory_rate_limit *)

Definition map_key (kind key : jstr) : jstr := kind ++ [9] ++ key.

(** [indexOf] gives -1 when there is no tab: [slice(0, -1)] and [slice(0)]. *)
Definition parse_map_key (id : jstr) : jstr * jstr :=
  match index_of 9 id with
  | Some tab => (firstn tab id, skipn (S tab) id)
  | None => (removelast id, id)
  end.

(** The variables the closures of the limiter share. *)
Record MemoryState := {
  contexts : gmap jstr ContextState;
  bytes : Z;
  purge_count : Z;
  purge_running : bool }.

Definition initial_memory : MemoryState :=
  {| contexts := ∅; bytes := 0; purge_count := 0; purge_running := false |}.

Definition load (kind key : jstr) (m : MemoryState) : option ContextState :=
  contexts m !! map_key kind key.

Definition save (kind key : jstr) (state : ContextState) (m : MemoryState) : MemoryState :=
  let id := map_key kind key in
  let bytes1 := match contexts m !! id with
                | Some previous => bytes m - estimate_context_bytes previous
                | None => bytes m
                end in
  {| contexts := <[id := state]> (contexts m);
     bytes := bytes1 + estimate_context_bytes state;
     purge_count := purge_count m; purge_running := purge_running m |}.

Definition remove (kind key : jstr) (m : MemoryState) : MemoryState :=
  let id := map_key kind key in
  match contexts m !! id with
  | Some previous =>
      {| contexts := delete id (contexts m);
         bytes := bytes m - estimate_context_bytes previous;
         purge_count := purge_count m; purge_running := purge_running m |}
  | None => m
  end.

(** One step of the purge's loop over the entries. *)
Definition purge_entry (cfg : RateLimitSettings) (now : Z) (m : MemoryState)
    (entry : jstr * ContextState) : MemoryState :=
  let '(id, state) := entry in
  let '(kind, key) := parse_map_key id in
  let params := if seqb kind "ip" then ip_params cfg else user_params cfg in
  match purged_context state now (sample_period_s params) with
  | None => remove kind key m
  | Some pruned => save kind key pruned m
  end.

Definition apply_purge (cfg : RateLimitSettings) (now : Z) (m : MemoryState) : MemoryState :=
  let m' := fold_left (purge_entry cfg now) (map_to_list (contexts m)) m in
  {| contexts := contexts m'; bytes := bytes m';
     purge_count := purge_count m' + 1; purge_running := false |}.

(** The comparison of [bytes] with [budget * 0.8], on integers: the double
    product differs from the exact one by far less than the 1/5 that
    separates [4 * budget / 5] from the nearest other integer. *)
Definition over_purge_trigger (used budget : Z) : bool := 4 * budget <? 5 * used.

(** Gives whether a purge was scheduled. *)
Definition maybe_schedule_purge (cfg : RateLimitSettings) (m : MemoryState) : bool * MemoryState :=
  if negb (over_purge_trigger (bytes m) (budget_bytes (max_kib cfg))) then (false, m)
  else if purge_running m then (false, m)
  else (true, {| contexts := contexts m; bytes := bytes m;
                 purge_count := purge_count m; purge_running := true |}).

(** [eval_one] with the clock at [now]; the boolean is [lockout_started],
    upon which the trip is audited. *)
Definition eval_one (kind : ContextKind) (key : jstr) (params : ContextParams) (now : Z)
    (m : MemoryState) : RateLimitResult * bool * MemoryState :=
  let outcome := evaluate_context (load (kind_str kind) key m) now params in
  let m' := match eval_next outcome with
            | Some next => save (kind_str kind) key next m
            | None => m
            end in
  ({| delay_ms := eval_delay_ms outcome; lockout := eval_lockout outcome |},
   lockout_started outcome, m').

Definition record_one (kind : ContextKind) (key : jstr) (cfg : RateLimitSettings) (now : Z)
    (m : MemoryState) : MemoryState :=
  let existing := load (kind_str kind) key m in
  match existing with
  | None =>
      if budget_bytes (max_kib cfg) <=? bytes m then m
      else save (kind_str kind) key (record_on_context None now) m
  | Some _ => save (kind_str kind) key (record_on_context existing now) m
  end.

(** [source_ip != null && source_ip !== ""] *)
Definition present (s : option jstr) : option jstr :=
  match s with Some [] | None => None | Some ip => Some ip end.

(** [evaluate]: the user context, then the address context.  [now1] and
    [now2] are the two clock readings; the list holds the lockouts started. *)
Definition evaluate (cfg : RateLimitSettings) (username_key : jstr) (source_ip : option jstr)
    (now1 now2 : Z) (m : MemoryState)
    : RateLimitResult * list (ContextKind * jstr) * MemoryState :=
  let '(user, trip1, m1) := eval_one User username_key (user_params cfg) now1 m in
  let trips1 := if trip1 then [(User, username_key)] else [] in
  match present source_ip with
  | Some ip =>
      let '(ipr, trip2, m2) := eval_one Ip ip (ip_params cfg) now2 m1 in
      let trips2 := if trip2 then [(Ip, ip)] else [] in
      ({| delay_ms := delay_ms user + delay_ms ipr; lockout := lockout user || lockout ipr |},
       trips1 ++ trips2, m2)
  | None =>
      ({| delay_ms := delay_ms user + 0; lockout := lockout user || false |}, trips1, m1)
  end.

(** [record_failure]; the boolean tells whether a purge was scheduled. *)
Definition record_failure (cfg : RateLimitSettings) (username_key : jstr) (source_ip : option jstr)
    (now1 now2 : Z) (m : MemoryState) : bool * MemoryState :=
  let m1 := record_one User username_key cfg now1 m in
  let m2 := match present source_ip with
            | Some ip => record_one Ip ip cfg now2 m1
            | None => m1
            end in
  maybe_schedule_purge cfg m2.

(** [emit_trip_safe]: the sink's failure is swallowed. *)
Definition emit_trip_safe (kind : ContextKind) (context_key : jstr) (source_ip : option jstr)
    : M unit :=
  let* event := rate_limit_trip_audit_event (kind_str kind) context_key source_ip in
  try_catch (call (AuditEmit event)) (fun _ => ret tt).

(** ** The limiter as a transition system *)

Inductive limiter_step : MemoryState -> MemoryState -> Prop :=
| StepEvaluate m cfg name ip now1 now2 :
    limiter_step m (evaluate cfg name ip now1 now2 m).2
| StepRecord m cfg name ip now1 now2 :
    limiter_step m (record_failure cfg name ip now1 now2 m).2
| StepPurge m cfg now :
    limiter_step m (apply_purge cfg now m).

(** The estimated size of all the contexts. *)
Definition total_bytes (cs : gmap jstr ContextState) : Z :=
  map_fold (fun _ s acc => estimate_context_bytes s + acc) 0 cs.

(** The keys the limiter uses are the ones [map_key] builds for a kind. *)
Definition key_ok (id : jstr) : Prop := exists k key, id = map_key (kind_str k) key.

Definition memory_ok (m : MemoryState) : Prop :=
  bytes m = total_bytes (contexts m) /\
  forall id s, contexts m !! id = Some s -> key_ok id.

(** ** One context over time *)

(** What may happen to a context, each at its time. *)
Inductive ctx_op := OpEvaluate (now : Z) | OpRecord (now : Z) | OpPurge (now : Z).

Definition op_time (op : ctx_op) : Z :=
  match op with OpEvaluate t | OpRecord t | OpPurge t => t end.

(** The next context, and the time of the lockout that started, if one did. *)
Definition ctx_step (p : ContextParams) (s : option ContextState) (op : ctx_op)
    : option ContextState * option Z :=
  match op with
  | OpEvaluate now =>
      let r := evaluate_context s now p in
      (match eval_next r with Some n => Some n | None => s end,
       if lockout_started r then Some now else None)
  | OpRecord now => (Some (record_on_context s now), None)
  | OpPurge now =>
      (match s with Some st => purged_context st now (sample_period_s p) | None => None end, None)
  end.

Fixpoint ctx_run (p : ContextParams) (s : option ContextState) (ops : list ctx_op) : list Z :=
  match ops with
  | [] => []
  | op :: rest =>
      let '(s', started) := ctx_step p s op in
      option_to_list started ++ ctx_run p s' rest
  end.

(** The times of the operations never go back. *)
Fixpoint times_from (t : Z) (ops : list ctx_op) : Prop :=
  match ops with
  | [] => True
  | op :: rest => t <= op_time op /\ times_from (op_time op) rest
  end.

(** Any two consecutive lockouts are at least [gap] apart. *)
Fixpoint spaced (gap : Z) (starts : list Z) : Prop :=
  match starts with
  | t1 :: ((t2 :: _) as rest) => t1 + gap <= t2 /\ spaced gap rest
  | _ => True
  end.

(** ** Lemmas: keys *)

Lemma kind_str_no_tab k : 9 ∉ kind_str k.
Proof. destruct k; (eapply bool_decide_eq_false_1; by vm_compute). Qed.

Lemma firstn_length_app {A} (a b : list A) : firstn (length a) (a ++ b) = a.
Proof. by rewrite firstn_app, firstn_all, Nat.sub_diag, firstn_O, app_nil_r. Qed.

Lemma parse_map_key_map_key k key : parse_map_key (map_key (kind_str k) key) = (kind_str k, key).
Proof.
  unfold parse_map_key, map_key. change ([9] ++ key) with (9 :: key).
  rewrite index_of_app by apply kind_str_no_tab.
  rewrite firstn_length_app. f_equal.
  rewrite cons_middle, app_assoc.
  change (S (length (kind_str k))) with (1 + length (kind_str k))%nat.
  rewrite skipn_app, length_app. simpl.
  replace (S (length (kind_str k)) - (length (kind_str k) + 1))%nat with 0%nat by lia.
  rewrite skipn_all2 by (rewrite length_app; simpl; lia). done.
Qed.

Lemma map_key_inj k1 key1 k2 key2 :
  map_key (kind_str k1) key1 = map_key (kind_str k2) key2 -> k1 = k2 /\ key1 = key2.
Proof.
  intros H. apply (f_equal parse_map_key) in H. rewrite !parse_map_key_map_key in H.
  injection H as Hk ->. split; [|done]. by destruct k1, k2; vm_compute in Hk.
Qed.

(** The parameters [purge_entry] picks from a key are the ones of its kind. *)
Lemma kind_params_str k cfg :
  (if seqb (kind_str k) (u "ip") then ip_params cfg else user_params cfg) = kind_params k cfg.
Proof. destruct k; by vm_compute. Qed.

(** ** Lemmas: pruning and purging *)

Lemma prune_prune failures t t' p : t <= t' ->
  prune_failures (prune_failures failures t p) t' p = prune_failures failures t' p.
Proof. intros. unfold prune_failures. apply filter_twice_le. intros. lia. Qed.

Lemma prune_nil_later failures t t' p : t <= t' ->
  prune_failures failures t p = [] -> prune_failures failures t' p = [].
Proof. intros Ht H. rewrite <- (prune_prune failures t t' p Ht), H. done. Qed.

Lemma limit_done_later limit t t' : t <= t' -> limit_done limit t = true -> limit_done limit t' = true.
Proof. destruct limit; simpl; [|done]. rewrite !Z.leb_le. lia. Qed.

(** What an attempt sees of a context: the delay and whether it is locked out. *)
Definition verdict (r : EvaluateContextResult) : Z * bool * bool :=
  (eval_delay_ms r, eval_lockout r, lockout_started r).

Lemma evaluate_purged s t t' p : t <= t' -> 0 <= threshold p ->
  verdict (evaluate_context (purged_context s t (sample_period_s p)) t' p) =
  verdict (evaluate_context (Some s) t' p).
Proof.
  intros Ht Hp. unfold purged_context.
  destruct (context_is_expired _ _) eqn:Hexp.
  - unfold context_is_expired in Hexp. simpl in Hexp.
    apply andb_true_iff in Hexp as [[Hf Hl]%andb_true_iff Hg].
    apply Z.eqb_eq, (Nat2Z.inj _ 0), length_zero_iff_nil in Hf.
    simpl. rewrite (prune_nil_later _ _ _ _ Ht Hf).
    rewrite (limit_done_later _ _ _ Ht Hl), (limit_done_later _ _ _ Ht Hg).
    unfold count_since. simpl.
    rewrite !(proj2 (Z.ltb_ge _ _)) by lia. done.
  - simpl. by rewrite (prune_prune _ _ _ _ Ht).
Qed.

(** ** Lemmas: the map of contexts *)

Lemma total_bytes_insert_fresh cs id s : cs !! id = None ->
  total_bytes (<[id := s]> cs) = estimate_context_bytes s + total_bytes cs.
Proof.
  intros H. unfold total_bytes. rewrite map_fold_insert_L; [done| |done].
  intros. lia.
Qed.

Lemma total_bytes_delete cs id s : cs !! id = Some s ->
  total_bytes cs = estimate_context_bytes s + total_bytes (delete id cs).
Proof.
  intros H. rewrite <- (insert_id cs id s H) at 1. rewrite <- insert_delete_eq.
  apply total_bytes_insert_fresh, lookup_delete_eq.
Qed.

Lemma total_bytes_insert cs id s :
  total_bytes (<[id := s]> cs) =
  total_bytes cs - (match cs !! id with Some p => estimate_context_bytes p | None => 0 end)
  + estimate_context_bytes s.
Proof.
  destruct (cs !! id) as [p|] eqn:H.
  - rewrite <- insert_delete_eq, total_bytes_insert_fresh by apply lookup_delete_eq.
    rewrite (total_bytes_delete cs id p H). lia.
  - rewrite total_bytes_insert_fresh by done. lia.
Qed.

Lemma save_ok k key s m : memory_ok m -> memory_ok (save (kind_str k) key s m).
Proof.
  intros [Hb Hk]. split.
  - simpl. rewrite total_bytes_insert, Hb. destruct (contexts m !! _); lia.
  - intros id s'. simpl. rewrite lookup_insert. case_decide; [|apply Hk].
    intros _. subst. by exists k, key.
Qed.

Lemma remove_ok kind key m : memory_ok m -> memory_ok (remove kind key m).
Proof.
  intros [Hb Hk]. unfold remove. destruct (contexts m !! _) as [p|] eqn:Hp; [|done]. split; simpl.
  - rewrite Hb, (total_bytes_delete _ _ _ Hp). lia.
  - intros id s'. rewrite lookup_delete. case_decide; [done|]. apply Hk.
Qed.

Lemma eval_one_ok k key p now m : memory_ok m -> memory_ok (eval_one k key p now m).2.
Proof. intros H. unfold eval_one. simpl. destruct (eval_next _); [by apply save_ok|done]. Qed.

Lemma record_one_ok k key cfg now m : memory_ok m -> memory_ok (record_one k key cfg now m).
Proof.
  intros H. unfold record_one. destruct (load _ _ _); [by apply save_ok|].
  destruct (_ <=? _); [done|by apply save_ok].
Qed.

Lemma maybe_schedule_purge_ok cfg m : memory_ok m -> memory_ok (maybe_schedule_purge cfg m).2.
Proof. intros H. unfold maybe_schedule_purge. by repeat case_match. Qed.

Lemma purge_entry_ok cfg now m id s : key_ok id -> memory_ok m -> memory_ok (purge_entry cfg now m (id, s)).
Proof.
  intros (k & key & ->) H. simpl. rewrite parse_map_key_map_key.
  destruct (purged_context _ _ _); [by apply save_ok|by apply remove_ok].
Qed.

Lemma purge_entry_lookup cfg now m k key s :
  contexts (purge_entry cfg now m (map_key (kind_str k) key, s)) !! map_key (kind_str k) key =
  purged_context s now (sample_period_s (kind_params k cfg)).
Proof.
  simpl. rewrite parse_map_key_map_key, kind_params_str.
  destruct (purged_context _ _ _); simpl.
  - apply lookup_insert_eq.
  - unfold remove. destruct (contexts m !! _) eqn:H; [apply lookup_delete_eq|done].
Qed.

Lemma purge_entry_lookup_ne cfg now m id s id' : key_ok id -> id <> id' ->
  contexts (purge_entry cfg now m (id, s)) !! id' = contexts m !! id'.
Proof.
  intros (k & key & ->) Hne. simpl. rewrite parse_map_key_map_key.
  destruct (purged_context _ _ _); simpl.
  - by apply lookup_insert_ne.
  - unfold remove. destruct (contexts m !! map_key _ _); [by apply lookup_delete_ne|done].
Qed.

Lemma purge_fold cfg now (l : list (jstr * ContextState)) m :
  NoDup l.*1 -> Forall (fun e => key_ok e.1) l -> memory_ok m ->
  let m' := fold_left (purge_entry cfg now) l m in
  memory_ok m' /\
  (forall k key s, (map_key (kind_str k) key, s) ∈ l ->
     contexts m' !! map_key (kind_str k) key =
     purged_context s now (sample_period_s (kind_params k cfg))) /\
  (forall id, id ∉ l.*1 -> contexts m' !! id = contexts m !! id).
Proof.
  revert m. induction l as [|[id s] l IH]; intros m Hnd Hall Hm; simpl.
  - split; [done|]. split; [by intros ? ? ? ?%not_elem_of_nil|done].
  - apply NoDup_cons in Hnd as [Hid Hnd]. apply Forall_cons in Hall as [Hk Hall].
    destruct (IH (purge_entry cfg now m (id, s)) Hnd Hall) as (Hok & Hin & Hout).
    { by apply purge_entry_ok. }
    change (fold_left (purge_entry cfg now) l (purge_entry cfg now m (id, s)))
      with (fold_left (purge_entry cfg now) ((id, s) :: l) m) in *.
    split; [done|]. split.
    + intros k key s' [[= <- <-]|Hl]%elem_of_cons.
      * rewrite Hout by done. apply purge_entry_lookup.
      * by apply Hin.
    + intros id' [Hne Hni]%not_elem_of_cons. rewrite Hout by done.
      by apply purge_entry_lookup_ne.
Qed.

Lemma apply_purge_spec cfg now m : memory_ok m ->
  memory_ok (apply_purge cfg now m) /\
  forall k key, load (kind_str k) key (apply_purge cfg now m) =
    s ← load (kind_str k) key m; purged_context s now (sample_period_s (kind_params k cfg)).
Proof.
  intros Hm. destruct (purge_fold cfg now (map_to_list (contexts m)) m) as (Hok & Hin & Hout).
  - apply NoDup_fst_map_to_list.
  - apply Forall_forall. intros [id s] H%elem_of_map_to_list. by apply (proj2 Hm id s).
  - done.
  - split; [exact Hok|]. intros k key. unfold load.
    change (contexts (apply_purge cfg now m)) with
      (contexts (fold_left (purge_entry cfg now) (map_to_list (contexts m)) m)).
    destruct (contexts m !! map_key (kind_str k) key) as [s|] eqn:Hs; simpl.
    + apply Hin. by apply elem_of_map_to_list.
    + rewrite <- Hs. apply Hout. intros ([id s] & Heq & H%elem_of_map_to_list)%list_elem_of_fmap.
      simpl in *. congruence.
Qed.

Lemma initial_memory_ok : memory_ok initial_memory.
Proof.
  split; [done|]. intros id s H. unfold initial_memory in H. simpl in H.
  by rewrite lookup_empty in H.
Qed.

#[export] Hint Resolve initial_memory_ok save_ok remove_ok record_one_ok maybe_schedule_purge_ok
  : untangled.

(** ** Lemmas: lockouts of one context *)

(** A lockout is in force, or in its grace, until [g]. *)
Definition guarded (g : Z) (s : option ContextState) : Prop :=
  exists st, s = Some st /\ grace_until_ms st = Some g.

Lemma ctx_step_guarded p g s op : guarded g s -> op_time op < g ->
  guarded g (ctx_step p s op).1 /\ (ctx_step p s op).2 = None.
Proof.
  intros (st & -> & Hg) Ht. destruct op as [now|now|now]; simpl in *.
  - rewrite Hg. simpl. rewrite (proj2 (Z.leb_gt g now)) by done. simpl.
    rewrite andb_false_r. destruct (negb (limit_done _ _)); [|repeat case_match];
      split; try done; eexists; split; done.
  - split; [|done]. eexists. split; [done|]. done.
  - split; [|done]. unfold purged_context, context_is_expired. simpl.
    rewrite Hg. simpl. rewrite (proj2 (Z.leb_gt g now)) by done.
    rewrite andb_false_r. eexists. split; done.
Qed.

Lemma ctx_step_start p s op t : (ctx_step p s op).2 = Some t ->
  t = op_time op /\ guarded (t + 2 * ctx_lockout_s p * 1000) (ctx_step p s op).1.
Proof.
  destruct op as [now|now|now]; simpl; [|done|done].
  destruct s as [st|]; simpl; [|done].
  destruct (negb (limit_done (lockout_until_ms st) now)); simpl; [done|].
  destruct (_ && _); simpl.
  - intros [= <-]. split; [done|]. eexists. split; [done|]. simpl. f_equal. lia.
  - repeat case_match; done.
Qed.

Lemma ctx_run_guarded p g ops s t : guarded g s -> times_from t ops ->
  Forall (fun t' => g <= t') (ctx_run p s ops).
Proof.
  assert (Hlate : forall ops s t, g <= t -> times_from t ops ->
            Forall (fun t' => g <= t') (ctx_run p s ops)).
  { clear. intros ops. induction ops as [|op ops IH]; intros s t Hg Ht; simpl; [constructor|].
    destruct Ht as [Ht1 Ht2]. destruct (ctx_step p s op) as [s' o] eqn:Hstep.
    apply Forall_app. split; [|apply (IH s' (op_time op)); [lia|done]].
    destruct o as [t'|]; simpl; [|constructor].
    destruct (ctx_step_start p s op t') as [-> _]; [by rewrite Hstep|].
    constructor; [lia|constructor]. }
  revert s t. induction ops as [|op ops IH]; intros s t Hg Ht; simpl; [constructor|].
  destruct (Z.lt_ge_cases (op_time op) g) as [Hlt|Hge].
  - destruct (ctx_step_guarded p g s op Hg Hlt) as [Hg' Hn].
    destruct (ctx_step p s op) as [s' o]. simpl in *. subst o. simpl.
    destruct Ht. eauto.
  - apply (Hlate (op :: ops) s (op_time op)); [done|]. destruct Ht. split; [lia|done].
Qed.

(** ** Properties *)

(** [bytes] is at every moment the estimated size of the contexts
    held, and every key is one built for a user or an address: each operation
    of the limiter (an evaluation, a recorded failure, a purge) keeps this, so
    it holds of every state reached from the empty limiter. *)
Theorem limiter_accounting m :
  rtc limiter_step initial_memory m -> memory_ok m.
Proof.
  pose proof initial_memory_ok as H0.
  assert (Hstep : forall a b, limiter_step a b -> memory_ok a -> memory_ok b).
  { intros a b [m0 cfg name ip n1 n2|m0 cfg name ip n1 n2|m0 cfg now] H.
    - unfold evaluate. pose proof (eval_one_ok User name (user_params cfg) n1 m0 H) as H1.
      destruct (eval_one User _ _ _ _) as [[? ?] m1]. simpl in H1.
      destruct (present ip) as [addr|]; [|done].
      pose proof (eval_one_ok Ip addr (ip_params cfg) n2 m1 H1) as H2.
      by destruct (eval_one Ip _ _ _ _) as [[? ?] m2].
    - unfold record_failure. destruct (present ip); auto with untangled.
    - by apply apply_purge_spec. }
  intros Hr. induction Hr; eauto.
Qed.

Lemma limiter_accounting_witness :
  let m := (record_failure default_rate_limit_settings "root" (Some (u "10.0.0.7")) 5 6
              initial_memory).2 in
  rtc limiter_step initial_memory m /\ memory_ok m.
Proof.
  assert (H : rtc limiter_step initial_memory
    (record_failure default_rate_limit_settings "root" (Some (u "10.0.0.7")) 5 6 initial_memory).2).
  { apply rtc_once, StepRecord. }
  split; [exact H|]. apply (limiter_accounting _ H).
Defined.

Lemma evaluate_verdict cfg name ip n1 n2 m1 m2 :
  (forall k key t, (k = User /\ t = n1) \/ (k = Ip /\ t = n2) ->
     verdict (evaluate_context (load (kind_str k) key m1) t (kind_params k cfg)) =
     verdict (evaluate_context (load (kind_str k) key m2) t (kind_params k cfg))) ->
  (evaluate cfg name ip n1 n2 m1).1 = (evaluate cfg name ip n1 n2 m2).1.
Proof.
  intros H. unfold evaluate, eval_one.
  assert (Hsave : forall st m key, load (kind_str Ip) key (save (kind_str User) name st m) =
                                   load (kind_str Ip) key m).
  { intros st m key. unfold load, save. simpl. apply lookup_insert_ne.
    intros [? _]%(map_key_inj User _ Ip). done. }
  pose proof (H User name n1 ltac:(auto)) as Hu. unfold verdict in Hu. simpl kind_params in Hu.
  injection Hu as Hd Hl Hs.
  destruct (present ip) as [a|]; simpl; [|by rewrite Hd, Hl, Hs].
  pose proof (H Ip a n2 ltac:(auto)) as Hi. unfold verdict in Hi. simpl kind_params in Hi.
  destruct (eval_next (evaluate_context (load (kind_str User) name m1) _ _)),
    (eval_next (evaluate_context (load (kind_str User) name m2) _ _));
    simpl in *; rewrite ?Hsave; injection Hi as Hd' Hl' Hs';
    by rewrite Hd, Hl, Hs, Hd', Hl', Hs'.
Qed.

(** A purge loses no protection: after it, every evaluation made
    at the purge's time or later gives the same delay, the same lockout and
    starts the same lockouts as it would have without the purge. *)
Theorem purge_transparent m cfg now name ip n1 n2 :
  memory_ok m -> rate_limit_ok cfg -> now <= n1 -> now <= n2 ->
  (evaluate cfg name ip n1 n2 (apply_purge cfg now m)).1 = (evaluate cfg name ip n1 n2 m).1.
Proof.
  intros Hm Hcfg H1 H2. apply evaluate_verdict. intros k key t Hk.
  rewrite (proj2 (apply_purge_spec cfg now m Hm)).
  destruct (load (kind_str k) key m) as [s|]; simpl; [|done].
  apply evaluate_purged; destruct Hk as [[-> ->]|[-> ->]]; unfold rate_limit_ok in Hcfg; simpl; lia.
Qed.

Definition sample_memory : MemoryState :=
  save (kind_str User) "root"
    {| lockout_until_ms := Some 50; grace_until_ms := Some 90; failures_ms := [1; 2; 900000] |}
    initial_memory.

Lemma purge_transparent_witness :
  (evaluate default_rate_limit_settings "root" None 900500 900500
     (apply_purge default_rate_limit_settings 900400 sample_memory)).1 =
  (evaluate default_rate_limit_settings "root" None 900500 900500 sample_memory).1.
Proof.
  apply (purge_transparent sample_memory default_rate_limit_settings 900400).
  - apply save_ok, initial_memory_ok.
  - vm_compute. repeat split; intros; discriminate.
  - lia.
  - lia.
Defined.

(** Lockouts of a context never follow each other closer than
    twice the configured lockout time, whatever attempts, failures and purges
    happen between: the lockout is followed by a grace of the same length in
    which no new lockout can start. *)
Theorem lockouts_spaced p ops t s :
  times_from t ops ->
  spaced (2 * ctx_lockout_s p * 1000) (ctx_run p s ops).
Proof.
  revert t s. induction ops as [|op ops IH]; intros t s Ht; simpl; [done|].
  destruct Ht as [_ Ht]. destruct (ctx_step p s op) as [s' o] eqn:Hstep.
  destruct o as [t'|]; simpl; [|by apply (IH (op_time op))].
  destruct (ctx_step_start p s op t') as [-> Hg]; [by rewrite Hstep|].
  rewrite Hstep in Hg. simpl in Hg.
  pose proof (ctx_run_guarded p _ ops s' _ Hg Ht) as Hall.
  pose proof (IH _ s' Ht) as Hsp.
  destruct (ctx_run p s' ops) as [|t2 rest]; simpl; [done|].
  apply Forall_cons in Hall as [H2 _]. split; [lia|done].
Qed.

Definition sample_params : ContextParams := {|
  threshold := 0; sample_period_s := 1; ctx_l1_delay_ms := 5; ctx_l2_delay_ms := 20;
  ctx_lockout_s := 1 |}.

Definition sample_ops : list ctx_op :=
  [OpRecord 1; OpEvaluate 2; OpRecord 3; OpEvaluate 900; OpRecord 1500; OpEvaluate 1600;
   OpPurge 1900; OpEvaluate 2100].

Lemma lockouts_spaced_witness :
  ctx_run sample_params None sample_ops = [2; 2100] /\
  spaced (2 * ctx_lockout_s sample_params * 1000) (ctx_run sample_params None sample_ops).
Proof.
  split; [by vm_compute|].
  apply (lockouts_spaced sample_params sample_ops 0 None). vm_compute. repeat split; discriminate.
Defined.

(** A lockout that starts at [t] denies every evaluation until
    its end, with the second delay, whatever failures are recorded meanwhile;
    from its end to the end of the grace no evaluation is locked out. *)
Theorem lockout_window p s t ops now :
  lockout_started (evaluate_context s t p) = true ->
  times_from t ops -> Forall (fun op => op_time op < t + ctx_lockout_s p * 1000) ops ->
  let s' := fold_left (fun s op => (ctx_step p s op).1) ops (eval_next (evaluate_context s t p)) in
  t <= now ->
  (now < t + ctx_lockout_s p * 1000 ->
     eval_lockout (evaluate_context s' now p) = true /\
     eval_delay_ms (evaluate_context s' now p) = ctx_l2_delay_ms p) /\
  (t + ctx_lockout_s p * 1000 <= now < t + 2 * ctx_lockout_s p * 1000 ->
     eval_lockout (evaluate_context s' now p) = false).
Proof.
  intros Hstart _ Hops s' _.
  set (L := t + ctx_lockout_s p * 1000). set (G := t + 2 * ctx_lockout_s p * 1000).
  set (held := fun s => exists st, s = Some st /\ lockout_until_ms st = Some L /\
                                   grace_until_ms st = Some G).
  assert (H0 : held (eval_next (evaluate_context s t p))).
  { destruct s as [st|]; [|done]. simpl in *.
    destruct (negb (limit_done (lockout_until_ms st) t)); [done|]. destruct (_ && _); simpl.
    - eexists. split; [done|]. simpl. split; f_equal; unfold L, G; lia.
    - revert Hstart. by repeat case_match. }
  assert (Hstep : forall s op, op_time op < L -> held s -> held (ctx_step p s op).1).
  { intros s0 op Hop (st & -> & HL & HG). destruct op as [n|n|n]; simpl in *.
    - rewrite HL. simpl. rewrite (proj2 (Z.leb_gt L n)) by lia. simpl. eexists. eauto.
    - eexists. eauto.
    - unfold purged_context, context_is_expired. simpl. rewrite HL. simpl.
      rewrite (proj2 (Z.leb_gt L n)) by lia. rewrite andb_false_r. simpl. eexists. eauto. }
  assert (Hheld : held s').
  { unfold s'. clear s'. revert H0. generalize (eval_next (evaluate_context s t p)).
    induction Hops as [|op ops Hop Hops IH]; intros s0 H0; simpl; [done|]. apply IH; auto. }
  destruct Hheld as (st & -> & HL & HG). simpl. rewrite HL, HG. simpl. split; intros Hn.
  - rewrite (proj2 (Z.leb_gt L now)) by lia. done.
  - rewrite (proj2 (Z.leb_le L now)) by (unfold L; lia).
    rewrite (proj2 (Z.leb_gt G now)) by (unfold G; lia). simpl.
    rewrite andb_false_r. by repeat case_match.
Qed.

Lemma lockout_window_witness :
  let s := Some (record_on_context None 1) in
  eval_lockout (evaluate_context
    (fold_left (fun s op => (ctx_step sample_params s op).1) [OpRecord 700; OpPurge 800]
      (eval_next (evaluate_context s 2 sample_params))) 1001 sample_params) = true.
Proof.
  intros s. apply (lockout_window sample_params s 2 [OpRecord 700; OpPurge 800] 1001).
  - by vm_compute.
  - vm_compute. repeat split; discriminate.
  - repeat constructor.
  - lia.
  - vm_compute. reflexivity.
Defined.
