(* ===== verification/RedisRateLimit.v ===== *)
(** rate_limit_redis.ts: the limiter of [RateLimit] kept in Redis, shared by
    several service processes and guarded by WATCH / MULTI / EXEC.

    The code is a set of programs over the calls [RedisE].  [store] and [serve]
    give the meaning of the Redis commands; [cluster] runs any number of
    requests, on any number of connections, call by call. *)
From S2P Require Import Prelude JsString JsValue JsText Settings Effects AuditEvents RateLimit.

(** ** encodeURIComponent and decodeURIComponent *)

Definition uri_unreserved (c : Z) : bool :=
  is_digit c || is_lower c || is_upper c || bool_decide (c ∈ u "-_.!~*'()").

Definition hex_upper (d : Z) : Z := if d <? 10 then 48 + d else 55 + d.

Definition percent (b : Z) : jstr := [37; hex_upper (b / 16); hex_upper (b mod 16)].

(** No surrogate without its pair. *)
Fixpoint well_paired (s : jstr) : bool :=
  match s with
  | [] => true
  | c :: s' =>
      if is_high_surrogate c then
        match s' with
        | d :: s'' => is_low_surrogate d && well_paired s''
        | [] => false
        end
      else negb (is_low_surrogate c) && well_paired s'
  end.

(** [None] is a [URIError]. *)
Definition encodeURIComponent (s : jstr) : option jstr :=
  if well_paired s
  then Some (List.concat (map (fun b => if uri_unreserved b then [b] else percent b) (utf8_bytes s)))
  else None.

(** The byte of a [%XX] at the start. *)
Definition percent_byte (s : jstr) : option (Z * jstr) :=
  match s with
  | p :: a :: b :: rest =>
      if p =? 37 then
        match hex_digit a, hex_digit b with
        | Some x, Some y => Some (16 * x + y, rest)
        | _, _ => None
        end
      else None
  | _ => None
  end.

(** The continuation bytes of a code point, each a [%XX]. *)
Fixpoint percent_rest (n : nat) (lo hi acc : Z) (s : jstr) : option (Z * jstr) :=
  match n with
  | O => Some (acc, s)
  | S n' =>
      match percent_byte s with
      | Some (b, rest) =>
          if (lo <=? b) && (b <=? hi) then percent_rest n' 128 191 (acc * 64 + (b - 128)) rest
          else None
      | None => None
      end
  end.

Fixpoint uri_decode (fuel : nat) (s : jstr) : option jstr :=
  match fuel, s with
  | S f, c :: rest =>
      if c =? 37 then
        match percent_byte s with
        | Some (b, r) =>
            if b <? 128 then match uri_decode f r with Some t => Some (b :: t) | None => None end
            else match lead_info b with
                 | Some (lo, hi, n) =>
                     match percent_rest n lo hi (lead_bits b) r with
                     | Some (p, r') =>
                         match uri_decode f r' with
                         | Some t => Some (units_of_point p ++ t)
                         | None => None
                         end
                     | None => None
                     end
                 | None => None
                 end
        | None => None
        end
      else match uri_decode f rest with Some t => Some (c :: t) | None => None end
  | _, [] => Some []
  | O, _ => None
  end.

(** Each round consumes a unit, so the length is fuel enough. *)
Definition decodeURIComponent (s : jstr) : option jstr := uri_decode (length s) s.

(** ** Keys *)

Definition RL_KEY_PREFIX : jstr := u "auth:rl:".
Definition META_BYTES : jstr := RL_KEY_PREFIX ++ u "meta:bytes".
Definition META_PURGE : jstr := RL_KEY_PREFIX ++ u "meta:purge".
Definition PURGE_LOCK_SECONDS := 30.
Definition SCAN_COUNT := 64.

Definition uri_error : exn := Error_ (u "URI malformed").

Definition or_uri_error {A} (o : option A) : outcome A :=
  match o with Some a => Val a | None => Exc uri_error end.

Definition encode_id (key : jstr) : outcome jstr := or_uri_error (encodeURIComponent key).

Definition bucket (kind : ContextKind) : jstr := match kind with User => u "u" | Ip => u "i" end.

Definition hash_key (kind : ContextKind) (key : jstr) : outcome jstr :=
  match encode_id key with
  | Val id => Val (RL_KEY_PREFIX ++ bucket kind ++ u ":" ++ id)
  | Exc e => Exc e
  end.

Definition zset_key (kind : ContextKind) (key : jstr) : outcome jstr :=
  match hash_key kind key with Val h => Val (h ++ u ":z") | Exc e => Exc e end.

(** [Val None] is [null]; decoding may throw. *)
Definition parse_hash_key (raw : jstr) : outcome (option (ContextKind * jstr)) :=
  if ends_with (u ":z") raw || starts_with (RL_KEY_PREFIX ++ u "meta:") raw then Val None
  else
    let user_prefix := RL_KEY_PREFIX ++ u "u:" in
    let ip_prefix := RL_KEY_PREFIX ++ u "i:" in
    let decoded kind prefix :=
      match or_uri_error (decodeURIComponent (slice_from raw (jlen prefix))) with
      | Val key => Val (Some (kind, key))
      | Exc e => Exc e
      end in
    if starts_with user_prefix raw then decoded User user_prefix
    else if starts_with ip_prefix raw then decoded Ip ip_prefix
    else Val None.

(** A finite number as whole milliseconds or bytes. *)
Definition finite_int (n : num) : option Z :=
  match n with NInt z => Some z | NFrac a d => Some (a / Zpos d) | _ => None end.

Definition parse_optional_ms (raw : option jstr) : option Z :=
  match raw with
  | None | Some [] => None
  | Some raw => finite_int (js_number raw)
  end.

(** ** The calls *)

(** The commands queued in a [MULTI]. *)
Inductive command :=
| HSet (key : jstr) (fields : list (jstr * jstr))
| Del (keys : list jstr)
| ZAdd (key : jstr) (members : list (Z * jstr))
| IncrBy (key : jstr) (n : Z).

Inductive RedisE : Type -> Type :=
(* the queue of [run_exclusive] *)
| Enter : RedisE unit
| Leave : RedisE unit
(* Redis *)
| Watch (keys : list jstr) : RedisE (outcome unit)
| Unwatch : RedisE (outcome unit)
| Exec (commands : list command) : RedisE (outcome bool)   (* false: null *)
| Exists (key : jstr) : RedisE (outcome Z)
| HGetAll (key : jstr) : RedisE (outcome (gmap jstr jstr))
| ZRangeWithScores (key : jstr) : RedisE (outcome (list (Z * jstr)))
| Get (key : jstr) : RedisE (outcome (option jstr))
| SetNxEx (key value : jstr) (ex : Z) : RedisE (outcome bool)
| DelKey (key : jstr) : RedisE (outcome unit)
| Scan (cursor pattern : jstr) (count : Z) : RedisE (outcome (jstr * list jstr))
(* the process *)
| Now : RedisE Z
| ReadSettings : RedisE (outcome RateLimitSettings)
| EmitTrip (kind : ContextKind) (key : jstr) (source_ip : option jstr) : RedisE unit
| YieldLoop : RedisE unit
| GetPurgeRunning : RedisE bool
| SetPurgeRunning (b : bool) : RedisE unit
| SchedulePurge (settings : RateLimitSettings) : RedisE unit.

Abbreviation R := (IO RedisE).

Definition lift {A} (o : outcome A) : R A := Ret o.

(** ** State of a context in Redis *)

Definition load_state (kind : ContextKind) (key : jstr) : R (option ContextState) :=
  let* hash := lift (hash_key kind key) in
  let* zset := lift (zset_key kind key) in
  let* exists_ := call (Exists hash) in
  if exists_ =? 0 then ret None
  else
    let* fields := call (HGetAll hash) in
    let* members := call (ZRangeWithScores zset) in
    ret (Some {| lockout_until_ms := parse_optional_ms (fields !! u "lockout_until");
                 grace_until_ms := parse_optional_ms (fields !! u "grace_until");
                 failures_ms := map fst members |}).

(** [limit == null ? "" : String(limit)] *)
Definition limit_text (limit : option Z) : jstr :=
  match limit with None => [] | Some ms => num_to_string ms end.

(** The members that hold the failures: the stamp and its position. *)
Definition failure_members (failures : list Z) : list (Z * jstr) :=
  imap (fun index stamp =>
          (stamp, num_to_string stamp ++ u ":" ++ num_to_string (Z.of_nat index))) failures.

Definition write_state (kind : ContextKind) (key : jstr) (state : ContextState)
    : outcome (list command) :=
  match hash_key kind key, zset_key kind key with
  | Val hash, Val zset =>
      Val ([HSet hash [(u "lockout_until", limit_text (lockout_until_ms state));
                       (u "grace_until", limit_text (grace_until_ms state))];
            Del [zset]] ++
           match failures_ms state with
           | [] => []
           | failures => [ZAdd zset (failure_members failures)]
           end)
  | Exc e, _ | _, Exc e => Exc e
  end.

Definition read_bytes : R Z :=
  let* raw := call (Get META_BYTES) in
  ret match finite_int (js_number match raw with Some r => r | None => u "0" end) with
      | Some value => value
      | None => 0
      end.

(** ** make_redis_rate_limit *)

Definition ascii_lower (c : Z) : Z := if is_upper c then c + 32 else c.

(** [/watch/i.test(message)] *)
Definition is_watch_conflict (error : exn) : bool :=
  match error with
  | Error_ m | SessionSettingsAbortError m | RoleGraphError m =>
      includes (u "watch") (map ascii_lower m)
  end.

(** The [try] block of an attempt: watch, prepare, commit. *)
Definition watch_attempt {T} (keys : list jstr) (body : R (T * outcome (list command))) : R T :=
  call (Watch keys) >>
  let* prepared := body in
  let* commands := lift (snd prepared) in
  let* committed := call (Exec commands) in
  if committed : bool then ret (fst prepared) else throw (Error_ (u "watch conflict")).

(** The loop with [left] attempts to go. *)
Fixpoint watch_loop {T} (left : nat) (keys : list jstr) (body : R (T * outcome (list command)))
    (last_error : exn) : R T :=
  match left with
  | O => throw (Error_ (u "rate-limit watch retries exhausted (" ++
                         match last_error with
                         | Error_ m | SessionSettingsAbortError m | RoleGraphError m => m
                         end ++ u ")"))
  | S left' =>
      let* r := attempt (watch_attempt keys body) in
      match r with
      | Val result => ret result
      | Exc error =>
          try_catch (call Unwatch) (fun _ => ret tt) >>
          if is_watch_conflict error && negb (left' =? 0)%nat
          then watch_loop left' keys body error
          else throw error
      end
  end.

Definition run_exclusive {T} (fn : R T) : R T :=
  perform Enter >> finally fn (perform Leave).

Definition with_watch {T} (keys : list jstr) (body : R (T * outcome (list command))) : R T :=
  run_exclusive (watch_loop WATCH_RETRY_LIMIT keys body (Error_ (u "unknown"))).

(** [incrBy(META_BYTES, n)] when [n !== 0] *)
Definition incr_bytes (n : Z) : list command := if n =? 0 then [] else [IncrBy META_BYTES n].

Definition app_commands (a : outcome (list command)) (b : list command) : outcome (list command) :=
  match a with Val l => Val (l ++ b) | Exc e => Exc e end.

Definition context_bytes (state : option ContextState) : Z :=
  match state with Some s => estimate_context_bytes s | None => 0 end.

Definition eval_body (kind : ContextKind) (key : jstr) (params : ContextParams)
    : R ((RateLimitResult * bool) * outcome (list command)) :=
  let* existing := load_state kind key in
  let* now := perform Now in
  let outcome := evaluate_context existing now params in
  let apply := match eval_next outcome with
               | Some next =>
                   app_commands (write_state kind key next)
                     (incr_bytes (estimate_context_bytes next - context_bytes existing))
               | None => Val []
               end in
  ret ({| delay_ms := eval_delay_ms outcome; lockout := eval_lockout outcome |},
       lockout_started outcome, apply).

(** The keys of a context, as an array literal evaluates them. *)
Definition context_keys (kind : ContextKind) (key : jstr) : R (list jstr) :=
  let* hash := lift (hash_key kind key) in
  let* zset := lift (zset_key kind key) in
  ret [hash; zset].

Definition eval_one (kind : ContextKind) (key : jstr) (settings : RateLimitSettings)
    (source_ip : option jstr) : R RateLimitResult :=
  let params := kind_params kind settings in
  let* keys := context_keys kind key in
  let* committed := with_watch keys (eval_body kind key params) in
  (if committed.2 then perform (EmitTrip kind key source_ip) else ret tt) >>
  ret committed.1.

Definition record_body (kind : ContextKind) (key : jstr) (settings : RateLimitSettings)
    : R (unit * outcome (list command)) :=
  let* existing := load_state kind key in
  let* used := read_bytes in
  if bool_decide (existing = None) && (budget_bytes (max_kib settings) <=? used) then
    ret (tt, Val [])
  else
    let* now := perform Now in
    let next := record_on_context existing now in
    ret (tt, app_commands (write_state kind key next)
               [IncrBy META_BYTES (estimate_context_bytes next - context_bytes existing)]).

Definition record_one (kind : ContextKind) (key : jstr) (settings : RateLimitSettings) : R unit :=
  let* keys := context_keys kind key in
  with_watch keys (record_body kind key settings).

(** The commands that delete a context. *)
Definition delete_state (kind : ContextKind) (key : jstr) : outcome (list command) :=
  match hash_key kind key, zset_key kind key with
  | Val hash, Val zset => Val [Del [hash; zset]]
  | Exc e, _ | _, Exc e => Exc e
  end.

Definition purge_body (kind : ContextKind) (key : jstr) (params : ContextParams)
    : R (Z * outcome (list command)) :=
  let* existing := load_state kind key in
  match existing with
  | None => ret (0, Val [])
  | Some existing =>
      let* now := perform Now in
      let previous_bytes := estimate_context_bytes existing in
      match purged_context existing now (sample_period_s params) with
      | None => ret (0, app_commands (delete_state kind key) (incr_bytes (- previous_bytes)))
      | Some pruned =>
          let next_bytes := estimate_context_bytes pruned in
          ret (next_bytes,
               app_commands (write_state kind key pruned) (incr_bytes (next_bytes - previous_bytes)))
      end
  end.

Definition purge_one (kind : ContextKind) (key : jstr) (settings : RateLimitSettings) : R Z :=
  let* keys := context_keys kind key in
  with_watch keys (purge_body kind key (kind_params kind settings)).

(** The keys of one SCAN reply. *)
Fixpoint purge_keys (settings : RateLimitSettings) (keys : list jstr) : R unit :=
  match keys with
  | [] => ret tt
  | raw :: rest =>
      let* parsed := lift (parse_hash_key raw) in
      match parsed with
      | None => purge_keys settings rest
      | Some (kind, key) => purge_one kind key settings >> purge_keys settings rest
      end
  end.

(** The [do ... while] loop, up to [rounds] rounds; [None]: it goes on. *)
Fixpoint scan_loop (rounds : nat) (settings : RateLimitSettings) (cursor : jstr) : R (option unit) :=
  match rounds with
  | O => ret None
  | S rounds' =>
      let* reply := call (Scan cursor (RL_KEY_PREFIX ++ u "[ui]:*") SCAN_COUNT) in
      purge_keys settings reply.2 >>
      perform YieldLoop >>
      if negb (seqb reply.1 "0") then scan_loop rounds' settings reply.1 else ret (Some tt)
  end.

(** [finally] runs when the loop ends, by its condition or by an exception. *)
Definition run_purge (rounds : nat) (settings : RateLimitSettings) : R (option unit) :=
  let* locked := call (SetNxEx META_PURGE (u "1") PURGE_LOCK_SECONDS) in
  if negb locked then perform (SetPurgeRunning false) >> ret (Some tt)
  else
    let* r := attempt (scan_loop rounds settings (u "0")) in
    match r with
    | Val None => ret None
    | r => call (DelKey META_PURGE) >> perform (SetPurgeRunning false) >> lift r
    end.

Definition maybe_schedule_purge (settings : RateLimitSettings) (used : Z) : R unit :=
  if negb (over_purge_trigger used (budget_bytes (max_kib settings))) then ret tt
  else
    let* running := perform GetPurgeRunning in
    if running : bool then ret tt
    else perform (SetPurgeRunning true) >> perform (SchedulePurge settings).

Definition evaluate (username_key : jstr) (source_ip : option jstr) : R RateLimitResult :=
  let* settings := call ReadSettings in
  let* user := eval_one User username_key settings source_ip in
  let* ip := match present source_ip with
             | Some addr => eval_one Ip addr settings source_ip
             | None => ret {| delay_ms := 0; lockout := false |}
             end in
  ret {| delay_ms := delay_ms user + delay_ms ip; lockout := lockout user || lockout ip |}.

Definition record_failure (username_key : jstr) (source_ip : option jstr) : R unit :=
  let* settings := call ReadSettings in
  record_one User username_key settings >>
  match present source_ip with
  | Some addr => record_one Ip addr settings
  | None => ret tt
  end >>
  let* used := read_bytes in
  maybe_schedule_purge settings used.

(** ** Lemmas: keys *)

Lemma uri_unreserved_ascii c : uri_unreserved c = true -> 33 <= c <= 126 /\ c <> 37 /\ c <> 58.
Proof.
  unfold uri_unreserved. rewrite !orb_true_iff. unfold is_digit, is_lower, is_upper.
  rewrite !andb_true_iff, !Z.leb_le, bool_decide_eq_true.
  intros [[[?|?]|?]|Hin]; [lia..|].
  change (u "-_.!~*'()") with [45; 95; 46; 33; 126; 42; 39; 40; 41] in Hin.
  repeat (apply elem_of_cons in Hin as [->|Hin]; [lia|]). by apply not_elem_of_nil in Hin.
Qed.

Lemma hex_digit_upper d : 0 <= d < 16 -> hex_digit (hex_upper d) = Some d.
Proof.
  intros Hd. unfold hex_digit, hex_upper, is_digit. destruct (Z.ltb_spec d 10).
  - rewrite !(proj2 (Z.leb_le _ _)) by lia. simpl. f_equal. lia.
  - rewrite (proj2 (Z.leb_gt (55 + d) 57)) by lia. rewrite andb_false_r.
    rewrite (proj2 (Z.leb_gt 97 (55 + d))) by lia. simpl.
    rewrite !(proj2 (Z.leb_le _ _)) by lia. simpl. f_equal. lia.
Qed.

Lemma percent_byte_percent b r : 0 <= b < 256 -> percent_byte (percent b ++ r) = Some (b, r).
Proof.
  intros Hb. unfold percent, percent_byte. simpl.
  rewrite !hex_digit_upper; [|apply Z.mod_pos_bound; lia|].
  - do 2 f_equal. Z.to_euclidean_division_equations. lia.
  - split; [apply Z.div_pos; lia|apply Z.div_lt_upper_bound; lia].
Qed.

(** The text of one byte. *)
Definition uri_byte (b : Z) : jstr := if uri_unreserved b then [b] else percent b.

Definition uri_bytes (bs : list Z) : jstr := List.concat (map uri_byte bs).

Lemma uri_bytes_app a b : uri_bytes (a ++ b) = uri_bytes a ++ uri_bytes b.
Proof. unfold uri_bytes. by rewrite map_app, concat_app. Qed.

Lemma uri_byte_high b : 128 <= b -> uri_byte b = percent b.
Proof.
  intros Hb. unfold uri_byte. destruct (uri_unreserved b) eqn:H; [|done].
  apply uri_unreserved_ascii in H. lia.
Qed.

(** What follows a decoded prefix. *)
Definition prepend (p : jstr) (o : option jstr) : option jstr :=
  match o with Some t => Some (p ++ t) | None => None end.

Lemma uri_decode_ascii f c r : 0 <= c < 128 ->
  uri_decode (S f) (uri_byte c ++ r) = prepend [c] (uri_decode f r).
Proof.
  intros Hc. unfold uri_byte. destruct (uri_unreserved c) eqn:Hu.
  - apply uri_unreserved_ascii in Hu. simpl. by rewrite (proj2 (Z.eqb_neq c 37)) by lia.
  - pose proof (percent_byte_percent c r ltac:(lia)) as Hp.
    unfold percent in *. simpl app in *. cbn [uri_decode]. simpl Z.eqb. cbv iota. rewrite Hp.
    by rewrite (proj2 (Z.ltb_lt c 128)) by lia.
Qed.

(** A lead byte and its continuation bytes. *)
Lemma uri_decode_lead f b lo hi n cont p r : 128 <= b < 256 -> lead_info b = Some (lo, hi, n) ->
  percent_rest n lo hi (lead_bits b) (cont ++ r) = Some (p, r) ->
  uri_decode (S f) (percent b ++ cont ++ r) = prepend (units_of_point p) (uri_decode f r).
Proof.
  intros Hb Hl Hr. pose proof (percent_byte_percent b (cont ++ r) ltac:(lia)) as Hp.
  unfold percent in *. simpl app in *. cbn [uri_decode]. simpl Z.eqb. cbv iota.
  rewrite Hp, (proj2 (Z.ltb_ge b 128)), Hl, Hr by lia. done.
Qed.

Lemma percent_rest_step n lo hi acc b r : 0 <= b < 256 -> lo <= b <= hi ->
  percent_rest (S n) lo hi acc (percent b ++ r) = percent_rest n 128 191 (acc * 64 + (b - 128)) r.
Proof.
  intros Hb Hlo. cbn [percent_rest]. rewrite percent_byte_percent by lia.
  by rewrite !(proj2 (Z.leb_le _ _)) by lia.
Qed.

Lemma uri_decode_two f c r : 128 <= c < 2048 ->
  uri_decode (S f) (uri_bytes (utf8_point c) ++ r) = prepend (units_of_point c) (uri_decode f r).
Proof.
  intros Hc. unfold utf8_point. rewrite (proj2 (Z.ltb_ge c 128)), (proj2 (Z.ltb_lt c 2048)) by lia.
  assert (2 <= c / 64 < 32) by (Z.to_euclidean_division_equations; lia).
  pose proof (Z.mod_pos_bound c 64 ltac:(lia)).
  unfold uri_bytes. simpl map. rewrite !uri_byte_high by lia. cbn [List.concat].
  rewrite app_nil_r, <- app_assoc.
  apply (uri_decode_lead f (192 + c / 64) 128 191 1); [lia| |].
  - unfold lead_info. by rewrite !(proj2 (Z.leb_le _ _)) by lia.
  - rewrite percent_rest_step by lia. simpl. unfold lead_bits.
    rewrite (proj2 (Z.ltb_lt (192 + c / 64) 224)) by lia. do 2 f_equal.
    Z.to_euclidean_division_equations. lia.
Qed.

(** Rewrites the comparisons that [lia] decides. *)
Ltac decide_leb :=
  repeat match goal with
  | |- context [?a <=? ?b] =>
      first [rewrite (proj2 (Z.leb_le a b)) by lia | rewrite (proj2 (Z.leb_gt a b)) by lia]
  | |- context [?a <? ?b] =>
      first [rewrite (proj2 (Z.ltb_lt a b)) by lia | rewrite (proj2 (Z.ltb_ge a b)) by lia]
  | |- context [?a =? ?b] =>
      first [rewrite (proj2 (Z.eqb_eq a b)) by lia | rewrite (proj2 (Z.eqb_neq a b)) by lia]
  end.

Lemma uri_decode_three f c r : 2048 <= c < 65536 -> ~ (55296 <= c <= 57343) ->
  uri_decode (S f) (uri_bytes (utf8_point c) ++ r) = prepend (units_of_point c) (uri_decode f r).
Proof.
  intros Hc Hs. unfold utf8_point. decide_leb.
  pose proof (Z.mod_pos_bound c 64 ltac:(lia)) as H0.
  pose proof (Z.mod_pos_bound (c / 64) 64 ltac:(lia)) as H1.
  set (a := c / 4096). set (m := (c / 64) mod 64) in *. set (l := c mod 64) in *.
  assert (Heq : c = a * 4096 + m * 64 + l)
    by (unfold a, m, l; Z.to_euclidean_division_equations; lia).
  assert (Ha : 0 <= a < 16) by lia. clearbody a m l.
  unfold uri_bytes. simpl map. rewrite !uri_byte_high by lia. cbn [List.concat].
  rewrite app_nil_r, <- !app_assoc. rewrite (app_assoc (percent _) (percent _) r).
  assert (Hl : exists lo hi, lead_info (224 + a) = Some (lo, hi, 2%nat) /\
                 128 <= lo <= 128 + m /\ 128 + m <= hi <= 191).
  { unfold lead_info. destruct (decide (a = 0)) as [->|?]; [eexists _, _; split; [done|lia]|].
    destruct (decide (a = 13)) as [->|?]; [eexists _, _; split; [done|lia]|].
    decide_leb. eexists _, _. split; [done|lia]. }
  destruct Hl as (lo & hi & Hl & Hlo & Hhi).
  apply (uri_decode_lead f (224 + a) lo hi 2); [lia|done|].
  rewrite <- app_assoc, !percent_rest_step by lia. simpl. unfold lead_bits. decide_leb.
  do 2 f_equal. lia.
Qed.

Lemma uri_decode_four f c r : 65536 <= c < 1114112 ->
  uri_decode (S f) (uri_bytes (utf8_point c) ++ r) = prepend (units_of_point c) (uri_decode f r).
Proof.
  intros Hc. unfold utf8_point. decide_leb.
  pose proof (Z.mod_pos_bound c 64 ltac:(lia)) as H0.
  pose proof (Z.mod_pos_bound (c / 64) 64 ltac:(lia)) as H1.
  pose proof (Z.mod_pos_bound (c / 4096) 64 ltac:(lia)) as H2.
  set (a := c / 262144). set (h := (c / 4096) mod 64) in *. set (m := (c / 64) mod 64) in *.
  set (l := c mod 64) in *.
  assert (Heq : c = a * 262144 + h * 4096 + m * 64 + l)
    by (unfold a, h, m, l; Z.to_euclidean_division_equations; lia).
  assert (Ha : 0 <= a < 5) by lia. clearbody a h m l.
  unfold uri_bytes. simpl map. rewrite !uri_byte_high by lia. cbn [List.concat].
  rewrite app_nil_r, <- !app_assoc.
  rewrite (app_assoc (percent _) (percent _) r), (app_assoc (percent (128 + h)) _ r).
  assert (Hl : exists lo hi, lead_info (240 + a) = Some (lo, hi, 3%nat) /\
                 128 <= lo <= 128 + h /\ 128 + h <= hi <= 191).
  { unfold lead_info. destruct (decide (a = 0)) as [->|?]; [eexists _, _; split; [done|lia]|].
    destruct (decide (a = 4)) as [->|?]; [eexists _, _; split; [done|lia]|].
    decide_leb. simpl. eexists _, _. split; [done|lia]. }
  destruct Hl as (lo & hi & Hl & Hlo & Hhi).
  apply (uri_decode_lead f (240 + a) lo hi 3); [lia|done|].
  rewrite <- !app_assoc, !percent_rest_step by lia. simpl. unfold lead_bits. decide_leb.
  do 2 f_equal. lia.
Qed.

(** A code point that is not a surrogate. *)
Lemma uri_decode_point f c r : 0 <= c < 1114112 -> ~ (55296 <= c <= 57343) ->
  uri_decode (S f) (uri_bytes (utf8_point c) ++ r) = prepend (units_of_point c) (uri_decode f r).
Proof.
  intros Hc Hs.
  destruct (Z.lt_ge_cases c 128).
  { unfold utf8_point, units_of_point, uri_bytes. decide_leb. cbn [map List.concat].
    rewrite app_nil_r. apply uri_decode_ascii. lia. }
  destruct (Z.lt_ge_cases c 2048); [apply uri_decode_two; lia|].
  destruct (Z.lt_ge_cases c 65536); [apply uri_decode_three; lia|].
  apply uri_decode_four. lia.
Qed.

Lemma uri_byte_length b : (1 <= length (uri_byte b))%nat.
Proof. unfold uri_byte. destruct (uri_unreserved b); simpl; lia. Qed.

Lemma uri_bytes_length bs : (length bs <= length (uri_bytes bs))%nat.
Proof.
  unfold uri_bytes. induction bs as [|b bs IH]; simpl; [lia|].
  rewrite length_app. pose proof (uri_byte_length b). lia.
Qed.

Lemma uri_decode_bytes s : units_ok s = true -> well_paired s = true ->
  forall f, (length s <= f)%nat -> uri_decode f (uri_bytes (utf8_bytes s)) = Some s.
Proof.
  induction s as [s IH] using (induction_ltof1 _ (@length Z)). unfold ltof in IH.
  intros Hok Hp f Hf. destruct s as [|c s]; [by destruct f|].
  apply units_ok_cons in Hok as [Hc Hok]. simpl in Hf. destruct f as [|f]; [lia|].
  cbn [utf8_bytes well_paired] in *. destruct (is_high_surrogate c) eqn:Hhi.
  - destruct s as [|d s']; [done|]. apply andb_true_iff in Hp as [Hlo Hp]. rewrite Hlo.
    apply units_ok_cons in Hok as [_ Hok]. unfold is_high_surrogate, is_low_surrogate in Hhi, Hlo.
    rewrite andb_true_iff, !Z.leb_le in *. rewrite uri_bytes_app, uri_decode_point by lia.
    simpl in Hf. rewrite IH by (simpl; first [done | lia]). simpl. unfold units_of_point. decide_leb.
    simpl. do 2 f_equal; [|f_equal]; Z.to_euclidean_division_equations; lia.
  - apply andb_true_iff in Hp as [Hlo%negb_true_iff Hp]. rewrite Hlo.
    unfold is_high_surrogate, is_low_surrogate in Hhi, Hlo.
    rewrite andb_false_iff, !Z.leb_gt in Hhi, Hlo.
    rewrite uri_bytes_app, uri_decode_point by lia.
    rewrite IH by (simpl; first [done | lia]). simpl. unfold units_of_point. by decide_leb.
Qed.

(** The keys that have a context: strings without unpaired surrogates. *)
Definition valid_key (key : jstr) : bool := units_ok key && well_paired key.

Definition hash_name (kind : ContextKind) (key : jstr) : jstr :=
  RL_KEY_PREFIX ++ bucket kind ++ u ":" ++ uri_bytes (utf8_bytes key).

Definition zset_name (kind : ContextKind) (key : jstr) : jstr := hash_name kind key ++ u ":z".

Lemma context_names kind key : well_paired key = true ->
  hash_key kind key = Val (hash_name kind key) /\ zset_key kind key = Val (zset_name kind key).
Proof.
  intros H. unfold zset_key, hash_key, encode_id, encodeURIComponent. by rewrite H.
Qed.

Lemma hash_key_val kind key h : hash_key kind key = Val h ->
  well_paired key = true /\ h = hash_name kind key.
Proof.
  unfold hash_key, encode_id, encodeURIComponent.
  destruct (well_paired key); [|done]. by intros [= <-].
Qed.

Lemma uri_bytes_no_colon bs : 58 ∉ uri_bytes bs.
Proof.
  assert (Hh : forall d, hex_upper d <> 58) by (intros d; unfold hex_upper; destruct (Z.ltb_spec d 10); lia).
  unfold uri_bytes. induction bs as [|b bs IH]; simpl; [apply not_elem_of_nil|].
  rewrite elem_of_app. intros [Hin|Hin]; [|done]. unfold uri_byte in Hin.
  destruct (uri_unreserved b) eqn:Hu.
  - apply list_elem_of_singleton in Hin as <-. apply uri_unreserved_ascii in Hu. lia.
  - unfold percent in Hin. repeat (apply elem_of_cons in Hin as [Hin|Hin]); try done.
    all: try (symmetry in Hin; by apply Hh in Hin). by apply not_elem_of_nil in Hin.
Qed.

Lemma valid_key_spec key : valid_key key = true ->
  well_paired key = true /\ decodeURIComponent (uri_bytes (utf8_bytes key)) = Some key.
Proof.
  unfold valid_key. rewrite andb_true_iff. intros [Hu Hp]. split; [done|].
  apply uri_decode_bytes; [done..|]. etrans; [|apply uri_bytes_length]. by apply utf8_bytes_length.
Qed.

Lemma hash_name_inj k1 key1 k2 key2 : valid_key key1 = true -> valid_key key2 = true ->
  hash_name k1 key1 = hash_name k2 key2 -> k1 = k2 /\ key1 = key2.
Proof.
  intros [_ H1]%valid_key_spec [_ H2]%valid_key_spec Heq. unfold hash_name in Heq.
  apply app_inv_head in Heq. destruct k1, k2; simpl in Heq; injection Heq as Heq;
    try discriminate; rewrite Heq in H1; split; congruence.
Qed.

Lemma hash_zset_ne k1 key1 k2 key2 : hash_name k1 key1 <> zset_name k2 key2.
Proof.
  unfold zset_name, hash_name. intros Heq. rewrite <- !app_assoc in Heq. apply app_inv_head in Heq.
  pose proof (uri_bytes_no_colon (utf8_bytes key1)) as H.
  destruct k1, k2; simpl in Heq; injection Heq as Heq; try discriminate;
    apply H; rewrite Heq, elem_of_app; right; left.
Qed.

Lemma zset_name_inj k1 key1 k2 key2 : valid_key key1 = true -> valid_key key2 = true ->
  zset_name k1 key1 = zset_name k2 key2 -> k1 = k2 /\ key1 = key2.
Proof. intros H1 H2 Heq%app_inv_tail. by apply hash_name_inj. Qed.

Lemma meta_ne kind key : META_BYTES <> hash_name kind key /\ META_BYTES <> zset_name kind key /\
  META_PURGE <> hash_name kind key /\ META_PURGE <> zset_name kind key.
Proof.
  unfold META_BYTES, META_PURGE, zset_name, hash_name. rewrite <- !app_assoc.
  repeat split; intros Heq%app_inv_head; by destruct kind.
Qed.

(** ** Redis *)

Inductive rvalue :=
| RStr (s : jstr)
| RHash (h : gmap jstr jstr)
| RZset (z : gmap jstr Z).

#[export] Instance rvalue_eq_dec : EqDecision rvalue.
Proof. solve_decision. Defined.

Abbreviation store := (gmap jstr rvalue).

(** The order of a sorted set: by score, then by member. *)
Definition member_le (a b : Z * jstr) : Prop := a.1 < b.1 \/ (a.1 = b.1 /\ str_le a.2 b.2).

#[export] Instance member_le_dec : RelDecision member_le.
Proof. intros a b. unfold member_le, str_le. apply _. Defined.

Definition zrange (z : gmap jstr Z) : list (Z * jstr) :=
  merge_sort member_le (map (fun ms => (ms.2, ms.1)) (map_to_list z)).

(** One command of a transaction; [None] is an error reply. *)
Definition run_command (c : command) (s : store) : option store :=
  match c with
  | HSet key fields =>
      match s !! key with
      | None => Some (<[key := RHash (list_to_map fields)]> s)
      | Some (RHash h) => Some (<[key := RHash (list_to_map fields ∪ h)]> s)
      | Some _ => None
      end
  | Del keys => Some (foldr delete s keys)
  | ZAdd key members =>
      let added := list_to_map (map (fun sm => (sm.2, sm.1)) members) in
      match s !! key with
      | None => Some (<[key := RZset added]> s)
      | Some (RZset z) => Some (<[key := RZset (added ∪ z)]> s)
      | Some _ => None
      end
  | IncrBy key n =>
      match s !! key with
      | None => Some (<[key := RStr (num_to_string n)]> s)
      | Some (RStr t) =>
          match parse_integer t with
          | Some v => Some (<[key := RStr (num_to_string (v + n))]> s)
          | None => None
          end
      | Some _ => None
      end
  end.

(** All commands run, also after one that replied with an error; the boolean
    tells whether none did. *)
Fixpoint run_commands (cs : list command) (s : store) : store * bool :=
  match cs with
  | [] => (s, true)
  | c :: rest =>
      match run_command c s with
      | Some s' => run_commands rest s'
      | None => ((run_commands rest s).1, false)
      end
  end.

Definition wrongtype : exn :=
  Error_ (u "WRONGTYPE Operation against a key holding the wrong kind of value").

(** A connection: the keys it watches, whether one was modified since, and the
    request whose turn it is in [run_exclusive]. *)
Record connection := {
  watched : list jstr;
  dirty : bool;
  holder : option nat }.

Definition fresh_connection : connection := {| watched := []; dirty := false; holder := None |}.

Definition unwatched (cn : connection) : connection :=
  {| watched := []; dirty := false; holder := holder cn |}.

(** What becomes of a call.  [Conflict] is an EXEC that the server refuses
    though no watched key changed value. *)
Inductive fate := Served | Conflict | LostBefore (e : exn) | LostAfter (e : exn).

Definition answer {A} (f : fate) (o : outcome A) : outcome A :=
  match f with LostBefore e | LostAfter e => Exc e | _ => o end.

(** An error that the client reports as a WATCH conflict says that nothing was
    executed. *)
Definition sound_fate (f : fate) : Prop :=
  match f with LostAfter e => is_watch_conflict e = false | _ => True end.

(** The answers that do not come from Redis's data. *)
Record environment := {
  env_now : Z;
  env_settings : outcome RateLimitSettings;
  env_running : bool;
  env_scan : jstr * list jstr }.

(** What a call gives: its answer, the data and the connection after it, and
    whether it committed a transaction. *)
Record served (X : Type) := {
  reply : X;
  data_after : store;
  conn_after : connection;
  committed : bool }.
Arguments reply {X}.
Arguments data_after {X}.
Arguments conn_after {X}.
Arguments committed {X}.
Arguments Build_served {X}.

Definition serve_read {A : Type} (f : fate) (s : store) (cn : connection) (o : outcome A)
    : option (served (outcome A)) :=
  Some {| reply := answer f o; data_after := s; conn_after := cn; committed := false |}.

Definition serve_exec (f : fate) (cs : list command) (s : store) (cn : connection)
    : served (outcome bool) :=
  let '(s', ok) := run_commands cs s in
  let refuse o := {| reply := o; data_after := s; conn_after := unwatched cn; committed := false |} in
  let commit o := {| reply := o; data_after := s'; conn_after := unwatched cn; committed := true |} in
  match f with
  | LostBefore e => {| reply := Exc e; data_after := s; conn_after := cn; committed := false |}
  | Conflict => refuse (Val false)
  | Served =>
      if dirty cn then refuse (Val false) else commit (if ok then Val true else Exc wrongtype)
  | LostAfter e => if dirty cn then refuse (Exc e) else commit (Exc e)
  end.

(** The call of request [i]; [None]: it waits for its turn. *)
Definition serve (i : nat) (f : fate) (v : environment) (s : store) (cn : connection)
    {X} (e : RedisE X) : option (served X) :=
  match e in RedisE X return option (served X) with
  | Enter =>
      match holder cn with
      | None => Some {| reply := tt; data_after := s; committed := false;
                        conn_after := {| watched := watched cn; dirty := dirty cn;
                                         holder := Some i |} |}
      | Some _ => None
      end
  | Leave => Some {| reply := tt; data_after := s; committed := false;
                     conn_after := {| watched := watched cn; dirty := dirty cn; holder := None |} |}
  | Watch keys =>
      Some {| reply := answer f (Val tt); data_after := s; committed := false;
              conn_after := match f with
                            | LostBefore _ => cn
                            | _ => {| watched := keys ++ watched cn; dirty := dirty cn;
                                      holder := holder cn |}
                            end |}
  | Unwatch =>
      Some {| reply := answer f (Val tt); data_after := s; committed := false;
              conn_after := match f with LostBefore _ => cn | _ => unwatched cn end |}
  | Exec cs => Some (serve_exec f cs s cn)
  | Exists key => serve_read f s cn (Val (if s !! key then 1 else 0))
  | HGetAll key =>
      serve_read f s cn match s !! key with
                        | None => Val ∅
                        | Some (RHash h) => Val h
                        | Some _ => Exc wrongtype
                        end
  | ZRangeWithScores key =>
      serve_read f s cn match s !! key with
                        | None => Val []
                        | Some (RZset z) => Val (zrange z)
                        | Some _ => Exc wrongtype
                        end
  | Get key =>
      serve_read f s cn match s !! key with
                        | None => Val None
                        | Some (RStr t) => Val (Some t)
                        | Some _ => Exc wrongtype
                        end
  | SetNxEx key value _ =>
      Some {| reply := answer f (Val (if s !! key then false else true)); conn_after := cn;
              data_after := match f, s !! key with
                            | LostBefore _, _ | _, Some _ => s
                            | _, None => <[key := RStr value]> s
                            end;
              committed := false |}
  | DelKey key =>
      Some {| reply := answer f (Val tt); conn_after := cn; committed := false;
              data_after := match f with LostBefore _ => s | _ => delete key s end |}
  | Scan _ _ _ => serve_read f s cn (Val (env_scan v))
  | Now => Some {| reply := env_now v; data_after := s; conn_after := cn; committed := false |}
  | ReadSettings =>
      Some {| reply := env_settings v; data_after := s; conn_after := cn; committed := false |}
  | EmitTrip _ _ _ => Some {| reply := tt; data_after := s; conn_after := cn; committed := false |}
  | YieldLoop => Some {| reply := tt; data_after := s; conn_after := cn; committed := false |}
  | GetPurgeRunning =>
      Some {| reply := env_running v; data_after := s; conn_after := cn; committed := false |}
  | SetPurgeRunning _ =>
      Some {| reply := tt; data_after := s; conn_after := cn; committed := false |}
  | SchedulePurge _ => Some {| reply := tt; data_after := s; conn_after := cn; committed := false |}
  end.

(** A connection after the data changed from [s] to [s']. *)
Definition touch (s s' : store) (cn : connection) : connection :=
  {| watched := watched cn;
     dirty := dirty cn || existsb (fun k => negb (bool_decide (s !! k = s' !! k))) (watched cn);
     holder := holder cn |}.

(** ** The cluster *)

Inductive operation :=
| OpEval (kind : ContextKind) (key : jstr) (settings : RateLimitSettings) (source_ip : option jstr)
| OpRecordFailure (kind : ContextKind) (key : jstr) (settings : RateLimitSettings)
| OpPurgeOne (kind : ContextKind) (key : jstr) (settings : RateLimitSettings).

Definition operation_key (op : operation) : jstr :=
  match op with OpEval _ key _ _ | OpRecordFailure _ key _ | OpPurgeOne _ key _ => key end.

(** The program of an operation; only an evaluation has a result. *)
Definition program (op : operation) : R (option RateLimitResult) :=
  match op with
  | OpEval kind key settings ip => let* r := eval_one kind key settings ip in ret (Some r)
  | OpRecordFailure kind key settings => record_one kind key settings >> ret None
  | OpPurgeOne kind key settings => purge_one kind key settings >> ret None
  end.

(** A request: its operation, its connection, what it has still to do, and the
    data before and after each transaction it committed. *)
Record request := {
  req_op : operation;
  req_conn : nat;
  req_rest : R (option RateLimitResult);
  req_log : list (store * store) }.

Record cluster := {
  data : store;
  connections : list connection;
  requests : list request }.

Definition initial_cluster (n : nat) : cluster :=
  {| data := ∅; connections := replicate n fresh_connection; requests := [] |}.

(** A request starts on a connection, or its next call is answered. *)
Inductive action :=
| Start (op : operation) (conn : nat)
| Advance (i : nat) (f : fate) (v : environment).

Definition sound_action (a : action) : Prop :=
  match a with
  | Start op _ => valid_key (operation_key op) = true
  | Advance _ f _ => sound_fate f
  end.

Definition act (w : cluster) (a : action) : cluster :=
  match a with
  | Start op c =>
      match connections w !! c with
      | None => w
      | Some _ =>
          {| data := data w; connections := connections w;
             requests := requests w ++
               [{| req_op := op; req_conn := c; req_rest := program op; req_log := [] |}] |}
      end
  | Advance i f v =>
      match requests w !! i with
      | None => w
      | Some q =>
          match req_rest q, connections w !! req_conn q with
          | Vis e k, Some cn =>
              match serve i f v (data w) cn e with
              | None => w
              | Some r =>
                  {| data := data_after r;
                     connections := touch (data w) (data_after r) <$>
                       <[req_conn q := conn_after r]> (connections w);
                     requests := <[i := {| req_op := req_op q; req_conn := req_conn q;
                                           req_rest := k (reply r);
                                           req_log := if committed r
                                                      then req_log q ++ [(data w, data_after r)]
                                                      else req_log q |}]> (requests w) |}
              end
          | _, _ => w
          end
      end
  end.

(** ** The contexts in the data *)

Definition zset_at (s : store) (key : jstr) : gmap jstr Z :=
  match s !! key with Some (RZset z) => z | _ => ∅ end.

(** The context that [load_state] reads. *)
Definition context_of (s : store) (kind : ContextKind) (key : jstr) : option ContextState :=
  match s !! hash_name kind key with
  | Some (RHash fields) =>
      Some {| lockout_until_ms := parse_optional_ms (fields !! u "lockout_until");
              grace_until_ms := parse_optional_ms (fields !! u "grace_until");
              failures_ms := map fst (zrange (zset_at s (zset_name kind key))) |}
  | _ => None
  end.

(** The limiter's keys hold values of their types. *)
Definition store_ok (s : store) : Prop :=
  (forall kind key v, s !! hash_name kind key = Some v -> exists h, v = RHash h) /\
  (forall kind key v, s !! zset_name kind key = Some v -> exists z, v = RZset z) /\
  (forall v, s !! META_BYTES = Some v -> exists n, v = RStr (num_to_string n)).

(** Equal up to the order of the failures, which no evaluation depends on. *)
Definition context_equiv (a b : option ContextState) : Prop :=
  match a, b with
  | Some x, Some y =>
      lockout_until_ms x = lockout_until_ms y /\ grace_until_ms x = grace_until_ms y /\
      failures_ms x ≡ₚ failures_ms y
  | None, None => True
  | _, _ => False
  end.

#[export] Instance context_equiv_equivalence : Equivalence context_equiv.
Proof.
  split.
  - intros [x|]; simpl; auto.
  - intros [x|] [y|]; simpl; [|done..]. intros (-> & -> & H). by rewrite H.
  - intros [x|] [y|] [z|]; simpl; try done. intros (-> & -> & H1) (-> & -> & H2).
    split; [done|]. split; [done|]. by rewrite H1.
Qed.

(** Only the limiter's keys for one context, and the byte count, differ. *)
Definition frame (kind : ContextKind) (key : jstr) (s s' : store) : Prop :=
  forall k, k <> hash_name kind key -> k <> zset_name kind key -> k <> META_BYTES -> s' !! k = s !! k.

Definition others_kept (kind : ContextKind) (key : jstr) (s s' : store) : Prop :=
  forall kind' key', valid_key key' = true -> (kind', key') <> (kind, key) ->
    context_of s' kind' key' = context_of s kind' key'.

(** ** Lemmas: reading back what was written *)

Lemma num_to_string_no_colon n : 58 ∉ num_to_string n.
Proof.
  assert (H : forall m, 0 <= m -> 58 ∉ digits m).
  { intros m Hm Hin. pose proof (proj1 (Forall_forall _ _) (digits_all m Hm) 58 Hin).
    simpl in *. lia. }
  unfold num_to_string. destruct (Z.ltb_spec n 0); [|by apply H].
  intros [?|Hin]%elem_of_cons; [done|]. by apply (H (- n)); [lia|].
Qed.

Lemma member_name_inj s1 i1 s2 i2 :
  num_to_string s1 ++ u ":" ++ num_to_string i1 = num_to_string s2 ++ u ":" ++ num_to_string i2 ->
  i1 = i2.
Proof.
  intros H. change (u ":") with [58] in H. simpl app in H. apply (f_equal (split_on 58)) in H.
  rewrite !split_on_app, !split_on_none in H by apply num_to_string_no_colon.
  injection H as _ H. by apply num_to_string_inj in H.
Qed.

Lemma failure_members_names failures : NoDup (map snd (failure_members failures)).
Proof.
  unfold failure_members. apply NoDup_alt. intros i j x Hi Hj.
  rewrite list_lookup_fmap, list_lookup_imap in Hi, Hj.
  destruct (failures !! i) as [si|]; [|done]. destruct (failures !! j) as [sj|]; [|done].
  simpl in *. injection Hi as <-. injection Hj as Hj. apply member_name_inj in Hj. lia.
Qed.

Lemma failure_members_stamps failures : map fst (failure_members failures) = failures.
Proof.
  unfold failure_members. apply list_eq. intros i.
  rewrite list_lookup_fmap, list_lookup_imap. by destruct (failures !! i).
Qed.

Lemma zrange_stamps (members : list (Z * jstr)) : NoDup (map snd members) ->
  map fst (zrange (list_to_map (map (fun sm => (sm.2, sm.1)) members))) ≡ₚ map fst members.
Proof.
  intros Hnd. unfold zrange. rewrite merge_sort_Permutation, map_to_list_to_map.
  - rewrite !map_map. simpl. by rewrite (map_ext (fun x : Z * jstr => x.1) fst).
  - by rewrite <- list_fmap_compose.
Qed.

Lemma parse_limit_text limit : parse_optional_ms (Some (limit_text limit)) = limit.
Proof.
  destruct limit as [z|]; [|done]. simpl. pose proof (js_number_num_to_string z) as H.
  pose proof (parse_integer_num_to_string z) as Hp.
  destruct (num_to_string z) as [|c t]; [done|]. by rewrite H.
Qed.

Lemma frame_others kind key s s' : valid_key key = true -> frame kind key s s' ->
  others_kept kind key s s'.
Proof.
  intros Hk Hf kind' key' Hk' Hne. unfold context_of, zset_at.
  assert (Hh : hash_name kind' key' <> hash_name kind key).
  { intros Heq. by apply hash_name_inj in Heq as [-> ->]. }
  assert (Hz : zset_name kind' key' <> zset_name kind key).
  { intros Heq. by apply zset_name_inj in Heq as [-> ->]. }
  pose proof (meta_ne kind' key') as (Hm1 & Hm2 & _).
  rewrite !Hf; first done; auto; try apply hash_zset_ne.
  intros Heq. by apply (hash_zset_ne kind key kind' key').
Qed.

(** The types of the values at the three keys are all that has to be checked. *)
Lemma frame_store_ok kind key s s' : store_ok s -> frame kind key s s' ->
  (forall v, s' !! hash_name kind key = Some v -> exists h, v = RHash h) ->
  (forall v, s' !! zset_name kind key = Some v -> exists z, v = RZset z) ->
  (forall v, s' !! META_BYTES = Some v -> exists n, v = RStr (num_to_string n)) -> store_ok s'.
Proof.
  intros (H1 & H2 & H3) Hf Hh Hz Hm. split; [|split; [|exact Hm]].
  - intros kind' key' v Hv. pose proof (meta_ne kind' key') as (Hm1 & _).
    destruct (decide (hash_name kind' key' = hash_name kind key)) as [Heq|Hne].
    + apply Hh. by rewrite <- Heq.
    + rewrite Hf in Hv; [by eapply H1|done|apply hash_zset_ne|auto].
  - intros kind' key' v Hv. pose proof (meta_ne kind' key') as (_ & Hm2 & _).
    destruct (decide (zset_name kind' key' = zset_name kind key)) as [Heq|Hne].
    + apply Hz. by rewrite <- Heq.
    + rewrite Hf in Hv; [by eapply H2| |done|auto].
      intros Heq. by apply (hash_zset_ne kind key kind' key').
Qed.

Lemma run_commands_app a b s s' : run_commands a s = (s', true) ->
  run_commands (a ++ b) s = run_commands b s'.
Proof.
  revert s. induction a as [|c a IH]; intros s; simpl; [by intros [= ->]|].
  destruct (run_command c s); [apply IH|done].
Qed.

(** The byte count can always be raised. *)
Lemma run_incr s n : store_ok s -> exists s',
  run_commands [IncrBy META_BYTES n] s = (s', true) /\
  (forall k, k <> META_BYTES -> s' !! k = s !! k) /\
  (exists m, s' !! META_BYTES = Some (RStr (num_to_string m))).
Proof.
  intros (_ & _ & Hm). simpl. destruct (s !! META_BYTES) as [v|] eqn:Hv.
  - destruct (Hm v eq_refl) as [m ->]. rewrite parse_integer_num_to_string.
    eexists. split; [done|]. split; [intros k Hk; by apply lookup_insert_ne|].
    eexists. apply lookup_insert_eq.
  - eexists. split; [done|]. split; [intros k Hk; by apply lookup_insert_ne|].
    eexists. apply lookup_insert_eq.
Qed.

(** A transaction may end by changing the byte count. *)
Definition byte_tail (tail : list command) : Prop :=
  tail = [] \/ exists n, tail = [IncrBy META_BYTES n].

Lemma run_tail tail s : byte_tail tail -> store_ok s -> exists s',
  run_commands tail s = (s', true) /\ store_ok s' /\ forall k, k <> META_BYTES -> s' !! k = s !! k.
Proof.
  intros [->|[n ->]] Hok; [by exists s|].
  destruct (run_incr s n Hok) as (s' & Hr & Hs & m & Hm). exists s'. split; [done|]. split; [|done].
  pose proof (meta_ne User []) as (Hm1 & Hm2 & _).
  apply (frame_store_ok User [] s); [done|intros k ? ? ?; by apply Hs|..].
  - intros v. rewrite Hs by done. apply (proj1 Hok).
  - intros v. rewrite Hs by done. apply (proj1 (proj2 Hok)).
  - intros v. rewrite Hm. intros [= <-]. eauto.
Qed.

(** The hash after an HSET of both fields. *)
Definition limit_fields (state : ContextState) : list (jstr * jstr) :=
  [(u "lockout_until", limit_text (lockout_until_ms state));
   (u "grace_until", limit_text (grace_until_ms state))].

Lemma run_write kind key next s : valid_key key = true -> store_ok s ->
  exists cs s', write_state kind key next = Val cs /\ run_commands cs s = (s', true) /\
    (exists h, s' !! hash_name kind key = Some (RHash (list_to_map (limit_fields next) ∪ h))) /\
    map fst (zrange (zset_at s' (zset_name kind key))) ≡ₚ failures_ms next /\
    (forall v, s' !! zset_name kind key = Some v -> exists z, v = RZset z) /\
    (forall k, k <> hash_name kind key -> k <> zset_name kind key -> s' !! k = s !! k).
Proof.
  intros [Hk _]%valid_key_spec (Ht & _). unfold write_state.
  destruct (context_names kind key Hk) as [-> ->]. fold (limit_fields next).
  set (H := hash_name kind key). set (Z := zset_name kind key).
  assert (Hne : H <> Z) by apply hash_zset_ne.
  assert (Hset : exists s1, run_command (HSet H (limit_fields next)) s = Some s1 /\
    (exists h, s1 !! H = Some (RHash (list_to_map (limit_fields next) ∪ h))) /\
    (forall k, k <> H -> s1 !! k = s !! k)).
  { simpl. destruct (s !! H) as [v|] eqn:Hv.
    - destruct (Ht kind key v Hv) as [h ->]. eexists. split; [done|].
      split; [exists h; apply lookup_insert_eq|]. intros k Hkn. by apply lookup_insert_ne.
    - eexists. split; [done|].
      split; [exists ∅; rewrite (right_id_L ∅ (∪)); apply lookup_insert_eq|].
      intros k Hkn. by apply lookup_insert_ne. }
  destruct Hset as (s1 & Hs1 & (h & Hh) & Hf).
  destruct (failures_ms next) as [|x l] eqn:Hl.
  - eexists _, (delete Z s1). split; [done|].
    split; [cbn [run_commands app]; rewrite Hs1; done|].
    split; [exists h; by rewrite lookup_delete_ne|].
    split; [by unfold zset_at; rewrite lookup_delete_eq|].
    split; [intros v; by rewrite lookup_delete_eq|].
    intros k H1 H2. rewrite lookup_delete_ne by done. by apply Hf.
  - eexists _, _. split; [done|].
    split; [cbn [run_commands app]; rewrite Hs1; cbn [run_command foldr];
            rewrite lookup_delete_eq; done|].
    split; [exists h; rewrite lookup_insert_ne, lookup_delete_ne by done; exact Hh|].
    split.
    { unfold zset_at. rewrite lookup_insert_eq, zrange_stamps by apply failure_members_names.
      by rewrite failure_members_stamps. }
    split; [intros v; rewrite lookup_insert_eq; intros [= <-]; eauto|].
    intros k H1 H2. rewrite lookup_insert_ne, lookup_delete_ne by done. by apply Hf.
Qed.

(** What a transaction did to a context. *)
Definition becomes (kind : ContextKind) (key : jstr) (next : option ContextState) (s s' : store) : Prop :=
  store_ok s' /\ context_equiv (context_of s' kind key) next /\ others_kept kind key s s'.

Lemma write_becomes kind key next tail s : valid_key key = true -> store_ok s ->
  byte_tail tail ->
  exists cs s', app_commands (write_state kind key next) tail = Val cs /\
    run_commands cs s = (s', true) /\ becomes kind key (Some next) s s'.
Proof.
  intros Hk Hok Htail.
  destruct (run_write kind key next s Hk Hok) as (cs & s1 & -> & Hrun & (h & Hh) & Hz & Hzt & Hf).
  pose proof (meta_ne kind key) as (Hm1 & Hm2 & _).
  assert (Hok1 : store_ok s1).
  { apply (frame_store_ok kind key s); [done|intros k ? ? ?; by apply Hf| |done|].
    - intros v Hv. rewrite Hh in Hv. injection Hv as <-. eauto.
    - intros v. rewrite Hf by done. apply (proj2 (proj2 Hok)). }
  assert (Hlast : exists s', run_commands (cs ++ tail) s = (s', true) /\ store_ok s' /\
                    forall k, k <> META_BYTES -> s' !! k = s1 !! k).
  { rewrite (run_commands_app cs tail s s1 Hrun). by apply run_tail. }
  destruct Hlast as (s' & Hr & Hok' & Hs). exists (cs ++ tail), s'. split; [done|].
  split; [done|]. split; [done|]. split.
  - unfold context_of, zset_at. rewrite !Hs by done. rewrite Hh. fold (zset_at s1 (zset_name kind key)).
    simpl. split; [|split; [|exact Hz]].
    + rewrite (lookup_union_Some_l _ _ _ (limit_text (lockout_until_ms next))) by done.
      apply parse_limit_text.
    + rewrite (lookup_union_Some_l _ _ _ (limit_text (grace_until_ms next))) by done.
      apply parse_limit_text.
  - apply frame_others; [done|]. intros k H1 H2 H3. rewrite Hs by done. by apply Hf.
Qed.

Lemma delete_becomes kind key tail s : valid_key key = true -> store_ok s ->
  byte_tail tail ->
  exists cs s', app_commands (delete_state kind key) tail = Val cs /\
    run_commands cs s = (s', true) /\ becomes kind key None s s'.
Proof.
  intros Hk Hok Htail. destruct (valid_key_spec key Hk) as [Hp _]. unfold delete_state.
  destruct (context_names kind key Hp) as [-> ->].
  set (H := hash_name kind key). set (Z := zset_name kind key).
  pose proof (meta_ne kind key) as (Hm1 & Hm2 & _). fold H Z in Hm1, Hm2.
  set (s1 := delete H (delete Z s)).
  assert (Hs1 : s1 !! H = None /\ s1 !! Z = None /\ forall k, k <> H -> k <> Z -> s1 !! k = s !! k).
  { unfold s1. split; [apply lookup_delete_eq|]. split.
    - destruct (decide (H = Z)) as [->|Hne]; [apply lookup_delete_eq|].
      rewrite lookup_delete_ne by done. apply lookup_delete_eq.
    - intros k H1 H2. by rewrite !lookup_delete_ne. }
  destruct Hs1 as (HH & HZ & Hf).
  assert (Hok1 : store_ok s1).
  { apply (frame_store_ok kind key s); [done|intros k ? ? ?; by apply Hf|..].
    - intros v. fold H. by rewrite HH.
    - intros v. fold Z. by rewrite HZ.
    - intros v. rewrite Hf by done. apply (proj2 (proj2 Hok)). }
  assert (Hlast : exists s', run_commands ([Del [H; Z]] ++ tail) s = (s', true) /\ store_ok s' /\
                    forall k, k <> META_BYTES -> s' !! k = s1 !! k).
  { rewrite (run_commands_app _ tail s s1) by done. by apply run_tail. }
  destruct Hlast as (s' & Hr & Hok' & Hs). eexists _, s'. split; [done|].
  split; [done|]. split; [done|]. split.
  - unfold context_of. fold H. by rewrite Hs, HH.
  - apply frame_others; [done|]. intros k H1 H2 H3. rewrite Hs by done. by apply Hf.
Qed.

Lemma incr_bytes_tail n : byte_tail (incr_bytes n).
Proof. unfold incr_bytes. destruct (n =? 0); [by left|right; eauto]. Qed.

(** ** Requests in a changing cluster *)

(** What may have happened to the data and to its connection between two calls
    of request [i]: its turn is neither taken nor given, and while it lasts the
    watched keys keep their values or the connection is dirty. *)
Definition rely (i : nat) (cn : connection) (s : store) (cn' : connection) (s' : store) : Prop :=
  (holder cn = Some i <-> holder cn' = Some i) /\
  (holder cn = Some i -> watched cn' = watched cn /\
     (dirty cn' = false -> dirty cn = false /\ forall k, k ∈ watched cn -> s' !! k = s !! k)).

Lemma rely_self i cn s : rely i cn s cn s.
Proof. split; [done|]. auto. Qed.

Lemma rely_trans i cn s cn1 s1 cn2 s2 :
  rely i cn s cn1 s1 -> rely i cn1 s1 cn2 s2 -> rely i cn s cn2 s2.
Proof.
  intros [H1 H2] [H3 H4]. split; [by rewrite H1|]. intros Hh.
  destruct (H2 Hh) as [Hw Hd]. destruct (H4 (proj1 H1 Hh)) as [Hw' Hd'].
  split; [congruence|]. intros Hdirty. destruct (Hd' Hdirty) as [Hc Hk]. destruct (Hd Hc) as [? Hk'].
  split; [done|]. intros k Hin. rewrite Hk by (by rewrite Hw). by apply Hk'.
Qed.

(** The calls that only the request whose turn it is may make. *)
Definition needs_turn {X} (e : RedisE X) : bool :=
  match e with Leave | Watch _ | Unwatch | Exec _ => true | _ => false end.

(** One context made a step of [ctx_step], or none changed. *)
Definition context_step (s s' : store) : Prop :=
  (exists kind key p op, becomes kind key (ctx_step p (context_of s kind key) op).1 s s') \/
  (forall kind key, valid_key key = true -> context_of s' kind key = context_of s kind key).

Definition post (A : Type) : Type := connection -> store -> list (store * store) -> outcome A -> Prop.

(** Whatever the others do between its calls, the request [i] keeps the data in
    order, changes contexts by whole steps, uses its connection's WATCH state
    only in its turn, and ends as [Q] says. *)
Fixpoint safe {A} (i : nat) (Q : post A) (p : R A) (cn : connection) (s : store)
    (log : list (store * store)) : Prop :=
  match p with
  | Ret a => Q cn s log a
  | Vis e k =>
      forall cn' s' f v, rely i cn s cn' s' -> store_ok s' -> sound_fate f ->
        (needs_turn e = true -> holder cn' = Some i) /\
        match serve i f v s' cn' e with
        | None => True
        | Some r =>
            store_ok (data_after r) /\ context_step s' (data_after r) /\
            safe i Q (k (reply r)) (conn_after r) (data_after r)
              (if committed r then log ++ [(s', data_after r)] else log)
        end
  end.

Section Safe.
Context (i : nat).

Lemma safe_bind {A B} (p : R A) (f : outcome A -> R B) (Q : post B) cn s log :
  safe i (fun cn s log a => safe i Q (f a) cn s log) p cn s log -> safe i Q (bind p f) cn s log.
Proof.
  revert cn s log. induction p as [a|X e k IH]; intros cn s log H; [done|].
  intros cn' s' f' v Hr Hok Hf. destruct (H cn' s' f' v Hr Hok Hf) as [Hn Hs]. split; [done|].
  destruct (serve i f' v s' cn' e); [|done]. destruct Hs as (? & ? & Hs). eauto.
Qed.

Lemma safe_mono {A} (p : R A) (Q Q' : post A) cn s log :
  (forall cn s log a, Q cn s log a -> Q' cn s log a) -> safe i Q p cn s log -> safe i Q' p cn s log.
Proof.
  intros HQ. revert cn s log. induction p as [a|X e k IH]; intros cn s log H; [by apply HQ|].
  intros cn' s' f v Hr Hok Hf. destruct (H cn' s' f v Hr Hok Hf) as [Hn Hs]. split; [done|].
  destruct (serve i f v s' cn' e); [|done]. destruct Hs as (? & ? & Hs). eauto.
Qed.

(** Rely steps keep a request safe, if its end does not depend on them. *)
Lemma safe_rely {A} (p : R A) (Q : post A) cn s cn' s' log :
  (forall cn s cn' s' log a, rely i cn s cn' s' -> Q cn s log a -> Q cn' s' log a) ->
  rely i cn s cn' s' -> safe i Q p cn s log -> safe i Q p cn' s' log.
Proof.
  intros HQ Hr. destruct p as [a|X e k]; [by apply HQ|]. intros H cn2 s2 f v Hr2.
  apply H. by eapply rely_trans.
Qed.

Lemma context_step_refl s : context_step s s.
Proof. by right. Qed.

Lemma rely_holder cn s cn' s' : rely i cn s cn' s' -> holder cn = Some i -> holder cn' = Some i.
Proof. intros [H _]. apply H. Qed.

Lemma rely_watched cn s cn' s' : rely i cn s cn' s' -> holder cn = Some i -> watched cn' = watched cn.
Proof. intros [_ H] Hh. by apply H. Qed.

Lemma rely_lookup cn s cn' s' k : rely i cn s cn' s' -> holder cn = Some i -> dirty cn' = false ->
  k ∈ watched cn -> s' !! k = s !! k.
Proof. intros [_ H] Hh Hd. by apply (H Hh). Qed.

Lemma rely_dirty cn s cn' s' : rely i cn s cn' s' -> holder cn = Some i -> dirty cn' = false ->
  dirty cn = false.
Proof. intros [_ H] Hh Hd. by apply (H Hh). Qed.

(** A call that reads the data, and may fail. *)
Lemma safe_read {X A : Type} (e : RedisE (outcome X)) (val : store -> outcome X) (k : X -> R A)
    (Q : post A) cn s log :
  (forall f v s cn, serve i f v s cn e = serve_read f s cn (val s)) -> needs_turn e = false ->
  (forall cn' s' err, rely i cn s cn' s' -> store_ok s' -> Q cn' s' log (Exc err)) ->
  (forall cn' s' x, rely i cn s cn' s' -> store_ok s' -> val s' = Val x ->
     safe i Q (k x) cn' s' log) ->
  safe i Q (then_ (call e) k) cn s log.
Proof.
  intros He Hn Hexc Hval cn' s' f v Hr Hok _. split; [by rewrite Hn|]. rewrite He. simpl.
  split; [done|]. split; [apply context_step_refl|].
  destruct f; simpl; try (by apply Hexc); (destruct (val s') eqn:Hv; [by apply Hval|by apply Hexc]).
Qed.

(** The clock. *)
Lemma safe_now {A : Type} (k : Z -> R A) (Q : post A) cn s log :
  (forall cn' s' now, rely i cn s cn' s' -> store_ok s' -> safe i Q (k now) cn' s' log) ->
  safe i Q (then_ (perform Now) k) cn s log.
Proof.
  intros H cn' s' f v Hr Hok _. split; [done|]. simpl.
  split; [done|]. split; [apply context_step_refl|]. by apply H.
Qed.

(** The end of a part that only reads. *)
Definition read_post {A : Type} (cn : connection) (s : store) (log : list (store * store))
    (P : connection -> store -> A -> Prop) : post A := fun cn' s' log' o =>
  log' = log /\ rely i cn s cn' s' /\ store_ok s' /\ forall a, o = Val a -> P cn' s' a.

Lemma read_post_exc {A : Type} (cn : connection) (s : store) (log : list (store * store))
    (P : connection -> store -> A -> Prop) (cn' : connection) (s' : store) (e : exn) :
  rely i cn s cn' s' -> store_ok s' -> read_post cn s log P cn' s' log (Exc e).
Proof. intros Hr Hok. split; [done|]. split; [done|]. by split. Qed.

Lemma safe_load kind key cn s log : valid_key key = true -> holder cn = Some i ->
  hash_name kind key ∈ watched cn -> zset_name kind key ∈ watched cn ->
  safe i (read_post cn s log (fun cn' s' st => dirty cn' = false -> st = context_of s' kind key))
    (load_state kind key) cn s log.
Proof.
  intros [Hk _]%valid_key_spec Hh Hhw Hzw. unfold load_state.
  destruct (context_names kind key Hk) as [-> ->]. unfold lift.
  set (H := hash_name kind key) in *. set (Z := zset_name kind key) in *.
  apply (safe_read (Exists H) (fun s => Val (if s !! H then 1 else 0)));
    [done|done|intros; by apply read_post_exc|].
  intros cn1 s1 n Hr1 Hok1 [= Hn]. pose proof (rely_holder _ _ _ _ Hr1 Hh) as Hh1.
  pose proof (rely_watched _ _ _ _ Hr1 Hh) as Hw1.
  destruct (n =? 0) eqn:Hn0.
  { split; [done|]. split; [done|]. split; [done|]. intros st [= <-] _. unfold context_of. fold H.
    destruct (s1 !! H); [by subst n|done]. }
  apply (safe_read (HGetAll H) (fun s => match s !! H with
    | None => Val ∅ | Some (RHash h) => Val h | Some _ => Exc wrongtype end)); [done|done|..].
  { intros cn' s' err Hr Hok. apply read_post_exc; [by eapply rely_trans|done]. }
  intros cn2 s2 fields Hr2 Hok2 Hf. pose proof (rely_holder _ _ _ _ Hr2 Hh1) as Hh2.
  pose proof (rely_watched _ _ _ _ Hr2 Hh1) as Hw2.
  apply (safe_read (ZRangeWithScores Z) (fun s => match s !! Z with
    | None => Val [] | Some (RZset z) => Val (zrange z) | Some _ => Exc wrongtype end)); [done|done|..].
  { intros cn' s' err Hr Hok. apply read_post_exc; [by do 2 (eapply rely_trans; [done|])|done]. }
  intros cn3 s3 members Hr3 Hok3 Hm.
  assert (Hr13 : rely i cn1 s1 cn3 s3) by (by eapply rely_trans).
  split; [done|]. split; [by eapply rely_trans|]. split; [done|]. intros st [= <-] Hd.
  assert (Hl1 : s3 !! H = s1 !! H) by (eapply rely_lookup; [done..|by rewrite Hw1]).
  assert (Hl2 : s3 !! H = s2 !! H) by (eapply rely_lookup; [done..|by rewrite Hw2, Hw1]).
  unfold context_of, zset_at. fold H Z. destruct (s3 !! H) as [v|] eqn:Hv.
  - rewrite <- Hl2 in Hf. destruct (proj1 Hok3 kind key v Hv) as [h ->]. injection Hf as ->.
    do 2 f_equal. destruct (s3 !! Z) as [z|] eqn:Hz; [|by injection Hm as <-].
    destruct (proj1 (proj2 Hok3) kind key z Hz) as [z' ->]. by injection Hm as <-.
  - rewrite <- Hl1 in Hn. by subst n.
Qed.

End Safe.

(** ** Transactions *)

Lemma becomes_refl kind key s : store_ok s -> becomes kind key (context_of s kind key) s s.
Proof. intros H. split; [done|]. split; [done|]. by intros ? ? ? ?. Qed.

Lemma becomes_step kind key p op s s' :
  becomes kind key (ctx_step p (context_of s kind key) op).1 s s' -> context_step s s'.
Proof. intros H. left. eauto. Qed.

Section Transactions.
Context (i : nat).

Lemma rely_context kind key cn s cn' s' : rely i cn s cn' s' -> holder cn = Some i ->
  dirty cn' = false -> hash_name kind key ∈ watched cn -> zset_name kind key ∈ watched cn ->
  context_of s' kind key = context_of s kind key.
Proof.
  intros Hr Hh Hd H1 H2. unfold context_of, zset_at.
  by rewrite (rely_lookup i _ _ _ _ _ Hr Hh Hd H1), (rely_lookup i _ _ _ _ _ Hr Hh Hd H2).
Qed.

(** The commands that a body prepares, run on any later data whose watched keys
    are untouched, do what [spec] says of its result. *)
Definition prepared {T : Type} (spec : T -> store -> store -> Prop) (cn : connection) (s : store)
    (pr : T * outcome (list command)) : Prop :=
  forall cn' s', rely i cn s cn' s' -> store_ok s' -> dirty cn' = false ->
    exists cs s2, pr.2 = Val cs /\ run_commands cs s' = (s2, true) /\ store_ok s2 /\
      context_step s' s2 /\ spec pr.1 s' s2.

Definition body_safe {T : Type} (kind : ContextKind) (key : jstr)
    (spec : T -> store -> store -> Prop) (body : R (T * outcome (list command))) : Prop :=
  forall cn s log, holder cn = Some i ->
    hash_name kind key ∈ watched cn -> zset_name kind key ∈ watched cn ->
    safe i (read_post i cn s log (prepared spec)) body cn s log.

(** A body is a reading of the context and what is made of it. *)
Lemma body_load {T : Type} kind key spec (f : option ContextState -> R (T * outcome (list command))) :
  valid_key key = true ->
  (forall st cn s log, holder cn = Some i ->
     hash_name kind key ∈ watched cn -> zset_name kind key ∈ watched cn -> store_ok s ->
     (dirty cn = false -> st = context_of s kind key) ->
     safe i (read_post i cn s log (prepared spec)) (f st) cn s log) ->
  body_safe kind key spec (let* existing := load_state kind key in f existing).
Proof.
  intros Hk Hf cn s log Hh H1 H2. apply safe_bind.
  eapply safe_mono; [|by apply (safe_load i kind key)].
  intros cn1 s1 log1 o (-> & Hr & Hok & Hst). destruct o as [st|e].
  - pose proof (rely_holder i _ _ _ _ Hr Hh) as Hh1. pose proof (rely_watched i _ _ _ _ Hr Hh) as Hw.
    eapply safe_mono; [|apply (Hf st cn1 s1 log); rewrite ?Hw; auto].
    intros cn2 s2 log2 o2 (-> & Hr2 & Hok2 & Hp). split; [done|].
    split; [by eapply rely_trans|]. by split.
  - by apply read_post_exc.
Qed.

(** What is known of the context when the transaction runs. *)
Lemma known_context kind key st cn s cn' s' : holder cn = Some i ->
  hash_name kind key ∈ watched cn -> zset_name kind key ∈ watched cn ->
  (dirty cn = false -> st = context_of s kind key) ->
  rely i cn s cn' s' -> dirty cn' = false -> st = context_of s' kind key.
Proof.
  intros Hh H1 H2 Hst Hr Hd. rewrite (rely_context kind key cn s cn' s') by done.
  by eapply Hst, rely_dirty.
Qed.

Definition eval_spec (kind : ContextKind) (key : jstr) (params : ContextParams)
    (r : RateLimitResult * bool) (s s' : store) : Prop :=
  exists now, let o := evaluate_context (context_of s kind key) now params in
    becomes kind key (ctx_step params (context_of s kind key) (OpEvaluate now)).1 s s' /\
    r = ({| delay_ms := eval_delay_ms o; lockout := eval_lockout o |}, lockout_started o).

Lemma eval_body_safe kind key params : valid_key key = true ->
  body_safe kind key (eval_spec kind key params) (eval_body kind key params).
Proof.
  intros Hk. apply body_load; [done|]. intros st cn s log Hh H1 H2 Hok Hst.
  apply safe_now. intros cn1 s1 now Hr1 Hok1. split; [done|]. split; [done|]. split; [done|].
  intros pr [= <-] cn2 s2 Hr2 Hok2 Hd. simpl.
  assert (Hc : st = context_of s2 kind key).
  { by eapply (known_context kind key st cn s); [..|by eapply rely_trans|]. }
  destruct (eval_next (evaluate_context st now params)) as [next|] eqn:Hn.
  - destruct (write_becomes kind key next
      (incr_bytes (estimate_context_bytes next - context_bytes st)) s2 Hk Hok2 (incr_bytes_tail _))
      as (cs & s3 & -> & Hrun & Hb).
    assert (Hb' : becomes kind key (ctx_step params (context_of s2 kind key) (OpEvaluate now)).1 s2 s3).
    { rewrite <- Hc. simpl. by rewrite Hn. }
    exists cs, s3. split; [done|]. split; [done|]. split; [apply Hb|].
    split; [by eapply becomes_step|]. exists now. simpl. split; [done|]. by rewrite <- Hc.
  - exists [], s2. split; [done|]. split; [done|]. split; [done|]. split; [apply context_step_refl|].
    exists now. simpl. rewrite <- Hc, Hn. simpl. split; [|done]. rewrite Hc. by apply becomes_refl.
Qed.

Definition record_spec (kind : ContextKind) (key : jstr) (r : unit) (s s' : store) : Prop :=
  (exists now, becomes kind key (Some (record_on_context (context_of s kind key) now)) s s') \/
  (context_of s kind key = None /\ s' = s).

Lemma record_body_safe kind key settings : valid_key key = true ->
  body_safe kind key (record_spec kind key) (record_body kind key settings).
Proof.
  intros Hk. apply body_load; [done|]. intros st cn s log Hh H1 H2 Hok Hst.
  apply safe_bind. unfold read_bytes.
  apply (safe_read i (Get META_BYTES) (fun s => match s !! META_BYTES with
    | None => Val None | Some (RStr t) => Val (Some t) | Some _ => Exc wrongtype end)); [done|done|..].
  { intros cn' s' err Hr Hok'. by apply read_post_exc. }
  intros cn1 s1 raw Hr1 Hok1 _. unfold ret. cbn [safe]. cbv beta iota.
  set (used := match finite_int _ with Some value => value | None => 0 end).
  destruct (bool_decide (st = None) && (budget_bytes (max_kib settings) <=? used)) eqn:Hfull.
  - apply andb_true_iff in Hfull as [Hst0%bool_decide_eq_true _]. subst st.
    cbn [safe]. split; [done|]. split; [done|]. split; [done|].
    intros pr [= <-] cn2 s2 Hr2 Hok2 Hd.
    assert (Hc : None = context_of s2 kind key).
    { by eapply (known_context kind key None cn s); [..|by eapply rely_trans|]. }
    exists [], s2. split; [done|]. split; [done|]. split; [done|]. split; [apply context_step_refl|].
    by right.
  - apply safe_now. intros cn2 s2 now Hr2 Hok2. split; [done|]. split; [by eapply rely_trans|].
    split; [done|]. intros pr [= <-] cn3 s3 Hr3 Hok3 Hd.
    assert (Hc : st = context_of s3 kind key).
    { by eapply (known_context kind key st cn s); [..|do 2 (eapply rely_trans; [done|])|]. }
    destruct (write_becomes kind key (record_on_context st now)
      [IncrBy META_BYTES (estimate_context_bytes (record_on_context st now) - context_bytes st)]
      s3 Hk Hok3 ltac:(right; eauto)) as (cs & s4 & Hcs & Hrun & Hb).
    exists cs, s4. split; [done|]. split; [done|]. split; [apply Hb|]. rewrite Hc in Hb.
    split; [|left; eauto]. apply (becomes_step kind key (kind_params kind settings) (OpRecord now)).
    exact Hb.
Qed.

Definition purge_spec (kind : ContextKind) (key : jstr) (params : ContextParams)
    (r : Z) (s s' : store) : Prop :=
  exists now, becomes kind key (ctx_step params (context_of s kind key) (OpPurge now)).1 s s'.

Lemma purge_body_safe kind key params : valid_key key = true ->
  body_safe kind key (purge_spec kind key params) (purge_body kind key params).
Proof.
  intros Hk. apply body_load; [done|]. intros st cn s log Hh H1 H2 Hok Hst.
  destruct st as [st|].
  - apply safe_now. intros cn1 s1 now Hr1 Hok1.
    assert (Hend : forall pr, prepared (purge_spec kind key params) cn1 s1 pr ->
              read_post i cn s log (prepared (purge_spec kind key params)) cn1 s1 log (Val pr)).
    { intros pr Hp. split; [done|]. split; [done|]. split; [done|]. by intros ? [= <-]. }
    destruct (purged_context st now (sample_period_s params)) as [pruned|] eqn:Hp;
      apply Hend; intros cn2 s2 Hr2 Hok2 Hd; simpl;
      (assert (Hc : Some st = context_of s2 kind key);
       [by eapply (known_context kind key (Some st) cn s); [..|by eapply rely_trans|]|]).
    + destruct (write_becomes kind key pruned
        (incr_bytes (estimate_context_bytes pruned - estimate_context_bytes st))
        s2 Hk Hok2 (incr_bytes_tail _)) as (cs & s3 & -> & Hrun & Hb).
      exists cs, s3. split; [done|]. split; [done|]. split; [apply Hb|].
      rewrite <- Hp in Hb. change (purged_context st now (sample_period_s params)) with
        (ctx_step params (Some st) (OpPurge now)).1 in Hb. rewrite Hc in Hb.
      split; [by eapply becomes_step|]. by exists now.
    + destruct (delete_becomes kind key (incr_bytes (- estimate_context_bytes st))
        s2 Hk Hok2 (incr_bytes_tail _)) as (cs & s3 & -> & Hrun & Hb).
      exists cs, s3. split; [done|]. split; [done|]. split; [apply Hb|].
      rewrite <- Hp in Hb. change (purged_context st now (sample_period_s params)) with
        (ctx_step params (Some st) (OpPurge now)).1 in Hb. rewrite Hc in Hb.
      split; [by eapply becomes_step|]. by exists now.
  - split; [done|]. split; [apply rely_self|]. split; [done|]. intros pr [= <-] cn2 s2 Hr2 Hok2 Hd.
    assert (Hc : None = context_of s2 kind key) by (by eapply (known_context kind key None cn s)).
    exists [], s2. split; [done|]. split; [done|]. split; [done|]. split; [apply context_step_refl|].
    exists 0. rewrite <- Hc. simpl. rewrite Hc. by apply becomes_refl.
Qed.

End Transactions.

Section Watching.
Context (i : nat) {T : Type} (kind : ContextKind) (key : jstr)
  (spec : T -> store -> store -> Prop) (body : R (T * outcome (list command))).
Context (Hbody : body_safe i kind key spec body).

Let keys : list jstr := [hash_name kind key; zset_name kind key].

(** One transaction after [log], or none. *)
Definition committed_one (log log' : list (store * store)) (r : T) : Prop :=
  exists s1 s2, log' = log ++ [(s1, s2)] /\ spec r s1 s2.

(** The end of an attempt: it committed and answers for it, or it committed
    nothing, or its answer was lost (and no retry follows). *)
Definition attempt_post (log : list (store * store)) : post T := fun cn s log' o =>
  holder cn = Some i /\
  match o with
  | Val r => committed_one log log' r
  | Exc e => log' = log \/ (is_watch_conflict e = false /\ exists r, committed_one log log' r)
  end.

(** EXEC and what follows it. *)
Lemma safe_exec cs (r : T) cn s log : holder cn = Some i ->
  prepared i spec cn s (r, Val cs) ->
  safe i (attempt_post log)
    (let* committed := call (Exec cs) in
     if committed : bool then ret r else throw (Error_ (u "watch conflict"))) cn s log.
Proof.
  intros Hh Hp cn1 s1 f v Hr Hok Hf. pose proof (rely_holder i _ _ _ _ Hr Hh) as Hh1.
  split; [done|]. cbn [serve]. unfold serve_exec.
  specialize (Hp cn1 s1 Hr Hok). destruct (run_commands cs s1) as [s2 ok] eqn:Hrun.
  assert (Hkeep : forall o cn', holder cn' = Some i -> (forall b, o = Val b -> b = false) ->
    store_ok s1 /\ context_step s1 s1 /\
    safe i (attempt_post log)
      (match o with
       | Val committed => if committed : bool then ret r else throw (Error_ (u "watch conflict"))
       | Exc e => Ret (Exc e)
       end) cn' s1 log).
  { intros o cn' Hcn Hb. split; [done|]. split; [apply context_step_refl|].
    destruct o as [b|e]; [rewrite (Hb b eq_refl)|]; (split; [done|by left]). }
  destruct f; simpl; try (destruct (dirty cn1) eqn:Hd; simpl);
    try (first [apply (Hkeep (Val false)) | apply (Hkeep (Exc e))]; [done|by intros ? [= <-]]).
  all: destruct (Hp eq_refl) as (cs' & s3 & [= <-] & Hrun' & Hok' & Hstep & Hspec);
    simpl in Hspec; rewrite Hrun in Hrun'; injection Hrun' as <- ->;
    split; [done|]; split; [done|]; simpl; split; [done|].
  - exists s1, s2. auto.
  - right. split; [done|]. exists r, s1, s2. auto.
Qed.

Lemma safe_attempt cn s log : holder cn = Some i ->
  safe i (attempt_post log) (watch_attempt keys body) cn s log.
Proof.
  intros Hh cn1 s1 f v Hr1 Hok1 _. pose proof (rely_holder i _ _ _ _ Hr1 Hh) as Hh1.
  split; [done|]. simpl. split; [done|]. split; [apply context_step_refl|].
  assert (Hgo : forall cn2, holder cn2 = Some i -> hash_name kind key ∈ watched cn2 ->
    zset_name kind key ∈ watched cn2 ->
    safe i (attempt_post log)
      (let* prepared := body in
       let* commands := lift (snd prepared) in
       let* committed := call (Exec commands) in
       if committed : bool then ret (fst prepared) else throw (Error_ (u "watch conflict")))
      cn2 s1 log).
  { intros cn2 Hh2 H1 H2. apply safe_bind. eapply safe_mono; [|by apply Hbody].
    intros cn3 s3 log3 o (-> & Hr3 & Hok3 & Hp). pose proof (rely_holder i _ _ _ _ Hr3 Hh2) as Hh3.
    destruct o as [[r [cs|e]]|e]; [|by split; [|left]..]. apply safe_exec; [done|]. by apply Hp. }
  destruct f; simpl; try (by split; [|left]); apply Hgo; simpl; try done; unfold keys; set_solver.
Qed.

Lemma safe_watch_loop left last_error cn s log : holder cn = Some i ->
  safe i (attempt_post log) (watch_loop left keys body last_error) cn s log.
Proof.
  revert last_error cn s. induction left as [|left IH]; intros last_error cn s Hh.
  { split; [done|by left]. }
  cbn [watch_loop]. apply safe_bind. unfold attempt. apply safe_bind.
  eapply safe_mono; [|by apply safe_attempt]. intros cn1 s1 log1 o [Hh1 Ho].
  destruct o as [r|e]; [by split|].
  intros cn2 s2 f v Hr2 Hok2 _. pose proof (rely_holder i _ _ _ _ Hr2 Hh1) as Hh2.
  split; [done|]. simpl. split; [done|]. split; [apply context_step_refl|].
  assert (Hnext : forall cn3, holder cn3 = Some i -> safe i (attempt_post log)
    (if is_watch_conflict e && negb (left =? 0)%nat then watch_loop left keys body e else throw e)
    cn3 s2 log1).
  { intros cn3 Hh3. destruct (is_watch_conflict e && negb (left =? 0)%nat) eqn:Hc; [|by split].
    apply andb_true_iff in Hc as [Hc _].
    destruct Ho as [->|[Hc' _]]; [by apply IH|congruence]. }
  destruct f; simpl; by apply Hnext.
Qed.

(** The end of a [with_watch]: the turn is given back. *)
Definition watch_post (log : list (store * store)) : post T := fun cn s log' o =>
  holder cn <> Some i /\
  match o with
  | Val r => committed_one log log' r
  | Exc e => log' = log \/ exists r, committed_one log log' r
  end.

Lemma safe_with_watch cn s log : holder cn <> Some i ->
  safe i (watch_post log) (with_watch keys body) cn s log.
Proof.
  intros Hh cn1 s1 f v Hr Hok _. split; [done|]. cbn [serve].
  destruct (holder cn1) as [j|] eqn:Hj; [done|]. cbn [data_after conn_after reply committed].
  split; [done|]. split; [apply context_step_refl|]. unfold finally. cbn [bind].
  apply safe_bind. eapply safe_mono; [|by apply safe_watch_loop]. intros cn2 s2 log2 o [Hh2 Ho].
  intros cn3 s3 f3 v3 Hr3 Hok3 _. pose proof (rely_holder i _ _ _ _ Hr3 Hh2) as Hh3.
  split; [done|]. simpl. split; [done|]. split; [apply context_step_refl|].
  split; [done|]. destruct o as [r|e]; [done|]. destruct Ho as [?|[_ ?]]; auto.
Qed.

End Watching.

(** ** The invariant of the cluster *)

(** What the one transaction of an operation does, with the result given. *)
Definition operation_spec (op : operation) (r : option RateLimitResult) (s s' : store) : Prop :=
  match op with
  | OpEval kind key settings _ =>
      exists v, r = Some v.1 /\ eval_spec kind key (kind_params kind settings) v s s'
  | OpRecordFailure kind key _ => r = None /\ record_spec kind key tt s s'
  | OpPurgeOne kind key settings =>
      r = None /\ purge_spec kind key (kind_params kind settings) 0 s s'
  end.

(** A finished operation committed exactly one transaction, which did all of
    its work on the data as they then were and gave its result; a failed one
    committed none, or one whose answer was lost. *)
Definition operation_done (op : operation) (log : list (store * store))
    (o : outcome (option RateLimitResult)) : Prop :=
  match o with
  | Val r => exists s1 s2, log = [(s1, s2)] /\ operation_spec op r s1 s2
  | Exc _ => log = [] \/ exists r s1 s2, log = [(s1, s2)] /\ operation_spec op r s1 s2
  end.

Definition request_post (i : nat) (op : operation) : post (option RateLimitResult) :=
  fun cn s log o => holder cn <> Some i /\ operation_done op log o.

Lemma keys_then {A : Type} kind key (f : list jstr -> R A) : valid_key key = true ->
  then_ (context_keys kind key) f = f [hash_name kind key; zset_name kind key].
Proof.
  intros [Hk _]%valid_key_spec. unfold context_keys.
  by destruct (context_names kind key Hk) as [-> ->].
Qed.

(** An operation is a [with_watch] and what follows it. *)
Lemma safe_operation {T : Type} i op kind key spec (body : R (T * outcome (list command)))
    (f : T -> R (option RateLimitResult)) cn s :
  holder cn <> Some i -> body_safe i kind key spec body ->
  (forall r cn s log, holder cn <> Some i -> committed_one spec [] log r ->
     safe i (request_post i op) (f r) cn s log) ->
  (forall r s1 s2, spec r s1 s2 -> exists r', operation_spec op r' s1 s2) ->
  safe i (request_post i op)
    (then_ (with_watch [hash_name kind key; zset_name kind key] body) f) cn s [].
Proof.
  intros Hh Hbody Hf Hspec.
  apply safe_bind. eapply safe_mono; [|by eapply safe_with_watch].
  intros cn1 s1 log1 o [Hh1 Ho]. destruct o as [r|e]; [by apply Hf|].
  split; [done|]. simpl. destruct Ho as [->|(r & sa & sb & -> & Hs)]; [by left|right].
  destruct (Hspec r sa sb Hs) as [r' Hr']. by exists r', sa, sb.
Qed.

Lemma safe_program_eval i kind key settings ip cn s : valid_key key = true -> holder cn <> Some i ->
  let op := OpEval kind key settings ip in
  safe i (request_post i op) (program op) cn s [].
Proof.
  intros Hk Hh op. unfold op, program, eval_one. rewrite keys_then by done. apply safe_bind.
  apply safe_bind. eapply safe_mono; [|eapply safe_with_watch; [by apply eval_body_safe|done]].
  intros cn1 s1 log1 o [Hh1 Ho]. destruct o as [[r b]|e].
  - destruct Ho as (sa & sb & -> & Hs).
    assert (Hdone : operation_done op [(sa, sb)] (Val (Some r))).
    { exists sa, sb. split; [done|]. by exists (r, b). }
    destruct b; [|by split].
    intros cn2 s2 f v Hr2 Hok2 _. split; [done|]. simpl. split; [done|].
    split; [apply context_step_refl|]. split; [|done]. by rewrite <- (proj1 Hr2).
  - split; [done|]. destruct Ho as [->|(r & sa & sb & -> & Hs)]; [by left|right].
    exists (Some r.1), sa, sb. split; [done|]. by exists r.
Qed.

Lemma safe_program i op cn s : valid_key (operation_key op) = true -> holder cn <> Some i ->
  safe i (request_post i op) (program op) cn s [].
Proof.
  destruct op as [kind key settings ip|kind key settings|kind key settings];
    cbn [operation_key]; intros Hk Hh; [by apply safe_program_eval|..];
    unfold program, record_one, purge_one; rewrite keys_then by done.
  - eapply safe_operation; [done|by apply (record_body_safe i kind key settings)|..].
    + intros [] cn1 s1 log Hh1 (sa & sb & -> & Hs). split; [done|]. by exists sa, sb.
    + intros [] sa sb Hs. by exists None.
  - eapply safe_operation; [done|by apply (purge_body_safe i kind key)|..].
    + intros r cn1 s1 log Hh1 (sa & sb & -> & Hs). split; [done|]. by exists sa, sb.
    + intros r sa sb Hs. by exists None.
Qed.

Definition request_ok (w : cluster) (i : nat) (q : request) : Prop :=
  exists cn, connections w !! req_conn q = Some cn /\
    safe i (request_post i (req_op q)) (req_rest q) cn (data w) (req_log q).

Definition cluster_ok (w : cluster) : Prop :=
  store_ok (data w) /\
  (forall i q, requests w !! i = Some q -> request_ok w i q) /\
  (forall c cn i, connections w !! c = Some cn -> holder cn = Some i -> (i < length (requests w))%nat).

Lemma touch_rely j cn s s' : rely j cn s (touch s s' cn) s'.
Proof.
  split; [done|]. intros Hh. split; [done|]. simpl. intros [Hd He]%orb_false_iff. split; [done|].
  intros k Hk. apply not_true_iff_false in He. rewrite existsb_exists in He.
  destruct (decide (s !! k = s' !! k)) as [|Hne]; [done|]. destruct He. exists k.
  split; [by apply list_elem_of_In|]. by rewrite bool_decide_eq_false_2.
Qed.

Lemma touch_self_rely j cn s s' : rely j cn s' (touch s s' cn) s'.
Proof.
  split; [done|]. intros Hh. split; [done|]. simpl. by intros [Hd _]%orb_false_iff.
Qed.

(** A call of request [i] neither takes nor uses the turn of another. *)
Lemma serve_holder {X : Type} i j f v s cn (e : RedisE X) r : i <> j ->
  serve i f v s cn e = Some r -> (needs_turn e = true -> holder cn = Some i) ->
  (holder cn = Some j <-> holder (conn_after r) = Some j) /\
  (holder cn = Some j -> conn_after r = cn).
Proof.
  intros Hij Hs Hn.
  destruct (needs_turn e) eqn:He.
  - specialize (Hn eq_refl). rewrite Hn. split; [|congruence]. split; [congruence|].
    destruct e; try done; simpl in Hs; injection Hs as <-; simpl; try done;
      [destruct f; simpl; congruence..|].
    unfold serve_exec. destruct (run_commands commands s).
    destruct f; simpl; try destruct (dirty cn); simpl; congruence.
  - destruct e; try done; simpl in Hs; try (by injection Hs as <-).
    destruct (holder cn) as [k|] eqn:Hk; [done|]. injection Hs as <-. simpl.
    split; [split; congruence|done].
Qed.

Lemma serve_rely {X : Type} i j f v s cn (e : RedisE X) r : i <> j ->
  serve i f v s cn e = Some r -> (needs_turn e = true -> holder cn = Some i) ->
  rely j cn s (touch s (data_after r) (conn_after r)) (data_after r).
Proof.
  intros Hij Hs Hn. destruct (serve_holder i j f v s cn e r Hij Hs Hn) as [H1 H2].
  pose proof (touch_rely j (conn_after r) s (data_after r)) as [H3 H4].
  split; [by rewrite H1|]. intros Hh. rewrite (H2 Hh) in H4 |- *. by apply H4.
Qed.

Lemma request_post_rely i op cn s cn' s' log a :
  rely i cn s cn' s' -> request_post i op cn s log a -> request_post i op cn' s' log a.
Proof. intros [H _] [Hh Hd]. split; [by rewrite <- H|done]. Qed.

(** ** The steps of the cluster *)

Lemma start_ok w op c : valid_key (operation_key op) = true -> cluster_ok w ->
  cluster_ok (act w (Start op c)).
Proof.
  intros Hk (Hok & Hreq & Hhold). simpl. destruct (connections w !! c) as [cn|] eqn:Hc; [|done].
  split; [done|]. simpl. split.
  - intros i q [Hq|[Hi Hq]]%lookup_app_Some; [by apply Hreq|].
    apply list_lookup_singleton_Some in Hq as [Hi0 <-].
    exists cn. split; [done|]. apply safe_program; [done|]. intros Hh.
    specialize (Hhold c cn i Hc Hh). lia.
  - intros c' cn' i Hc' Hh. rewrite length_app. specialize (Hhold c' cn' i Hc' Hh). lia.
Qed.

Lemma advance_ok w i f v : sound_fate f -> cluster_ok w -> cluster_ok (act w (Advance i f v)).
Proof.
  intros Hf (Hok & Hreq & Hhold). cbn [act]. destruct (requests w !! i) as [q|] eqn:Hq; [|done].
  destruct (Hreq i q Hq) as (cn & Hcn & Hsafe).
  destruct (req_rest q) as [a|X e k]; [done|]. rewrite Hcn.
  destruct (Hsafe cn (data w) f v (rely_self i cn _) Hok Hf) as [Hn Hs].
  destruct (serve i f v (data w) cn e) as [r|] eqn:Hr; [|done].
  destruct Hs as (Hok' & _ & Hs). split; [done|]. split; cbn [requests connections data].
  - intros j q' Hq'. destruct (decide (i = j)) as [<-|Hij].
    + rewrite list_lookup_insert_eq in Hq' by (by eapply lookup_lt_Some). injection Hq' as <-.
      exists (touch (data w) (data_after r) (conn_after r)). cbn [connections data req_conn req_op req_rest req_log].
      split.
      { rewrite list_lookup_fmap, list_lookup_insert_eq by (by eapply lookup_lt_Some). done. }
      eapply safe_rely; [apply request_post_rely|apply touch_self_rely|exact Hs].
    + rewrite list_lookup_insert_ne in Hq' by done. destruct (Hreq j q' Hq') as (cj & Hcj & Hsj).
      destruct (decide (req_conn q = req_conn q')) as [Heq|Hne].
      * exists (touch (data w) (data_after r) (conn_after r)). cbn [connections data]. split.
        { rewrite <- Heq, list_lookup_fmap, list_lookup_insert_eq by (by eapply lookup_lt_Some). done. }
        rewrite Heq in Hcn. rewrite Hcn in Hcj. injection Hcj as <-.
        eapply safe_rely; [apply request_post_rely|by eapply serve_rely|exact Hsj].
      * exists (touch (data w) (data_after r) cj). cbn [connections data]. split.
        { rewrite list_lookup_fmap, list_lookup_insert_ne by done. by rewrite Hcj. }
        eapply safe_rely; [apply request_post_rely|apply touch_rely|exact Hsj].
  - intros c cn' j Hc Hh. rewrite length_insert. rewrite list_lookup_fmap in Hc.
    destruct (<[req_conn q:=conn_after r]> (connections w) !! c) as [cn0|] eqn:Hc0; [|done].
    injection Hc as <-. cbn [touch holder] in Hh.
    destruct (decide (i = j)) as [<-|Hij]; [by eapply lookup_lt_Some|].
    apply list_lookup_insert_Some in Hc0 as [(<- & <- & _)|[_ Hc0]]; [|by eapply Hhold].
    eapply Hhold; [exact Hcn|]. by apply (serve_holder i j f v (data w) cn e r Hij Hr Hn).
Qed.

Lemma cluster_reachable n actions : Forall sound_action actions ->
  cluster_ok (fold_left act actions (initial_cluster n)).
Proof.
  assert (H0 : cluster_ok (initial_cluster n)).
  { split; [|split]; simpl.
    - split; [|split]; intros *; by rewrite lookup_empty.
    - intros i q. by rewrite lookup_nil.
    - intros c cn i Hc Hh. apply lookup_replicate in Hc as [-> _]. done. }
  revert H0. generalize (initial_cluster n). intros w Hw Ha.
  revert w Hw. induction Ha as [|a actions Ha _ IH]; intros w Hw; [done|]. simpl. apply IH.
  destruct a as [op c|i f v]; [by apply start_ok|by apply advance_ok].
Qed.

Lemma act_step w a : sound_action a -> cluster_ok w -> context_step (data w) (data (act w a)).
Proof.
  destruct a as [op c|i f v]; intros Ha (Hok & Hreq & _); cbn [act].
  - destruct (connections w !! c); apply context_step_refl.
  - destruct (requests w !! i) as [q|] eqn:Hq; [|apply context_step_refl].
    destruct (Hreq i q Hq) as (cn & Hcn & Hsafe).
    destruct (req_rest q) as [o|X e k]; [apply context_step_refl|]. rewrite Hcn.
    destruct (Hsafe cn (data w) f v (rely_self i cn _) Hok Ha) as [_ Hs].
    destruct (serve i f v (data w) cn e) as [r|]; [|apply context_step_refl]. apply Hs.
Qed.

Lemma cluster_steps n actions : Forall sound_action actions ->
  rtc context_step ∅ (data (fold_left act actions (initial_cluster n))).
Proof.
  intros Ha. pose proof (cluster_reachable n [] (Forall_nil_2 _)) as H0. simpl in H0.
  change ∅ with (data (initial_cluster n)). revert H0. generalize (initial_cluster n).
  induction Ha as [|a actions Ha _ IH]; intros w Hw; [apply rtc_refl|]. simpl.
  eapply rtc_l; [by apply act_step|]. apply IH.
  destruct a as [op c|i f v]; [by apply start_ok|by apply advance_ok].
Qed.

(** ** Properties *)


(** Two failures of one user recorded at once over two connections: the second
    commit is refused and retried. *)
Definition at_time (now : Z) : environment :=
  {| env_now := now; env_settings := Exc (Error_ "down"); env_running := false;
     env_scan := (u "0", []) |}.

Definition sample_requests : list action :=
  let op := OpRecordFailure User (u "a") default_rate_limit_settings in
  let go i n := repeat (Advance i Served (at_time 100)) n in
  [Start op 0; Start op 1] ++ go 0%nat 5%nat ++ go 1%nat 7%nat ++ go 0%nat 10%nat.

Example both_failures_recorded :
  option_map failures_ms
    (context_of (data (fold_left act sample_requests (initial_cluster 2))) User (u "a")) =
  Some [100; 100].
Proof. vm_compute. reflexivity. Qed.


(** ** Against the in-memory limiter *)

(** Every context of Redis is the one the in-memory limiter holds. *)
Definition same_contexts (s : store) (m : MemoryState) : Prop :=
  forall kind key, valid_key key = true ->
    context_equiv (context_of s kind key) (load (kind_str kind) key m).

Lemma count_since_perm l1 l2 t : l1 ≡ₚ l2 -> count_since l1 t = count_since l2 t.
Proof. intros H. unfold count_since. by rewrite H. Qed.

Lemma prune_perm l1 l2 now p : l1 ≡ₚ l2 -> prune_failures l1 now p ≡ₚ prune_failures l2 now p.
Proof. intros H. unfold prune_failures. by rewrite H. Qed.

(** An evaluation does not depend on the order of the failures. *)
Lemma evaluate_equiv a b now p : context_equiv a b ->
  verdict (evaluate_context a now p) = verdict (evaluate_context b now p) /\
  context_equiv (eval_next (evaluate_context a now p)) (eval_next (evaluate_context b now p)).
Proof.
  destruct a as [x|], b as [y|]; try done. intros (Hl & Hg & Hf). cbn [evaluate_context].
  rewrite Hl, Hg. pose proof (prune_perm _ _ now (sample_period_s p) Hf) as Hp.
  rewrite !(count_since_perm _ _ _ Hp), (Permutation_length Hp).
  repeat case_match; by repeat split.
Qed.

Lemma record_equiv a b now : context_equiv a b ->
  context_equiv (Some (record_on_context a now)) (Some (record_on_context b now)).
Proof.
  destruct a as [x|], b as [y|]; try done. intros (Hl & Hg & Hf). simpl.
  split; [done|]. split; [done|]. by rewrite Hf.
Qed.

Lemma purged_equiv x y now p : context_equiv (Some x) (Some y) ->
  context_equiv (purged_context x now p) (purged_context y now p).
Proof.
  intros (Hl & Hg & Hf). unfold purged_context, context_is_expired. simpl.
  rewrite Hl, Hg. pose proof (prune_perm _ _ now p Hf) as Hp.
  rewrite (Permutation_length Hp). case_match; [done|]. by repeat split.
Qed.

Lemma load_save kind key s m kind' key' :
  load (kind_str kind') key' (save (kind_str kind) key s m) =
  if decide ((kind', key') = (kind, key)) then Some s else load (kind_str kind') key' m.
Proof.
  unfold load, save. simpl. case_decide as Heq.
  - injection Heq as -> ->. apply lookup_insert_eq.
  - apply lookup_insert_ne. intros [-> ->]%map_key_inj. done.
Qed.

Lemma load_remove kind key m kind' key' :
  load (kind_str kind') key' (remove (kind_str kind) key m) =
  if decide ((kind', key') = (kind, key)) then None else load (kind_str kind') key' m.
Proof.
  unfold load, remove. destruct (contexts m !! map_key (kind_str kind) key) eqn:Hm; simpl;
    case_decide as Heq.
  - injection Heq as -> ->. apply lookup_delete_eq.
  - apply lookup_delete_ne. intros [-> ->]%map_key_inj. done.
  - by injection Heq as -> ->.
  - done.
Qed.

(** A transaction on one context keeps the correspondence when the in-memory
    limiter's context becomes the same. *)
Lemma becomes_same kind key next s s' m m' : becomes kind key next s s' -> same_contexts s m ->
  (forall kind' key', load (kind_str kind') key' m' =
     if decide ((kind', key') = (kind, key)) then load (kind_str kind) key m'
     else load (kind_str kind') key' m) ->
  context_equiv next (load (kind_str kind) key m') -> same_contexts s' m'.
Proof.
  intros (_ & Heq & Hoth) Hs Hm Hn kind' key' Hk'. rewrite Hm. case_decide as Hd.
  - injection Hd as -> ->. by rewrite Heq.
  - rewrite Hoth by done. by apply Hs.
Qed.



(** ** What a purge's scan finds *)

Lemma ends_with_z (a b : jstr) : 58 ∉ b ->
  ends_with (u ":z") (a ++ 58 :: b) = bool_decide (b = u "z").
Proof.
  intros Hb. unfold ends_with. change (rev (u ":z")) with [122; 58]. change (u "z") with [122].
  rewrite rev_app_distr. simpl rev. rewrite <- app_assoc. simpl app.
  destruct (rev b) as [|c [|d r]] eqn:Hr; apply (f_equal (@rev Z)) in Hr; rewrite rev_involutive in Hr.
  - by subst b.
  - subst b. cbn [app starts_with rev]. rewrite Z.eqb_refl, !andb_true_r.
    destruct (Z.eqb_spec 122 c) as [<-|Hne]; [done|].
    rewrite bool_decide_eq_false_2; [done|]. congruence.
  - rewrite bool_decide_eq_false_2.
    + cbn [app starts_with]. destruct (Z.eqb_spec 58 d) as [<-|]; [|by rewrite andb_false_r].
      destruct Hb. rewrite Hr. simpl. rewrite !elem_of_app. left. right. by left.
    + subst b. simpl. intros H. apply (f_equal length) in H. rewrite !length_app in H.
      simpl in H. lia.
Qed.

(** A purge's scan tells contexts from the other keys of the
    limiter and recovers the user or the address exactly, with one exception:
    the context whose key is the one letter z is taken for a failure set, so it
    is never purged and its bytes stay counted. *)
Theorem scanned_keys kind key :
  valid_key key = true ->
  parse_hash_key (hash_name kind key) =
    Val (if bool_decide (key = u "z") then None else Some (kind, key)) /\
  parse_hash_key (zset_name kind key) = Val None /\
  parse_hash_key META_BYTES = Val None /\ parse_hash_key META_PURGE = Val None.
Proof.
  intros [Hp Hd]%valid_key_spec. split; [|split; [|split; vm_compute; reflexivity]].
  - assert (Hname : hash_name kind key = (RL_KEY_PREFIX ++ bucket kind) ++ 58 :: uri_bytes (utf8_bytes key))
      by (unfold hash_name; by rewrite <- app_assoc).
    unfold parse_hash_key. rewrite Hname at 1. rewrite ends_with_z by apply uri_bytes_no_colon.
    assert (Hz : uri_bytes (utf8_bytes key) = u "z" <-> key = u "z").
    { split; [|by intros ->]. intros Hu. rewrite Hu in Hd. vm_compute in Hd. by injection Hd as <-. }
    destruct (bool_decide_reflect (key = u "z")) as [Hk|Hk].
    + by rewrite bool_decide_eq_true_2 by (by apply Hz).
    + rewrite bool_decide_eq_false_2 by (by intros ?%Hz).
      transitivity (match or_uri_error (decodeURIComponent (uri_bytes (utf8_bytes key))) with
                    | Val k => Val (Some (kind, k))
                    | Exc e => Exc e
                    end); [by destruct kind|by rewrite Hd].
  - unfold parse_hash_key. replace (ends_with (u ":z") (zset_name kind key)) with true; [done|].
    change (zset_name kind key) with (hash_name kind key ++ 58 :: u "z").
    rewrite ends_with_z; [done|]. intros H. vm_compute in H. by repeat (apply elem_of_cons in H as [?|H]); try apply not_elem_of_nil in H.
Qed.

Lemma scanned_keys_witness :
  parse_hash_key (hash_name User (u "zoe")) = Val (Some (User, u "zoe")) /\
  parse_hash_key (hash_name User (u "z")) = Val None.
Proof.
  split.
  - apply (scanned_keys User (u "zoe")). vm_compute. reflexivity.
  - apply (scanned_keys User (u "z")). vm_compute. reflexivity.
Defined.
