(* ===== verification/JsForm.v ===== *)
(** The text of an [URLSearchParams] of pairs, as a form is submitted with it,
    and that [url_search_params] reads the pairs back. *)
From S2P Require Import Prelude JsString JsValue JsText JsUtf8 RedisRateLimit.

(** ** Definitions *)

(** The application/x-www-form-urlencoded serialisation of a byte. *)
Definition form_safe (b : Z) : bool :=
  is_digit b || is_lower b || is_upper b || bool_decide (b ∈ u "*-._").

Definition form_byte (b : Z) : jstr := if b =? 32 then [43] else if form_safe b then [b] else percent b.

Definition form_text (s : jstr) : jstr := List.concat (map form_byte (utf8_bytes s)).

(** [new URLSearchParams(pairs).toString()] *)
Definition form_urlencode (pairs : list (jstr * jstr)) : jstr :=
  join "&" (map (fun kv => form_text kv.1 ++ u "=" ++ form_text kv.2) pairs).

Example form_urlencode_sample :
  form_urlencode [(u "user name", u "a+b&c"); (u "next", u "/x?y=1")] = u "user+name=a%2Bb%26c&next=%2Fx%3Fy%3D1".
Proof. vm_compute. reflexivity. Qed.

(** ** Lemmas *)

Lemma utf8_point_bytes p : 0 <= p < 1114112 -> Forall (fun b => 0 <= b < 256) (utf8_point p).
Proof.
  intros Hp. unfold utf8_point. repeat case_match; rewrite ?Z.ltb_lt, ?Z.ltb_ge in *;
    repeat (apply List.Forall_cons; [Z.to_euclidean_division_equations; lia|]); apply List.Forall_nil.
Qed.

Lemma utf8_bytes_bytes s : well_formed s = true -> Forall (fun b => 0 <= b < 256) (utf8_bytes s).
Proof.
  induction s as [|c s Hc IH|c Hc|c d s Hc IH _] using units_ind; intros Hs; simpl in *; [constructor|..].
  - rewrite Hc in *. rewrite !andb_true_iff, negb_true_iff, Z.leb_le, Z.ltb_lt in Hs.
    destruct Hs as [[[Hl H0] H1] Hs]. rewrite Hl. apply Forall_app. split; [apply utf8_point_bytes; lia|auto].
  - by rewrite Hc in Hs.
  - rewrite Hc in *. apply andb_true_iff in Hs as [Hd Hs]. rewrite Hd.
    destruct (surrogate_pair c d Hc Hd) as [Hp _]. apply Forall_app. split; [apply utf8_point_bytes; lia|auto].
Qed.

(** The units of the text are none of [%], [&], [=] and [?] but the percent signs of
    its escapes. *)
Lemma form_byte_units b c : 0 <= b < 256 -> c ∈ form_byte b ->
  0 <= c < 128 /\ c <> 38 /\ c <> 61 /\ c <> 63.
Proof.
  intros Hb. unfold form_byte. destruct (Z.eqb_spec b 32); [intros ->%list_elem_of_singleton; lia|].
  destruct (form_safe b) eqn:Hs.
  - intros ->%list_elem_of_singleton. unfold form_safe, is_digit, is_lower, is_upper in Hs.
    rewrite !orb_true_iff, !andb_true_iff, !Z.leb_le, bool_decide_eq_true in Hs.
    destruct Hs as [Hs|Hs]; [lia|]. change (u "*-._") with [42; 45; 46; 95] in Hs.
    rewrite !elem_of_cons, elem_of_nil in Hs. lia.
  - unfold percent, hex_upper. rewrite !elem_of_cons, elem_of_nil.
    pose proof (Z.div_pos b 16 ltac:(lia) ltac:(lia)). pose proof (Z.div_lt_upper_bound b 16 16 ltac:(lia) ltac:(lia)).
    pose proof (Z.mod_pos_bound b 16 ltac:(lia)).
    destruct (Z.ltb_spec (b / 16) 10), (Z.ltb_spec (b mod 16) 10); lia.
Qed.

Lemma form_text_units s c : well_formed s = true -> c ∈ form_text s -> 0 <= c < 128 /\ c <> 38 /\ c <> 61 /\ c <> 63.
Proof.
  intros Hs Hc. unfold form_text in Hc. apply list_elem_of_In, in_concat in Hc as (l & Hl & Hin).
  apply in_map_iff in Hl as (b & <- & Hb%list_elem_of_In).
  apply form_byte_units with b; [|by apply list_elem_of_In].
  exact (proj1 (Forall_forall _ _) (utf8_bytes_bytes s Hs) b Hb).
Qed.

Lemma percent_decode_byte b rest : 0 <= b < 256 ->
  percent_decode (form_byte b ++ rest) = b :: percent_decode rest.
Proof.
  intros Hb. unfold form_byte. destruct (Z.eqb_spec b 32) as [->|Hne]; [done|].
  destruct (form_safe b) eqn:Hs.
  - assert (Hn : b <> 37 /\ b <> 43).
    { unfold form_safe, is_digit, is_lower, is_upper in Hs.
      rewrite !orb_true_iff, !andb_true_iff, !Z.leb_le, bool_decide_eq_true in Hs.
      destruct Hs as [Hs|Hs]; [lia|]. change (u "*-._") with [42; 45; 46; 95] in Hs.
      rewrite !elem_of_cons, elem_of_nil in Hs. lia. }
    cbn [app]. destruct b as [|p|p]; try done. simpl.
    repeat (destruct p as [p|p|]; try done; try lia).
  - unfold percent. cbn [app percent_decode].
    rewrite (hex_digit_upper (b / 16)), (hex_digit_upper (b mod 16)) by (Z.to_euclidean_division_equations; lia).
    f_equal. Z.to_euclidean_division_equations. lia.
Qed.

Lemma percent_decode_text bs : Forall (fun b => 0 <= b < 256) bs ->
  percent_decode (List.concat (map form_byte bs)) = bs.
Proof.
  induction 1 as [|b bs Hb _ IH]; [done|]. simpl. by rewrite percent_decode_byte, IH.
Qed.

Lemma form_text_decoded s : well_formed s = true -> utf8_decode (percent_decode (utf8_bytes (form_text s))) = s.
Proof.
  intros Hs. rewrite utf8_bytes_ascii.
  - unfold form_text. rewrite percent_decode_text by by apply utf8_bytes_bytes. by apply utf8_roundtrip.
  - apply Forall_forall. intros c Hc. apply (form_text_units s c Hs) in Hc. lia.
Qed.

Definition pair_text (kv : jstr * jstr) : jstr := form_text kv.1 ++ u "=" ++ form_text kv.2.

Lemma pair_text_no_amp kv : well_formed kv.1 = true -> well_formed kv.2 = true -> 38 ∉ pair_text kv.
Proof.
  intros H1 H2. unfold pair_text. rewrite !not_elem_of_app. split_and!.
  - intros H%(form_text_units _ _ H1). lia.
  - change (u "=") with [61]. rewrite list_elem_of_singleton. lia.
  - intros H%(form_text_units _ _ H2). lia.
Qed.

Lemma pair_text_read kv : well_formed kv.1 = true -> well_formed kv.2 = true ->
  (if seqb (pair_text kv) [] then None
   else match index_of 61 (pair_text kv) with
        | Some i => Some (utf8_decode (percent_decode (utf8_bytes (firstn i (pair_text kv)))),
                          utf8_decode (percent_decode (utf8_bytes (skipn (S i) (pair_text kv)))))
        | None => Some (utf8_decode (percent_decode (utf8_bytes (pair_text kv))), [])
        end) = Some kv.
Proof.
  intros H1 H2. rewrite (proj2 (seqb_neq _ _)).
  2: { unfold pair_text. intros H%app_eq_nil. by destruct H as [_ H]. }
  unfold pair_text. change (u "=" ++ form_text kv.2) with (61 :: form_text kv.2).
  rewrite index_of_app by (intros H%(form_text_units _ _ H1); lia).
  rewrite (take_app_length (form_text kv.1)), (skipn_app (S (length (form_text kv.1)))).
  rewrite skipn_all2 by lia. replace (S (length (form_text kv.1)) - length (form_text kv.1))%nat with 1%nat by lia.
  cbn [app]. change (skipn 1 (61 :: form_text kv.2)) with (form_text kv.2).
  rewrite (form_text_decoded kv.1 H1), (form_text_decoded kv.2 H2). by destruct kv.
Qed.

(** The pairs of a form make the round trip. *)
Lemma form_roundtrip pairs : Forall (fun kv => well_formed kv.1 = true /\ well_formed kv.2 = true) pairs ->
  url_search_params (form_urlencode pairs) = pairs.
Proof.
  intros H. unfold url_search_params. cbv zeta.
  assert (Hq : match form_urlencode pairs with 63 :: r => r | _ => form_urlencode pairs end = form_urlencode pairs).
  { assert (Hn : forall r, form_urlencode pairs <> 63 :: r).
    { intros r E. destruct H as [|kv pairs [H1 _] _]; [done|]. unfold form_urlencode in E. cbn [map] in E.
      assert (Hh : exists r', form_text kv.1 ++ 61 :: r' = 63 :: r).
      { destruct pairs; cbn [map] in E; [eexists; exact E|]. rewrite join_cons, <- !app_assoc in E by done.
        eexists. exact E. }
      destruct Hh as [r' Hh]. destruct (form_text kv.1) as [|c t] eqn:Ht; [discriminate|].
      injection Hh as Hc _. assert (Hin : c ∈ form_text kv.1) by (rewrite Ht; left).
      apply form_text_units in Hin; [lia|done]. }
    destruct (form_urlencode pairs) as [|c r]; [done|]. specialize (Hn r).
    destruct c as [|p|p]; try done. repeat (destruct p as [p|p|]; try done). }
  rewrite Hq. clear Hq. unfold form_urlencode. fold pair_text.
  change (map (fun kv => form_text kv.1 ++ u "=" ++ form_text kv.2) pairs) with (map pair_text pairs).
  destruct H as [|kv pairs [H1 H2] H]; [done|].
  revert kv H1 H2. induction H as [|kv' pairs [H1' H2'] H IH]; intros kv H1 H2.
  - cbn [map join]. rewrite split_on_none by by apply pair_text_no_amp. cbn [omap list_omap].
    by rewrite (pair_text_read kv H1 H2).
  - cbn [map]. rewrite join_cons by done. change (u "&") with [38]. cbn [app].
    rewrite split_on_app by by apply pair_text_no_amp. cbn [omap list_omap].
    rewrite (pair_text_read kv H1 H2). f_equal. by apply (IH kv' H1' H2').
Qed.
