(* ===== verification/Tokens.v ===== *)
(** Random tokens and identifiers: [uuidv7.ts], [csrf.ts], [refresh_hmac.ts],
    and the small request guards [origin.ts], [next_path.ts], [username.ts].
    The keyed hash of node:crypto is a parameter. *)
From S2P Require Import Prelude JsString JsValue Settings Effects.

(** ** Hexadecimal and base 64 *)

Definition hex_char (d : Z) : Z := if d <? 10 then 48 + d else 87 + d.

Definition hex_byte (b : Z) : jstr := [hex_char (b / 16); hex_char (b mod 16)].

(** [buffer.toString("hex")] *)
Definition hex_of_bytes (bs : list Z) : jstr := List.concat (map hex_byte bs).

Inductive alphabet := Base64 | Base64Url.

Definition b64_char (a : alphabet) (d : Z) : Z :=
  if d <? 26 then 65 + d
  else if d <? 52 then 71 + d
  else if d <? 62 then d - 4
  else match a with
       | Base64 => if d =? 62 then 43 else 47
       | Base64Url => if d =? 62 then 45 else 95
       end.

(** [buffer.toString("base64")] pads to a multiple of four; ["base64url"]
    does not. *)
Fixpoint b64_encode (a : alphabet) (bs : list Z) : jstr :=
  let pad n := match a with Base64 => repeat 61 n | Base64Url => [] end in
  match bs with
  | [] => []
  | [x] => [b64_char a (x / 4); b64_char a (x mod 4 * 16)] ++ pad 2%nat
  | [x; y] => [b64_char a (x / 4); b64_char a (x mod 4 * 16 + y / 16);
               b64_char a (y mod 16 * 4)] ++ pad 1%nat
  | x :: y :: z :: rest =>
      [b64_char a (x / 4); b64_char a (x mod 4 * 16 + y / 16);
       b64_char a (y mod 16 * 4 + z / 64); b64_char a (z mod 64)] ++ b64_encode a rest
  end.

Definition b64_digit (c : Z) : option Z :=
  if is_upper c then Some (c - 65)
  else if is_lower c then Some (c - 71)
  else if is_digit c then Some (c + 4)
  else if (c =? 43) || (c =? 45) then Some 62
  else if (c =? 47) || (c =? 95) then Some 63
  else None.

(** The bytes of base-64 digits: what [Buffer.from(s, "base64")] decodes of
    text whose only other characters are the padding at its end. *)
Fixpoint b64_decode_digits (ds : list Z) : list Z :=
  match ds with
  | a :: b :: c :: d :: rest =>
      [a * 4 + b / 16; b mod 16 * 16 + c / 4; c mod 4 * 64 + d] ++ b64_decode_digits rest
  | [a; b; c] => [a * 4 + b / 16; b mod 16 * 16 + c / 4]
  | [a; b] => [a * 4 + b / 16]
  | _ => []
  end.

Definition b64_decode (s : jstr) : list Z := b64_decode_digits (omap b64_digit s).

(** ** uuidv7.ts *)

(** [buffer.writeUIntBE(v, offset, n)] *)
Fixpoint bytes_be (n : nat) (v : Z) : list Z :=
  match n with
  | O => []
  | S n' => bytes_be n' (v / 256) ++ [v mod 256]
  end.

Definition byte_at (bs : list Z) (i : nat) : Z := nth i bs 0.

(** The identifier for a time and ten random bytes. *)
Definition uuid7_of (unix_ms : Z) (rand : list Z) : jstr :=
  let rand_a := Z.land (Z.lor (Z.shiftl (byte_at rand 0) 8) (byte_at rand 1)) 4095 in
  let bytes :=
    bytes_be 6 unix_ms ++
    [Z.lor 112 (Z.land (Z.shiftr rand_a 8) 15);
     Z.land rand_a 255;
     Z.lor 128 (Z.land (byte_at rand 2) 63)] ++
    firstn 7 (skipn 3 rand) in
  let hex := hex_of_bytes bytes in
  slice hex 0 8 ++ u "-" ++ slice hex 8 12 ++ u "-" ++ slice hex 12 16 ++ u "-" ++
  slice hex 16 20 ++ u "-" ++ slice_from hex 20.

(** [writeUIntBE] throws on a negative number. *)
Definition new_uuid7 (now_ms : Z) : M jstr :=
  let unix_ms := Z.rem now_ms 281474976710656 in
  let* rand := perform (RandomBytes 10) in
  if unix_ms <? 0 then throw (Error_ "out of range")
  else ret (uuid7_of unix_ms rand).

(** ** csrf.ts and refresh_hmac.ts *)

Definition MIN_REFRESH_HMAC_SECRET_BYTES := 32.
Definition REFRESH_TOKEN_BYTES := 32.

Definition random_token : M jstr :=
  let* bs := perform (RandomBytes 32) in ret (b64_encode Base64Url bs).

Definition mint_refresh_token : M jstr :=
  let* bs := perform (RandomBytes REFRESH_TOKEN_BYTES) in ret (b64_encode Base64Url bs).

(** [tokens_equal]: the bytes are compared when the lengths agree. *)
Definition tokens_equal (left right : jstr) : bool :=
  let left_buf := utf8_bytes left in
  let right_buf := utf8_bytes right in
  if negb (Nat.eqb (length left_buf) (length right_buf)) then false
  else bool_decide (left_buf = right_buf).

(** node:crypto's HMAC-SHA-256 in hexadecimal. *)
Class Hmac := hmac_sha256_hex : list Z -> jstr -> jstr.

Definition hmac_refresh_token `{Hmac} (secret : list Z) (token : jstr) : jstr :=
  hmac_sha256_hex secret token.

(** [/^[A-Za-z0-9+/]+={0,2}$/] *)
Definition base64_body (s : jstr) : bool :=
  let std c := is_upper c || is_lower c || is_digit c || (c =? 43) || (c =? 47) in
  let r := drop_while std s in
  negb (bool_decide (take_while std s = [])) && (jlen r <=? 2) && forallb (Z.eqb 61) r.

(** [s.replace(/=+$/, "")] *)
Definition strip_padding (s : jstr) : jstr := rev (drop_while (Z.eqb 61) (rev s)).

Definition decode_base64_secret (text : jstr) : outcome (list Z) :=
  let compact := List.filter (fun c => negb (is_space c)) text in
  let bad := Exc (Error_ "UNTANGLED_REFRESH_HMAC_SECRET_PATH must be base64-encoded secret bytes") in
  if seqb compact [] then Exc (Error_ "UNTANGLED_REFRESH_HMAC_SECRET_PATH is empty")
  else if negb (jlen compact mod 4 =? 0) || negb (base64_body compact) then bad
  else
    let decoded := b64_decode compact in
    let round_trip := b64_encode Base64 decoded in
    if negb (seqb round_trip compact)
       && negb (seqb (strip_padding round_trip) (strip_padding compact)) then bad
    else if Z.of_nat (length decoded) <? MIN_REFRESH_HMAC_SECRET_BYTES then
      Exc (Error_ "UNTANGLED_REFRESH_HMAC_SECRET_PATH must decode to at least 32 bytes")
    else Val decoded.

(** ** origin.ts, next_path.ts and username.ts *)

Definition origin_is_exact_match (origin_header : option jstr) (public_origin : jstr) : bool :=
  match origin_header with
  | None | Some [] => false
  | Some o => seqb o public_origin
  end.

Definition safe_next_path (raw : option jstr) (fallback : jstr) : jstr :=
  match raw with
  | None | Some [] => fallback
  | Some raw =>
      if negb (starts_with (u "/") raw) || starts_with (u "//") raw || includes (u "://") raw
      then fallback else raw
  end.

Definition fold_username (raw : jstr) : jstr := to_lower (trim raw).

(** [/^[a-z0-9_]{3,32}$/] *)
Definition username_is_valid (folded : jstr) : bool :=
  forallb (fun c => is_lower c || is_digit c || (c =? 95)) folded &&
  (3 <=? jlen folded) && (jlen folded <=? 32).

(** [/^[0-9a-f]{8}-[0-9a-f]{4}-...$/i], the identifiers jwt.ts accepts. *)
Definition is_hex (c : Z) : bool :=
  is_digit c || ((97 <=? c) && (c <=? 102)) || ((65 <=? c) && (c <=? 70)).

Definition uuid_re (s : jstr) : bool :=
  match split_on 45 s with
  | [a; b; c; d; e] =>
      forallb (forallb is_hex) [a; b; c; d; e] &&
      bool_decide (map jlen [a; b; c; d; e] = [8; 4; 4; 4; 12])
  | _ => false
  end.
Arguments uuid_re : simpl never.
Arguments fold_username : simpl never.
Arguments username_is_valid : simpl never.
Arguments tokens_equal : simpl never.
Arguments safe_next_path : simpl never.
Arguments uuid7_of : simpl never.
Arguments b64_encode : simpl never.

Definition is_byte (b : Z) : Prop := 0 <= b < 256.

(** ** Lemmas *)

Lemma utf8_point_head_ge c : 128 <= c -> exists b bs, utf8_point c = b :: bs /\ 192 <= b.
Proof.
  intros H. unfold utf8_point. rewrite (proj2 (Z.ltb_ge c 128)) by done.
  destruct (Z.ltb_spec c 2048); [|destruct (Z.ltb_spec c 65536)]; eexists _, _; (split; [done|]).
  - pose proof (Z.div_pos c 64). lia.
  - pose proof (Z.div_pos c 4096). lia.
  - pose proof (Z.div_pos c 262144). lia.
Qed.

(** A constant-time comparison of ASCII tokens decides their equality. *)
Lemma tokens_equal_ascii a b : ascii_str a -> ascii_str b -> tokens_equal a b = seqb a b.
Proof.
  intros Ha Hb. unfold tokens_equal, seqb. rewrite !utf8_bytes_ascii by done.
  destruct (Nat.eqb_spec (length a) (length b)) as [He|Hne]; [done|]. simpl. symmetry.
  apply bool_decide_eq_false. by intros ->.
Qed.

Lemma tokens_equal_refl a : tokens_equal a a = true.
Proof. unfold tokens_equal. rewrite Nat.eqb_refl. by apply bool_decide_eq_true. Qed.

Lemma hex_char_hex d : 0 <= d < 16 -> is_hex (hex_char d) = true /\ hex_char d <> 45.
Proof.
  intros H. unfold hex_char, is_hex, is_digit. destruct (Z.ltb_spec d 10).
  - rewrite (proj2 (Z.leb_le 48 _)), (proj2 (Z.leb_le _ 57)) by lia. split; [done|lia].
  - rewrite (proj2 (Z.leb_le 97 _)), (proj2 (Z.leb_le _ 102)) by lia.
    split; [by rewrite orb_true_r|lia].
Qed.

Lemma hex_of_bytes_spec bs : Forall is_byte bs ->
  Forall (fun c => is_hex c = true /\ c <> 45) (hex_of_bytes bs) /\
  length (hex_of_bytes bs) = (2 * length bs)%nat.
Proof.
  unfold hex_of_bytes. induction 1 as [|b bs Hb Hbs [IH1 IH2]]; simpl; [done|].
  unfold is_byte in Hb. split; [|lia].
  assert (0 <= b / 16 < 16) by (split; [apply Z.div_pos|apply Z.div_lt_upper_bound]; lia).
  pose proof (Z.mod_pos_bound b 16 ltac:(lia)).
  constructor; [by apply hex_char_hex|]. constructor; [by apply hex_char_hex|done].
Qed.

Lemma bytes_be_spec n v : length (bytes_be n v) = n /\ Forall is_byte (bytes_be n v).
Proof.
  revert v. induction n as [|n IH]; intros v; simpl; [done|].
  destruct (IH (v / 256)) as [Hl Hf]. split.
  - rewrite length_app. simpl. lia.
  - apply Forall_app. split; [done|]. repeat constructor; apply Z.mod_pos_bound; lia.
Qed.

(** Or-ing a high part with a value below its lowest bit adds it. *)
Lemma lor_low h n x :
  forallb (fun k => Z.lor h (Z.of_nat k) =? h + Z.of_nat k) (seq 0 n) = true ->
  0 <= x < Z.of_nat n -> Z.lor h x = h + x.
Proof.
  intros H Hx. rewrite forallb_forall in H.
  specialize (H (Z.to_nat x) ltac:(apply in_seq; lia)).
  apply Z.eqb_eq in H. rewrite Z2Nat.id in H by lia. done.
Qed.

Lemma land_mask a k : 0 <= k -> 0 <= Z.land a (Z.ones k) < 2 ^ k.
Proof. intros. rewrite Z.land_ones by done. apply Z.mod_pos_bound. lia. Qed.

Lemma split_hex a b c d e :
  Forall (fun x => x <> 45) (a ++ b ++ c ++ d ++ e) ->
  split_on 45 (a ++ u "-" ++ b ++ u "-" ++ c ++ u "-" ++ d ++ u "-" ++ e) = [a; b; c; d; e].
Proof.
  rewrite !Forall_app. intros (Ha & Hb & Hc & Hd & He).
  assert (Hn : forall l, Forall (fun x => x <> 45) l -> 45 ∉ l).
  { intros l Hl Hin. by apply (proj1 (Forall_forall _ _) Hl 45 Hin). }
  change (u "-") with [45]. cbn [app]. rewrite !split_on_app by auto. by rewrite split_on_none by auto.
Qed.

Lemma slices_32 (h : jstr) : length h = 32%nat ->
  slice h 0 8 ++ slice h 8 12 ++ slice h 12 16 ++ slice h 16 20 ++ slice_from h 20 = h /\
  map jlen [slice h 0 8; slice h 8 12; slice h 12 16; slice h 16 20; slice_from h 20] = [8; 4; 4; 4; 12].
Proof.
  intros Hl. do 32 (destruct h as [|? h]; [done|]). destruct h; [|done]. split; reflexivity.
Qed.

(** Thirty-two hexadecimal digits, cut at the dashes, have the form of an
    identifier. *)
Lemma dashed_form h : length h = 32%nat -> Forall (fun c => is_hex c = true /\ c <> 45) h ->
  uuid_re (slice h 0 8 ++ u "-" ++ slice h 8 12 ++ u "-" ++ slice h 12 16 ++ u "-" ++
           slice h 16 20 ++ u "-" ++ slice_from h 20) = true.
Proof.
  intros H32 Hh. destruct (slices_32 h H32) as [Hcat Hlens]. unfold uuid_re. rewrite split_hex.
  - rewrite Hlens. rewrite bool_decide_eq_true_2 by done. rewrite andb_true_r.
    assert (Hhex : forallb is_hex h = true).
    { apply forallb_forall. intros c Hc%list_elem_of_In.
      by destruct (proj1 (Forall_forall _ _) Hh c Hc). }
    rewrite <- Hcat in Hhex. rewrite !forallb_app in Hhex. cbn [forallb]. by rewrite andb_true_r.
  - rewrite Hcat. eapply Forall_impl; [exact Hh|]. by intros c [_ ?].
Qed.

(** The sixteen bytes: the version and the variant are where they belong. *)
Lemma uuid7_bytes unix_ms rand : Forall is_byte rand -> length rand = 10%nat ->
  exists x y a tail, 0 <= x < 16 /\ 0 <= y < 64 /\
    let bytes := bytes_be 6 unix_ms ++ [112 + x; a; 128 + y] ++ tail in
    Forall is_byte bytes /\ length bytes = 16%nat /\
    uuid7_of unix_ms rand =
      slice (hex_of_bytes bytes) 0 8 ++ u "-" ++ slice (hex_of_bytes bytes) 8 12 ++ u "-" ++
      slice (hex_of_bytes bytes) 12 16 ++ u "-" ++ slice (hex_of_bytes bytes) 16 20 ++ u "-" ++
      slice_from (hex_of_bytes bytes) 20.
Proof.
  intros Hr Hl. unfold uuid7_of. set (ra := Z.land _ 4095).
  exists (Z.land (Z.shiftr ra 8) 15), (Z.land (byte_at rand 2) 63), (Z.land ra 255), (firstn 7 (skipn 3 rand)).
  assert (Hx : 0 <= Z.land (Z.shiftr ra 8) 15 < 16) by (apply (land_mask _ 4); lia).
  assert (Hy : 0 <= Z.land (byte_at rand 2) 63 < 64) by (apply (land_mask _ 6); lia).
  assert (Hb : is_byte (Z.land ra 255)) by (apply (land_mask _ 8); lia).
  rewrite (lor_low 112 16), (lor_low 128 64) by (done || by vm_compute).
  destruct (bytes_be_spec 6 unix_ms) as [Hbl Hbf]. split_and!; try done; try lia.
  - rewrite !Forall_app. split; [done|]. split; [|by apply Forall_take, Forall_drop].
    repeat constructor; unfold is_byte in *; lia.
  - rewrite !length_app, Hbl, length_take, length_drop, Hl. done.
Qed.

(** An identifier made from ten random bytes has the textual
    form that the token verification requires of a subject, its version digit
    is 7 and its variant digit one of 8, 9, a and b, for every time. *)
Theorem uuid7_well_formed unix_ms rand :
  Forall is_byte rand -> length rand = 10%nat ->
  uuid_re (uuid7_of unix_ms rand) = true /\
  nth 14 (uuid7_of unix_ms rand) 0 = 55 /\
  In (nth 19 (uuid7_of unix_ms rand) 0) (u "89ab").
Proof.
  intros Hr Hl. destruct (uuid7_bytes unix_ms rand Hr Hl) as (x & y & a & tail & Hx & Hy & Hall & Hlen & ->).
  set (bytes := bytes_be 6 unix_ms ++ _) in *.
  destruct (hex_of_bytes_spec bytes Hall) as [Hh Hhl].
  split; [apply dashed_form; [lia|done]|].
  assert (Hdec : hex_of_bytes bytes = hex_of_bytes (bytes_be 6 unix_ms) ++
            hex_byte (112 + x) ++ hex_byte a ++ hex_byte (128 + y) ++ hex_of_bytes tail).
  { unfold bytes, hex_of_bytes. by rewrite !map_app, !concat_app. }
  destruct (bytes_be_spec 6 unix_ms) as [Hbl Hbf].
  destruct (hex_of_bytes_spec _ Hbf) as [_ Hpl]. rewrite Hbl in Hpl.
  rewrite Hdec. set (p := hex_of_bytes (bytes_be 6 unix_ms)) in *. clear -Hpl Hx Hy. clearbody p.
  do 12 (destruct p as [|? p]; [done|]). destruct p; [|done]. unfold hex_byte. split.
  - replace ((112 + x) / 16) with 7 by (apply (Z.div_unique _ 16 7 x); lia). reflexivity.
  - assert (Hc : (128 + y) / 16 = 8 \/ (128 + y) / 16 = 9 \/ (128 + y) / 16 = 10 \/ (128 + y) / 16 = 11).
    { assert (8 <= (128 + y) / 16 < 12); [|lia].
      split; [apply Z.div_le_lower_bound|apply Z.div_lt_upper_bound]; lia. }
    destruct Hc as [-> | [-> | [-> | -> ] ] ]; vm_compute; tauto.
Qed.

Lemma uuid7_well_formed_witness :
  uuid_re (uuid7_of 1700000000000 [255; 17; 200; 3; 4; 5; 6; 7; 8; 9]) = true.
Proof.
  apply (uuid7_well_formed 1700000000000 [255; 17; 200; 3; 4; 5; 6; 7; 8; 9]).
  - repeat constructor; discriminate.
  - reflexivity.
Defined.

(** The guard on [next] looks at slashes only. *)
Example next_path_backslash :
  safe_next_path (Some (u "/\evil.example")) (u "/") = u "/\evil.example" /\
  safe_next_path (Some (47 :: 9 :: u "/evil.example")) (u "/") = 47 :: 9 :: u "/evil.example".
Proof. split; vm_compute; reflexivity. Qed.
