(* ===== verification/Base64.v ===== *)
(** The refresh secret of refresh_hmac.ts in base 64: what is read back of an
    encoding, and which texts [decode_base64_secret] takes. *)
From S2P Require Import Prelude JsString JsValue JsDate Tokens.

(** ** Base 64 is read back *)

Lemma b64_digit_char a d : 0 <= d < 64 -> b64_digit (b64_char a d) = Some d.
Proof.
  intros Hd. assert (H : forallb (fun d => bool_decide (b64_digit (b64_char a d) = Some d)) (seqZ 64) = true)
    by (destruct a; vm_compute; reflexivity).
  pose proof (forallb_seqZ _ 64 d H Hd) as Hb. by apply bool_decide_eq_true in Hb.
Qed.

(** Induction by groups of three bytes. *)
Lemma bytes_ind3 (P : list Z -> Prop) : P [] -> (forall x, P [x]) -> (forall x y, P [x; y]) ->
  (forall x y z rest, P rest -> P (x :: y :: z :: rest)) -> forall bs, P bs.
Proof.
  intros H0 H1 H2 H3. fix IH 1. intros [|x [|y [|z rest]]]; [done|auto|auto|]. apply H3, IH.
Qed.

Lemma byte_split x : is_byte x -> 0 <= x / 4 < 64 /\ 0 <= x mod 4 < 4 /\ 0 <= x / 16 < 16 /\
  0 <= x mod 16 < 16 /\ 0 <= x / 64 < 4 /\ 0 <= x mod 64 < 64.
Proof. unfold is_byte. intros. repeat split; try (apply Z.mod_pos_bound; lia); (apply Z.div_pos || apply Z.div_lt_upper_bound); lia. Qed.

Lemma join_bits a b k : 0 <= a -> 0 <= b < k -> (a * k + b) / k = a /\ (a * k + b) mod k = b.
Proof.
  intros Ha Hb. rewrite (Z.add_comm (a * k)), Z.div_add, Z.mod_add by lia.
  rewrite Z.div_small, Z.mod_small by lia. lia.
Qed.

Lemma digits_of_encoding a rest ds : omap b64_digit rest = ds ->
  forall l, Forall (fun d => 0 <= d < 64) l -> omap b64_digit (map (b64_char a) l ++ rest) = l ++ ds.
Proof.
  intros Hr l. induction 1 as [|d l Hd Hl IH]; simpl; [done|]. rewrite b64_digit_char by done. f_equal. exact IH.
Qed.

Lemma pad_digits a n : omap b64_digit (match a with Base64 => repeat 61 n | Base64Url => [] end) = [].
Proof. destruct a; [|done]. induction n as [|n IH]; simpl; [done|]. exact IH. Qed.

(** Base 64 is read back, in either alphabet. *)
Lemma b64_roundtrip a bs : Forall is_byte bs -> b64_decode (b64_encode a bs) = bs.
Proof.
  unfold b64_decode. induction bs as [|x|x y|x y z rest IH] using bytes_ind3; intros Hb; [done|..];
    rewrite ?Forall_cons in Hb; destruct_and?;
    repeat match goal with H : is_byte ?v |- _ => pose proof (byte_split v H); pose proof (Z.div_mod v 4 ltac:(lia));
      pose proof (Z.div_mod v 16 ltac:(lia)); pose proof (Z.div_mod v 64 ltac:(lia)); clear H end.
  - assert (Hd : omap b64_digit (b64_encode a [x]) = [x / 4; x mod 4 * 16])
      by (apply (digits_of_encoding a _ [] (pad_digits a 2) [x / 4; x mod 4 * 16]); repeat constructor; lia).
    rewrite Hd. simpl. f_equal. rewrite Z.div_mul by lia. lia.
  - assert (Hd : omap b64_digit (b64_encode a [x; y]) = [x / 4; x mod 4 * 16 + y / 16; y mod 16 * 4])
      by (apply (digits_of_encoding a _ [] (pad_digits a 1) [_; _; _]); repeat constructor; lia).
    rewrite Hd. simpl. destruct (join_bits (x mod 4) (y / 16) 16) as [-> ->]; [lia..|]. rewrite Z.div_mul by lia.
    repeat f_equal; lia.
  - assert (Hd : omap b64_digit (b64_encode a (x :: y :: z :: rest)) =
      [x / 4; x mod 4 * 16 + y / 16; y mod 16 * 4 + z / 64; z mod 64] ++ omap b64_digit (b64_encode a rest))
      by (apply (digits_of_encoding a _ _ eq_refl [_; _; _; _]); repeat constructor; lia).
    rewrite Hd. simpl. destruct (join_bits (x mod 4) (y / 16) 16) as [-> ->]; [lia..|].
    destruct (join_bits (y mod 16) (z / 64) 4) as [-> ->]; [lia..|].
    rewrite IH by done. repeat f_equal; lia.
Qed.

(** The URL alphabet is fit for a cookie and for a header. *)
Definition url_text (s : jstr) : bool :=
  forallb (fun c => is_upper c || is_lower c || is_digit c || (c =? 45) || (c =? 95)) s.

Lemma b64_url_text bs : Forall is_byte bs -> url_text (b64_encode Base64Url bs) = true.
Proof.
  assert (Hc : forall ds, Forall (fun d => 0 <= d < 64) ds -> url_text (map (b64_char Base64Url) ds) = true).
  { induction 1 as [|d ds Hd Hds IH]; [done|]. unfold url_text in *. cbn [map forallb]. rewrite IH, andb_true_r.
    assert (H : forallb (fun d => url_text [b64_char Base64Url d]) (seqZ 64) = true) by reflexivity.
    pose proof (forallb_seqZ _ 64 d H Hd) as Hu. unfold url_text in Hu. cbn [forallb] in Hu.
    by rewrite andb_true_r in Hu. }
  induction bs as [|x|x y|x y z rest IH] using bytes_ind3; intros Hb; rewrite ?Forall_cons in Hb; destruct_and?;
    [done|..]; repeat match goal with H : is_byte ?v |- _ => pose proof (byte_split v H); clear H end.
  - apply (Hc [x / 4; x mod 4 * 16]). repeat constructor; lia.
  - apply (Hc [x / 4; x mod 4 * 16 + y / 16; y mod 16 * 4]). repeat constructor; lia.
  - change (b64_encode Base64Url (x :: y :: z :: rest)) with
      (map (b64_char Base64Url) [x / 4; x mod 4 * 16 + y / 16; y mod 16 * 4 + z / 64; z mod 64]
       ++ b64_encode Base64Url rest).
    unfold url_text in *. rewrite forallb_app, IH, andb_true_r by done. apply Hc. repeat constructor; lia.
Qed.

Lemma b64_url_nonempty bs : bs <> [] -> b64_encode Base64Url bs <> [].
Proof. by destruct bs as [|x [|y [|z rest]]]. Qed.

Definition std_char (c : Z) : bool := is_upper c || is_lower c || is_digit c || (c =? 43) || (c =? 47).

(** Base-64 text: characters of the alphabet, then at most two paddings. *)
Definition padded (s body : jstr) (n : nat) : Prop :=
  s = body ++ repeat 61 n /\ (n <= 2)%nat /\ forallb std_char body = true.

Lemma std_char_b64 d : 0 <= d < 64 -> std_char (b64_char Base64 d) = true.
Proof.
  intros Hd. assert (H : forallb (fun d => std_char (b64_char Base64 d)) (seqZ 64) = true)
    by (vm_compute; reflexivity).
  exact (forallb_seqZ _ 64 d H Hd).
Qed.

Lemma forallb_pad r : forallb (Z.eqb 61) r = true -> r = repeat 61 (length r).
Proof. induction r as [|c r IH]; cbn [forallb length repeat]; [done|]. intros [Hc Hr]%andb_true_iff. apply Z.eqb_eq in Hc as <-. f_equal. auto. Qed.

Lemma take_drop_while f s : take_while f s ++ drop_while f s = s.
Proof. induction s as [|c s IH]; simpl; [done|]. destruct (f c); simpl; [by rewrite IH|done]. Qed.

Lemma take_while_forall f s : forallb f (take_while f s) = true.
Proof. induction s as [|c s IH]; simpl; [done|]. destruct (f c) eqn:Hc; simpl; [by rewrite Hc|done]. Qed.

Lemma while_app f a c b : forallb f a = true -> f c = false ->
  take_while f (a ++ c :: b) = a /\ drop_while f (a ++ c :: b) = c :: b.
Proof.
  intros Ha Hc. induction a as [|x a IH]; simpl in *; [by rewrite Hc|].
  apply andb_true_iff in Ha as [-> Ha]. destruct (IH Ha) as [-> ->]. done.
Qed.

Lemma while_padded body n : forallb std_char body = true ->
  take_while std_char (body ++ repeat 61 n) = body /\ drop_while std_char (body ++ repeat 61 n) = repeat 61 n.
Proof.
  intros Hb. destruct n as [|n]; simpl.
  - rewrite app_nil_r. by rewrite take_while_all, drop_while_all.
  - by apply while_app.
Qed.

Lemma base64_body_padded s : base64_body s = true <-> exists body n, padded s body n /\ body <> [].
Proof.
  unfold base64_body. fold std_char. rewrite !andb_true_iff, negb_true_iff, bool_decide_eq_false, Z.leb_le. split.
  - intros [[Hne Hlen] Hr]. exists (take_while std_char s), (length (drop_while std_char s)).
    split; [|done]. unfold padded. rewrite <- forallb_pad by done. unfold jlen in Hlen.
    rewrite take_drop_while, take_while_forall. split; [done|]. split; [lia|done].
  - intros (body & n & (-> & Hn & Hb) & Hne). destruct (while_padded body n Hb) as [-> ->].
    split; [split; [done|]|]; [unfold jlen; rewrite repeat_length; lia|].
    clear. induction n as [|n IH]; [done|exact IH].
Qed.

Lemma strip_padded s body n : padded s body n -> strip_padding s = body.
Proof.
  intros (-> & _ & Hb). unfold strip_padding. rewrite rev_app_distr.
  assert (Hn : drop_while (Z.eqb 61) (rev (repeat 61 n) ++ rev body) = rev body).
  { rewrite rev_repeat. induction n as [|n IH]; [|exact IH].
    cbn [repeat app]. destruct (rev body) as [|c r] eqn:Hr; [done|]. cbn [drop_while]. destruct (Z.eqb_spec 61 c) as [<-|]; [|done].
    rewrite forallb_forall in Hb. assert (Hin : In 61 body) by (apply in_rev; rewrite Hr; by left).
    by specialize (Hb 61 Hin). }
  by rewrite Hn, rev_involutive.
Qed.

Lemma encode_padded bs : Forall is_byte bs -> exists body n, padded (b64_encode Base64 bs) body n /\
  (bs <> [] -> body <> []) /\ (length (b64_encode Base64 bs) mod 4 = 0)%nat.
Proof.
  assert (Hstd : forall ds, Forall (fun d => 0 <= d < 64) ds -> forallb std_char (map (b64_char Base64) ds) = true).
  { induction 1; simpl; [done|]. by rewrite std_char_b64. }
  induction bs as [|x|x y|x y z rest IH] using bytes_ind3; intros Hb; rewrite ?Forall_cons in Hb; destruct_and?;
    repeat match goal with H : is_byte ?v |- _ => pose proof (byte_split v H); clear H end.
  - exists [], 0%nat. split; [split; [done|split; [lia|done]]|done].
  - exists (map (b64_char Base64) [x / 4; x mod 4 * 16]), 2%nat.
    split; [split; [done|split; [lia|apply Hstd; repeat constructor; lia]]|split; [done|reflexivity]].
  - exists (map (b64_char Base64) [x / 4; x mod 4 * 16 + y / 16; y mod 16 * 4]), 1%nat.
    split; [split; [done|split; [lia|apply Hstd; repeat constructor; lia]]|split; [done|reflexivity]].
  - destruct IH as (body & n & (Hr & Hn & Hbody) & _ & Hl); [done|].
    exists (map (b64_char Base64) [x / 4; x mod 4 * 16 + y / 16; y mod 16 * 4 + z / 64; z mod 64] ++ body), n.
    split; [split; [|split; [done|]]|split; [done|]].
    + change (b64_encode Base64 (x :: y :: z :: rest)) with
        (map (b64_char Base64) [x / 4; x mod 4 * 16 + y / 16; y mod 16 * 4 + z / 64; z mod 64] ++ b64_encode Base64 rest).
      by rewrite Hr, app_assoc.
    + rewrite forallb_app, Hbody, Hstd; [done|]. repeat constructor; lia.
    + change (length (b64_encode Base64 (x :: y :: z :: rest))) with (1 * 4 + length (b64_encode Base64 rest))%nat.
      rewrite Nat.add_comm, Nat.Div0.mod_add. done.
Qed.

Lemma b64_digit_range c d : b64_digit c = Some d -> 0 <= d < 64.
Proof.
  unfold b64_digit, is_upper, is_lower, is_digit. repeat case_match; intros; simplify_eq;
    rewrite ?andb_true_iff, ?Z.leb_le in *; lia.
Qed.

Lemma decode_bytes ds : Forall (fun d => 0 <= d < 64) ds -> Forall is_byte (b64_decode_digits ds).
Proof.
  remember (length ds) as n eqn:Hn. revert ds Hn. induction (lt_wf n) as [n _ IH]. intros ds -> Hd.
  assert (H3 : forall a b c d, 0 <= a < 64 -> 0 <= b < 64 -> 0 <= c < 64 -> 0 <= d < 64 ->
    is_byte (a * 4 + b / 16) /\ is_byte (b mod 16 * 16 + c / 4) /\ is_byte (c mod 4 * 64 + d)).
  { intros a b c d ????. unfold is_byte. pose proof (Z.mod_pos_bound b 16 ltac:(lia)).
    pose proof (Z.mod_pos_bound c 4 ltac:(lia)).
    pose proof (Z.div_lt_upper_bound b 16 4 ltac:(lia) ltac:(lia)).
    pose proof (Z.div_lt_upper_bound c 4 16 ltac:(lia) ltac:(lia)).
    pose proof (Z.div_pos b 16 ltac:(lia) ltac:(lia)). pose proof (Z.div_pos c 4 ltac:(lia) ltac:(lia)). lia. }
  destruct ds as [|a [|b [|c [|d rest]]]]; cbn [b64_decode_digits]; rewrite ?Forall_cons in Hd; destruct_and?;
    [constructor..| | |].
  - destruct (H3 a b 0 0) as (? & _); try lia. repeat (constructor; [assumption|]). constructor.
  - destruct (H3 a b c 0) as (? & ? & _); try lia. repeat (constructor; [assumption|]). constructor.
  - destruct (H3 a b c d) as (? & ? & ?); try lia. apply Forall_app. split; [repeat (constructor; [assumption|]); constructor|].
    eapply IH; [|done|done]. simpl. lia.
Qed.

Lemma b64_decode_bytes s : Forall is_byte (b64_decode s).
Proof.
  apply decode_bytes. induction s as [|c s IH]; simpl; [constructor|].
  destruct (b64_digit c) as [d|] eqn:Hd; [|done]. constructor; [by eapply b64_digit_range|done].
Qed.

(** Two padded texts with the same body and whole groups are the same. *)
Lemma padded_unique s t body n m : padded s body n -> padded t body m ->
  (length s mod 4 = 0)%nat -> (length t mod 4 = 0)%nat -> s = t.
Proof.
  intros (-> & Hn & _) (-> & Hm & _) H1 H2. rewrite !length_app, !repeat_length in *.
  pose proof (Nat.div_mod_eq (length body + n) 4). pose proof (Nat.div_mod_eq (length body + m) 4).
  f_equal. f_equal. lia.
Qed.

Lemma jlen_mod4 s : (jlen s mod 4 =? 0) = true <-> (length s mod 4 = 0)%nat.
Proof.
  rewrite Z.eqb_eq. unfold jlen. change 4 with (Z.of_nat 4). rewrite <- Nat2Z.inj_mod. lia.
Qed.

Definition compact (text : jstr) : jstr := List.filter (fun c => negb (is_space c)) text.

(** Property C39. The refresh secret makes the round trip through its file:
    [decode_base64_secret] takes a text exactly when, without its white space,
    it is the base 64 of at least 32 bytes with canonical padding, and gives
    these bytes; no other text is taken, not even one whose surplus bits or
    paddings differ. *)
Theorem secret_file_roundtrip text secret :
  decode_base64_secret text = Val secret <->
  Forall is_byte secret /\ 32 <= Z.of_nat (length secret) /\ compact text = b64_encode Base64 secret.
Proof.
  unfold decode_base64_secret. fold (compact text). set (c := compact text). split.
  - destruct (seqb c []); [done|]. destruct (negb (jlen c mod 4 =? 0) || _) eqn:Hform; [done|].
    apply orb_false_iff in Hform as [Hlen Hbody]. apply negb_false_iff in Hlen, Hbody.
    apply jlen_mod4 in Hlen. apply base64_body_padded in Hbody as (body & n & Hpad & _).
    destruct (_ && _) eqn:Hround; [done|]. destruct (_ <? _) eqn:Hmin; [done|]. intros [= <-].
    pose proof (b64_decode_bytes c) as Hbytes. split; [done|]. split; [by apply Z.ltb_ge in Hmin|].
    destruct (encode_padded _ Hbytes) as (body' & m & Hpad' & _ & Hlen').
    apply andb_false_iff in Hround as [Hr|Hr]; apply negb_false_iff, seqb_eq in Hr; [by symmetry|].
    rewrite (strip_padded _ _ _ Hpad), (strip_padded _ _ _ Hpad') in Hr. subst body'.
    by eapply padded_unique.
  - intros (Hbytes & Hmin & Hc). destruct (encode_padded secret Hbytes) as (body & n & Hpad & Hne & Hlen).
    assert (Hsec : secret <> []) by (intros ->; simpl in Hmin; lia).
    assert (Hcne : seqb c [] = false).
    { apply seqb_neq. rewrite Hc. destruct Hpad as (-> & _). intros [Hb _]%app_eq_nil. by apply Hne. }
    rewrite Hcne, Hc. rewrite (proj2 (jlen_mod4 _) Hlen).
    rewrite (proj2 (base64_body_padded _)) by (exists body, n; auto).
    rewrite b64_roundtrip, seqb_refl by done. simpl.
    destruct (_ <? _) eqn:Hl; [|done]. apply Z.ltb_lt in Hl. unfold MIN_REFRESH_HMAC_SECRET_BYTES in Hl. lia.
Qed.
