(* ===== verification/Sessions.v ===== *)
(** Sessions and refresh tokens: the lifetimes of [session_issue.ts], the two
    session repositories of [sessions.ts] (PostgreSQL and in memory) and the
    cleanup of [session_cleanup.ts].

    [Db] and [exec] give the meaning of the SQL statements on the two session
    tables and the user table; [pg_handler] runs a program on them with
    transactions and with statements that fail.  Identifiers are compared in
    their canonical lower-case text, as the [::uuid] casts do. *)
From S2P Require Import Prelude JsString JsValue JsDate Settings Effects Tokens.

(** ** session_issue.ts *)

Record LoginSessionTimes := {
  times_session_expires_at : Z;
  times_refresh_expires_at : Z;
  jwt_ttl_seconds : Z;
  access_max_age : Z;
  refresh_max_age : option Z }.

Definition login_session_times (now access_ttl refresh_ttl total_ttl : Z) (must_change : bool)
    : LoginSessionTimes :=
  let issued := now / 1000 in
  let session_exp := issued + total_ttl in
  let jwt_exp := issued + access_ttl in
  if must_change then
    {| times_session_expires_at := session_exp * 1000;
       times_refresh_expires_at := jwt_exp * 1000;
       jwt_ttl_seconds := access_ttl;
       access_max_age := Z.max 1 access_ttl;
       refresh_max_age := None |}
  else
    let refresh_exp := Z.min (issued + refresh_ttl) session_exp in
    let remaining := Z.max 1 (refresh_exp - issued) in
    {| times_session_expires_at := session_exp * 1000;
       times_refresh_expires_at := refresh_exp * 1000;
       jwt_ttl_seconds := access_ttl;
       access_max_age := remaining;
       refresh_max_age := Some remaining |}.

(** The new [refresh_expires_at] and the cookie's [max_age]. *)
Definition rotate_session_times (now session_expires refresh_ttl : Z) : Z * Z :=
  let issued := now / 1000 in
  let session_exp := session_expires / 1000 in
  let refresh_exp := Z.min (issued + refresh_ttl) session_exp in
  (refresh_exp * 1000, Z.max 1 (refresh_exp - issued)).

(** ** sessions.ts: the in-memory repository *)

Record UsedRefreshRow := {
  used_hmac : jstr;
  used_user_id : jstr;
  used_session_id : jstr;
  used_at : Z;
  used_expires_at : Z }.

Record MemorySessions := { rows : list NewUserSession; used : list UsedRefreshRow }.

Definition within_grace (used_at now grace_seconds : Z) : bool :=
  now - used_at <=? grace_seconds * 1000.

Definition hmac_is (o : option jstr) (hmac : jstr) : bool :=
  match o with Some h => seqb h hmac | None => false end.

(** The row test of [attempt_rotate] and of the SELECT ... FOR UPDATE. *)
Definition session_matches (hmac uid sid : jstr) (row : NewUserSession) : bool :=
  hmac_is (refresh_hmac row) hmac && seqb (session_user_id row) uid && seqb (session_id row) sid.

Definition session_is (uid sid : jstr) (row : NewUserSession) : bool :=
  seqb (session_id row) sid && seqb (session_user_id row) uid.

Definition used_matches (hmac uid sid : jstr) (row : UsedRefreshRow) : bool :=
  seqb (used_hmac row) hmac && seqb (used_user_id row) uid && seqb (used_session_id row) sid.

Definition used_is (uid sid : jstr) (row : UsedRefreshRow) : bool :=
  seqb (used_session_id row) sid && seqb (used_user_id row) uid.

(** [rows[rows.findIndex(p)] = f(row)] *)
Fixpoint update_first {A} (p : A -> bool) (f : A -> A) (l : list A) : list A :=
  match l with
  | [] => []
  | x :: l' => if p x then f x :: l' else x :: update_first p f l'
  end.

Definition rotated_row (new_hmac : jstr) (expires : Z) (ip ua : option jstr)
    (row : NewUserSession) : NewUserSession := {|
  session_id := session_id row;
  session_user_id := session_user_id row;
  refresh_hmac := Some new_hmac;
  session_expires_at := session_expires_at row;
  refresh_expires_at := expires;
  ip_address := ip;
  user_agent := ua |}.

Definition memory_create (row : NewUserSession) (m : MemorySessions) : MemorySessions :=
  {| rows := rows m ++ [row]; used := used m |}.

Definition memory_invalidate (uid sid : jstr) (m : MemorySessions) : MemorySessions :=
  {| rows := List.filter (fun r => negb (session_is uid sid r)) (rows m);
     used := List.filter (fun r => negb (used_is uid sid r)) (used m) |}.

Definition memory_attempt_rotate (args : AttemptRotateArgs) (m : MemorySessions)
    : AttemptRotateResult * MemorySessions :=
  let matches := session_matches (old_hmac args) (rotate_user_id args) (rotate_session_id args) in
  match find matches (rows m) with
  | Some row =>
      if (session_expires_at row <=? rotate_now args) || (refresh_expires_at row <=? rotate_now args)
      then (Expired, m)
      else
        let '(refresh_expires, _) :=
          rotate_session_times (rotate_now args) (session_expires_at row) (refresh_ttl_seconds args) in
        let used_row := {| used_hmac := old_hmac args; used_user_id := rotate_user_id args;
                           used_session_id := rotate_session_id args; used_at := rotate_now args;
                           used_expires_at := rotate_now args + reuse_window_seconds args * 1000 |} in
        (Rotated refresh_expires (session_expires_at row),
         {| rows := update_first matches
                      (rotated_row (new_hmac args) refresh_expires
                         (rotate_ip_address args) (rotate_user_agent args)) (rows m);
            used := used m ++ [used_row] |})
  | None =>
      match find (used_matches (old_hmac args) (rotate_user_id args) (rotate_session_id args)) (used m) with
      | None => (UnknownToken, m)
      | Some used_row =>
          if within_grace (used_at used_row) (rotate_now args) (reuse_grace_seconds args)
          then (SoftReuse, m)
          else (HardReuse, memory_invalidate (rotate_user_id args) (rotate_session_id args) m)
      end
  end.

(** [invalidate_all_sessions] of the in-memory [run_locked]. *)
Definition memory_invalidate_all (uid : jstr) (m : MemorySessions) : MemorySessions :=
  {| rows := List.filter (fun r => negb (seqb (session_user_id r) uid)) (rows m);
     used := List.filter (fun r => negb (seqb (used_user_id r) uid)) (used m) |}.

(** [issue_first_refresh] of the in-memory [run_locked]. *)
Definition memory_issue_first_refresh (uid sid hmac : jstr) (expires : Z) (ip ua : option jstr)
    (m : MemorySessions) : bool * MemorySessions :=
  match find (session_is uid sid) (rows m) with
  | None => (false, m)
  | Some row =>
      match refresh_hmac row with
      | Some _ => (false, m)
      | None => (true, {| rows := update_first (session_is uid sid) (rotated_row hmac expires ip ua) (rows m);
                          used := used m |})
      end
  end.

(** What [run_session_cleanup] deletes. *)
Definition memory_cleanup (now : Z) (m : MemorySessions) : MemorySessions :=
  {| rows := List.filter (fun r => negb ((session_expires_at r <=? now) || (refresh_expires_at r <=? now)))
               (rows m);
     used := List.filter (fun r => negb (used_expires_at r <=? now)) (used m) |}.

(** ** sessions.ts: the PostgreSQL repository *)

Definition utc_now : M Z := let* now := perform NewDate in ret (utc_seconds now).

Definition pg {X} (q : query X) : M X := call (PgQuery q).

Definition insert_used_token (hmac uid sid : jstr) (used_at expires_at : Z) : M Z :=
  let* stamped := utc_now in
  let* id := new_uuid7 used_at in
  pg (QInsertUsedToken id hmac uid sid used_at expires_at stamped SYSTEM_USER_ID).

Definition delete_session_chain (uid sid : jstr) : M Z :=
  let* _ := pg (QDeleteUsedBySession sid uid) in
  pg (QDeleteSession sid uid).

(** The bracket of the transactional operations: connect, run, roll back on an
    exception (a failure of the rollback keeps the first one), release. *)
Definition in_transaction {A} (body : M A) : M A :=
  let* _ := call PgConnect in
  finally
    (try_catch body (fun error =>
       let* _ := try_catch (pg QRollback) (fun _ => ret tt) in
       throw error))
    (perform PgRelease).

Definition pg_create (row : NewUserSession) : M unit :=
  let* stamped := utc_now in
  let* _ := pg (QInsertSession row stamped SYSTEM_USER_ID) in
  ret tt.

Definition pg_rotate_body (args : AttemptRotateArgs) : M AttemptRotateResult :=
  let* _ := pg QBegin in
  let* locked := pg (QSelectSessionForUpdate (old_hmac args) (rotate_user_id args)
                       (rotate_session_id args)) in
  match locked with
  | row :: _ =>
      if (locked_session_expires_at row <=? rotate_now args)
         || (locked_refresh_expires_at row <=? rotate_now args)
      then let* _ := pg QCommit in ret Expired
      else
        let '(refresh_expires, _) :=
          rotate_session_times (rotate_now args) (locked_session_expires_at row)
            (refresh_ttl_seconds args) in
        let* stamped := utc_now in
        let* _ := insert_used_token (old_hmac args) (rotate_user_id args) (rotate_session_id args)
                    (rotate_now args) (rotate_now args + reuse_window_seconds args * 1000) in
        let* _ := pg (QUpdateSessionRotate (new_hmac args) refresh_expires
                        (rotate_ip_address args) (rotate_user_agent args) stamped SYSTEM_USER_ID
                        (rotate_session_id args) (rotate_user_id args)) in
        let* _ := pg QCommit in
        ret (Rotated refresh_expires (locked_session_expires_at row))
  | [] =>
      let* used := pg (QSelectUsed (old_hmac args) (rotate_user_id args) (rotate_session_id args)) in
      match used with
      | [] => let* _ := pg QCommit in ret UnknownToken
      | used_at :: _ =>
          if within_grace used_at (rotate_now args) (reuse_grace_seconds args)
          then let* _ := pg QCommit in ret SoftReuse
          else
            let* _ := delete_session_chain (rotate_user_id args) (rotate_session_id args) in
            let* _ := pg QCommit in
            ret HardReuse
      end
  end.

Definition pg_attempt_rotate (args : AttemptRotateArgs) : M AttemptRotateResult :=
  in_transaction (pg_rotate_body args).

Definition pg_invalidate (uid sid : jstr) : M unit :=
  in_transaction
    (let* _ := pg QBegin in
     let* _ := delete_session_chain uid sid in
     let* _ := pg QCommit in
     ret tt).

(** ** session_cleanup.ts *)

Definition run_session_cleanup (now : Z) : M (Z * Z) :=
  let* used_tokens := pg (QDeleteUsedExpired now) in
  let* sessions := pg (QDeleteSessionsExpired now) in
  ret (used_tokens, sessions).

(** One [tick] of [start_session_cleanup] that was not stopped: the delay to
    the next one. *)
Definition cleanup_tick : M Z :=
  let* now := perform NewDate in
  let* _ := attempt (run_session_cleanup now) in
  let* settings := attempt (call GetSettings) in
  match settings with
  | Val s => ret (session_refresh_cleanup_seconds s * 1000)
  | Exc _ => ret (SESSION_REFRESH_CLEANUP_DEFAULT * 1000)
  end.

(** ** The tables *)

(** The columns that record who wrote a row and when. *)
Record Stamps := { created_at : Z; updated_at : Z; created_by : jstr; updated_by : jstr }.

Record SessionRow := { sess : NewUserSession; sess_stamps : Stamps }.

Record UsedRow := { used_id : jstr; used_token : UsedRefreshRow; used_stamps : Stamps }.

Record Db := {
  user_session : list SessionRow;
  used_refresh_token : list UsedRow;
  users : list LoadedUser }.

Definition stamps_at (t : Z) (actor : jstr) : Stamps :=
  {| created_at := t; updated_at := t; created_by := actor; updated_by := actor |}.

Definition touched (t : Z) (actor : jstr) (s : Stamps) : Stamps :=
  {| created_at := created_at s; updated_at := t; created_by := created_by s; updated_by := actor |}.

(** Rows changed by a statement. *)
Definition count_if {A} (p : A -> bool) (l : list A) : Z := Z.of_nat (length (List.filter p l)).

Definition with_sessions (d : Db) (s : list SessionRow) : Db :=
  {| user_session := s; used_refresh_token := used_refresh_token d; users := users d |}.

Definition with_used (d : Db) (us : list UsedRow) : Db :=
  {| user_session := user_session d; used_refresh_token := us; users := users d |}.

Definition with_users (d : Db) (us : list LoadedUser) : Db :=
  {| user_session := user_session d; used_refresh_token := used_refresh_token d; users := us |}.

Definition update_where {A} (p : A -> bool) (f : A -> A) (l : list A) : list A :=
  map (fun x => if p x then f x else x) l.

Definition set_password (hash : jstr) (expires : Z) (user : LoadedUser) : LoadedUser := {|
  user_id := user_id user; username := username user; password_hash := hash;
  display_name := display_name user; is_active := is_active user;
  failed_login_count := 0; password_expires_at := expires |}.

Definition set_failed_count (count : Z) (user : LoadedUser) : LoadedUser := {|
  user_id := user_id user; username := username user; password_hash := password_hash user;
  display_name := display_name user; is_active := is_active user;
  failed_login_count := count; password_expires_at := password_expires_at user |}.

Definition unique_violation : exn := Error_ "duplicate key value violates unique constraint".

(** A data statement on the tables (the transaction statements are the
    handler's). *)
Definition exec {X} (q : query X) : Db -> outcome X * Db :=
  match q in query X return Db -> outcome X * Db with
  | QBegin | QCommit | QRollback => fun d => (Val tt, d)
  | QInsertSession row stamped actor => fun d =>
      if existsb (fun r => seqb (session_id (sess r)) (session_id row)) (user_session d)
      then (Exc unique_violation, d)
      else (Val 1, with_sessions d (user_session d ++
                     [{| sess := row; sess_stamps := stamps_at stamped actor |}]))
  | QSelectSessionForUpdate hmac uid sid => fun d =>
      (Val (map (fun r => {| locked_session_expires_at := session_expires_at (sess r);
                             locked_refresh_expires_at := refresh_expires_at (sess r) |})
              (List.filter (fun r => session_matches hmac uid sid (sess r)) (user_session d))), d)
  | QInsertUsedToken id hmac uid sid at_ expires stamped actor => fun d =>
      if existsb (fun r => seqb (used_id r) id) (used_refresh_token d)
      then (Exc unique_violation, d)
      else (Val 1, with_used d (used_refresh_token d ++
             [{| used_id := id;
                 used_token := {| used_hmac := hmac; used_user_id := uid; used_session_id := sid;
                                  used_at := at_; used_expires_at := expires |};
                 used_stamps := stamps_at stamped actor |}]))
  | QUpdateSessionRotate hmac expires ip ua stamped actor sid uid => fun d =>
      let p r := session_is uid sid (sess r) in
      (Val (count_if p (user_session d)),
       with_sessions d (update_where p (fun r =>
         {| sess := rotated_row hmac expires ip ua (sess r);
            sess_stamps := touched stamped actor (sess_stamps r) |}) (user_session d)))
  | QSelectUsed hmac uid sid => fun d =>
      (Val (map (fun r => used_at (used_token r))
              (List.filter (fun r => used_matches hmac uid sid (used_token r)) (used_refresh_token d))), d)
  | QDeleteUsedBySession sid uid => fun d =>
      let p r := used_is uid sid (used_token r) in
      (Val (count_if p (used_refresh_token d)),
       with_used d (List.filter (fun r => negb (p r)) (used_refresh_token d)))
  | QDeleteSession sid uid => fun d =>
      let p r := session_is uid sid (sess r) in
      (Val (count_if p (user_session d)),
       with_sessions d (List.filter (fun r => negb (p r)) (user_session d)))
  | QDeleteUsedExpired now => fun d =>
      let p r := used_expires_at (used_token r) <=? now in
      (Val (count_if p (used_refresh_token d)),
       with_used d (List.filter (fun r => negb (p r)) (used_refresh_token d)))
  | QDeleteSessionsExpired now => fun d =>
      let p r := (session_expires_at (sess r) <=? now) || (refresh_expires_at (sess r) <=? now) in
      (Val (count_if p (user_session d)),
       with_sessions d (List.filter (fun r => negb (p r)) (user_session d)))
  | QSelectUserForUpdate uid => fun d =>
      (Val (List.filter (fun r => seqb (user_id r) uid) (users d)), d)
  | QSelectSession sid uid => fun d =>
      (Val (map sess (List.filter (fun r => session_is uid sid (sess r)) (user_session d))), d)
  | QUpdatePassword hash expires _ _ uid => fun d =>
      let p r := seqb (user_id r) uid in
      (Val (count_if p (users d)), with_users d (update_where p (set_password hash expires) (users d)))
  | QUpdateFirstRefresh hmac expires ip ua stamped actor sid uid => fun d =>
      let p r := session_is uid sid (sess r) && negb (bool_decide (is_Some (refresh_hmac (sess r)))) in
      (Val (count_if p (user_session d)),
       with_sessions d (update_where p (fun r =>
         {| sess := rotated_row hmac expires ip ua (sess r);
            sess_stamps := touched stamped actor (sess_stamps r) |}) (user_session d)))
  | QDeleteUsedByUser uid => fun d =>
      let p r := seqb (used_user_id (used_token r)) uid in
      (Val (count_if p (used_refresh_token d)),
       with_used d (List.filter (fun r => negb (p r)) (used_refresh_token d)))
  | QDeleteSessionsByUser uid => fun d =>
      let p r := seqb (session_user_id (sess r)) uid in
      (Val (count_if p (user_session d)),
       with_sessions d (List.filter (fun r => negb (p r)) (user_session d)))
  | QSelectUserByName name => fun d =>
      (Val (List.filter (fun r => seqb (username r) name) (users d)), d)
  | QSelectUserById uid => fun d =>
      (Val (List.filter (fun r => seqb (user_id r) uid) (users d)), d)
  | QUpdateFailedCount count _ _ uid => fun d =>
      let p r := seqb (user_id r) uid in
      (Val (count_if p (users d)), with_users d (update_where p (set_failed_count count) (users d)))
  end.

(** ** A connection with failures *)

(** The state of the connection's transaction: none, the tables as the
    statements so far have left them, or aborted by a failed statement. *)
Inductive TxState := NoTx | InTx (d : Db) | AbortedTx.

(** A statement may be lost before the server runs it, or its answer may be
    lost after. *)
Inductive Fault := NoFault | LostBefore | LostAfter.

Record Pg := { committed : Db; tx : TxState; calls : nat }.

Definition lost : exn := Error_ "Connection terminated unexpectedly".

(** One statement on the connection, [f] being its failure. *)
Definition pg_statement {X} (q : query X) (f : Fault) (d : Db) (t : TxState)
    : outcome X * (Db * TxState) :=
  match f with
  | LostBefore => (Exc lost, (d, match t with NoTx => NoTx | _ => AbortedTx end))
  | _ =>
      let '(o, (d', t')) :=
        match q in query X return outcome X * (Db * TxState) with
        | QBegin => (Val tt, (d, match t with NoTx => InTx d | _ => t end))
        | QCommit => (Val tt, (match t with InTx w => w | _ => d end, NoTx))
        | QRollback => (Val tt, (d, NoTx))
        | q' =>
            match t with
            | NoTx => let '(o, d') := exec q' d in (o, (d', NoTx))
            | InTx w =>
                match exec q' w with
                | (Val x, w') => (Val x, (d, InTx w'))
                | (Exc e, _) => (Exc e, (d, AbortedTx))
                end
            | AbortedTx => (Exc (Error_ "current transaction is aborted"), (d, AbortedTx))
            end
        end in
      match f with
      | LostAfter => (Exc lost, (d', match t' with NoTx => NoTx | _ => AbortedTx end))
      | _ => (o, (d', t'))
      end
  end.

Section Handler.
(** Which of the connection's calls fail, and the answers to the calls that
    are not the database's. *)
Context (faults : nat -> Fault) (other : forall X, AuthE X -> X).

(** A released connection carries no transaction over. *)
Definition pg_handler : handler AuthE Pg := fun X e =>
  match e in AuthE X return Pg -> X * Pg with
  | PgConnect => fun s =>
      (match faults (calls s) with NoFault => Val tt | _ => Exc lost end,
       {| committed := committed s; tx := tx s; calls := S (calls s) |})
  | PgQuery q => fun s =>
      let '(o, (d, t)) := pg_statement q (faults (calls s)) (committed s) (tx s) in
      (o, {| committed := d; tx := t; calls := S (calls s) |})
  | PgRelease => fun s => (tt, {| committed := committed s; tx := NoTx; calls := calls s |})
  | c => fun s => (other _ c, s)
  end.
End Handler.

(** The in-memory view of the session tables. *)
Definition abs (d : Db) : MemorySessions :=
  {| rows := map sess (user_session d); used := map used_token (used_refresh_token d) |}.

(** The primary key of user_session. *)
Definition db_ok (d : Db) : Prop := NoDup (map (fun r => session_id (sess r)) (user_session d)).

(** An idle connection on tables [d]. *)
Definition idle (d : Db) : Pg := {| committed := d; tx := NoTx; calls := 0 |}.

(** ** The sessions as a transition system

    The state is the repository with every token hash it was ever given; the
    label is the hash of the token exchanged, if one was.  A new token is a
    fresh 256-bit random value, so its hash is assumed new. *)
Inductive session_step : MemorySessions * list jstr -> list jstr -> MemorySessions * list jstr -> Prop :=
| StepCreate m minted row :
    (forall h, refresh_hmac row = Some h -> h ∉ minted) ->
    session_step (m, minted) [] (memory_create row m, option_to_list (refresh_hmac row) ++ minted)
| StepRotated m minted args re se m' :
    new_hmac args ∉ minted -> memory_attempt_rotate args m = (Rotated re se, m') ->
    session_step (m, minted) [old_hmac args] (m', new_hmac args :: minted)
| StepRefused m minted args r m' :
    memory_attempt_rotate args m = (r, m') -> (forall re se, r <> Rotated re se) ->
    session_step (m, minted) [] (m', minted)
| StepFirst m minted uid sid h exp ip ua m' :
    h ∉ minted -> memory_issue_first_refresh uid sid h exp ip ua m = (true, m') ->
    session_step (m, minted) [] (m', h :: minted)
| StepInvalidate m minted uid sid :
    session_step (m, minted) [] (memory_invalidate uid sid m, minted)
| StepInvalidateAll m minted uid :
    session_step (m, minted) [] (memory_invalidate_all uid m, minted)
| StepCleanup m minted now :
    session_step (m, minted) [] (memory_cleanup now m, minted).

(** A history from the empty repository, with the tokens exchanged so far. *)
Inductive session_history : list jstr -> MemorySessions * list jstr -> Prop :=
| HistoryStart : session_history [] ({| rows := []; used := [] |}, [])
| HistoryStep ex s l s' :
    session_history ex s -> session_step s l s' -> session_history (ex ++ l) s'.

(** The hashes of the tokens that can still be exchanged. *)
Definition live_hmacs (m : MemorySessions) : list jstr := omap refresh_hmac (rows m).

(** ** A session to evaluate the operations on *)

Definition sample_row : NewUserSession := {|
  session_id := u "s1"; session_user_id := u "alice"; refresh_hmac := Some (u "h0");
  session_expires_at := 5000000; refresh_expires_at := 900000;
  ip_address := None; user_agent := None |}.

Definition sample_rotation (old new : jstr) (now : Z) : AttemptRotateArgs := {|
  old_hmac := old; new_hmac := new; rotate_user_id := u "alice"; rotate_session_id := u "s1";
  rotate_now := now; refresh_ttl_seconds := 600; reuse_grace_seconds := 15;
  reuse_window_seconds := 3600; rotate_ip_address := None; rotate_user_agent := None |}.

Definition sample_db : Db := {|
  user_session := [{| sess := sample_row; sess_stamps := stamps_at 0 SYSTEM_USER_ID |}];
  used_refresh_token := []; users := [] |}.

(** No token is both live and exchanged, none is either twice, and all were
    minted. *)
Definition tokens_ok (ex : list jstr) (s : MemorySessions * list jstr) : Prop :=
  NoDup (live_hmacs s.1 ++ ex) /\ (live_hmacs s.1 ++ ex) ⊆ s.2.

(** The tokens on record as used are among those exchanged. *)
Definition used_ok (ex : list jstr) (m : MemorySessions) : Prop :=
  map used_hmac (used m) `sublist_of` ex.

(** ** A program logic for the connection

    [pgwp faulty p d t Q]: from committed tables [d] and transaction [t], every
    run of [p] ends in [Q], whatever the other calls answer and, when [faulty]
    holds, whichever statements fail. *)
Fixpoint pgwp {A} (faulty : Prop) (p : prog AuthE A) (d : Db) (t : TxState)
    (Q : A -> Db -> TxState -> Prop) : Prop :=
  match p with
  | Ret a => Q a d t
  | @Vis _ _ X e k =>
      match e in AuthE X return (X -> prog AuthE A) -> (X -> Db -> TxState -> Prop) -> Prop with
      | PgConnect => fun _ run => forall o, o = Val tt \/ faulty -> run o d t
      | PgQuery q => fun _ run => forall f, f = NoFault \/ faulty ->
          let '(o, (d', t')) := pg_statement q f d t in run o d' t'
      | PgRelease => fun _ run => run tt d NoTx
      | _ => fun _ run => forall x, run x d t
      end k (fun x d' t' => pgwp faulty (k x) d' t' Q)
  end.

(** The outcome of a transactional operation on tables [d] whose full effect
    is [eff] with answer [res]: it answered and the effect is committed, or it
    threw and the effect is committed entirely or not at all. *)
Definition all_or_nothing {A} (d : Db) (res : A) (eff : MemorySessions) (o : outcome A) (d' : Db) : Prop :=
  users d' = users d /\
  match o with
  | Val r => r = res /\ abs d' = eff
  | Exc _ => abs d' = abs d \/ abs d' = eff
  end.

(** ** Lemmas: lists of rows *)

Lemma find_head {A} (p : A -> bool) l : find p l = head (List.filter p l).
Proof. induction l as [|x l IH]; simpl; [done|]. by destruct (p x). Qed.

Lemma filter_map {A B} (p : B -> bool) (f : A -> B) l :
  List.filter p (map f l) = map f (List.filter (fun x => p (f x)) l).
Proof. induction l as [|x l IH]; simpl; [done|]. rewrite IH. by destruct (p (f x)). Qed.

Lemma head_map {A B} (f : A -> B) l : head (map f l) = f <$> head l.
Proof. by destruct l. Qed.

Lemma map_update_where {A B} (p : A -> bool) (f : A -> A) (g : A -> B) q (h : B -> B) l :
  (forall x, p x = q (g x)) -> (forall x, g (f x) = h (g x)) ->
  map g (update_where p f l) = update_where q h (map g l).
Proof.
  intros Hp Hf. unfold update_where. rewrite !map_map. apply map_ext. intros x.
  rewrite <- Hp. by destruct (p x).
Qed.

Lemma session_matches_is hmac uid sid row :
  session_matches hmac uid sid row = true -> session_is uid sid row = true.
Proof. unfold session_matches, session_is. rewrite !andb_true_iff. tauto. Qed.

Lemma session_is_id uid sid row : session_is uid sid row = true -> session_id row = sid.
Proof. unfold session_is. rewrite andb_true_iff, !seqb_eq. tauto. Qed.

Lemma session_matches_spec hmac uid sid row : session_matches hmac uid sid row = true <->
  refresh_hmac row = Some hmac /\ session_user_id row = uid /\ session_id row = sid.
Proof.
  unfold session_matches. rewrite !andb_true_iff, !seqb_eq. unfold hmac_is.
  destruct (refresh_hmac row); [rewrite seqb_eq|]; naive_solver.
Qed.

(** With unique identifiers, updating the rows of a session is updating the
    first row that also holds the token. *)
Lemma update_where_first hmac uid sid f l row :
  NoDup (map session_id l) -> find (session_matches hmac uid sid) l = Some row ->
  update_where (session_is uid sid) f l = update_first (session_matches hmac uid sid) f l.
Proof.
  intros Hnd Hf. induction l as [|x l IH]; simpl in *; [done|].
  apply NoDup_cons in Hnd as [Hx Hnd].
  destruct (session_matches hmac uid sid x) eqn:Hm.
  - rewrite (session_matches_is _ _ _ _ Hm). f_equal.
    apply session_matches_is, session_is_id in Hm.
    rewrite <- (map_id l) at 2. apply map_ext_in. intros y Hy.
    destruct (session_is uid sid y) eqn:Hs; [|done]. apply session_is_id in Hs.
    destruct Hx. rewrite Hm, <- Hs. apply list_elem_of_In, in_map, Hy.
  - rewrite IH by done. f_equal. destruct (session_is uid sid x) eqn:Hs; [|done].
    apply find_some in Hf as [Hin Hrow]. apply session_matches_is, session_is_id in Hrow.
    apply session_is_id in Hs. destruct Hx. rewrite Hs, <- Hrow.
    apply list_elem_of_In, in_map, Hin.
Qed.

(** ** Lemmas: statements and the in-memory operations *)

Lemma abs_select hmac uid sid d :
  find (session_matches hmac uid sid) (rows (abs d)) =
  sess <$> head (List.filter (fun r => session_matches hmac uid sid (sess r)) (user_session d)).
Proof. simpl. by rewrite find_head, filter_map, head_map. Qed.

Lemma abs_select_used hmac uid sid d :
  find (used_matches hmac uid sid) (used (abs d)) =
  used_token <$> head (List.filter (fun r => used_matches hmac uid sid (used_token r))
                         (used_refresh_token d)).
Proof. simpl. by rewrite find_head, filter_map, head_map. Qed.

Lemma abs_delete_chain uid sid d :
  abs (with_sessions
         (with_used d (List.filter (fun r => negb (used_is uid sid (used_token r))) (used_refresh_token d)))
         (List.filter (fun r => negb (session_is uid sid (sess r))) (user_session d))) =
  memory_invalidate uid sid (abs d).
Proof. unfold abs, memory_invalidate. simpl. by rewrite !filter_map. Qed.

Lemma abs_cleanup_used t d :
  abs (with_used d (List.filter (fun r => negb (used_expires_at (used_token r) <=? t))
                      (used_refresh_token d))) =
  {| rows := rows (abs d); used := used (memory_cleanup t (abs d)) |}.
Proof. unfold abs, memory_cleanup. simpl. by rewrite !filter_map. Qed.

Lemma abs_cleanup t d :
  abs (with_sessions
         (with_used d (List.filter (fun r => negb (used_expires_at (used_token r) <=? t))
                         (used_refresh_token d)))
         (List.filter (fun r => negb ((session_expires_at (sess r) <=? t)
                                      || (refresh_expires_at (sess r) <=? t))) (user_session d))) =
  memory_cleanup t (abs d).
Proof. unfold abs, memory_cleanup. simpl. by rewrite !filter_map. Qed.

Lemma abs_update hmac uid sid new exp ip ua t actor d row :
  db_ok d -> find (session_matches hmac uid sid) (rows (abs d)) = Some row ->
  map sess (update_where (fun r => session_is uid sid (sess r))
    (fun r => {| sess := rotated_row new exp ip ua (sess r);
                 sess_stamps := touched t actor (sess_stamps r) |}) (user_session d)) =
  update_first (session_matches hmac uid sid) (rotated_row new exp ip ua) (rows (abs d)).
Proof.
  intros Hok Hf.
  rewrite (map_update_where _ _ sess (session_is uid sid) (rotated_row new exp ip ua)) by done.
  apply (update_where_first _ _ _ _ _ row); [|done].
  unfold db_ok in Hok. by rewrite map_map.
Qed.

(** ** Lemmas: the program logic *)

Section Logic.
Context (faulty : Prop).
Implicit Types (d w : Db) (t : TxState).

Lemma pgwp_sound {A} (p : prog AuthE A) s Q faults other :
  (forall n, faults n = NoFault) \/ faulty ->
  pgwp faulty p (committed s) (tx s) Q ->
  let '(a, s') := interp (pg_handler faults other) p s in Q a (committed s') (tx s').
Proof.
  intros Hf. revert s. induction p as [a|X e k IH]; intros s H; simpl in *; [done|].
  destruct e; simpl in *;
    try (apply (IH _ _ (H (other _ _)))).
  - apply IH. simpl. apply H. destruct Hf as [Hf|]; [rewrite Hf|]; auto.
  - specialize (H (faults (calls s))). unshelve epose proof (H _) as H'.
    { destruct Hf as [Hf|]; [rewrite Hf|]; auto. }
    destruct (pg_statement q _ _ _) as [o [d' t']]. by apply IH.
  - apply IH. simpl. done.
Qed.

Lemma pgwp_mono {A} (p : prog AuthE A) d t (Q Q' : A -> Db -> TxState -> Prop) :
  (forall a d t, Q a d t -> Q' a d t) -> pgwp faulty p d t Q -> pgwp faulty p d t Q'.
Proof.
  intros HQ. revert d t. induction p as [a|X e k IH]; intros d t; simpl; [auto|].
  destruct e; simpl; try (intros H x; apply IH, H); eauto.
  intros H f Hf. specialize (H f Hf). destruct (pg_statement _ _ _ _) as [o [d' t']]. eauto.
Qed.

Lemma pgwp_bind {A B} (p : prog AuthE A) (f : A -> prog AuthE B) d t Q :
  pgwp faulty p d t (fun a d' t' => pgwp faulty (f a) d' t' Q) -> pgwp faulty (bind p f) d t Q.
Proof.
  revert d t. induction p as [a|X e k IH]; intros d t; simpl; [done|].
  destruct e; simpl; try (intros H x; apply IH, H); eauto.
  intros H g Hg. specialize (H g Hg). destruct (pg_statement _ _ _ _) as [o [d' t']]. eauto.
Qed.

(** The kinds of statements, as [exec] and the handler see them. *)
Definition is_data {X} (q : query X) : bool :=
  match q with QBegin | QCommit | QRollback => false | _ => true end.

(** A data statement inside a transaction. *)
Lemma pgwp_data {X A} (q : query X) (k : X -> M A) d w (Q : outcome A -> Db -> TxState -> Prop) :
  is_data q = true ->
  (forall e, (faulty \/ exists w', exec q w = (Exc e, w')) -> Q (Exc e) d AbortedTx) ->
  (forall x w', exec q w = (Val x, w') -> pgwp faulty (k x) d (InTx w') Q) ->
  pgwp faulty (then_ (pg q) k) d (InTx w) Q.
Proof.
  intros Hd He Hk. simpl. intros f Hf.
  assert (Hs : pg_statement q f d (InTx w) =
    match f with
    | LostBefore => (Exc lost, (d, AbortedTx))
    | LostAfter => (Exc lost, (d, AbortedTx))
    | NoFault => match exec q w with
                 | (Val x, w') => (Val x, (d, InTx w'))
                 | (Exc e, _) => (Exc e, (d, AbortedTx))
                 end
    end).
  { unfold pg_statement. destruct f; [|done|]; destruct q; try done;
      destruct (exec _ w) as [[?|?] ?]; done. }
  rewrite Hs. destruct Hf as [->|Hf].
  - destruct (exec q w) as [[x|e] w'] eqn:Hx; simpl; [by apply Hk|]. apply He. eauto.
  - destruct f; [destruct (exec q w) as [[x|e] w'] eqn:Hx| |]; simpl; eauto.
Qed.

Lemma pgwp_data_last {X} (q : query X) d w (Q : outcome X -> Db -> TxState -> Prop) :
  is_data q = true ->
  (forall e, (faulty \/ exists w', exec q w = (Exc e, w')) -> Q (Exc e) d AbortedTx) ->
  (forall x w', exec q w = (Val x, w') -> Q (Val x) d (InTx w')) ->
  pgwp faulty (pg q) d (InTx w) Q.
Proof.
  intros Hd He Hk. pose proof (pgwp_data q ret d w Q Hd He Hk) as H. simpl in *.
  intros f Hf. specialize (H f Hf). by destruct (pg_statement _ _ _ _) as [[?|?] [? ?]].
Qed.

Lemma pgwp_begin {A} (k : unit -> M A) d (Q : outcome A -> Db -> TxState -> Prop) :
  (faulty -> Q (Exc lost) d NoTx /\ Q (Exc lost) d AbortedTx) ->
  pgwp faulty (k tt) d (InTx d) Q ->
  pgwp faulty (then_ (pg QBegin) k) d NoTx Q.
Proof. intros He Hk. simpl. intros [| |] [?|Hf]; simpl; try done; try by apply He. Qed.

Lemma pgwp_commit {A} (k : unit -> M A) d w (Q : outcome A -> Db -> TxState -> Prop) :
  (faulty -> Q (Exc lost) d AbortedTx /\ Q (Exc lost) w NoTx) ->
  pgwp faulty (k tt) w NoTx Q ->
  pgwp faulty (then_ (pg QCommit) k) d (InTx w) Q.
Proof. intros He Hk. simpl. intros [| |] [?|Hf]; simpl; try done; try by apply He. Qed.

(** The bracket: whatever the body left, the connection ends idle, and an
    exception of the body has committed nothing more. *)
Lemma pgwp_in_transaction {A} (body : M A) d (Q : outcome A -> Db -> Prop) :
  (faulty -> forall e, Q (Exc e) d) ->
  pgwp faulty body d NoTx (fun o d' _ => Q o d') ->
  pgwp faulty (in_transaction body) d NoTx (fun o d' t' => t' = NoTx /\ Q o d').
Proof.
  intros He Hb. simpl. intros o Ho. destruct o as [[]|e]; simpl.
  - apply pgwp_bind, pgwp_bind. eapply pgwp_mono; [|exact Hb].
    intros [a|e] d' t' HQ; simpl; [done|].
    intros f _. unfold pg_statement.
    destruct f; simpl; (split; [done|]); destruct t'; simpl; done.
  - destruct Ho as [?|Hf]; [done|]. split; [done|]. by apply He.
Qed.

End Logic.

Ltac pg_exn := intros; split; [done | auto].

Lemma insert_used_wp faulty {A} hmac uid sid at_ exp (k : Z -> M A) d w Q :
  (forall e, Q (Exc e) d AbortedTx) -> (forall e, Q (Exc e) d (InTx w)) ->
  (forall n id st, pgwp faulty (k n) d
     (InTx (with_used w (used_refresh_token w ++
        [{| used_id := id;
            used_token := {| used_hmac := hmac; used_user_id := uid; used_session_id := sid;
                             used_at := at_; used_expires_at := exp |};
            used_stamps := st |}]))) Q) ->
  pgwp faulty (then_ (insert_used_token hmac uid sid at_ exp) k) d (InTx w) Q.
Proof.
  intros He He' Hk. simpl. intros now rand.
  destruct (Z.rem at_ 281474976710656 <? 0); simpl; [by apply He'|].
  intros f _. unfold pg_statement. simpl.
  destruct (existsb _ _); destruct f; simpl; auto.
Qed.

Lemma rotate_body_wp faulty args d : db_ok d ->
  pgwp faulty (pg_rotate_body args) d NoTx
    (fun o d' _ => let '(r, m) := memory_attempt_rotate args (abs d) in
                   all_or_nothing d r m o d').
Proof.
  intros Hok. unfold pg_rotate_body, memory_attempt_rotate.
  rewrite abs_select, abs_select_used.
  set (uid := rotate_user_id args). set (sid := rotate_session_id args).
  set (h := old_hmac args).
  set (ss := List.filter (fun r => session_matches h uid sid (sess r)) (user_session d)).
  set (us := List.filter (fun r => used_matches h uid sid (used_token r)) (used_refresh_token d)).
  destruct (match sess <$> head ss with Some _ => _ | None => _ end) as [r m] eqn:Hmem.
  apply pgwp_begin; [intros _; split; pg_exn|].
  apply pgwp_data; [done|pg_exn|]. intros locked w [= <- <-]. fold ss.
  destruct ss as [|row ss'] eqn:Hss; simpl in Hmem |- *.
  - apply pgwp_data; [done|pg_exn|]. intros ats w [= <- <-]. fold us.
    destruct us as [|urow us']; simpl in Hmem |- *.
    + injection Hmem as <- <-. apply pgwp_commit; [intros _; split; pg_exn|]. by split.
    + destruct (within_grace _ _ _) in Hmem |- *; injection Hmem as <- <-.
      * apply pgwp_commit; [intros _; split; pg_exn|]. by split.
      * unfold delete_session_chain. apply pgwp_bind, pgwp_data; [done|pg_exn|].
        intros n1 w1 [= _ <-]. apply pgwp_data_last; [done|pg_exn|].
        intros n2 w2 [= _ <-].
        apply pgwp_commit; [intros _; split; [pg_exn|split; [done|right; apply abs_delete_chain]]|].
        split; [done|]. split; [done|]. apply abs_delete_chain.
  - destruct (_ || _) in Hmem |- *; injection Hmem as <- <-.
    + apply pgwp_commit; [intros _; split; pg_exn|]. by split.
    + intros now. apply insert_used_wp; [pg_exn|pg_exn|]. intros n id st.
      apply pgwp_data; [done|pg_exn|]. intros n' w' [= _ <-].
      assert (Heff : abs (with_sessions (with_used d (used_refresh_token d ++ [
          {| used_id := id; used_token := {| used_hmac := h; used_user_id := uid;
               used_session_id := sid; used_at := rotate_now args;
               used_expires_at := rotate_now args + reuse_window_seconds args * 1000 |};
             used_stamps := st |}]))
          (update_where (fun r => session_is uid sid (sess r))
             (fun r => {| sess := rotated_row (new_hmac args)
                 (rotate_session_times (rotate_now args) (session_expires_at (sess row))
                    (refresh_ttl_seconds args)).1 (rotate_ip_address args) (rotate_user_agent args) (sess r);
                 sess_stamps := touched (utc_seconds now) SYSTEM_USER_ID (sess_stamps r) |})
             (user_session d))) =
        {| rows := update_first (session_matches h uid sid)
             (rotated_row (new_hmac args)
                (rotate_session_times (rotate_now args) (session_expires_at (sess row))
                   (refresh_ttl_seconds args)).1 (rotate_ip_address args) (rotate_user_agent args))
             (rows (abs d));
           used := used (abs d) ++ [{| used_hmac := h; used_user_id := uid; used_session_id := sid;
             used_at := rotate_now args;
             used_expires_at := rotate_now args + reuse_window_seconds args * 1000 |}] |}).
      { unfold abs at 1. simpl. f_equal; [|by rewrite map_app].
        apply (abs_update _ _ _ _ _ _ _ _ _ d (sess row)); [done|].
        rewrite abs_select. fold ss. by rewrite Hss. }
      apply pgwp_commit; [intros _; split; [pg_exn|split; [done|by right]]|].
      split; [done|]. split; [done|exact Heff].
Qed.

(** ** Lemmas: the live tokens *)

Lemma omap_filter_sublist {A B} (f : A -> option B) (p : A -> bool) l :
  omap f (List.filter p l) `sublist_of` omap f l.
Proof.
  induction l as [|x l IH]; simpl; [constructor|].
  destruct (p x); simpl; destruct (f x); simpl;
    first [by apply sublist_skip | by apply sublist_cons | done].
Qed.

Lemma update_first_live p h f l row :
  find p l = Some row -> refresh_hmac row = h ->
  exists rest, omap refresh_hmac l ≡ₚ option_to_list h ++ rest /\
               omap refresh_hmac (update_first p f l) ≡ₚ option_to_list (refresh_hmac (f row)) ++ rest.
Proof.
  intros Hf Hh. induction l as [|x l IH]; simpl in *; [done|].
  destruct (p x).
  - injection Hf as ->. exists (omap refresh_hmac l). simpl. rewrite Hh.
    destruct h, (refresh_hmac (f row)); simpl; done.
  - destruct (IH Hf) as (rest & H1 & H2).
    exists (option_to_list (refresh_hmac x) ++ rest). simpl.
    destruct (refresh_hmac x) as [y|]; simpl; [|done].
    rewrite H1, H2. split; by rewrite Permutation_middle.
Qed.

Lemma rotated_inv args m re se m' : memory_attempt_rotate args m = (Rotated re se, m') ->
  exists row, find (session_matches (old_hmac args) (rotate_user_id args) (rotate_session_id args))
                (rows m) = Some row /\
    se = session_expires_at row /\
    re = (rotate_session_times (rotate_now args) se (refresh_ttl_seconds args)).1 /\
    rotate_now args < se /\ rotate_now args < refresh_expires_at row /\
    m' = {| rows := update_first (session_matches (old_hmac args) (rotate_user_id args) (rotate_session_id args))
                      (rotated_row (new_hmac args) re (rotate_ip_address args) (rotate_user_agent args)) (rows m);
            used := used m ++ [{| used_hmac := old_hmac args; used_user_id := rotate_user_id args;
                                  used_session_id := rotate_session_id args; used_at := rotate_now args;
                                  used_expires_at := rotate_now args + reuse_window_seconds args * 1000 |}] |}.
Proof.
  unfold memory_attempt_rotate. destruct (find _ (rows m)) as [row|] eqn:Hf.
  - destruct (_ || _) eqn:Hexp; [done|]. simpl. intros [= <- <- <-]. exists row.
    apply orb_false_iff in Hexp as [H1%Z.leb_gt H2%Z.leb_gt]. done.
  - destruct (find _ (used m)); [|done]. by destruct (within_grace _ _ _).
Qed.

Lemma refused_live args m r m' : memory_attempt_rotate args m = (r, m') ->
  (forall re se, r <> Rotated re se) -> live_hmacs m' `sublist_of` live_hmacs m.
Proof.
  unfold memory_attempt_rotate, live_hmacs. destruct (find _ (rows m)) as [row|].
  - destruct (_ || _); simpl; intros [= <- <-] H; [done|]. by edestruct H.
  - destruct (find _ (used m)); [destruct (within_grace _ _ _)|]; intros [= <- <-] _; try done.
    apply omap_filter_sublist.
Qed.

Lemma tokens_ok_sublist ex m m' minted :
  live_hmacs m' `sublist_of` live_hmacs m -> tokens_ok ex (m, minted) -> tokens_ok ex (m', minted).
Proof.
  intros Hs [Hn Hi]. unfold tokens_ok in *. simpl in *.
  assert (Hs' : (live_hmacs m' ++ ex) `sublist_of` (live_hmacs m ++ ex)) by (by apply sublist_app).
  split.
  - eapply sublist_NoDup; eauto.
  - intros x Hx. apply Hi. by eapply sublist_subseteq.
Qed.

Lemma tokens_ok_fresh ex live live' rest h minted m' :
  live ≡ₚ rest -> live_hmacs m' = live' -> live' ≡ₚ h :: rest -> h ∉ minted ->
  NoDup (live ++ ex) -> (live ++ ex) ⊆ minted -> tokens_ok ex (m', h :: minted).
Proof.
  intros Hl Hm Hl' Hh Hn Hi. unfold tokens_ok. simpl. rewrite Hm, Hl'. rewrite Hl in *.
  split.
  - simpl. apply NoDup_cons. split; [|done]. intros Hin. apply Hh, Hi, Hin.
  - simpl. set_solver.
Qed.

Lemma session_step_ok ex s l s' : session_step s l s' -> tokens_ok ex s -> tokens_ok (ex ++ l) s'.
Proof.
  intros Hstep Hok.
  destruct Hstep as [m minted row Hfresh|m minted args re se m' Hfresh Hr|m minted args r m' Hr Hnot
    |m minted uid sid h exp ip ua m' Hfresh Hi|m minted uid sid|m minted uid|m minted now];
    try (rewrite app_nil_r; eapply tokens_ok_sublist; [|exact Hok]).
  - rewrite app_nil_r. destruct Hok as [Hn Hi]. unfold tokens_ok, live_hmacs in *. simpl in *.
    rewrite omap_app. simpl. destruct (refresh_hmac row) as [h|]; simpl.
    + rewrite <- app_assoc. simpl. rewrite <- Permutation_middle. split.
      * apply NoDup_cons. split; [|done]. intros Hin. by eapply Hfresh, Hi.
      * set_solver.
    + rewrite app_nil_r. done.
  - apply rotated_inv in Hr as (row & Hf & -> & -> & _ & _ & ->).
    pose proof Hf as [_ Hm%session_matches_spec]%find_some. destruct Hm as [Hh _].
    destruct (update_first_live _ _ (rotated_row (new_hmac args)
      (rotate_session_times (rotate_now args) (session_expires_at row) (refresh_ttl_seconds args)).1
      (rotate_ip_address args) (rotate_user_agent args)) _ _ Hf Hh) as (rest & H1 & H2).
    destruct Hok as [Hn Hi]. unfold tokens_ok, live_hmacs in *. simpl in *.
    rewrite H2. rewrite H1 in Hn, Hi. simpl in *.
    assert (Hp : rest ++ ex ++ [old_hmac args] ≡ₚ old_hmac args :: rest ++ ex) by solve_Permutation.
    rewrite Hp. split; [|set_solver].
    apply NoDup_cons. split; [|done]. intros Hin. apply Hfresh, Hi, Hin.
  - by eapply refused_live.
  - rewrite app_nil_r. unfold memory_issue_first_refresh in Hi.
    destruct (find _ (rows m)) as [row|] eqn:Hf; [|done].
    destruct (refresh_hmac row) eqn:Hh; [done|]. injection Hi as <-.
    destruct (update_first_live _ _ (rotated_row h exp ip ua) _ _ Hf Hh) as (rest & H1 & H2).
    destruct Hok as [Hn Hi]. eapply tokens_ok_fresh; [exact H1|done|exact H2|done|done|done].
  - apply omap_filter_sublist.
  - apply omap_filter_sublist.
  - apply omap_filter_sublist.
Qed.

Lemma filter_map_sublist {A B} (f : A -> B) (p : A -> bool) l :
  map f (List.filter p l) `sublist_of` map f l.
Proof.
  induction l as [|x l IH]; simpl; [done|].
  destruct (p x); simpl; [by apply sublist_skip | by apply sublist_cons].
Qed.

Lemma session_step_used ex s l s' : session_step s l s' -> used_ok ex s.1 -> used_ok (ex ++ l) s'.1.
Proof.
  unfold used_ok. intros Hstep Hok.
  destruct Hstep as [m minted row Hfresh|m minted args re se m' Hfresh Hr|m minted args r m' Hr Hnot
    |m minted uid sid h exp ip ua m' Hfresh Hi|m minted uid sid|m minted uid|m minted now];
    simpl in *; try rewrite app_nil_r; try done;
    try (by etrans; [apply filter_map_sublist|]).
  - apply rotated_inv in Hr as (row & _ & _ & _ & _ & _ & ->). simpl. rewrite map_app.
    by apply sublist_app.
  - revert Hr. unfold memory_attempt_rotate.
    destruct (find _ (rows m)) as [row|]; [destruct (_ || _)|]; simpl.
    + by intros [= _ <-].
    + intros [= <- _]. by edestruct Hnot.
    + destruct (find _ (used m)); [destruct (within_grace _ _ _)|]; intros [= _ <-]; try done.
      by etrans; [apply filter_map_sublist|].
  - unfold memory_issue_first_refresh in Hi.
    destruct (find _ (rows m)) as [row|]; [|done]. by destruct (refresh_hmac row); simplify_eq/=.
Qed.

(** What holds of the tokens in every state of a history. *)
Lemma history_ok ex s : session_history ex s -> tokens_ok ex s /\ used_ok ex s.1.
Proof.
  induction 1 as [|ex s l s' _ [IH1 IH2] Hstep].
  - split; [split|]; [apply NoDup_nil_2|set_solver|constructor].
  - split; [by eapply session_step_ok|by eapply session_step_used].
Qed.

Lemma live_found hmac uid sid m row :
  find (session_matches hmac uid sid) (rows m) = Some row -> hmac ∈ live_hmacs m.
Proof.
  intros [Hin Hm]%find_some. apply session_matches_spec in Hm as [Hh _].
  apply list_elem_of_omap. exists row. split; [by apply list_elem_of_In|done].
Qed.

Lemma used_found hmac uid sid l row :
  find (used_matches hmac uid sid) l = Some row -> hmac ∈ map used_hmac l.
Proof.
  intros [Hin Hm]%find_some. unfold used_matches in Hm.
  rewrite !andb_true_iff, !seqb_eq in Hm. destruct Hm as [[<- _] _].
  by apply list_elem_of_In, in_map.
Qed.

Lemma find_app {A} (p : A -> bool) l1 l2 :
  find p (l1 ++ l2) = match find p l1 with Some x => Some x | None => find p l2 end.
Proof. induction l1 as [|x l IH]; simpl; [done|]. by destruct (p x). Qed.

Lemma find_filter_unique {A} (p q : A -> bool) l :
  (length (List.filter p l) <= 1)%nat ->
  find p (List.filter q l) = match find p l with Some x => if q x then Some x else None | None => None end.
Proof.
  induction l as [|x l IH]; simpl; [done|]. destruct (p x) eqn:Hp; simpl.
  - intros Hl. destruct (q x); simpl; [by rewrite Hp|].
    assert (Hn : List.filter p l = []) by (apply nil_length_inv; lia).
    rewrite IH, find_head by lia. by rewrite Hn.
  - intros Hl. destruct (q x); simpl; [rewrite Hp|]; by apply IH.
Qed.

Lemma omap_Some_map {A B} (f : A -> B) l : omap (fun x => Some (f x)) l = map f l.
Proof. induction l as [|x l IH]; [done|]. change (f x :: omap (fun x => Some (f x)) l = f x :: map f l). by rewrite IH. Qed.

(** A key that determines the match makes it unique. *)
Lemma unique_match {A B} (f : A -> option B) (p : A -> bool) k l :
  (forall x, p x = true -> f x = Some k) -> NoDup (omap f l) ->
  (length (List.filter p l) <= 1)%nat.
Proof.
  intros Hp Hn. assert (Hs : NoDup (omap f (List.filter p l)))
    by (eapply sublist_NoDup; [exact Hn|apply omap_filter_sublist]).
  assert (Ha : forall x, x ∈ List.filter p l -> f x = Some k).
  { intros x Hx%list_elem_of_In. apply filter_In in Hx as [_ Hx]. auto. }
  destruct (List.filter p l) as [|x [|y l']]; simpl; [lia|lia|].
  exfalso. simpl in Hs. rewrite (Ha x), (Ha y) in Hs by set_solver. simpl in Hs.
  apply NoDup_cons in Hs as [Hs _]. set_solver.
Qed.

(** Every execution of the rotation, whatever is lost. *)
Lemma pg_rotate_sound args d faults other : db_ok d ->
  let '(o, s) := interp (pg_handler faults other) (pg_attempt_rotate args) (idle d) in
  tx s = NoTx /\
  all_or_nothing d (memory_attempt_rotate args (abs d)).1 (memory_attempt_rotate args (abs d)).2
    o (committed s).
Proof.
  intros Hok. unfold pg_attempt_rotate.
  pose proof (rotate_body_wp True args d Hok) as Hb.
  destruct (memory_attempt_rotate args (abs d)) as [r m]. simpl.
  pose proof (pgwp_sound True (in_transaction (pg_rotate_body args)) (idle d)
    (fun o d' t' => t' = NoTx /\ all_or_nothing d r m o d') faults other) as H.
  destruct (interp _ _ _) as [o s]. apply H; [by right|].
  apply pgwp_in_transaction; [|exact Hb]. intros _ e. split; auto.
Qed.

(** ** The properties *)

(** Property C1. Rotating a refresh token on PostgreSQL implements the
    in-memory repository's rotation: whichever statements are lost, before or
    after the server ran them, and whatever the clock and the random source
    answer, the operation either answers what [memory_attempt_rotate] answers
    and has committed exactly its new tables, or throws with that change
    committed entirely or not at all; the connection is left with no
    transaction open and the users untouched. *)
Theorem pg_rotate_refines_memory args d faults other : db_ok d ->
  let '(o, s) := interp (pg_handler faults other) (pg_attempt_rotate args) (idle d) in
  tx s = NoTx /\
  all_or_nothing d (memory_attempt_rotate args (abs d)).1 (memory_attempt_rotate args (abs d)).2
    o (committed s).
Proof. apply pg_rotate_sound. Qed.

Lemma pg_rotate_refines_memory_witness :
  let '(o, s) := interp (pg_handler (fun n => if (n =? 4)%nat then LostBefore else NoFault) sample_calls)
                   (pg_attempt_rotate (sample_rotation (u "h0") (u "h1") 1000)) (idle sample_db) in
  o = Exc lost /\ tx s = NoTx /\
  all_or_nothing sample_db (Rotated 601000 5000000)
    (memory_attempt_rotate (sample_rotation (u "h0") (u "h1") 1000) (abs sample_db)).2 o (committed s).
Proof.
  assert (Hok : db_ok sample_db) by (apply NoDup_singleton).
  pose proof (pg_rotate_refines_memory (sample_rotation (u "h0") (u "h1") 1000) sample_db
    (fun n => if (n =? 4)%nat then LostBefore else NoFault) sample_calls Hok) as H.
  split; [vm_compute; reflexivity|exact H].
Defined.

(** With no lost statement and a fresh row identifier, the
    rotation on PostgreSQL does answer, with the in-memory repository's
    answer. *)
Theorem pg_rotate_answers args d (other : forall X, AuthE X -> X) : db_ok d -> 0 <= rotate_now args ->
  existsb (fun r => seqb (used_id r)
             (uuid7_of (Z.rem (rotate_now args) 281474976710656) (other _ (RandomBytes 10))))
    (used_refresh_token d) = false ->
  (interp (pg_handler (fun _ => NoFault) other) (pg_attempt_rotate args) (idle d)).1 =
  Val (memory_attempt_rotate args (abs d)).1.
Proof.
  intros Hok Hnow Hid.
  pose proof (pg_rotate_sound args d (fun _ => NoFault) other Hok) as Href.
  assert (Hv : exists r, (interp (pg_handler (fun _ => NoFault) other) (pg_attempt_rotate args)
                            (idle d)).1 = Val r).
  { unfold pg_attempt_rotate, in_transaction, pg_rotate_body. simpl.
    destruct (List.filter _ (user_session d)) as [|row rs]; simpl.
    - destruct (List.filter _ (used_refresh_token d)) as [|urow us]; simpl; [eauto|].
      destruct (within_grace _ _ _); simpl; eauto.
    - destruct (_ || _); simpl; [eauto|].
      assert (Hr : (Z.rem (rotate_now args) 281474976710656 <? 0) = false)
        by (apply Z.ltb_ge, Z.rem_nonneg; lia).
      rewrite Hr. simpl. rewrite Hid. simpl. eauto. }
  destruct Hv as [r Hv]. destruct (interp _ _ _) as [o s]. simpl in *. subst o.
  destruct Href as (_ & _ & -> & _). done.
Qed.

Lemma pg_rotate_answers_witness :
  (interp (pg_handler (fun _ => NoFault) sample_calls)
     (pg_attempt_rotate (sample_rotation (u "h0") (u "h1") 1000)) (idle sample_db)).1 =
  Val (Rotated 601000 5000000).
Proof.
  apply (pg_rotate_answers (sample_rotation (u "h0") (u "h1") 1000) sample_db sample_calls).
  - apply NoDup_singleton.
  - simpl. lia.
  - reflexivity.
Defined.

(** Invalidating a session on PostgreSQL deletes the session and
    its used tokens together or not at all, whichever statements are lost. *)
Theorem pg_invalidate_refines_memory uid sid d faults other :
  let '(o, s) := interp (pg_handler faults other) (pg_invalidate uid sid) (idle d) in
  tx s = NoTx /\ all_or_nothing d tt (memory_invalidate uid sid (abs d)) o (committed s) /\
  ((forall n, faults n = NoFault) -> o = Val tt).
Proof.
  assert (Hb : pgwp True (let* _ := pg QBegin in let* _ := delete_session_chain uid sid in
                          let* _ := pg QCommit in ret tt) d NoTx
                 (fun o d' _ => all_or_nothing d tt (memory_invalidate uid sid (abs d)) o d')).
  { apply pgwp_begin; [intros _; split; pg_exn|].
    unfold delete_session_chain. apply pgwp_bind, pgwp_data; [done|pg_exn|].
    intros n1 w1 [= _ <-]. apply pgwp_data_last; [done|pg_exn|]. intros n2 w2 [= _ <-].
    apply pgwp_commit; [intros _; split; [pg_exn|split; [done|right; apply abs_delete_chain]]|].
    split; [done|]. split; [done|]. apply abs_delete_chain. }
  assert (Hv : (forall n, faults n = NoFault) ->
    (interp (pg_handler faults other) (pg_invalidate uid sid) (idle d)).1 = Val tt).
  { intros Hf. unfold pg_invalidate, in_transaction, delete_session_chain. simpl.
    rewrite Hf. simpl. rewrite !Hf. simpl. rewrite !Hf. simpl. rewrite !Hf. simpl. rewrite !Hf. done. }
  unfold pg_invalidate in *.
  pose proof (pgwp_sound True _ (idle d) (fun o d' t' => t' = NoTx /\
    all_or_nothing d tt (memory_invalidate uid sid (abs d)) o d') faults other
    (or_intror I)
    (pgwp_in_transaction True _ d (fun o d' => all_or_nothing d tt (memory_invalidate uid sid (abs d)) o d')
       (fun _ e => conj eq_refl (or_introl eq_refl)) Hb)) as H.
  destruct (interp _ _ _) as [o s]. destruct H as [H1 H2]. auto.
Qed.

(** Property C2. In every history of creations, rotations, invalidations and
    cleanups, a refresh token is exchanged at most once, and once exchanged it
    is never again accepted nor reported as merely expired: presenting it
    again is a replay or an unknown token. *)
Theorem exchanged_once ex s args : session_history ex s ->
  NoDup ex /\
  (old_hmac args ∈ ex ->
   let r := (memory_attempt_rotate args s.1).1 in r = SoftReuse \/ r = HardReuse \/ r = UnknownToken).
Proof.
  intros [[Hn _] _]%history_ok. apply NoDup_app in Hn as (_ & Hd & Hex). split; [done|].
  intros Hin. simpl. unfold memory_attempt_rotate.
  destruct (find _ (rows s.1)) eqn:Hf.
  - destruct (Hd (old_hmac args)); [by eapply live_found|done].
  - destruct (find _ (used s.1)); [destruct (within_grace _ _ _)|]; simpl; auto.
Qed.

Lemma exchanged_once_witness :
  let m := (memory_attempt_rotate (sample_rotation (u "h0") (u "h1") 1000)
              (memory_create sample_row {| rows := []; used := [] |})).2 in
  let r := (memory_attempt_rotate (sample_rotation (u "h0") (u "h2") 2000) m).1 in
  r = SoftReuse \/ r = HardReuse \/ r = UnknownToken.
Proof.
  assert (Hh : session_history [u "h0"]
    ((memory_attempt_rotate (sample_rotation (u "h0") (u "h1") 1000)
        (memory_create sample_row {| rows := []; used := [] |})).2, [u "h1"; u "h0"])).
  { apply (HistoryStep [] (memory_create sample_row {| rows := []; used := [] |}, [u "h0"]) [u "h0"]).
    - apply (HistoryStep [] _ [] _ HistoryStart), (StepCreate _ [] sample_row). set_solver.
    - eapply (StepRotated _ _ (sample_rotation (u "h0") (u "h1") 1000)); [|reflexivity].
      vm_compute. set_solver. }
  apply (proj2 (exchanged_once _ _ (sample_rotation (u "h0") (u "h2") 2000) Hh)).
  vm_compute. set_solver.
Defined.



(** Property C35. The lifetimes of a session: at login a refresh token expires no later
    than its session, and each rotation keeps the session's own expiry, so
    that no chain of rotations outlives it; cookies live at least a second and
    no longer than the refresh token, and while at least a second of the
    session remains the rotated token is not yet expired. *)
Theorem session_times_bounded s now now' : settings_ok s -> 0 <= now <= now' ->
  let l := login_session_times now (session_access_ttl_seconds s) (session_refresh_ttl_seconds s)
             (session_total_ttl_seconds s) false in
  let '(re, age) := rotate_session_times now' (times_session_expires_at l) (session_refresh_ttl_seconds s) in
  (times_refresh_expires_at l <= times_session_expires_at l /\ now < times_refresh_expires_at l /\
   refresh_max_age l = Some (access_max_age l) /\ 1 <= access_max_age l /\
   times_refresh_expires_at l = (now / 1000 + access_max_age l) * 1000) /\
  (re <= times_session_expires_at l /\ re <= now' + session_refresh_ttl_seconds s * 1000 /\ 1 <= age) /\
  (now' + 1000 <= times_session_expires_at l -> now' < re /\ re = (now' / 1000 + age) * 1000).
Proof.
  intros Hok Hnow. unfold settings_ok in Hok. unfold login_session_times, rotate_session_times. simpl.
  destruct Hok as (_ & _ & Hs).
  pose proof (Z.div_mod now 1000 ltac:(lia)). pose proof (Z.mod_pos_bound now 1000 ltac:(lia)).
  pose proof (Z.div_mod now' 1000 ltac:(lia)). pose proof (Z.mod_pos_bound now' 1000 ltac:(lia)).
  rewrite Z.div_mul by lia. repeat split; try lia.
Qed.

Lemma session_times_bounded_witness :
  let '(re, age) := rotate_session_times 2000000 (1000000 + 2592000 * 1000) 604800 in
  2000000 < re /\ re = (2000 + age) * 1000.
Proof.
  assert (Hn : 0 <= 1000000 <= 2000000) by lia.
  destruct (session_times_bounded sample_settings 1000000 2000000 sample_settings_ok Hn) as (_ & _ & H).
  apply H. vm_compute. discriminate.
Defined.

(** The cleanup removes nothing that is still of use: as long as
    used tokens are kept longer than the grace period, a rotation after a
    cleanup at any earlier time answers as without it; only an expired session
    or a replay after the grace period may be reported as unknown instead. *)
Theorem cleanup_transparent ex m minted args t :
  session_history ex (m, minted) -> t <= rotate_now args ->
  Forall (fun r => used_at r + reuse_grace_seconds args * 1000 < used_expires_at r) (used m) ->
  let r := (memory_attempt_rotate args m).1 in
  let r' := (memory_attempt_rotate args (memory_cleanup t m)).1 in
  r' = r \/ (r = Expired \/ r = HardReuse) /\ r' = UnknownToken.
Proof.
  intros [[Hn _] Hused]%history_ok Ht Hkept. simpl in *.
  apply NoDup_app in Hn as (Hnl & Hd & Hex).
  assert (Hnu : NoDup (omap (fun r => Some (used_hmac r)) (used m))).
  { rewrite omap_Some_map. by eapply sublist_NoDup. }
  unfold memory_attempt_rotate, memory_cleanup. simpl.
  rewrite find_filter_unique
    by (apply (unique_match refresh_hmac _ (old_hmac args)); [|done];
        intros x [Hx _]%session_matches_spec; done).
  rewrite find_filter_unique
    by (apply (unique_match (fun r => Some (used_hmac r)) _ (old_hmac args)); [|done];
        intros x; unfold used_matches; rewrite !andb_true_iff, !seqb_eq; intros [[-> _] _]; done).
  destruct (find _ (rows m)) as [row|] eqn:Hrow.
  - destruct (find _ (used m)) as [urow|] eqn:Hurow.
    { exfalso. apply live_found in Hrow. apply used_found in Hurow.
      apply (Hd _ Hrow). by eapply sublist_subseteq. }
    destruct ((session_expires_at row <=? rotate_now args) || _) eqn:He; simpl;
      [destruct (negb _); simpl; [rewrite He|]; auto|].
    apply orb_false_iff in He as [H1%Z.leb_gt H2%Z.leb_gt].
    assert (Hk : (session_expires_at row <=? t) || (refresh_expires_at row <=? t) = false)
      by (apply orb_false_iff; split; apply Z.leb_gt; lia).
    rewrite Hk. simpl. left.
    assert (He' : (session_expires_at row <=? rotate_now args) || (refresh_expires_at row <=? rotate_now args) = false)
      by (apply orb_false_iff; split; apply Z.leb_gt; lia).
    by rewrite He'.
  - destruct (find _ (used m)) as [urow|] eqn:Hurow; simpl; [|by left].
    destruct (within_grace _ _ _) eqn:Hg; simpl.
    + apply find_some in Hurow as [Hin _]. rewrite List.Forall_forall in Hkept.
      specialize (Hkept _ Hin). unfold within_grace in *. apply Z.leb_le in Hg.
      assert (Hk : (used_expires_at urow <=? t) = false) by (apply Z.leb_gt; lia).
      rewrite Hk. simpl. unfold within_grace. left.
      by rewrite (proj2 (Z.leb_le _ _) Hg).
    + destruct (negb _); simpl; [rewrite Hg|]; auto.
Qed.

Lemma cleanup_transparent_witness :
  let m := memory_create sample_row {| rows := []; used := [] |} in
  (memory_attempt_rotate (sample_rotation (u "h0") (u "h1") 2000) (memory_cleanup 1000 m)).1 =
  Rotated 602000 5000000.
Proof.
  assert (Hh : session_history [] (memory_create sample_row {| rows := []; used := [] |}, [u "h0"])).
  { apply (HistoryStep [] _ [] _ HistoryStart), (StepCreate _ [] sample_row). set_solver. }
  assert (Hle : 1000 <= 2000) by lia.
  destruct (cleanup_transparent _ _ _ (sample_rotation (u "h0") (u "h1") 2000) 1000 Hh Hle
    (List.Forall_nil _)) as [H | [[H | H] _]]; [exact H|discriminate H|discriminate H].
Defined.

(** One tick of the cleanup never throws, whatever fails, and
    answers a delay of at least a second; on tables [d] it leaves them as they
    were, without the dead used tokens, or cleaned entirely, and with no lost
    statement it leaves exactly the in-memory cleanup at the time it read. *)
Theorem cleanup_tick_safe d faults (other : forall X, AuthE X -> X) :
  (forall s, other _ GetSettings = Val s -> 1 <= session_refresh_cleanup_seconds s) ->
  let '(o, s) := interp (pg_handler faults other) cleanup_tick (idle d) in
  let cleaned := memory_cleanup (other _ NewDate) (abs d) in
  (exists delay, o = Val delay /\ 1000 <= delay) /\
  users (committed s) = users d /\
  abs (committed s) ∈ [abs d; {| rows := rows (abs d); used := used cleaned |}; cleaned] /\
  ((forall n, faults n = NoFault) -> abs (committed s) = cleaned).
Proof.
  intros Hs. unfold cleanup_tick, run_session_cleanup. simpl.
  set (cleaned := memory_cleanup _ _).
  pose proof (abs_cleanup (other _ NewDate) d) as Hc.
  pose proof (abs_cleanup_used (other _ NewDate) d) as Hu.
  assert (Hd : forall s : outcome AuthRuntimeSettings, (forall x, s = Val x -> 1 <= session_refresh_cleanup_seconds x) ->
    exists delay, match s with Val x => Val (session_refresh_cleanup_seconds x * 1000)
                             | Exc _ => Val (SESSION_REFRESH_CLEANUP_DEFAULT * 1000) end = Val delay /\ 1000 <= delay).
  { intros [x|e] Hx; eexists; (split; [reflexivity|]); [specialize (Hx x eq_refl); lia|].
    unfold SESSION_REFRESH_CLEANUP_DEFAULT. lia. }
  specialize (Hd (other _ GetSettings) Hs). destruct Hd as (delay & Hdelay & Hpos).
  revert Hdelay.
  unfold pg_statement. simpl.
  destruct (faults 0%nat) eqn:H0; simpl; [destruct (faults 1%nat) eqn:H1; simpl| |];
    destruct (other (outcome AuthRuntimeSettings) GetSettings); simpl; intros Hdelay; refine (conj _ (conj _ (conj _ _))); simpl; eauto;
    first [intros _; apply Hc
          | intros H; exfalso; generalize (H 0%nat), (H 1%nat); congruence
          | apply list_elem_of_In;
            first [left; reflexivity | right; left; symmetry; apply Hu
                  | right; right; left; symmetry; apply Hc]].
Qed.

Lemma cleanup_tick_safe_witness :
  let '(o, s) := interp (pg_handler (fun _ => NoFault) sample_calls) cleanup_tick (idle sample_db) in
  (exists delay, o = Val delay /\ 1000 <= delay) /\ rows (abs (committed s)) = [].
Proof.
  assert (Hs : forall s, sample_calls _ GetSettings = Val s -> 1 <= session_refresh_cleanup_seconds s)
    by (intros s H; discriminate H).
  pose proof (cleanup_tick_safe sample_db (fun _ => NoFault) sample_calls Hs) as H.
  destruct H as (Hd & _ & _ & Hc). split; [exact Hd|]. rewrite Hc; reflexivity.
Defined.
