(* ===== verification/Jwt.v ===== *)
(** Access tokens (jwt.ts).

    Signing and verifying are jose's: the signature, the token's form and the
    standard claims.  [Jose] gives its [jwtVerify] and [decodeJwt] for the
    service's key and the options [JOSE_VERIFY]; signing is the call [SignJwt].
    A date that may be invalid is an [option Z]. *)
From S2P Require Import Prelude JsString JsValue Settings Effects Tokens.

(** ** Definitions *)

Definition ACCESS_TOKEN_TYP : jstr := u "access".
Definition PASSWORD_CHANGE_REQUIRED_CLAIM : jstr := u "password_change_required".
Definition SESSION_ID_CLAIM : jstr := u "sid".
Definition ACCESS_TOKEN_IAT_SKEW_SECONDS := 60.

(** jose's verification of a token at a date, and its decoding without it. *)
Class Jose := {
  jwtVerify : jstr -> option Z -> option JWTPayload;
  decodeJwt : jstr -> option JWTPayload }.

Record SignAccessTokenArgs := {
  sign_ttl_seconds : option num;
  sign_exp : option num;
  sign_sid : option jstr;
  sign_password_change_required : option bool;
  sign_now : option Z }.

Inductive AccessJwtVerifyResult :=
| AccessValid (payload : JWTPayload)
| AccessExpired (payload : JWTPayload)
| AccessInvalid.

Definition access_claims (args : SignAccessTokenArgs) : JWTPayload :=
  [(u "typ", VStr ACCESS_TOKEN_TYP)] ++
  match sign_sid args with
  | Some sid => if seqb sid [] then [] else [(SESSION_ID_CLAIM, VStr sid)]
  | None => []
  end ++
  match sign_password_change_required args with
  | Some true => [(PASSWORD_CHANGE_REQUIRED_CLAIM, VBool true)]
  | _ => []
  end.

Definition sign_access_token (user_id : jstr) (args : SignAccessTokenArgs) : M jstr :=
  let* now := match sign_now args with Some t => ret t | None => perform NewDate end in
  let issued := now / 1000 in
  let* exp :=
    match sign_exp args with
    | Some e => ret e
    | None =>
        match sign_ttl_seconds args with
        | Some (NInt ttl) =>
            if ttl <? 1 then throw (Error_ "sign_access_token requires ttl_seconds or exp")
            else ret (NInt (issued + ttl))
        | _ => throw (Error_ "sign_access_token requires ttl_seconds or exp")
        end
    end in
  call (SignJwt (access_claims args) user_id issued exp).

Definition custom_claims_ok (payload : JWTPayload) (now_seconds : Z) : bool :=
  match fields_get "typ" payload with
  | VStr typ => seqb typ ACCESS_TOKEN_TYP
  | _ => false
  end &&
  match fields_get "sub" payload with VStr sub => uuid_re sub | _ => false end &&
  match fields_get SESSION_ID_CLAIM payload with VStr sid => negb (seqb sid []) | _ => false end &&
  match fields_get "iat" payload, fields_get "exp" payload with
  | VNum iat, VNum exp =>
      num_ltb iat exp && negb (num_ltb (NInt (now_seconds + ACCESS_TOKEN_IAT_SKEW_SECONDS)) iat)
  | _, _ => false
  end.

Definition peek_iat `{Jose} (token : jstr) : option num :=
  match decodeJwt token with
  | Some peeked => as_number (fields_get "iat" peeked)
  | None => None
  end.

(** The time value of [new Date(seconds * 1000)]. *)
Definition date_of_seconds (seconds : num) : option Z :=
  let clip t := if Z.abs t <=? 8640000000000000 then Some t else None in
  match seconds with
  | NInt z => clip (z * 1000)
  | NFrac n d => clip (Z.quot (n * 1000) (Zpos d))
  | _ => None
  end.

Definition verify_access_jwt `{Jose} (token : jstr) (now : Z) : AccessJwtVerifyResult :=
  let now_seconds := now / 1000 in
  match jwtVerify token (Some now) with
  | Some payload => if custom_claims_ok payload now_seconds then AccessValid payload else AccessInvalid
  | None =>
      match peek_iat token with
      | None => AccessInvalid
      | Some iat =>
          match jwtVerify token (date_of_seconds iat) with
          | Some payload =>
              if custom_claims_ok payload now_seconds then AccessExpired payload else AccessInvalid
          | None => AccessInvalid
          end
      end
  end.

Definition verify_access_token `{Jose} (token : jstr) (now : Z) : outcome JWTPayload :=
  match verify_access_jwt token now with
  | AccessValid payload => Val payload
  | _ => Exc (Error_ "invalid access token")
  end.

Definition verify_access_token_for_refresh `{Jose} (token : jstr) (now : Z) : outcome JWTPayload :=
  match verify_access_jwt token now with
  | AccessInvalid => Exc (Error_ "invalid access token")
  | AccessValid payload | AccessExpired payload => Val payload
  end.

Definition password_change_required (payload : JWTPayload) : bool :=
  is_true (fields_get PASSWORD_CHANGE_REQUIRED_CLAIM payload).

Definition session_id_claim (payload : JWTPayload) : option jstr :=
  match fields_get SESSION_ID_CLAIM payload with
  | VStr sid => if seqb sid [] then None else Some sid
  | _ => None
  end.

(** [access_max_age_seconds] with [now] the value of [Date.now()]. *)
Definition access_max_age_seconds (payload : JWTPayload) (now : Z) : num :=
  match fields_get "exp" payload with
  | VNum exp => num_max (NInt 1) (num_add exp (- (now / 1000)))
  | _ => NInt 1
  end.

(** ** What jose promises *)

(** The claims of a token made by [SignJWT]: the given ones with [sub], [iat]
    and [exp] set. *)
Definition signed_payload (claims : JWTPayload) (subject : jstr) (issued : Z) (exp : num) : JWTPayload :=
  fields_set "exp" (VNum exp) (fields_set "iat" (VNum (NInt issued))
    (fields_set "sub" (VStr subject) claims)).

(** The standard claims accepted at a time in seconds: [exp] after it, [nbf]
    absent or not after it. *)
Definition times_ok (p : JWTPayload) (now_seconds : Z) : Prop :=
  (exists iat, fields_get "iat" p = VNum iat) /\
  (exists exp, fields_get "exp" p = VNum exp /\ num_ltb (NInt now_seconds) exp = true) /\
  (fields_get "nbf" p = VUndef \/
   exists nbf, fields_get "nbf" p = VNum nbf /\ num_leb nbf (NInt now_seconds) = true).

(** The documented behaviour of jose for the key: [genuine token p] holds of
    the tokens signed with it and their claims. *)
Class JoseLaws `{Jose} (genuine : jstr -> JWTPayload -> Prop) := {
  jose_verify : forall token t p, jwtVerify token (Some t) = Some p <->
    genuine token p /\ fields_get "sub" p <> VUndef /\ times_ok p (t / 1000);
  jose_verify_genuine : forall token d p, jwtVerify token d = Some p -> genuine token p;
  jose_decode : forall token p, genuine token p -> decodeJwt token = Some p }.

(** The tokens a run asked jose to sign. *)
Definition signing (e : event AuthE) : option (JWTPayload * jstr * Z * num) :=
  match e with
  | Ev c _ => match c with SignJwt claims subject issued exp => Some (claims, subject, issued, exp) | _ => None end
  end.

Definition signings (tr : trace) : list (JWTPayload * jstr * Z * num) := omap signing tr.

(** ** A table of signed tokens to evaluate verification on *)

Definition times_ok_b (p : JWTPayload) (now_seconds : Z) : bool :=
  match fields_get "iat" p, fields_get "exp" p with
  | VNum _, VNum exp => num_ltb (NInt now_seconds) exp
  | _, _ => false
  end &&
  match fields_get "nbf" p with
  | VUndef => true
  | VNum nbf => num_leb nbf (NInt now_seconds)
  | _ => false
  end.

Definition token_table (signed : list (jstr * JWTPayload)) (token : jstr) : option JWTPayload :=
  match find (fun kv => seqb kv.1 token) signed with Some (_, p) => Some p | None => None end.

Definition table_jose (signed : list (jstr * JWTPayload)) : Jose := {|
  jwtVerify := fun token date =>
    match token_table signed token, date with
    | Some p, Some t =>
        if negb (match fields_get "sub" p with VUndef => true | _ => false end)
           && times_ok_b p (t / 1000) then Some p else None
    | _, _ => None
    end;
  decodeJwt := token_table signed |}.

Definition sample_claims : JWTPayload :=
  signed_payload [(u "typ", VStr "access"); (u "sid", VStr "s1")]
    "01234567-89ab-7def-8123-456789abcdef" 1000 (NInt 1900).

Definition sample_jose : Jose := table_jose [(u "T", sample_claims)].

Definition sample_sign_args : SignAccessTokenArgs := {|
  sign_ttl_seconds := Some (NInt 900); sign_exp := None; sign_sid := Some (u "s1");
  sign_password_change_required := None; sign_now := Some 1000000 |}.

(** ** Lemmas *)

Lemma times_ok_b_spec p t : times_ok_b p t = true <-> times_ok p t.
Proof.
  unfold times_ok_b, times_ok. split.
  - intros H. destruct (fields_get "iat" p) as [| | |iat| | |]; try done.
    destruct (fields_get "exp" p) as [| | |exp| | |]; try done.
    apply andb_true_iff in H as [H1 H2]. split_and!; eauto.
    destruct (fields_get "nbf" p); eauto; done.
  - intros ((iat & ->) & (exp & -> & ->) & [-> | (nbf & -> & ->)]); done.
Qed.

Lemma table_jose_laws signed :
  @JoseLaws (table_jose signed) (fun token p => token_table signed token = Some p).
Proof.
  split; simpl.
  - intros token t p. rewrite <- times_ok_b_spec. destruct (token_table signed token) as [q|].
    + destruct (fields_get "sub" q) eqn:Hs, (times_ok_b q (t / 1000)) eqn:Ht; simpl;
        (split; [intros [= <-]; by rewrite Hs, Ht | intros ([= <-] & H1 & H2); congruence]).
    + split; [done|]. by intros [? _].
  - intros token [t|] p; destruct (token_table signed token); simpl; try done. by case_match.
  - done.
Qed.


Lemma fields_get_set_ne k k' v p : k <> k' -> fields_get k (fields_set k' v p) = fields_get k p.
Proof.
  intros Hne. unfold fields_get, fields_set. destruct (existsb _ p) eqn:He.
  - clear He. induction p as [|[a b] p IH]; simpl; [done|].
    destruct (seqb a k') eqn:Ha; simpl.
    + apply seqb_eq in Ha as ->.
      assert (Hk : seqb k' k = false) by (apply seqb_neq; congruence). by rewrite Hk.
    + by destruct (seqb a k).
  - clear He. induction p as [|[a b] p IH]; simpl.
    + assert (Hk : seqb k' k = false) by (apply seqb_neq; congruence). by rewrite Hk.
    + by destruct (seqb a k).
Qed.

Ltac keys := vm_compute; discriminate.

Lemma signed_payload_get claims subject issued exp :
  let p := signed_payload claims subject issued exp in
  fields_get "sub" p = VStr subject /\ fields_get "iat" p = VNum (NInt issued) /\
  fields_get "exp" p = VNum exp /\
  forall k, k <> u "sub" -> k <> u "iat" -> k <> u "exp" -> fields_get k p = fields_get k claims.
Proof.
  unfold signed_payload. split_and!.
  - rewrite !fields_get_set_ne by keys. apply fields_get_set_eq.
  - rewrite fields_get_set_ne by keys. apply fields_get_set_eq.
  - apply fields_get_set_eq.
  - intros k H1 H2 H3. by rewrite !fields_get_set_ne.
Qed.

Lemma access_claims_get args :
  fields_get "typ" (access_claims args) = VStr ACCESS_TOKEN_TYP /\
  fields_get "nbf" (access_claims args) = VUndef /\
  (forall sid, sign_sid args = Some sid -> sid <> [] ->
     fields_get SESSION_ID_CLAIM (access_claims args) = VStr sid) /\
  is_true (fields_get PASSWORD_CHANGE_REQUIRED_CLAIM (access_claims args)) =
    bool_decide (sign_password_change_required args = Some true).
Proof.
  unfold access_claims. destruct (sign_password_change_required args) as [[|]|];
    destruct (sign_sid args) as [sid|]; try destruct (seqb sid []) eqn:E; split_and!;
    try reflexivity; try (intros s [= <-] Hs; try reflexivity; apply seqb_eq in E; done); intros; done.
Qed.

Lemma sign_access_token_runs uid args tr tok :
  runs (sign_access_token uid args) tr (Val tok) ->
  exists now exp, signings tr = [(access_claims args, uid, now / 1000, exp)] /\
    (forall t, sign_now args = Some t -> now = t) /\
    match sign_exp args with
    | Some e => exp = e
    | None => exists ttl, sign_ttl_seconds args = Some (NInt ttl) /\ 1 <= ttl /\ exp = NInt (now / 1000 + ttl)
    end.
Proof.
  unfold sign_access_token. intros H.
  destruct (sign_now args) as [t|]; simpl in H.
  - exists t. destruct (sign_exp args) as [e|]; simpl in H.
    + destruct H as (x & tr' & -> & -> & <-). exists e. split_and!; congruence || done.
    + destruct (sign_ttl_seconds args) as [[ttl| | |]|]; simpl in H; try by destruct H as [_ ?].
      destruct (ttl <? 1) eqn:Hl; simpl in H; [by destruct H|].
      destruct H as (x & tr' & -> & -> & <-). apply Z.ltb_ge in Hl.
      eexists _. split_and!; [done|congruence|eauto].
  - destruct H as (t & tr' & -> & H). exists t. destruct (sign_exp args) as [e|]; simpl in H.
    + destruct H as (x & tr'' & -> & -> & <-). exists e. split_and!; done.
    + destruct (sign_ttl_seconds args) as [[ttl| | |]|]; simpl in H; try by destruct H as [_ ?].
      destruct (ttl <? 1) eqn:Hl; simpl in H; [by destruct H|].
      destruct H as (x & tr'' & -> & -> & <-). apply Z.ltb_ge in Hl.
      eexists _. split_and!; [done|done|eauto].
Qed.

Section Verification.
Context `{J : Jose} (genuine : jstr -> JWTPayload -> Prop) {L : JoseLaws genuine}.

(** A genuine token with its standard claims in order, at the two dates that
    verification tries. *)
Lemma verify_genuine token p iat exp now :
  genuine token p -> custom_claims_ok p (now / 1000) = true ->
  fields_get "iat" p = VNum (NInt iat) -> fields_get "exp" p = VNum exp ->
  fields_get "nbf" p = VUndef -> Z.abs iat <= 8640000000000 ->
  verify_access_jwt token now =
    if num_ltb (NInt (now / 1000)) exp then AccessValid p else AccessExpired p.
Proof.
  intros Hg Hc Hi He Hn Hb. unfold verify_access_jwt.
  assert (Hsub : fields_get "sub" p <> VUndef).
  { unfold custom_claims_ok in Hc. intros E. by rewrite E, andb_false_r in Hc. }
  assert (Hx : num_ltb (NInt iat) exp = true).
  { unfold custom_claims_ok in Hc. rewrite Hi, He in Hc. rewrite !andb_true_iff in Hc. tauto. }
  assert (Hat : forall t, num_ltb (NInt (t / 1000)) exp = true -> jwtVerify token (Some t) = Some p).
  { intros t Ht. apply jose_verify. split_and!; [done|done|]. split_and!; eauto. }
  destruct (num_ltb (NInt (now / 1000)) exp) eqn:Hnow.
  - by rewrite Hat, Hc.
  - destruct (jwtVerify token (Some now)) as [q|] eqn:Hv.
    + exfalso. pose proof (jose_verify_genuine _ _ _ Hv) as Hq. apply jose_decode in Hq, Hg.
      assert (q = p) as -> by congruence. apply jose_verify in Hv as (_ & _ & _ & (e & He' & Hlt) & _).
      congruence.
    + unfold peek_iat. rewrite (jose_decode _ _ Hg), Hi. simpl.
      assert (Hclip : (Z.abs (iat * 1000) <=? 8640000000000000) = true) by (apply Z.leb_le; lia).
      rewrite Hclip, Hat by (by rewrite Z.div_mul by lia). by rewrite Hc.
Qed.

End Verification.

(** ** The properties *)

(** The claims of a signed token are read back. *)
Lemma signed_token_verifies `{J : Jose} genuine {L : JoseLaws genuine} uid sid args issued exp tok :
  let p := signed_payload (access_claims args) uid issued exp in
  uuid_re uid = true -> sign_sid args = Some sid -> sid <> [] ->
  genuine tok p -> num_ltb (NInt issued) exp = true -> Z.abs issued <= 8640000000000 ->
  session_id_claim p = Some sid /\
  password_change_required p = bool_decide (sign_password_change_required args = Some true) /\
  forall now, issued - 60 <= now / 1000 ->
    verify_access_jwt tok now =
      if num_ltb (NInt (now / 1000)) exp then AccessValid p else AccessExpired p.
Proof.
  intros p Hu Hs Hne Hg Hx Hb.
  pose proof (signed_payload_get (access_claims args) uid issued exp) as (H1 & H2 & H3 & H4).
  pose proof (access_claims_get args) as (Ht & Hnbf & Hsid & Hpc).
  assert (Hsid' := Hsid _ Hs Hne). fold p in H1, H2, H3, H4. split_and!.
  - unfold session_id_claim. rewrite H4, Hsid' by keys. by destruct (seqb sid []) eqn:E; [apply seqb_eq in E|].
  - unfold password_change_required. by rewrite H4 by keys.
  - intros now Hnow. apply (verify_genuine genuine _ _ issued); try done; [|by rewrite H4 by keys].
    unfold custom_claims_ok. rewrite H1, H2, H3, !H4, Ht, Hsid', Hu, seqb_refl, Hx by keys.
    apply seqb_neq in Hne. rewrite Hne. simpl. apply negb_true_iff, Z.ltb_ge.
    unfold ACCESS_TOKEN_IAT_SKEW_SECONDS. lia.
Qed.

(** Round trip of the access token: a token signed for a user and
    a session carries exactly them; from a minute before its issue it
    verifies as valid until its expiry and as expired from then on, and the
    password-change flag is read back as it was given. *)
Theorem access_token_lifetime `{J : Jose} genuine {L : JoseLaws genuine} uid sid args tr tok :
  runs (sign_access_token uid args) tr (Val tok) ->
  uuid_re uid = true -> sign_sid args = Some sid -> sid <> [] ->
  exists claims issued exp, signings tr = [(claims, uid, issued, exp)] /\
  (genuine tok (signed_payload claims uid issued exp) ->
   num_ltb (NInt issued) exp = true -> Z.abs issued <= 8640000000000 ->
   let p := signed_payload claims uid issued exp in
   session_id_claim p = Some sid /\
   password_change_required p = bool_decide (sign_password_change_required args = Some true) /\
   forall now, issued - 60 <= now / 1000 ->
     verify_access_jwt tok now =
       if num_ltb (NInt (now / 1000)) exp then AccessValid p else AccessExpired p).
Proof.
  intros Hr Hu Hs Hne. apply sign_access_token_runs in Hr as (now0 & exp & Hsig & _ & _).
  eexists _, _, exp. split; [exact Hsig|]. intros Hg Hx Hb. by eapply signed_token_verifies.
Qed.

Lemma access_token_lifetime_witness :
  @verify_access_jwt sample_jose (u "T") 1500000 = AccessValid sample_claims /\
  @verify_access_jwt sample_jose (u "T") 1900000 = AccessExpired sample_claims.
Proof.
  set (uid := u "01234567-89ab-7def-8123-456789abcdef").
  assert (Hr : runs (sign_access_token uid sample_sign_args)
    [Ev (SignJwt (access_claims sample_sign_args) uid 1000 (NInt 1900)) (Val (u "T"))] (Val (u "T")))
    by (simpl; eauto 8).
  destruct (access_token_lifetime (J := sample_jose) _ (L := table_jose_laws _) _ (u "s1") _ _ _ Hr
    eq_refl eq_refl) as (claims & issued & exp & Heq & H); [discriminate|].
  injection Heq as <- <- <-.
  destruct (H eq_refl eq_refl ltac:(vm_compute; discriminate)) as (_ & _ & Hv).
  split; [exact (Hv 1500000 ltac:(vm_compute; discriminate)) | exact (Hv 1900000 ltac:(vm_compute; discriminate))].
Defined.

(** What verification accepts: the token was signed with the service's key,
    is an access token for a user and a session, was not issued in the future,
    and is valid only before its expiry; it is reported as expired only when
    it would be valid at its own issue time but is not at the present one. *)
Theorem verified_claims_sound `{J : Jose} genuine {L : JoseLaws genuine} token now p :
  verify_access_jwt token now = AccessValid p \/ verify_access_jwt token now = AccessExpired p ->
  genuine token p /\ fields_get "typ" p = VStr ACCESS_TOKEN_TYP /\
  (exists uid, fields_get "sub" p = VStr uid /\ uuid_re uid = true) /\
  (exists sid, session_id_claim p = Some sid) /\
  (exists iat exp, fields_get "iat" p = VNum iat /\ fields_get "exp" p = VNum exp /\
     num_ltb iat exp = true /\
     num_ltb (NInt (now / 1000 + ACCESS_TOKEN_IAT_SKEW_SECONDS)) iat = false) /\
  (verify_access_jwt token now = AccessValid p <-> times_ok p (now / 1000)).
Proof.
  intros Hv.
  assert (Hc : custom_claims_ok p (now / 1000) = true /\ genuine token p /\
               (verify_access_jwt token now = AccessValid p <-> times_ok p (now / 1000))).
  { unfold verify_access_jwt in *. destruct (jwtVerify token (Some now)) as [q|] eqn:H1.
    - destruct (custom_claims_ok q _) eqn:Hq; [|by destruct Hv]. destruct Hv as [[= ->]|]; [|done].
      split; [done|]. split; [by eapply jose_verify_genuine|]. split; [|done]. intros _.
      apply jose_verify in H1. tauto.
    - destruct (peek_iat token) as [iat|]; [|by destruct Hv].
      destruct (jwtVerify token (date_of_seconds iat)) as [q|] eqn:H2; [|by destruct Hv].
      destruct (custom_claims_ok q _) eqn:Hq; [|by destruct Hv].
      destruct Hv as [|[= ->]]; [done|]. split; [done|].
      pose proof (jose_verify_genuine _ _ _ H2) as Hg. split; [done|]. split; [done|].
      intros Ht. exfalso.
      assert (Hsub : fields_get "sub" p <> VUndef).
      { unfold custom_claims_ok in Hq. intros E. by rewrite E, andb_false_r in Hq. }
      assert (Hs : jwtVerify token (Some now) = Some p) by (by apply jose_verify). congruence. }
  destruct Hc as (Hc & Hg & Ht). split; [done|].
  unfold custom_claims_ok in Hc. rewrite !andb_true_iff in Hc. destruct Hc as (((Ht' & Hsub) & Hsid) & Htimes).
  split_and!; try done.
  - destruct (fields_get "typ" p); try done. by apply seqb_eq in Ht' as ->.
  - destruct (fields_get "sub" p); try done. eauto.
  - unfold session_id_claim. destruct (fields_get SESSION_ID_CLAIM p) as [| | | |s| |]; try done.
    destruct (seqb s []); [done|eauto].
  - destruct (fields_get "iat" p) as [| | |iat| | |]; try done.
    destruct (fields_get "exp" p) as [| | |exp| | |]; try done.
    apply andb_true_iff in Htimes as [? ?%negb_true_iff]. eauto 8.
Qed.

Lemma verified_claims_sound_witness :
  @verify_access_jwt sample_jose (u "T") 1500000 = AccessValid sample_claims /\
  session_id_claim sample_claims <> None.
Proof.
  assert (Hv : @verify_access_jwt sample_jose (u "T") 1500000 = AccessValid sample_claims) by reflexivity.
  destruct (verified_claims_sound (J := sample_jose) _ (L := table_jose_laws _) (u "T") 1500000
    sample_claims (or_introl Hv)) as (_ & _ & _ & (sid & Hsid) & _).
  split; [exact Hv | rewrite Hsid; discriminate].
Defined.
