(* ===== verification/Login.v ===== *)
(** Logging in: the password expiry of expiry.ts, the hash slots of
    hash_slots.ts and the pipeline of login_pipeline.ts.

    The pipeline's [try] and its [acquired] flag are the nesting of the part
    that holds a slot inside the part that does not: an exception while the
    slot is held releases it on the way out. *)
From S2P Require Import Prelude JsString JsValue JsDate Settings Effects AuditEvents Tokens.

(** ** expiry.ts *)

Inductive ExpiryVerdict := NormalSuccess | MustChange | Failure.

Definition classify_expiry (user : LoadedUser) (grace_days now : Z) : ExpiryVerdict :=
  let expires_ms := password_expires_at user in
  let grace_end_ms := expires_ms + grace_days * MS_PER_DAY in
  if now <? expires_ms then NormalSuccess
  else if now <=? grace_end_ms then MustChange
  else Failure.

(** ** hash_slots.ts *)

(** [try_acquire] and [release] on the number of slots in use. *)
Definition slot_try_acquire (limit used : Z) : bool * Z :=
  if limit <=? used then (false, used) else (true, used + 1).

Definition slot_release (used : Z) : Z := if 0 <? used then used - 1 else used.

(** ** login_pipeline.ts *)

Record LoginRequestContext := {
  provided_username : jstr;
  login_password : jstr;
  login_source_ip : option jstr;
  login_protocol : option jstr;
  login_host : option jstr;
  login_context_path : jstr;
  login_user_agent : option jstr }.

Inductive LoginPipelineResult :=
| LoginSuccess (user_id : jstr) (must_change : bool)
| LoginDenied
| LoginCapacity
| LoginInternalError.

(** The pipeline's judgement of a user and a password. *)
Inductive LoginVerdict :=
| Accept (must_change : bool)
| Reject (failure_reason : jstr).

Definition login_event_data (ctx : LoginRequestContext) (username_key : jstr)
    (extra : list (jstr * jsval)) : list (jstr * jsval) :=
  [(u "username_provided", VStr (bound_event_text (provided_username ctx)));
   (u "username_key", VStr username_key);
   (u "protocol", opt_str (login_protocol ctx));
   (u "host", opt_str (login_host ctx));
   (u "context_path", VStr (login_context_path ctx));
   (u "user_agent", opt_str (login_user_agent ctx))] ++ extra.

(** The reason to go to the landing without looking at an account: an invalid
    user name, a lockout, or an unusable password. *)
Definition early_denial (username_valid lockout : bool) (password : jstr) : option jstr :=
  if negb username_valid then Some (u "invalid_username")
  else if lockout then Some (u "rate_limit_lockout")
  else if seqb password [] || (PASSWORD_SCHEMA_MAX_CHARS <? jlen password)
  then Some (u "password_empty_or_oversize")
  else None.

Definition judge (settings : LoginProcessSettings) (user : option LoadedUser) (verify_ok : bool)
    : M LoginVerdict :=
  match user with
  | None => ret (Reject "unknown_user")
  | Some user =>
      if negb verify_ok then ret (Reject "bad_password")
      else if negb (is_active user) then ret (Reject "inactive")
      else if maximum_failed_count settings <=? failed_login_count user
      then ret (Reject "failed_count_lockout")
      else
        let* now := perform NewDate in
        match classify_expiry user (password_grace_days settings) now with
        | Failure => ret (Reject "password_age_locked")
        | NormalSuccess => ret (Accept false)
        | MustChange => ret (Accept true)
        end
  end.

Definition with_failed_count (user : LoadedUser) (count : Z) : LoadedUser := {|
  user_id := user_id user; username := username user; password_hash := password_hash user;
  display_name := display_name user; is_active := is_active user;
  failed_login_count := count; password_expires_at := password_expires_at user |}.

(** The write of the failed-login counter, and the user as written. *)
Definition update_counter (user : option LoadedUser) (verdict : LoginVerdict) : M (option LoadedUser) :=
  match user with
  | None => ret None
  | Some user =>
      let next := match verdict with Accept _ => 0 | Reject _ => failed_login_count user + 1 end in
      let* _ := call (SetFailedLoginCount (user_id user) next) in
      ret (Some (with_failed_count user next))
  end.

(** The part that holds a hash slot: look up, verify, judge, count. *)
Definition login_held (settings : LoginProcessSettings) (dummy_hash folded password : jstr)
    : M (option LoadedUser * LoginVerdict) :=
  let* user := call (LoadByUsername folded) in
  let hash := match user with Some user => password_hash user | None => dummy_hash end in
  let* verify_ok := call (VerifyPassword hash password) in
  let* verdict := judge settings user verify_ok in
  let* user := update_counter user verdict in
  ret (user, verdict).

(** From the audit event on: what every judged attempt goes through. *)
Definition login_landing (ctx : LoginRequestContext) (username_key : jstr)
    (t_ms started_ms rl_delay_ms : Z) (user : option LoadedUser) (verdict : LoginVerdict)
    : M LoginPipelineResult :=
  let extra :=
    (u "username_exists", VBool (bool_decide (is_Some user))) ::
    match user with
    | Some user => [(u "is_active", VBool (is_active user));
                    (u "failed_login_count", VNum (NInt (failed_login_count user)));
                    (u "password_expires_at", VStr (to_iso_string (password_expires_at user)))]
    | None => []
    end in
  let '(success, reason) := match verdict with
                            | Accept _ => (true, u "login_ok")
                            | Reject failure_reason => (false, failure_reason)
                            end in
  let* event := login_audit_event success reason (option_map user_id user) (login_source_ip ctx)
                  (login_event_data ctx username_key extra) false in
  let* _ := call (AuditEmit event) in
  match verdict, user with
  | Reject _, _ =>
      let* _ := call (RlRecordFailure username_key (login_source_ip ctx)) in
      let* now_ms := perform NowMs in
      let* _ := perform (Sleep (remaining_wait_ms t_ms rl_delay_ms (now_ms - started_ms))) in
      ret LoginDenied
  | Accept _, None => ret LoginInternalError
  | Accept must_change, Some user => ret (LoginSuccess (user_id user) must_change)
  end.

Definition run_login_pipeline (settings : LoginProcessSettings) (dummy_hash : jstr)
    (ctx : LoginRequestContext) : M LoginPipelineResult :=
  let* t := attempt (call (DrawT (process_time_minimum_ms settings) (process_time_maximum_ms settings))) in
  match t with
  | Exc _ => ret LoginInternalError
  | Val t_ms =>
      let* started_ms := perform NowMs in
      let folded := fold_username (provided_username ctx) in
      let username_valid := username_is_valid folded in
      let username_key := if username_valid then folded else INVALID_OR_OVERSIZE in
      try_catch
        (let* rl := call (RlEvaluate username_key (login_source_ip ctx)) in
         match early_denial username_valid (lockout rl) (login_password ctx) with
         | Some reason =>
             login_landing ctx username_key t_ms started_ms (delay_ms rl) None (Reject reason)
         | None =>
             let* acquired := perform SlotTryAcquire in
             if negb acquired then
               let* event := login_audit_event false "hash_capacity" None (login_source_ip ctx)
                               (login_event_data ctx username_key []) true in
               let* _ := call (AuditEmit event) in
               ret LoginCapacity
             else
               let* held :=
                 finally (login_held settings dummy_hash folded (login_password ctx))
                   (perform SlotRelease) in
               let '(user, verdict) := held in
               login_landing ctx username_key t_ms started_ms (delay_ms rl) user verdict
         end)
        (fun _ => ret LoginInternalError)
  end.

(** What a login comes to when every call answers: [rl], [acquired], [user],
    [verify_ok] and [now] are the answers of the rate limiter, the hash slots,
    the users, the password check and the clock. *)
Definition login_outcome (settings : LoginProcessSettings) (ctx : LoginRequestContext)
    (rl : RateLimitResult) (acquired : bool) (user : option LoadedUser) (verify_ok : bool)
    (now : Z) : LoginPipelineResult :=
  match early_denial (username_is_valid (fold_username (provided_username ctx))) (lockout rl)
          (login_password ctx) with
  | Some _ => LoginDenied
  | None =>
      if negb acquired then LoginCapacity
      else match user with
           | Some user =>
               if verify_ok && is_active user && (failed_login_count user <? maximum_failed_count settings)
               then match classify_expiry user (password_grace_days settings) now with
                    | NormalSuccess => LoginSuccess (user_id user) false
                    | MustChange => LoginSuccess (user_id user) true
                    | Failure => LoginDenied
                    end
               else LoginDenied
           | None => LoginDenied
           end
  end.

(** An account and an environment to evaluate a login on. *)
Definition sample_user : LoadedUser := {|
  user_id := u "01234567-89ab-7def-8123-456789abcdef"; username := u "alice";
  password_hash := u "hash"; display_name := u "Alice"; is_active := true;
  failed_login_count := 2; password_expires_at := 2000000 |}.

Definition login_calls : forall X, AuthE X -> X := fun X c =>
  match c in AuthE X return X -> X with
  | LoadByUsername name => fun _ => Val (if seqb name (u "alice") then Some sample_user else None)
  | VerifyPassword hash password => fun _ => Val (seqb password (u "secret"))
  | _ => fun x => x
  end (sample_calls X c).

Definition sample_login : LoginRequestContext := {|
  provided_username := u " Alice "; login_password := u "secret"; login_source_ip := None;
  login_protocol := None; login_host := None; login_context_path := u "/login";
  login_user_agent := None |}.

(** ** Reading a run *)

Definition is_lookup (e : event AuthE) : bool :=
  match e with Ev c _ => match c with LoadByUsername _ => true | _ => false end end.

Definition is_verification (e : event AuthE) : bool :=
  match e with Ev c _ => match c with VerifyPassword _ _ => true | _ => false end end.

Definition is_failure_record (e : event AuthE) : bool :=
  match e with Ev c _ => match c with RlRecordFailure _ _ => true | _ => false end end.

Definition is_acquisition (e : event AuthE) : bool :=
  match e with Ev c _ => match c with SlotTryAcquire => true | _ => false end end.

Definition counter_write (e : event AuthE) : option (jstr * Z) :=
  match e with Ev c _ => match c with SetFailedLoginCount id n => Some (id, n) | _ => None end end.

Definition answered_lookup (e : event AuthE) : option (jstr * option LoadedUser) :=
  match e with
  | @Ev _ X c x =>
      match c in AuthE X return X -> option (jstr * option LoadedUser) with
      | LoadByUsername name => fun o => match o with Val user => Some (name, user) | Exc _ => None end
      | _ => fun _ => None
      end x
  end.

Definition answered_verification (e : event AuthE) : option (jstr * jstr * bool) :=
  match e with
  | @Ev _ X c x =>
      match c in AuthE X return X -> option (jstr * jstr * bool) with
      | VerifyPassword hash password => fun o =>
          match o with Val ok => Some (hash, password, ok) | Exc _ => None end
      | _ => fun _ => None
      end x
  end.

Definition limiter_answer (e : event AuthE) : option RateLimitResult :=
  match e with
  | @Ev _ X c x =>
      match c in AuthE X return X -> option RateLimitResult with
      | RlEvaluate _ _ => fun o => match o with Val r => Some r | Exc _ => None end
      | _ => fun _ => None
      end x
  end.

Definition counter_writes (tr : trace) : list (jstr * Z) := omap counter_write tr.
Definition lookups (tr : trace) : list (jstr * option LoadedUser) := omap answered_lookup tr.
Definition verifications (tr : trace) : list (jstr * jstr * bool) := omap answered_verification tr.
Definition limiter_answers (tr : trace) : list RateLimitResult := omap limiter_answer tr.

(** Calls of a kind. *)
Definition occurs (p : event AuthE -> bool) (tr : trace) : nat := length (List.filter p tr).

(** ** Lemmas *)

(** Turns the tests a run went through into facts. *)
Ltac test_facts :=
  repeat match goal with
  | H : negb ?b = false |- _ => apply negb_false_iff in H
  | H : negb ?b = true |- _ => apply negb_true_iff in H
  | H : (_ <=? _) = false |- _ => apply Z.leb_gt in H
  | H : ?b = true |- _ => is_var b; subst b
  | H : ?b = false |- _ => is_var b; subst b
  end.

Ltac login_cases :=
  unfold run_login_pipeline, login_held, login_landing, judge, update_counter,
    login_audit_event, make_event, new_correlation_id, audit_timestamp.

(** What a caller relies on. *)
Lemma login_frame settings dummy ctx :
  wp (run_login_pipeline settings dummy ctx) (fun tr o =>
    (exists r, o = Val r) /\ slot_discipline 0 tr = true /\ response_quiet tr = true).
Proof. login_cases. wp_run; (split_and!; [by eexists | reflexivity | reflexivity]). Qed.

(** ** The properties *)

(** Logging in never throws and never leaks a hash slot: whatever
    fails on the way, a slot acquired is released exactly once, and at no
    moment is more than one held or one released that is not held. *)
Theorem login_slots_balanced settings dummy ctx :
  wp (run_login_pipeline settings dummy ctx) (fun tr o =>
    (exists r, o = Val r) /\ slot_discipline 0 tr = true).
Proof. eapply wp_mono; [|apply login_frame]. naive_solver. Qed.

(** Property C31. A denial takes at least the drawn processing time plus the
    rate limiter's delay, by the run's own clock: after the failure has been
    audited and recorded exactly once, the last thing the run does is to sleep
    for what is left of it.  No other result sleeps. *)
Theorem denial_padded settings dummy ctx :
  wp (run_login_pipeline settings dummy ctx) (fun tr o =>
    match o with
    | Val LoginDenied => exists t d s,
        draws tr = [t] /\ rl_delays tr = [d] /\ sleeps tr = [s] /\
        last tr = Some (Ev (Sleep s) tt) /\ s = remaining_wait_ms t d (elapsed tr) /\
        t + d <= elapsed tr + s /\
        occurs is_failure_record tr = 1%nat /\ List.map snd (audits tr) = [true]
    | _ => sleeps tr = []
    end).
Proof.
  login_cases. wp_run; try reflexivity;
    (eexists _, _, _; split_and!; try reflexivity; cbv [remaining_wait_ms elapsed clocks omap list_omap clock_reading List.last]; lia).
Qed.


(** Property C32. Every attempt that reaches the accounts does the same work
    whether the account exists or not: one lookup, then exactly one
    verification of the given password, against the account's hash or the
    dummy hash; only an existing account's counter is written.  An attempt
    denied early touches no account, no counter and no hash slot. *)
Theorem login_uniform_work settings dummy ctx :
  wp (run_login_pipeline settings dummy ctx) (fun tr o =>
    occurs is_verification tr = length (lookups tr) /\
    Forall (fun l => l.1 = fold_username (provided_username ctx)) (lookups tr) /\
    Forall (fun v => v.1.2 = login_password ctx /\
      List.map (fun l => match l.2 with Some user => password_hash user | None => dummy end)
        (lookups tr) = [v.1.1]) (verifications tr) /\
    Forall (fun w => exists user, List.map snd (lookups tr) = [Some user] /\ w.1 = user_id user /\
      (w.2 = 0 \/ w.2 = failed_login_count user + 1)) (counter_writes tr) /\
    Forall (fun rl => early_denial (username_is_valid (fold_username (provided_username ctx)))
                        (lockout rl) (login_password ctx) <> None ->
      (occurs is_lookup tr + occurs is_verification tr + occurs is_acquisition tr
         + length (counter_writes tr))%nat = 0%nat) (limiter_answers tr)).
Proof.
  login_cases. wp_run; split_and!; try reflexivity;
    try (repeat constructor; try reflexivity; by eauto);
    (constructor; [|constructor]); intros Hne; congruence || reflexivity.
Qed.

(** Property C33. When every call answers, the login's result is the
    specification's, on every branch. *)
Theorem login_decides settings dummy ctx (f : forall X, AuthE X -> X) t rl user verify_ok :
  let folded := fold_username (provided_username ctx) in
  let key := if username_is_valid folded then folded else INVALID_OR_OVERSIZE in
  f _ (DrawT (process_time_minimum_ms settings) (process_time_maximum_ms settings)) = Val t ->
  f _ (RlEvaluate key (login_source_ip ctx)) = Val rl ->
  f _ (LoadByUsername folded) = Val user ->
  f _ (VerifyPassword (match user with Some user => password_hash user | None => dummy end)
         (login_password ctx)) = Val verify_ok ->
  (forall event, f _ (AuditEmit event) = Val tt) ->
  (forall id n, f _ (SetFailedLoginCount id n) = Val tt) ->
  f _ (RlRecordFailure key (login_source_ip ctx)) = Val tt ->
  fst (interp (answers f) (run_login_pipeline settings dummy ctx) tt) =
  Val (login_outcome settings ctx rl (f _ SlotTryAcquire) user verify_ok (f _ NewDate)).
Proof.
  intros folded key Ht Hrl Hu Hv Ha Hc Hr. login_cases. unfold login_outcome. io_unfold.
  subst folded key. cbn [interp bind answers]. rewrite Ht. cbn [interp bind answers].
  rewrite Hrl. cbn [interp bind answers].
  destruct (early_denial _ _ _) as [reason|].
  { cbn [interp bind answers]. rewrite Ha. cbn [interp bind answers]. by rewrite Hr. }
  cbn [interp bind answers]. destruct (f bool SlotTryAcquire); cbn [negb interp bind answers];
    [|by rewrite Ha].
  rewrite Hu. cbn [interp bind answers]. rewrite Hv. cbn [interp bind answers].
  destruct user as [user|]; [|cbn [interp bind answers]; rewrite Ha; cbn [interp bind answers]; by rewrite Hr].
  destruct verify_ok, (is_active user); cbn [negb andb interp bind answers];
    try (rewrite Hc; cbn [interp bind answers]; rewrite Ha; cbn [interp bind answers]; by rewrite Hr).
  rewrite Z.leb_antisym. destruct (failed_login_count user <? _); cbn [negb andb interp bind answers];
    [destruct (classify_expiry _ _ _); cbn [interp bind answers]|];
    rewrite Hc; cbn [interp bind answers]; rewrite Ha; cbn [interp bind answers]; by rewrite ?Hr.
Qed.

Lemma login_decides_witness :
  fst (interp (answers login_calls) (run_login_pipeline (login sample_settings) (u "dummy") sample_login) tt) =
  Val (LoginSuccess (user_id sample_user) false).
Proof.
  apply (login_decides (login sample_settings) (u "dummy") sample_login login_calls 300
    {| delay_ms := 0; lockout := false |} (Some sample_user) true); reflexivity.
Defined.
