(* ===== verification/Refresh.v ===== *)
(** Refreshing and ending a session: the pipelines of refresh_pipeline.ts and
    logout_pipeline.ts. *)
From S2P Require Import Prelude JsString JsValue JsDate Settings Effects AuditEvents Tokens Jwt.

(** ** refresh_pipeline.ts *)

(** The context of both pipelines; logging out has no refresh token. *)
Record RefreshRequestContext := {
  access_token : option jstr;
  refresh_token : option jstr;
  refresh_source_ip : option jstr;
  refresh_protocol : option jstr;
  refresh_host : option jstr;
  refresh_context_path : jstr;
  refresh_user_agent : option jstr }.

Inductive RefreshPipelineResult :=
| RefreshSuccess (refresh_token : jstr) (access_token : option jstr) (refresh_max_age access_max_age : Z)
| RefreshSoft
| RefreshHard
| RefreshUnavailable
| RefreshInternalError.

Definition refresh_event_data (ctx : RefreshRequestContext) (extra : list (jstr * jsval))
    : list (jstr * jsval) :=
  [(u "context_path", VStr (refresh_context_path ctx));
   (u "protocol", opt_str (refresh_protocol ctx));
   (u "host", opt_str (refresh_host ctx));
   (u "user_agent", match refresh_user_agent ctx with
                    | None => VNull
                    | Some ua => if seqb ua [] then VNull else VStr (bound_event_text ua)
                    end)] ++ extra.

(** [payload.sub as string] *)
Definition subject (payload : JWTPayload) : jstr :=
  match fields_get "sub" payload with VStr sub => sub | _ => [] end.

Definition nonempty (s : option jstr) : option jstr :=
  match s with Some v => if seqb v [] then None else Some v | None => None end.

(** [try { await invalidate } catch {}] *)
Definition invalidate_quietly (uid sid : jstr) : M unit :=
  let* _ := attempt (call (SessInvalidate uid sid)) in ret tt.

Definition wait_hard (t_ms started_ms : Z) : M unit :=
  let* now_ms := perform NowMs in
  perform (Sleep (remaining_wait_ms t_ms 0 (now_ms - started_ms))).

Definition fail_hard (ctx : RefreshRequestContext) (t_ms started_ms : Z) (reason : jstr)
    (user_id : option jstr) (invalidate : option (jstr * jstr)) : M RefreshPipelineResult :=
  let* audited := attempt
    (let* event := refresh_audit_event false reason user_id (refresh_source_ip ctx)
                     (refresh_event_data ctx []) in
     call (AuditEmit event)) in
  match audited with
  | Exc _ =>
      let* _ := match invalidate with
                | Some (uid, sid) => invalidate_quietly uid sid
                | None => ret tt
                end in
      let* _ := wait_hard t_ms started_ms in
      ret RefreshUnavailable
  | Val _ =>
      let* _ := wait_hard t_ms started_ms in
      ret RefreshHard
  end.

(** After [attempt_rotate] has rotated: sign, audit, answer. *)
Definition refresh_rotated `{Jose} (settings : AuthRuntimeSettings) (ctx : RefreshRequestContext)
    (t_ms started_ms : Z) (payload : JWTPayload) (uid sid new_refresh : jstr)
    (now refresh_expires : Z) : M RefreshPipelineResult :=
  let access_expired := match fields_get "exp" payload with
                        | VNum exp => num_leb exp (NInt (now / 1000))
                        | _ => false
                        end in
  let remaining := Z.max 1 (refresh_expires / 1000 - now / 1000) in
  let* signed :=
    if access_expired then
      let* token := attempt (sign_access_token uid
        {| sign_ttl_seconds := Some (NInt (session_access_ttl_seconds settings)); sign_exp := None;
           sign_sid := Some sid; sign_password_change_required := None; sign_now := Some now |}) in
      match token with
      | Val token => ret (Some (Some token))
      | Exc _ => let* _ := invalidate_quietly uid sid in ret None
      end
    else ret (Some None) in
  match signed with
  | None => ret RefreshInternalError
  | Some access =>
      let* audited := attempt
        (let* event := refresh_audit_event true "refresh_ok" (Some uid) (refresh_source_ip ctx)
                         (refresh_event_data ctx []) in
         call (AuditEmit event)) in
      match audited with
      | Exc _ =>
          let* _ := invalidate_quietly uid sid in
          let* _ := wait_hard t_ms started_ms in
          ret RefreshUnavailable
      | Val _ => ret (RefreshSuccess new_refresh access remaining remaining)
      end
  end.

(** From the refresh token on. *)
Definition refresh_exchange `{Jose} `{Hmac} (settings : AuthRuntimeSettings) (secret : list Z)
    (ctx : RefreshRequestContext) (t_ms started_ms : Z) (payload : JWTPayload) (uid sid old_refresh : jstr)
    : M RefreshPipelineResult :=
  let old_hmac := hmac_refresh_token secret old_refresh in
  let* new_refresh := mint_refresh_token in
  let new_hmac := hmac_refresh_token secret new_refresh in
  let* now := perform NewDate in
  let* outcome := attempt (call (SessAttemptRotate
    {| old_hmac := old_hmac; new_hmac := new_hmac; rotate_user_id := uid; rotate_session_id := sid;
       rotate_now := now; refresh_ttl_seconds := session_refresh_ttl_seconds settings;
       reuse_grace_seconds := session_refresh_reuse_grace_seconds settings;
       reuse_window_seconds := session_refresh_reuse_window_seconds settings;
       rotate_ip_address := refresh_source_ip ctx;
       rotate_user_agent := nonempty (refresh_user_agent ctx) |})) in
  match outcome with
  | Exc _ => ret RefreshInternalError
  | Val SoftReuse => ret RefreshSoft
  | Val HardReuse =>
      let* audited := attempt
        (let* event := refresh_reuse_audit_event (Some uid) (refresh_source_ip ctx)
                         (refresh_event_data ctx []) in
         call (AuditEmit event)) in
      let* _ := wait_hard t_ms started_ms in
      match audited with
      | Exc _ => ret RefreshUnavailable
      | Val _ => ret RefreshHard
      end
  | Val Expired => fail_hard ctx t_ms started_ms "expired_session" (Some uid) (Some (uid, sid))
  | Val UnknownToken => fail_hard ctx t_ms started_ms "unknown_token" (Some uid) (Some (uid, sid))
  | Val (Rotated refresh_expires _) =>
      refresh_rotated settings ctx t_ms started_ms payload uid sid new_refresh now refresh_expires
  end.

Definition run_refresh_pipeline `{Jose} `{Hmac} (settings : AuthRuntimeSettings) (secret : list Z)
    (ctx : RefreshRequestContext) : M RefreshPipelineResult :=
  let* t := attempt (call (DrawT (session_refresh_process_time_minimum settings)
                                 (session_refresh_process_time_maximum settings))) in
  match t with
  | Exc _ => ret RefreshInternalError
  | Val t_ms =>
      let* started_ms := perform NowMs in
      let fail := fail_hard ctx t_ms started_ms in
      match access_token ctx with
      | None => fail (u "missing_cookie") None None
      | Some token =>
          let* verified_at := perform NewDate in
          match verify_access_token_for_refresh token verified_at with
          | Exc _ => fail (u "invalid_jwt") None None
          | Val payload =>
              let uid := subject payload in
              match session_id_claim payload with
              | None => fail (u "invalid_jwt") (Some uid) None
              | Some sid =>
                  match refresh_token ctx with
                  | None => fail (u "missing_cookie") (Some uid) (Some (uid, sid))
                  | Some old_refresh =>
                      if password_change_required payload
                      then fail (u "must_change") (Some uid) (Some (uid, sid))
                      else refresh_exchange settings secret ctx t_ms started_ms payload uid sid old_refresh
                  end
              end
          end
      end
  end.

(** ** logout_pipeline.ts *)

Inductive LogoutPipelineResult := LogoutSuccess | LogoutDenied | LogoutInternalError.

Definition run_logout_pipeline `{Jose} (ctx : RefreshRequestContext) : M LogoutPipelineResult :=
  match access_token ctx with
  | None => ret LogoutDenied
  | Some token =>
      let* verified_at := perform NewDate in
      match verify_access_token_for_refresh token verified_at with
      | Exc _ => ret LogoutDenied
      | Val payload =>
          let uid := subject payload in
          match session_id_claim payload with
          | None => ret LogoutDenied
          | Some sid =>
              let* invalidated := attempt (call (SessInvalidate uid sid)) in
              match invalidated with
              | Exc _ => ret LogoutInternalError
              | Val _ =>
                  let* audited := attempt
                    (let* event := logout_audit_event (Some uid) (refresh_source_ip ctx)
                                     (refresh_event_data ctx [(u "session_id", VStr sid)]) in
                     call (AuditEmit event)) in
                  match audited with
                  | Exc _ => ret LogoutInternalError
                  | Val _ => ret LogoutSuccess
                  end
              end
          end
      end
  end.

(** ** Reading a run *)

Definition rotation (e : event AuthE) : option (AttemptRotateArgs * AttemptRotateResult) :=
  match e with
  | @Ev _ X c x =>
      match c in AuthE X return X -> option (AttemptRotateArgs * AttemptRotateResult) with
      | SessAttemptRotate args => fun o => match o with Val r => Some (args, r) | Exc _ => None end
      | _ => fun _ => None
      end x
  end.

(** An invalidation asked for, with whether it was answered. *)
Definition invalidation (e : event AuthE) : option (jstr * jstr * bool) :=
  match e with
  | @Ev _ X c x =>
      match c in AuthE X return X -> option (jstr * jstr * bool) with
      | SessInvalidate uid sid => fun o => Some (uid, sid, match o with Val _ => true | Exc _ => false end)
      | _ => fun _ => None
      end x
  end.

Definition date_reading (e : event AuthE) : option Z :=
  match e with
  | @Ev _ X c x =>
      match c in AuthE X return X -> option Z with
      | NewDate => fun t => Some t
      | _ => fun _ => None
      end x
  end.

Definition rotations (tr : trace) : list (AttemptRotateArgs * AttemptRotateResult) := omap rotation tr.
Definition invalidations (tr : trace) : list (jstr * jstr * bool) := omap invalidation tr.
Definition dates (tr : trace) : list Z := omap date_reading tr.

Definition is_refresh_success (o : outcome RefreshPipelineResult) : bool :=
  match o with Val (RefreshSuccess _ _ _ _) => true | _ => false end.

Definition is_refresh_unavailable (o : outcome RefreshPipelineResult) : bool :=
  match o with Val RefreshUnavailable => true | _ => false end.

(** ** Lemmas *)

Ltac refresh_cases :=
  unfold run_refresh_pipeline, refresh_exchange, refresh_rotated, fail_hard, wait_hard, invalidate_quietly,
    mint_refresh_token, sign_access_token, refresh_audit_event, refresh_reuse_audit_event, make_event,
    new_correlation_id, audit_timestamp.

(** What a caller relies on. *)
Lemma refresh_frame `{J : Jose} `{HM : Hmac} settings secret ctx :
  wp (run_refresh_pipeline settings secret ctx) (fun tr o =>
    (exists r, o = Val r) /\ slot_quiet tr = true /\ response_quiet tr = true).
Proof. refresh_cases. wp_run; (split_and!; [by eexists | reflexivity | reflexivity]). Qed.

Lemma logout_frame `{J : Jose} ctx :
  wp (run_logout_pipeline ctx) (fun tr o =>
    (exists r, o = Val r) /\ slot_quiet tr = true /\ response_quiet tr = true).
Proof.
  unfold run_logout_pipeline, logout_audit_event, make_event, new_correlation_id, audit_timestamp.
  wp_run; (split_and!; [by eexists | reflexivity | reflexivity]).
Qed.

(** ** The properties *)

(** Property C25. A refresh succeeds only when the access token verifies for
    refreshing and names a session with no pending password change, and the
    session repository exchanged the hash of exactly the presented refresh
    token of that user and session for the hash of the token given out; the
    success is audited, nothing is invalidated, and the cookies live until the
    rotated token expires. *)
Theorem refresh_success_sound `{J : Jose} `{HM : Hmac} settings secret ctx :
  wp (run_refresh_pipeline settings secret ctx) (fun tr o =>
    match o with
    | Val (RefreshSuccess new_refresh access refresh_age access_age) =>
        exists token old payload sid args re se event at_,
        rotations tr = [(args, Rotated re se)] /\
        access_token ctx = Some token /\ refresh_token ctx = Some old /\
        dates tr !! 0%nat = Some at_ /\ verify_access_token_for_refresh token at_ = Val payload /\
        session_id_claim payload = Some sid /\ password_change_required payload = false /\
        old_hmac args = hmac_refresh_token secret old /\
        new_hmac args = hmac_refresh_token secret new_refresh /\
        rotate_user_id args = subject payload /\ rotate_session_id args = sid /\
        dates tr !! 1%nat = Some (rotate_now args) /\
        audits tr = [(event, true)] /\ event_type event = AUTH_REFRESH /\
        outcome_ event = u "success" /\ event_user_id event = Some (subject payload) /\
        invalidations tr = [] /\ sleeps tr = [] /\
        refresh_age = Z.max 1 (re / 1000 - rotate_now args / 1000) /\ access_age = refresh_age /\
        (access = None <-> match fields_get "exp" payload with
                           | VNum exp => num_leb exp (NInt (rotate_now args / 1000)) = false
                           | _ => True
                           end)
    | _ => True
    end).
Proof.
  refresh_cases. wp_run; try exact I.
  all: eexists _, _, _, _, _, _, _, _, _; split_and!; try reflexivity; try eassumption.
  all: simpl; destruct (fields_get "exp" _); split; congruence || done.
Qed.

(** The identity the run read is the one the request carries. *)
Ltac identified x0 E1 E2 E3 E4 :=
  match type of E2 with _ = Some ?t => assert (Some t = Some x0) as [= ->] by (symmetry; exact E2) end;
  clear E2; simplify_eq;
  try match goal with
  | H : verify_access_token_for_refresh ?t ?x = _, H' : verify_access_token_for_refresh ?t ?x = _ |- _ =>
      rewrite H in H'; simplify_eq
  end;
  first [congruence | left; reflexivity | right; reflexivity].

(** Property C26. Refreshing never throws and fails closed: once a rotation
    has happened, any result but a success has asked for the invalidation of
    that session; an audit event the sink refused is answered as unavailable,
    after asking for the invalidation of the session whenever the request
    identified one and it was not already deleted as stolen. *)
Theorem refresh_fails_closed `{J : Jose} `{HM : Hmac} settings secret ctx :
  wp (run_refresh_pipeline settings secret ctx) (fun tr o =>
    (exists r, o = Val r) /\
    is_refresh_unavailable o = existsb (fun a => negb a.2) (audits tr) /\
    Forall (fun r =>
      match r.2 with
      | Rotated _ _ => is_refresh_success o = true \/
          List.map fst (invalidations tr) = [(rotate_user_id r.1, rotate_session_id r.1)]
      | _ => is_refresh_success o = false
      end) (rotations tr) /\
    (o = Val RefreshUnavailable -> forall token at_ payload sid,
       access_token ctx = Some token -> dates tr !! 0%nat = Some at_ ->
       verify_access_token_for_refresh token at_ = Val payload -> session_id_claim payload = Some sid ->
       List.map fst (invalidations tr) = [(subject payload, sid)] \/
       List.map snd (rotations tr) = [HardReuse])).
Proof.
  refresh_cases. wp_run; (split_and!; [by eexists | reflexivity
    | first [apply List.Forall_nil
            | apply List.Forall_cons; [first [reflexivity | left; reflexivity | right; reflexivity]
                                      | apply List.Forall_nil]]
    | intros Ho token at_ payload sid E1 E2 E3 E4;
      first [discriminate Ho | congruence | identified x0 E1 E2 E3 E4]]).
Qed.

(** A refused refresh takes at least the drawn processing time,
    whatever the reason: its last act is to sleep for what is left of it.  A
    success, a soft failure and an internal error do not wait. *)
Theorem refresh_refusal_padded `{J : Jose} `{HM : Hmac} settings secret ctx :
  wp (run_refresh_pipeline settings secret ctx) (fun tr o =>
    match o with
    | Val RefreshHard | Val RefreshUnavailable => exists t s,
        draws tr = [t] /\ sleeps tr = [s] /\ last tr = Some (Ev (Sleep s) tt) /\
        s = remaining_wait_ms t 0 (elapsed tr) /\ t <= elapsed tr + s
    | _ => sleeps tr = []
    end).
Proof.
  refresh_cases. wp_run; try reflexivity;
    (eexists _, _; split_and!; try reflexivity;
     cbv [remaining_wait_ms elapsed clocks omap list_omap clock_reading List.last]; lia).
Qed.

(** Logging out never throws; it succeeds only when the session
    that the access token names has been invalidated and the logout audited,
    and a request it denies has changed nothing.  An expired access token is
    enough to log out. *)
Theorem logout_sound `{J : Jose} ctx :
  wp (run_logout_pipeline ctx) (fun tr o =>
    match o with
    | Val LogoutSuccess => exists token at_ payload sid event,
        invalidations tr = [(subject payload, sid, true)] /\
        audits tr = [(event, true)] /\ event_type event = AUTH_LOGOUT /\
        event_user_id event = Some (subject payload) /\
        access_token ctx = Some token /\ head (dates tr) = Some at_ /\
        verify_access_token_for_refresh token at_ = Val payload /\ session_id_claim payload = Some sid
    | Val LogoutDenied => invalidations tr = [] /\ audits tr = [] /\
        (forall token at_ payload, access_token ctx = Some token -> head (dates tr) = Some at_ ->
           verify_access_token_for_refresh token at_ = Val payload -> session_id_claim payload = None)
    | Val LogoutInternalError => exists uid sid b, invalidations tr = [(uid, sid, b)] /\
        (b = false \/ exists event, audits tr = [(event, false)])
    | Exc _ => False
    end).
Proof.
  unfold run_logout_pipeline, logout_audit_event, make_event, new_correlation_id, audit_timestamp.
  wp_run; try (eexists _, _, _; split; [reflexivity|first [by left | right; by eexists]]);
    try (eexists _, _, _, _, _; split_and!; first [reflexivity | eassumption]);
    (split_and!; [reflexivity | reflexivity | intros token at_ payload E1 E2 E3]);
    try congruence;
    (injection E2 as <-; congruence).
Qed.
