(* ===== verification/Cookies.v ===== *)
(** Cookies (cookies.ts, cookie_secure.ts) and the identity a reverse proxy
    forwards (forwarded.ts). *)
From S2P Require Import Prelude JsString JsValue Settings.

(** ** cookies.ts *)

Definition CSRF_COOKIE_NAME : jstr := u "__untangled_csrf".
Definition ACCESS_COOKIE_NAME : jstr := u "__untangled_access".
Definition REFRESH_COOKIE_NAME : jstr := u "__untangled_refresh".
Definition ACCESS_COOKIE_PATH : jstr := u "/".
Definition REFRESH_COOKIE_PATH : jstr := u "/api/v2/auth/refresh".

Record CookieAttrs := {
  http_only : bool;
  secure : bool;
  same_site : jstr;
  path : jstr;
  max_age : option Z }.

(** A [Map<string, string>]: its entries in insertion order. *)
Definition jsmap : Type := list (jstr * jstr).

Definition map_get (name : jstr) (m : jsmap) : option jstr :=
  match find (fun kv => seqb kv.1 name) m with Some (_, v) => Some v | None => None end.

Definition map_set (name value : jstr) (m : jsmap) : jsmap :=
  if existsb (fun kv => seqb kv.1 name) m
  then map (fun kv => if seqb kv.1 name then (name, value) else kv) m
  else m ++ [(name, value)].

(** One part of the header. *)
Definition parse_cookie_part (out : jsmap) (part : jstr) : jsmap :=
  match index_of 61 part with
  | None | Some O => out
  | Some cut =>
      let name := trim (slice part 0 (Z.of_nat cut)) in
      let value := trim (slice_from part (Z.of_nat cut + 1)) in
      if seqb name [] then out else map_set name value out
  end.

Definition parse_cookie_header (header : option jstr) : jsmap :=
  match header with
  | None => []
  | Some h => if seqb h [] then [] else fold_left parse_cookie_part (split_on 59 h) []
  end.

Definition serialize_cookie (name value : jstr) (attrs : CookieAttrs) : jstr :=
  join "; "
    ([name ++ u "=" ++ value; u "Path=" ++ path attrs; u "SameSite=" ++ same_site attrs] ++
     (if http_only attrs then [u "HttpOnly"] else []) ++
     (if secure attrs then [u "Secure"] else []) ++
     match max_age attrs with Some age => [u "Max-Age=" ++ num_to_string age] | None => [] end).

Definition csrf_cookie (value : jstr) (secure : bool) : jstr :=
  serialize_cookie CSRF_COOKIE_NAME value
    {| http_only := false; secure := secure; same_site := u "Lax"; path := ACCESS_COOKIE_PATH;
       max_age := None |}.

Definition access_cookie (value : jstr) (secure : bool) (max_age : Z) : jstr :=
  serialize_cookie ACCESS_COOKIE_NAME value
    {| http_only := true; secure := secure; same_site := u "Lax"; path := ACCESS_COOKIE_PATH;
       max_age := Some max_age |}.

Definition refresh_cookie (value : jstr) (secure : bool) (max_age : Z) : jstr :=
  serialize_cookie REFRESH_COOKIE_NAME value
    {| http_only := true; secure := secure; same_site := u "Lax"; path := REFRESH_COOKIE_PATH;
       max_age := Some max_age |}.

Definition expire_access_cookie (secure : bool) : jstr :=
  serialize_cookie ACCESS_COOKIE_NAME []
    {| http_only := true; secure := secure; same_site := u "Lax"; path := ACCESS_COOKIE_PATH;
       max_age := Some 0 |}.

Definition expire_refresh_cookie (secure : bool) : jstr :=
  serialize_cookie REFRESH_COOKIE_NAME []
    {| http_only := true; secure := secure; same_site := u "Lax"; path := REFRESH_COOKIE_PATH;
       max_age := Some 0 |}.

(** ** cookie_secure.ts *)

Definition cookie_secure_from_env (raw : option jstr) : outcome bool :=
  match raw with
  | None => Val true
  | Some r =>
      if seqb r [] then Val true
      else
        let normalized := to_lower (trim r) in
        if seqb normalized (u "1") || seqb normalized (u "true") then Val true
        else if seqb normalized (u "0") || seqb normalized (u "false") then Val false
        else Exc (Error_ "UNTANGLED_COOKIE_SECURE must be true/false (or 1/0)")
  end.

(** ** forwarded.ts *)

Record ForwardedIdentity := {
  for_ : option jstr;
  proto : option jstr;
  host : option jstr }.

(** The remainder after [p] when the string starts with it, letter case
    aside. *)
Fixpoint strip_prefix_nocase (p s : jstr) : option jstr :=
  match p, s with
  | [], _ => Some s
  | a :: p', b :: s' =>
      if seqb (to_lower [a]) (to_lower [b]) then strip_prefix_nocase p' s' else None
  | _ :: _, [] => None
  end.

(** [\s*name=([^;]+)] at the start of the string: its group. *)
Definition match_param_here (name s : jstr) : option jstr :=
  match strip_prefix_nocase (name ++ u "=") (drop_while is_space s) with
  | Some r =>
      let group := take_while (fun c => negb (c =? 59)) r in
      if seqb group [] then None else Some group
  | None => None
  end.

(** [(?:^|;)\s*name=([^;]+)], letter case aside: the first match's group. *)
Fixpoint match_param_after (name s : jstr) : option jstr :=
  match s with
  | [] => None
  | c :: s' =>
      if c =? 59 then
        match match_param_here name s' with
        | Some g => Some g
        | None => match_param_after name s'
        end
      else match_param_after name s'
  end.

Definition match_param (name s : jstr) : option jstr :=
  match match_param_here name s with
  | Some g => Some g
  | None => match_param_after name s
  end.

Definition octet (s : jstr) : bool := forallb is_digit s && (1 <=? jlen s) && (jlen s <=? 3).

(** [/^\d{1,3}(?:\.\d{1,3}){3}:\d+$/] *)
Definition is_ipv4_with_port (s : jstr) : bool :=
  match split_on 58 s with
  | [addr; port] =>
      match split_on 46 addr with
      | [a; b; c; d] =>
          octet a && octet b && octet c && octet d && forallb is_digit port && (1 <=? jlen port)
      | _ => false
      end
  | _ => false
  end.

Definition normalize_forwarded_node (raw : jstr) : option jstr :=
  let value := if starts_with [34] raw && ends_with [34] raw && (2 <=? jlen raw)
               then slice raw 1 (jlen raw - 1) else raw in
  if seqb value [] then None
  else
    let bracketed := match value with
                     | 91 :: _ =>
                         match index_of 93 value with
                         | Some stop => if (1 <? stop)%nat then Some (slice value 1 (Z.of_nat stop)) else None
                         | None => None
                         end
                     | _ => None
                     end in
    match bracketed with
    | Some inner => Some inner
    | None =>
        if is_ipv4_with_port value then
          match split_on 58 value with addr :: _ => Some addr | [] => Some value end
        else Some value
    end.

Definition param (segment name : jstr) : option jstr :=
  match match_param name segment with
  | Some group => normalize_forwarded_node (trim group)
  | None => None
  end.

Definition parse_forwarded (header : option jstr) : ForwardedIdentity :=
  match header with
  | None => {| for_ := None; proto := None; host := None |}
  | Some h =>
      if seqb h [] then {| for_ := None; proto := None; host := None |}
      else
        let first := match split_on 44 h with f :: _ => trim f | [] => [] end in
        {| for_ := param first "for"; proto := param first "proto"; host := param first "host" |}
  end.

Definition parse_forwarded_for (header : option jstr) : option jstr := for_ (parse_forwarded header).

(** The WHATWG parser: the [protocol] and [host] of a URL, when it parses. *)
Class UrlParser := parse_url : jstr -> option (jstr * jstr).

Record RequestIdentity := {
  source_ip : option jstr;
  protocol : option jstr;
  identity_host : option jstr }.

(** [value.replace(":", "")] *)
Definition drop_first_colon (s : jstr) : jstr :=
  match index_of 58 s with
  | Some i => firstn i s ++ skipn (S i) s
  | None => s
  end.

Definition or_else {A} (a b : option A) : option A := match a with Some _ => a | None => b end.

Definition request_identity `{UrlParser} (forwarded remote_address public_origin : option jstr)
    : RequestIdentity :=
  let f := parse_forwarded forwarded in
  let '(p, h) :=
    match public_origin with
    | Some origin =>
        if (bool_decide (proto f = None) || bool_decide (host f = None)) && negb (seqb origin [])
        then match parse_url origin with
             | Some (origin_protocol, origin_host) =>
                 (or_else (proto f) (Some (drop_first_colon origin_protocol)),
                  or_else (host f) (Some origin_host))
             | None => (proto f, host f)
             end
        else (proto f, host f)
    | None => (proto f, host f)
    end in
  {| source_ip := or_else (for_ f) remote_address; protocol := p; identity_host := h |}.

(** [client_ip] *)
Definition client_ip `{UrlParser} (forwarded remote_address : option jstr) : option jstr :=
  source_ip (request_identity forwarded remote_address None).

(** ** What the round trips are about *)

(** The [Cookie] header a browser sends for these cookies. *)
Definition cookie_header (cs : jsmap) : jstr := join "; " (map (fun kv => kv.1 ++ u "=" ++ kv.2) cs).

Definition cookie_name_ok (name : jstr) : Prop :=
  name <> [] /\ Forall (fun c => is_space c = false /\ c <> 61 /\ c <> 59) name.

Definition cookie_value_ok (value : jstr) : Prop := 59 ∉ value /\ trim value = value.

(** A node that a [Forwarded] element carries unquoted and is read as it is. *)
Definition node_ok (s : jstr) : Prop :=
  s <> [] /\ Forall (fun c => c <> 59 /\ c <> 44 /\ c <> 34 /\ is_space c = false) s /\
  head s <> Some 91 /\ is_ipv4_with_port s = false.

(** ** Lemmas *)

Lemma trim_cons_space s : trim (32 :: s) = trim s.
Proof. done. Qed.

Lemma forallb_Forall_neg (f : Z -> bool) s : Forall (fun c => f c = false) s ->
  forallb (fun c => negb (f c)) s = true.
Proof. intros H. apply forallb_forall. intros c Hc. rewrite List.Forall_forall in H. by rewrite H. Qed.

Lemma part_parsed pre name value out : cookie_name_ok name -> cookie_value_ok value ->
  pre = [] \/ pre = [32] ->
  parse_cookie_part out (pre ++ name ++ u "=" ++ value) = map_set name value out.
Proof.
  intros [Hne Hn] [_ Hv] Hpre. unfold parse_cookie_part.
  assert (H61 : 61 ∉ pre ++ name).
  { intros [Hin|Hin]%elem_of_app; [destruct Hpre; subst; set_solver|].
    rewrite Forall_forall in Hn. destruct (Hn _ Hin) as (_ & ? & _). done. }
  assert (Hidx : index_of 61 (pre ++ name ++ u "=" ++ value) = Some (length (pre ++ name))).
  { rewrite app_assoc. apply index_of_app, H61. }
  rewrite Hidx. destruct (length (pre ++ name)) as [|n] eqn:Hlen.
  { rewrite length_app in Hlen. destruct name; [done|simpl in Hlen; lia]. }
  assert (Hs : slice (pre ++ name ++ u "=" ++ value) 0 (Z.of_nat (S n)) = pre ++ name).
  { unfold slice. rewrite Nat2Z.id, <- Hlen. change (Z.to_nat 0) with 0%nat.
    rewrite Nat.sub_0_r, drop_0, app_assoc. apply take_app_length. }
  assert (Hr : slice_from (pre ++ name ++ u "=" ++ value) (Z.of_nat (S n) + 1) = value).
  { unfold slice_from. replace (Z.to_nat (Z.of_nat (S n) + 1)) with (S (length (pre ++ name))) by lia.
    rewrite app_assoc. change (u "=" ++ value) with ([61] ++ value).
    rewrite (app_assoc (pre ++ name) [61] value).
    replace (S (length (pre ++ name))) with (length ((pre ++ name) ++ [61]))
      by (rewrite length_app; simpl; lia).
    apply drop_app_length. }
  rewrite Hs, Hr, Hv.
  assert (Ht : trim (pre ++ name) = name).
  { assert (Hc : trim name = name).
    { apply trim_nospace, forallb_Forall_neg. eapply Forall_impl; [exact Hn|]. by intros c [? _]. }
    by destruct Hpre; subst pre. }
  rewrite Ht. by rewrite (proj2 (seqb_neq _ _) Hne).
Qed.

Lemma cookie_text_clean name value : cookie_name_ok name -> cookie_value_ok value ->
  59 ∉ name ++ u "=" ++ value.
Proof.
  intros [_ Hn] [Hv _] Hin. apply elem_of_app in Hin as [Hin|Hin].
  - rewrite Forall_forall in Hn. destruct (Hn _ Hin) as (_ & _ & ?). done.
  - apply elem_of_app in Hin as [Hin|Hin]; [|done]. vm_compute in Hin. set_solver.
Qed.

Lemma parts_parsed pre cs out : pre = [] \/ pre = [32] -> cs <> [] ->
  Forall (fun kv => cookie_name_ok kv.1 /\ cookie_value_ok kv.2) cs ->
  fold_left parse_cookie_part (split_on 59 (pre ++ cookie_header cs)) out =
  fold_left (fun m kv => map_set kv.1 kv.2 m) cs out.
Proof.
  intros Hpre Hne Hok. revert pre out Hpre. induction cs as [|[n v] cs IH]; intros pre out Hpre; [done|].
  apply Forall_cons in Hok as [[Hn Hv] Hok]. simpl in Hn, Hv.
  pose proof (cookie_text_clean n v Hn Hv) as Hc.
  assert (Hp : 59 ∉ pre ++ n ++ u "=" ++ v).
  { intros [Hin|Hin]%elem_of_app; [destruct Hpre; subst; set_solver|done]. }
  destruct cs as [|kv cs].
  - unfold cookie_header. simpl map. cbn [join fst snd]. rewrite split_on_none by done.
    by apply part_parsed.
  - assert (Hj : pre ++ cookie_header ((n, v) :: kv :: cs) =
                 (pre ++ n ++ u "=" ++ v) ++ 59 :: ([32] ++ cookie_header (kv :: cs))).
    { unfold cookie_header. simpl map. cbn [join]. rewrite <- !app_assoc. done. }
    rewrite Hj, split_on_app by done. cbn [fold_left]. rewrite part_parsed by done.
    apply IH; auto.
Qed.

Lemma map_set_fresh cs out : NoDup (map fst (out ++ cs)) ->
  fold_left (fun m kv => map_set kv.1 kv.2 m) cs out = out ++ cs.
Proof.
  revert out. induction cs as [|[n v] cs IH]; intros out Hnd; simpl; [by rewrite app_nil_r|].
  assert (Hf : existsb (fun kv => seqb kv.1 n) out = false).
  { apply not_true_iff_false. intros [[n' v'] [Hin He]]%existsb_exists. simpl in He.
    apply seqb_eq in He as ->. rewrite map_app in Hnd. apply NoDup_app in Hnd as (_ & Hd & _).
    apply (Hd n); [|simpl; set_solver]. apply list_elem_of_In. by apply (in_map fst) in Hin. }
  unfold map_set at 2. rewrite Hf. rewrite IH; rewrite <- app_assoc; done.
Qed.

Lemma map_get_set k k' v (m : jsmap) : map_get k (map_set k' v m) = if seqb k' k then Some v else map_get k m.
Proof.
  unfold map_get, map_set. destruct (seqb k' k) eqn:Hk.
  - apply seqb_eq in Hk as ->. destruct (existsb _ m) eqn:Hex.
    + induction m as [|[n w] m IH]; [done|]. simpl in *. destruct (seqb n k) eqn:Hn; simpl;
        [by rewrite seqb_refl|]. rewrite Hn. by apply IH.
    + induction m as [|[n w] m IH]; simpl in *; [by rewrite seqb_refl|].
      apply orb_false_iff in Hex as [-> Hex]. by apply IH.
  - destruct (existsb _ m).
    + induction m as [|[n w] m IH]; [done|]. simpl. destruct (seqb n k') eqn:Hn; simpl.
      * apply seqb_eq in Hn as ->. by rewrite Hk, IH.
      * destruct (seqb n k); [done|]. by apply IH.
    + induction m as [|[n w] m IH]; simpl; [by rewrite Hk|]. by destruct (seqb n k).
Qed.

Lemma take_while_app f a b : Forall (fun c => f c = true) a ->
  (forall c, head b = Some c -> f c = false) -> take_while f (a ++ b) = a.
Proof.
  intros Ha Hb. induction Ha as [|c a Hc _ IH]; simpl.
  - destruct b as [|d b]; [done|]. simpl. by rewrite (Hb d eq_refl).
  - by rewrite Hc, IH.
Qed.

Ltac name_clean := repeat (apply List.Forall_cons; [reflexivity|]); apply List.Forall_nil.

(** A parameter written at the start of the text is the one found there. *)
Lemma match_here name value rest : Forall (fun c => is_space c = false) name -> name <> [] ->
  node_ok value -> (rest = [] \/ exists r, rest = 59 :: r) ->
  match_param_here name (name ++ u "=" ++ value ++ rest) = Some value.
Proof.
  intros Hn Hne (Hv & Hc & _ & _) Hr. unfold match_param_here.
  assert (Hd : drop_while is_space (name ++ u "=" ++ value ++ rest) = name ++ u "=" ++ value ++ rest).
  { destruct name as [|c name]; [done|]. simpl. apply Forall_cons in Hn as [-> _]. done. }
  rewrite Hd, app_assoc.
  assert (Hs : forall p s, strip_prefix_nocase p (p ++ s) = Some s).
  { induction p as [|c p IH]; intros s; simpl; [done|]. by rewrite seqb_refl. }
  rewrite Hs, take_while_app.
  - by rewrite (proj2 (seqb_neq _ _) Hv).
  - eapply Forall_impl; [exact Hc|]. intros c (H & _). simpl.
    by rewrite (proj2 (Z.eqb_neq _ _) H).
  - intros c Hh. destruct Hr as [-> | [r ->]]; simpl in Hh; [done|]. by injection Hh as <-.
Qed.

(** Text without a separator is passed over. *)
Lemma match_after_skip name a b : 59 ∉ a ->
  match_param_after name (a ++ 59 :: b) =
  match match_param_here name b with Some g => Some g | None => match_param_after name b end.
Proof.
  induction a as [|c a IH]; simpl; [done|]. rewrite not_elem_of_cons. intros [Hc Ha].
  by rewrite (proj2 (Z.eqb_neq c 59)), IH by congruence.
Qed.

Lemma node_clean s : node_ok s -> 59 ∉ s /\ trim s = s /\ normalize_forwarded_node s = Some s.
Proof.
  intros (Hne & Hc & Hb & Hip). split_and!.
  - intros Hin. rewrite Forall_forall in Hc. by destruct (Hc _ Hin).
  - apply trim_nospace, forallb_Forall_neg. eapply Forall_impl; [exact Hc|]. by intros c (_ & _ & _ & ?).
  - unfold normalize_forwarded_node.
    assert (Hq : starts_with [34] s = false).
    { destruct s as [|c s]; [done|]. cbn [starts_with]. apply Forall_cons in Hc as [(_ & _ & Hq & _) _].
      rewrite (proj2 (Z.eqb_neq 34 c)) by congruence. done. }
    rewrite Hq. simpl andb. cbv zeta iota. rewrite (proj2 (seqb_neq _ _) Hne).
    destruct s as [|c s]; [done|]. simpl in Hb.
    assert (Hc91 : c <> 91) by congruence.
    destruct (Z.eq_dec c 91) as [|_]; [done|].
    assert (Hm : forall T (x y : T), match c with 91 => x | _ => y end = y).
    { intros T x y. destruct c as [|p|p]; try done.
      repeat (destruct p as [p|p|]; try done). }
    rewrite Hm, Hip. done.
Qed.

(** ** The properties *)

(** Round trip of the cookies: what a browser sends back for
    cookies of distinct names is parsed to exactly these cookies, in order,
    whatever number of them; with repeated names the last value wins. *)
Theorem cookie_roundtrip cs :
  cs <> [] -> Forall (fun kv => cookie_name_ok kv.1 /\ cookie_value_ok kv.2) cs ->
  parse_cookie_header (Some (cookie_header cs)) =
    fold_left (fun m kv => map_set kv.1 kv.2 m) cs [] /\
  (NoDup (map fst cs) -> parse_cookie_header (Some (cookie_header cs)) = cs).
Proof.
  intros Hne Hok.
  assert (Hp : parse_cookie_header (Some (cookie_header cs)) =
               fold_left (fun m kv => map_set kv.1 kv.2 m) cs []).
  { unfold parse_cookie_header. destruct (seqb (cookie_header cs) []) eqn:He.
    - exfalso. apply seqb_eq in He. destruct cs as [|[n v] cs]; [done|].
      apply Forall_cons in Hok as [[[Hn _] _] _]. unfold cookie_header in He.
      destruct n; [done|]. by destruct cs.
    - apply (parts_parsed [] cs []); auto. }
  split; [done|]. intros Hnd. rewrite Hp. by apply (map_set_fresh cs []).
Qed.

Lemma cookie_roundtrip_witness :
  parse_cookie_header (Some (u "__untangled_csrf=abc; __untangled_access=a.b.c")) =
  [(CSRF_COOKIE_NAME, u "abc"); (ACCESS_COOKIE_NAME, u "a.b.c")].
Proof.
  refine (proj2 (cookie_roundtrip [(CSRF_COOKIE_NAME, u "abc"); (ACCESS_COOKIE_NAME, u "a.b.c")] _ _) _).
  - discriminate.
  - repeat first [apply List.Forall_cons | apply List.Forall_nil]; simpl;
      (split; [split; [discriminate|]; repeat (apply List.Forall_cons; [split_and!; discriminate || reflexivity|]); apply List.Forall_nil
              | split; [apply (bool_decide_unpack _); vm_compute; exact I | reflexivity]]).
  - apply (bool_decide_unpack _). vm_compute. exact I.
Defined.

(** The first element of a header. *)
Lemma first_element elt tail : 44 ∉ elt -> trim elt = elt -> tail = [] \/ head tail = Some 44 ->
  match split_on 44 (elt ++ tail) with x :: _ => trim x | [] => [] end = elt.
Proof.
  intros Helt Htrim Ht. destruct tail as [|c tail]; [by rewrite app_nil_r, split_on_none|].
  destruct Ht as [|Ht]; [done|]. injection Ht as ->. by rewrite split_on_app.
Qed.

(** The parameters of an element in their order. *)
Lemma params_found f p h : node_ok f -> node_ok p -> node_ok h ->
  let elt := u "for=" ++ f ++ u ";proto=" ++ p ++ u ";host=" ++ h in
  match_param "for" elt = Some f /\ match_param "proto" elt = Some p /\ match_param "host" elt = Some h.
Proof.
  intros Hf Hp Hh elt. pose proof (node_clean f Hf) as [Hf1 _]. pose proof (node_clean p Hp) as [Hp1 _].
  assert (Hsep : forall pre v, 59 ∉ pre -> 59 ∉ v -> 59 ∉ pre ++ v) by (intros; by rewrite not_elem_of_app).
  assert (Hpre : 59 ∉ u "for=" ++ f) by (apply Hsep; [vm_compute; set_solver|done]).
  assert (Hpre' : 59 ∉ u "proto=" ++ p) by (apply Hsep; [vm_compute; set_solver|done]).
  unfold match_param. split_and!.
  - change elt with (u "for" ++ u "=" ++ f ++ u ";proto=" ++ p ++ u ";host=" ++ h).
    rewrite match_here; [done|name_clean|discriminate|done|right; by eexists].
  - replace elt with ((u "for=" ++ f) ++ 59 :: (u "proto" ++ u "=" ++ p ++ u ";host=" ++ h))
      by (unfold elt; rewrite <- !app_assoc; done).
    replace (match_param_here (u "proto") _) with (@None jstr) by reflexivity.
    rewrite match_after_skip, match_here; [done|name_clean|discriminate|done|right; by eexists|done].
  - replace elt with ((u "for=" ++ f) ++ 59 :: ((u "proto=" ++ p) ++ 59 :: (u "host" ++ u "=" ++ h ++ [])))
      by (unfold elt; rewrite <- !app_assoc, app_nil_r; done).
    replace (match_param_here (u "host") _) with (@None jstr) by reflexivity.
    rewrite match_after_skip by done.
    replace (match_param_here (u "host") ((u "proto=" ++ p) ++ _)) with (@None jstr) by reflexivity.
    rewrite match_after_skip, match_here; [done|name_clean|discriminate|done|by left|done].
Qed.

(** The forwarded identity is the first element's alone: of a
    [Forwarded] header whose first element carries the client address, the
    protocol and the host, exactly these are read, whatever a client appended
    after the first comma. *)
Theorem forwarded_first_hop f p h tail :
  node_ok f -> node_ok p -> node_ok h -> tail = [] \/ head tail = Some 44 ->
  parse_forwarded (Some (u "for=" ++ f ++ u ";proto=" ++ p ++ u ";host=" ++ h ++ tail)) =
  {| for_ := Some f; proto := Some p; host := Some h |}.
Proof.
  intros Hf Hp Hh Ht. unfold parse_forwarded.
  change (seqb (u "for=" ++ f ++ u ";proto=" ++ p ++ u ";host=" ++ h ++ tail) []) with false.
  replace (u "for=" ++ f ++ u ";proto=" ++ p ++ u ";host=" ++ h ++ tail)
    with ((u "for=" ++ f ++ u ";proto=" ++ p ++ u ";host=" ++ h) ++ tail) by (by rewrite <- !app_assoc).
  assert (Hno : forall s, node_ok s -> 44 ∉ s).
  { intros s (_ & Hc & _) Hin. rewrite Forall_forall in Hc. by destruct (Hc _ Hin) as (_ & ? & _). }
  assert (Hsp : forall s, node_ok s -> Forall (fun c => is_space c = false) s).
  { intros s (_ & Hc & _). eapply Forall_impl; [exact Hc|]. by intros c (_ & _ & _ & ?). }
  cbv zeta iota. rewrite first_element; [| | |done].
  - destruct (params_found f p h Hf Hp Hh) as (H1 & H2 & H3). unfold param. rewrite H1, H2, H3.
    destruct (node_clean f Hf) as (_ & -> & ->), (node_clean p Hp) as (_ & -> & ->),
      (node_clean h Hh) as (_ & -> & ->). done.
  - rewrite !not_elem_of_app. split_and!; auto; vm_compute; set_solver.
  - apply trim_nospace, forallb_Forall_neg. rewrite !Forall_app. split_and!; auto; name_clean.
Qed.

Lemma forwarded_first_hop_witness :
  parse_forwarded (Some (u "for=10.0.0.7;proto=https;host=example.org, for=6.6.6.6;proto=http")) =
  {| for_ := Some (u "10.0.0.7"); proto := Some (u "https"); host := Some (u "example.org") |}.
Proof.
  apply (forwarded_first_hop (u "10.0.0.7") (u "https") (u "example.org") (u ", for=6.6.6.6;proto=http"));
    try (split; [discriminate|]; split;
         [repeat (apply List.Forall_cons; [split_and!; discriminate || reflexivity|]); apply List.Forall_nil
         | split; [discriminate|reflexivity]]).
  right. reflexivity.
Defined.
