(* ===== verification/ChangePassword.v ===== *)
(** Changing a password: the rules of change_password.ts, the strength test of
    password_strength.ts and the transaction of change_password_apply.ts on
    the tables of [Sessions]. *)
From S2P Require Import Prelude JsString JsValue JsDate Settings Effects AuditEvents Tokens Sessions Login.

(** ** password_strength.ts *)

Definition SECONDS_PER_DAY := 86400.
Definition ZXCVBN_MAX_PASSWORD_LENGTH := 72.
Definition LITERAL_USER_INPUTS : list jstr := [u "Untangled"; u "itsm"].

(** zxcvbn: the guesses to find a password, given words about its owner. *)
Class Zxcvbn := zxcvbn_guesses : jstr -> list jstr -> num.

(** [s.split(/\s+/).filter(Boolean)]: the runs of other characters. *)
Fixpoint words (s : jstr) : list jstr :=
  match s with
  | [] => []
  | c :: s' =>
      if is_space c then words s'
      else
        let ws := words s' in
        match head s', ws with
        | Some d, w :: ws' => if is_space d then [c] :: ws else (c :: w) :: ws'
        | _, _ => [c] :: ws
        end
  end.

Definition build_user_inputs (username display_name : jstr) : list jstr :=
  let user := trim username in
  (if seqb user [] then [] else [user]) ++
  List.filter (fun segment => 3 <=? jlen segment) (words display_name) ++
  LITERAL_USER_INPUTS.

(** [a / z] for a positive integer [z]. *)
Definition num_div (a : num) (z : Z) : num :=
  match a with
  | NInt x => num_of_fraction x (Z.to_pos z)
  | NFrac n d => num_of_fraction n (d * Z.to_pos z)
  | n => n
  end.

Definition crack_time_ratio `{Zxcvbn} (password : jstr) (user_inputs : list jstr)
    (guess_per_second acceptable_crack_time_days : Z) : num :=
  if seqb password [] then NInt 0
  else
    let scored := slice password 0 ZXCVBN_MAX_PASSWORD_LENGTH in
    let guesses := zxcvbn_guesses scored user_inputs in
    let guesses_per_second := Z.max guess_per_second 1 in
    let acceptable_days := Z.max acceptable_crack_time_days 1 in
    let crack_time_days := num_div (num_div guesses guesses_per_second) SECONDS_PER_DAY in
    num_div crack_time_days acceptable_days.

Definition classify_ok (ratio : num) : bool := num_leb (NInt 1) ratio.

Definition password_strength_ok `{Zxcvbn} (password username display_name : jstr)
    (guess_per_second acceptable_crack_time_days : Z) : bool :=
  classify_ok (crack_time_ratio password (build_user_inputs username display_name)
                 guess_per_second acceptable_crack_time_days).

(** ** change_password.ts *)

Record ChangePasswordInput := {
  current_password : jstr;
  new_password : jstr;
  verify_new_password : jstr }.

Inductive ChangePasswordVerdict := ChangeOk | ChangeFailed | ChangeLocked.

Inductive ChangePasswordEffect :=
| TokensUnchanged
| FirstRefresh (refresh_token : jstr) (refresh_max_age : Z)
| LoggedOut.

Inductive ChangePasswordExecuteResult :=
| CpMissingUser
| CpFailed (username : jstr)
| CpLocked (username : jstr)
| CpOk (effect : ChangePasswordEffect) (username : jstr).

Definition DUMMY_CURRENT : jstr := 0 :: u "untangled-change-password-dummy".

Definition change_locked (user : LoadedUser) (settings : LoginProcessSettings) (now : Z) : bool :=
  match classify_expiry user (password_grace_days settings) now with Failure => true | _ => false end ||
  (maximum_failed_count settings <=? failed_login_count user).

(** The conditions on the input besides the verification of the current
    password. *)
Definition change_valid `{Zxcvbn} (user : LoadedUser) (input : ChangePasswordInput)
    (settings : LoginProcessSettings) : bool :=
  let current := current_password input in
  let new_pw := new_password input in
  negb (seqb current [] || (PASSWORD_SCHEMA_MAX_CHARS <? jlen current)) &&
  is_active user &&
  seqb new_pw (verify_new_password input) &&
  negb (seqb new_pw current) &&
  negb ((jlen new_pw <? password_minimum_chars settings) || (password_maximum_chars settings <? jlen new_pw)) &&
  password_strength_ok new_pw (username user) (display_name user)
    (password_guess_per_second settings) (password_acceptable_crack_time_days settings).

Definition evaluate_change_password `{Zxcvbn} (user : LoadedUser) (input : ChangePasswordInput)
    (settings : LoginProcessSettings) (now : Z) : M ChangePasswordVerdict :=
  if change_locked user settings now then ret ChangeLocked
  else
    let current := current_password input in
    let* current_ok := call (VerifyPassword (password_hash user)
                               (if seqb current [] then DUMMY_CURRENT else current)) in
    if current_ok && change_valid user input settings then ret ChangeOk else ret ChangeFailed.

Record ExecuteArgs := {
  exec_user_id : jstr;
  exec_session_id : option jstr;
  exec_input : ChangePasswordInput;
  exec_invalidate_user_sessions : bool;
  exec_settings : AuthRuntimeSettings;
  exec_refresh_hmac_secret : list Z;
  exec_ip_address : option jstr;
  exec_user_agent : option jstr }.

(** ** The interface of change_password_apply.ts

    [run_locked] passes its function the operations of a transaction.  The two
    implementations run it in programs of different kinds: statements on a
    connection, or an update of a store in memory. *)
Class TxMonad (F : Type -> Type) := {
  tx_ret : forall {A}, A -> F A;
  tx_bind : forall {A B}, F A -> (A -> F B) -> F B;
  tx_call : forall {A}, M A -> F A }.

Notation "'let+' x := p 'in' q" := (tx_bind p (fun x => q))
  (at level 10, x pattern, p at level 200, q at level 200) : io_scope.

Record LockedChangePasswordTx (F : Type -> Type) := {
  tx_user : LoadedUser;
  get_session : jstr -> F (option NewUserSession);
  apply_password_change : jstr -> Z -> jstr -> F unit;
  issue_first_refresh : jstr -> jstr -> Z -> option jstr -> option jstr -> F bool;
  invalidate_all_sessions : F unit }.
Arguments tx_user {F}.
Arguments get_session {F}.
Arguments apply_password_change {F}.
Arguments issue_first_refresh {F}.
Arguments invalidate_all_sessions {F}.

Class ChangePasswordApply (F : Type -> Type) :=
  run_locked : forall {A}, jstr -> (LockedChangePasswordTx F -> F A) -> F (option A).

(** ** change_password_apply.ts: the transaction on PostgreSQL *)

#[export] Instance pg_monad : TxMonad M :=
  {| tx_ret A := @ret AuthE A; tx_bind A B := @then_ AuthE A B; tx_call A p := p |}.

Definition tx_get_session (uid sid : jstr) : M (option NewUserSession) :=
  let* rows := pg (QSelectSession sid uid) in ret (head rows).

Definition tx_apply_password_change (uid hash : jstr) (expires : Z) (actor_id : jstr) : M unit :=
  let* stamped := utc_now in
  let* _ := pg (QUpdatePassword hash expires stamped actor_id uid) in
  ret tt.

Definition tx_issue_first_refresh (uid sid hmac : jstr) (expires : Z) (ip ua : option jstr) : M bool :=
  let* stamped := utc_now in
  let* row_count := pg (QUpdateFirstRefresh hmac expires ip ua stamped SYSTEM_USER_ID sid uid) in
  ret (row_count =? 1).

Definition tx_invalidate_all_sessions (uid : jstr) : M unit :=
  let* _ := pg (QDeleteUsedByUser uid) in
  let* _ := pg (QDeleteSessionsByUser uid) in
  ret tt.

Definition tx_from_client (user : LoadedUser) : LockedChangePasswordTx M :=
  let uid := user_id user in {|
  tx_user := user;
  get_session := tx_get_session uid;
  apply_password_change := tx_apply_password_change uid;
  issue_first_refresh := tx_issue_first_refresh uid;
  invalidate_all_sessions := tx_invalidate_all_sessions uid |}.

Definition run_locked_body {A} (uid : jstr) (fn : LockedChangePasswordTx M -> M A) : M (option A) :=
  let* _ := pg QBegin in
  let* locked := pg (QSelectUserForUpdate uid) in
  match locked with
  | [] => let* _ := pg QRollback in ret None
  | user :: _ =>
      let* result := fn (tx_from_client user) in
      let* _ := pg QCommit in
      ret (Some result)
  end.

#[export] Instance make_change_password_apply : ChangePasswordApply M :=
  fun A uid fn => in_transaction (run_locked_body uid fn).

(** ** change_password_apply.ts: the store in memory *)

(** The accounts of a repository in memory and the rows of the sessions. *)
Record MemoryStore := { memory_users : list LoadedUser; memory_sessions : MemorySessions }.

(** A program that may read and write the store; a write stays when the
    program throws after it. *)
Definition InMemory (A : Type) : Type := MemoryStore -> prog AuthE (outcome A * MemoryStore).

#[export] Instance memory_monad : TxMonad InMemory := {|
  tx_ret A a := fun m => Ret (Val a, m);
  tx_bind A B p f := fun m => bind (p m) (fun om =>
    match om.1 with Val a => f a om.2 | Exc e => Ret (Exc e, om.2) end);
  tx_call A p := fun m => bind p (fun o => Ret (o, m)) |}.

(** An operation on the store that calls nothing outside. *)
Definition on_store {A} (f : MemoryStore -> A * MemoryStore) : InMemory A :=
  fun m => let '(a, m') := f m in Ret (Val a, m').

Definition on_sessions (m : MemoryStore) (s : MemorySessions) : MemoryStore :=
  {| memory_users := memory_users m; memory_sessions := s |}.

(** [load_by_id] and [apply_password_change] of a repository in memory. *)
Definition memory_load_by_id (uid : jstr) (m : MemoryStore) : option LoadedUser :=
  find (fun row => seqb (user_id row) uid) (memory_users m).

Definition memory_apply_password_change (uid hash : jstr) (expires : Z) (m : MemoryStore) : MemoryStore :=
  {| memory_users := update_where (fun row => seqb (user_id row) uid) (set_password hash expires) (memory_users m);
     memory_sessions := memory_sessions m |}.

Definition memory_tx (uid : jstr) (user : LoadedUser) : LockedChangePasswordTx InMemory := {|
  tx_user := user;
  get_session sid := on_store (fun m => (find (session_is uid sid) (rows (memory_sessions m)), m));
  apply_password_change hash expires _ := on_store (fun m => (tt, memory_apply_password_change uid hash expires m));
  issue_first_refresh sid hmac expires ip ua := on_store (fun m =>
    let '(issued, s) := memory_issue_first_refresh uid sid hmac expires ip ua (memory_sessions m) in
    (issued, on_sessions m s));
  invalidate_all_sessions := on_store (fun m =>
    (tt, on_sessions m (memory_invalidate_all uid (memory_sessions m)))) |}.

#[export] Instance memory_change_password_apply : ChangePasswordApply InMemory :=
  fun A uid fn =>
    let+ user := on_store (fun m => (memory_load_by_id uid m, m)) in
    match user with
    | None => tx_ret None
    | Some user => let+ result := fn (memory_tx uid user) in tx_ret (Some result)
    end.

(** ** change_password.ts: execution *)

Definition change_in_tx {F} `{TxMonad F} `{Zxcvbn} `{Hmac} (args : ExecuteArgs) (now : Z)
    (tx : LockedChangePasswordTx F) : F ChangePasswordExecuteResult :=
  let user := tx_user tx in
  let settings := exec_settings args in
  let+ evaluated := tx_call (evaluate_change_password user (exec_input args) (login settings) now) in
  match evaluated with
  | ChangeFailed => tx_ret (CpFailed (username user))
  | ChangeLocked => tx_ret (CpLocked (username user))
  | ChangeOk =>
      let expires := utc_seconds (now + password_expiry_days (login settings) * MS_PER_DAY) in
      let+ new_hash := tx_call (call (HashPassword (new_password (exec_input args)))) in
      let+ _ := apply_password_change tx new_hash expires (user_id user) in
      if exec_invalidate_user_sessions args then
        let+ _ := invalidate_all_sessions tx in
        tx_ret (CpOk LoggedOut (username user))
      else
        match exec_session_id args with
        | None => tx_ret (CpOk TokensUnchanged (username user))
        | Some sid =>
            if seqb sid [] then tx_ret (CpOk TokensUnchanged (username user))
            else
              let+ session := get_session tx sid in
              match session with
              | None => tx_ret (CpOk TokensUnchanged (username user))
              | Some session =>
                  match refresh_hmac session with
                  | Some _ => tx_ret (CpOk TokensUnchanged (username user))
                  | None =>
                      let '(refresh_expires, age) :=
                        rotate_session_times now (session_expires_at session)
                          (session_refresh_ttl_seconds settings) in
                      let+ token := tx_call mint_refresh_token in
                      let+ issued := issue_first_refresh tx sid
                        (hmac_refresh_token (exec_refresh_hmac_secret args) token) refresh_expires
                        (exec_ip_address args) (exec_user_agent args) in
                      if negb issued then tx_ret (CpOk TokensUnchanged (username user))
                      else tx_ret (CpOk (FirstRefresh token age) (username user))
                  end
              end
        end
  end.

Definition execute_change_password {F} `{TxMonad F} `{ChangePasswordApply F} `{Zxcvbn} `{Hmac}
    (args : ExecuteArgs) : F ChangePasswordExecuteResult :=
  let+ now := tx_call (perform NewDate) in
  let+ ran := run_locked (exec_user_id args) (change_in_tx args now) in
  match ran with
  | None => tx_ret CpMissingUser
  | Some result => tx_ret result
  end.

(** [remaining_access_exp] *)
Definition remaining_access_exp (payload : JWTPayload) : option num :=
  as_number (fields_get "exp" payload).

(** ** What a change does to the tables *)

(** The committed effect of each result. *)
Definition change_effect `{Hmac} (args : ExecuteArgs) (d : Db) (r : ChangePasswordExecuteResult) (d' : Db)
    : Prop :=
  match r with
  | CpOk effect _ =>
      (exists hash expires,
         users d' = update_where (fun x => seqb (user_id x) (exec_user_id args))
                      (set_password hash expires) (users d)) /\
      match effect with
      | LoggedOut => exec_invalidate_user_sessions args = true /\
          abs d' = memory_invalidate_all (exec_user_id args) (abs d)
      | TokensUnchanged => exec_invalidate_user_sessions args = false /\ abs d' = abs d
      | FirstRefresh token age => exec_invalidate_user_sessions args = false /\
          exists sid expires, exec_session_id args = Some sid /\
            memory_issue_first_refresh (exec_user_id args) sid
              (hmac_refresh_token (exec_refresh_hmac_secret args) token) expires
              (exec_ip_address args) (exec_user_agent args) (abs d) = (true, abs d')
      end
  | _ => d' = d
  end.

(** The change happened entirely or not at all. *)
Definition change_atomic `{Hmac} (args : ExecuteArgs) (d : Db)
    (o : outcome ChangePasswordExecuteResult) (d' : Db) : Prop :=
  match o with
  | Val r => change_effect args d r d'
  | Exc _ => d' = d \/ exists r, change_effect args d r d'
  end.

(** ** A change to evaluate *)

Definition sample_zxcvbn : Zxcvbn := fun _ _ => NInt (10 ^ 20).
Definition sample_hmac : Hmac := fun _ token => token.

Definition sample_change : ExecuteArgs := {|
  exec_user_id := user_id sample_user; exec_session_id := Some (u "s1");
  exec_input := {| current_password := u "secret"; new_password := u "a longer secret";
                   verify_new_password := u "a longer secret" |};
  exec_invalidate_user_sessions := true; exec_settings := sample_settings;
  exec_refresh_hmac_secret := []; exec_ip_address := None; exec_user_agent := None |}.

Definition change_db : Db := {|
  user_session := [{| sess := {| session_id := u "s1"; session_user_id := user_id sample_user;
                                 refresh_hmac := None; session_expires_at := 9000000;
                                 refresh_expires_at := 9000000; ip_address := None; user_agent := None |};
                      sess_stamps := stamps_at 0 SYSTEM_USER_ID |}];
  used_refresh_token := []; users := [sample_user] |}.

(** ** Lemmas *)

Section Change.
Context `{ZX : Zxcvbn} `{HM : Hmac}.

Lemma abs_users d us : abs (with_users d us) = abs d.
Proof. done. Qed.

Lemma abs_invalidate_all uid d :
  abs (with_sessions
         (with_used d (List.filter (fun r => negb (seqb (used_user_id (used_token r)) uid)) (used_refresh_token d)))
         (List.filter (fun r => negb (seqb (session_user_id (sess r)) uid)) (user_session d))) =
  memory_invalidate_all uid (abs d).
Proof. unfold abs, memory_invalidate_all. simpl. by rewrite !filter_map. Qed.

Lemma update_none_id {A} (p : A -> bool) f l : existsb p l = false -> update_where p f l = l.
Proof.
  induction l as [|x l IH]; simpl; [done|]. intros [Hx Hl]%orb_false_iff.
  unfold update_where in *. simpl. by rewrite Hx, IH.
Qed.

Lemma filter_none {A} (p : A -> bool) l : existsb p l = false -> List.filter p l = [].
Proof. induction l as [|x l IH]; simpl; [done|]. intros [-> Hl]%orb_false_iff. auto. Qed.

Lemma selected_user uid us user rest :
  List.filter (fun r => seqb (user_id r) uid) us = user :: rest -> user_id user = uid.
Proof.
  intros Hf. assert (Hin : In user (List.filter (fun r => seqb (user_id r) uid) us)) by (rewrite Hf; by left).
  apply filter_In in Hin as [_ Hin]. by apply seqb_eq in Hin.
Qed.

(** With unique identifiers the conditional update touches the session that
    the lookup returned. *)
Lemma first_refresh_update uid sid hmac exp ip ua t actor l row rest :
  NoDup (map (fun r => session_id (sess r)) l) ->
  List.filter (fun r => session_is uid sid (sess r)) l = row :: rest -> refresh_hmac (sess row) = None ->
  map sess (update_where (fun r => session_is uid sid (sess r) && negb (bool_decide (is_Some (refresh_hmac (sess r)))))
    (fun r => {| sess := rotated_row hmac exp ip ua (sess r); sess_stamps := touched t actor (sess_stamps r) |}) l) =
  update_first (session_is uid sid) (rotated_row hmac exp ip ua) (map sess l) /\
  find (session_is uid sid) (map sess l) = Some (sess row) /\
  count_if (fun r => session_is uid sid (sess r) && negb (bool_decide (is_Some (refresh_hmac (sess r))))) l = 1.
Proof.
  intros Hnd Hf Hh. unfold count_if. induction l as [|x l IH]; simpl in *; [done|].
  apply NoDup_cons in Hnd as [Hx Hnd]. destruct (session_is uid sid (sess x)) eqn:Hs; simpl.
  - injection Hf as -> _. rewrite Hh. simpl.
    assert (He : existsb (fun r => session_is uid sid (sess r) &&
                   negb (bool_decide (is_Some (refresh_hmac (sess r))))) l = false).
    { apply not_true_iff_false. intros [y [Hy [Hy2 _]%andb_true_iff]]%existsb_exists.
      apply session_is_id in Hy2, Hs. apply Hx. rewrite Hs, <- Hy2.
      by apply list_elem_of_In, (in_map (fun r => session_id (sess r))). }
    split_and!; [do 2 f_equal; by apply update_none_id | done |].
    rewrite (filter_none _ _ He). done.
  - destruct (IH Hnd Hf) as (IH1 & IH2 & IH3). split_and!; [by rewrite IH1|done|done].
Qed.

(** What the transaction's function leaves: nothing committed, and when it
    answers, its whole effect in the open transaction. *)
Definition in_tx_post (args : ExecuteArgs) (d : Db) (o : outcome ChangePasswordExecuteResult)
    (d' : Db) (t' : TxState) : Prop :=
  d' = d /\ match o with Val r => exists w, t' = InTx w /\ change_effect args d r w | Exc _ => True end.

Lemma change_in_tx_wp faulty args now user d :
  db_ok d -> user_id user = exec_user_id args ->
  pgwp faulty (change_in_tx args now (tx_from_client user)) d (InTx d) (in_tx_post args d).
Proof.
  intros Hok Hu. unfold change_in_tx, evaluate_change_password, in_tx_post.
  destruct (change_locked _ _ _); [split; [done|]; by exists d|].
  simpl. intros [ok|e]; simpl; [|done].
  destruct (ok && _); simpl; [|split; [done|]; by exists d].
  intros [hash|e]; simpl; [|done]. intros stamped.
  apply (pgwp_bind faulty (pg _)). apply pgwp_data_last; [done|by intros|].
  intros n w [= _ <-]. simpl. rewrite Hu.
  set (us := update_where _ _ (users d)).
  assert (Hus : exists h x, us = update_where (fun y => seqb (user_id y) (exec_user_id args)) (set_password h x) (users d))
    by (eexists _, _; reflexivity).
  clearbody us.
  destruct (exec_invalidate_user_sessions args) eqn:Hinv.
  - unfold tx_invalidate_all_sessions. apply pgwp_bind, pgwp_data; [done|by intros|].
    intros n1 w1 [= _ <-]. apply pgwp_data; [done|by intros|]. intros n2 w2 [= _ <-].
    split; [done|]. eexists. split; [done|]. split; [exact Hus|]. split; [done|].
    apply (abs_invalidate_all (exec_user_id args) (with_users d us)).
  - assert (Hsame : forall name, d = d /\ exists w, InTx (with_users d us) = InTx w /\
              change_effect args d (CpOk TokensUnchanged name) w) by (intros name; split; [done|]; by eexists).
    destruct (exec_session_id args) as [sid|] eqn:Hsid; [|exact (Hsame [])].
    destruct (seqb sid []); [exact (Hsame [])|].
    unfold tx_get_session. apply pgwp_bind, pgwp_data; [done|by intros|].
    intros rows w [= <- <-]. simpl.
    destruct (List.filter _ (user_session d)) as [|row rest] eqn:Hf; simpl; [exact (Hsame [])|].
    destruct (refresh_hmac (sess row)) eqn:Hh; [exact (Hsame [])|].
    intros bytes now'. 
    apply (pgwp_bind faulty (pg _)). apply pgwp_data_last; [done|by intros|].
    intros n3 w3 [= <- <-]. simpl.
    destruct (first_refresh_update (exec_user_id args) sid
      (hmac_refresh_token (exec_refresh_hmac_secret args) (b64_encode Base64Url bytes))
      (rotate_session_times now (session_expires_at (sess row)) (session_refresh_ttl_seconds (exec_settings args))).1
      (exec_ip_address args) (exec_user_agent args) (utc_seconds now') SYSTEM_USER_ID _ _ _ Hok Hf Hh)
      as (H1 & H2 & H3).
    rewrite H3. simpl. split; [done|]. eexists. split; [done|]. split; [exact Hus|]. split; [done|].
    exists sid, (rotate_session_times now (session_expires_at (sess row))
                   (session_refresh_ttl_seconds (exec_settings args))).1.
    split; [done|]. unfold memory_issue_first_refresh, abs. cbn [rows]. rewrite H2, Hh.
    rewrite <- H1. reflexivity.
Qed.
End Change.

(** The interface at its implementation on PostgreSQL. *)
Ltac on_client :=
  unfold execute_change_password, change_in_tx, run_locked, make_change_password_apply, run_locked_body;
  cbn [tx_bind tx_call tx_ret pg_monad tx_user get_session apply_password_change issue_first_refresh
       invalidate_all_sessions tx_from_client].

(** What a caller relies on. *)
Lemma execute_frame `{ZX : Zxcvbn} `{HM : Hmac} args :
  wp (execute_change_password (F := M) args) (fun tr o => slot_quiet tr = true /\ response_quiet tr = true).
Proof.
  on_client. unfold in_transaction, evaluate_change_password,
    tx_apply_password_change, tx_invalidate_all_sessions, tx_get_session, tx_issue_first_refresh,
    mint_refresh_token, utc_now, pg.
  wp_run; (split; reflexivity).
Qed.

(** ** The properties *)

(** A password change is accepted exactly when the account is
    neither locked nor past its grace period, the current password verifies
    against the stored hash and every rule on the new one holds.  Unless the
    account is locked, exactly one verification is made, even of an empty
    password, so that refusals cost the same. *)
Theorem change_password_rules `{ZX : Zxcvbn} user input settings now :
  wp (evaluate_change_password user input settings now) (fun tr o =>
    (o = Val ChangeLocked <-> change_locked user settings now = true) /\
    (o = Val ChangeOk <->
       change_locked user settings now = false /\
       verifications tr = [(password_hash user, current_password input, true)] /\
       current_password input <> [] /\ jlen (current_password input) <= PASSWORD_SCHEMA_MAX_CHARS /\
       is_active user = true /\ new_password input = verify_new_password input /\
       new_password input <> current_password input /\
       password_minimum_chars settings <= jlen (new_password input) <= password_maximum_chars settings /\
       password_strength_ok (new_password input) (username user) (display_name user)
         (password_guess_per_second settings) (password_acceptable_crack_time_days settings) = true) /\
    occurs is_verification tr = (if change_locked user settings now then 0%nat else 1%nat)).
Proof.
  unfold evaluate_change_password, change_valid.
  destruct (change_locked user settings now) eqn:Hl; simpl.
  { split_and!; [done|split; [done|by intros [? _]]|done]. }
  intros [ok|e]; simpl; [|split_and!; [done| |done]; split; [done|]; intros (_ & H & _); discriminate H].
  destruct (ok && _) eqn:Hv; simpl.
  - apply andb_true_iff in Hv as [-> Hv]. rewrite !andb_true_iff, !negb_true_iff, !orb_false_iff in Hv.
    destruct Hv as (((((Hc & Ha) & Hm) & Hd) & Hlen) & Hs). destruct Hc as [Hc1 Hc2], Hlen as [Hl1 Hl2].
    apply seqb_neq in Hc1 as Hc1', Hd. apply seqb_eq in Hm. rewrite Hc1.
    apply Z.ltb_ge in Hc2, Hl1, Hl2. split_and!; [done| |done]. split; [|done]. intros _. by split_and!.
  - split_and!; [done| |done]. split; [done|].
    intros (_ & Ht & Hc1 & Hc2 & Ha & Hm & Hd & [Hl1 Hl2] & Hs).
    apply seqb_neq in Hc1, Hd. rewrite Hc1 in Ht. injection Ht as ->.
    rewrite Hc1, Ha, Hd, Hs, (proj2 (seqb_eq _ _) Hm), (proj2 (Z.ltb_ge _ _) Hc2),
      (proj2 (Z.ltb_ge _ _) Hl1), (proj2 (Z.ltb_ge _ _) Hl2) in Hv. discriminate Hv.
Qed.

(** A password change on PostgreSQL is atomic: whichever
    statements are lost and whatever the other calls answer, the new password
    with the reset counter and the change to the user's sessions that goes
    with it are committed together or not at all.  A refusal or a missing user
    commits nothing, and an answer tells exactly what was committed. *)
Theorem change_password_atomic `{ZX : Zxcvbn} `{HM : Hmac} args d faults other : db_ok d ->
  let '(o, s) := interp (pg_handler faults other) (execute_change_password args) (idle d) in
  tx s = NoTx /\ change_atomic args d o (committed s).
Proof.
  intros Hok.
  pose proof (pgwp_sound True (execute_change_password args) (idle d)
    (fun o d' t' => t' = NoTx /\ change_atomic args d o d') faults other (or_intror I)) as H.
  destruct (interp _ _ _) as [o s]. apply H. clear H o s faults other.
  unfold execute_change_password, run_locked, make_change_password_apply.
  cbn [tx_bind tx_call tx_ret pg_monad pgwp bind then_ perform]. intros now. apply pgwp_bind.
  eapply pgwp_mono; [|apply (pgwp_in_transaction True (run_locked_body (exec_user_id args) (change_in_tx args now)) d
    (fun o d' => match o with
                 | Val None => d' = d
                 | Val (Some r) => change_effect args d r d'
                 | Exc _ => d' = d \/ exists r, change_effect args d r d'
                 end))]; simpl.
  - intros [[r|]|e] d' t' [-> HQ]; simpl; auto.
  - auto.
  - unfold run_locked_body. apply pgwp_begin; [auto|]. apply pgwp_data; [done|auto|].
    intros us w [= <- <-]. destruct (List.filter _ (users d)) as [|user us] eqn:Hf.
    + simpl. intros [| |] _; simpl; auto.
    + apply selected_user in Hf as Hu.
      apply pgwp_bind. eapply pgwp_mono; [|by apply change_in_tx_wp].
      intros [r|e] d' t' [-> HQ]; simpl; [|auto]. destruct HQ as (w & -> & Heff).
      intros [| |] _; simpl; eauto.
Qed.

Lemma change_password_atomic_witness :
  let r := interp (pg_handler (fun _ => NoFault) login_calls)
             (@execute_change_password M _ _ sample_zxcvbn sample_hmac sample_change) (idle change_db) in
  r.1 = Val (CpOk LoggedOut (u "alice")) /\ tx r.2 = NoTx /\
  @change_atomic sample_hmac sample_change change_db r.1 (committed r.2).
Proof.
  assert (Hok : db_ok change_db) by (apply NoDup_singleton).
  pose proof (@change_password_atomic sample_zxcvbn sample_hmac sample_change change_db
    (fun _ => NoFault) login_calls Hok) as H.
  assert (Hv : (interp (pg_handler (fun _ => NoFault) login_calls)
     (@execute_change_password M _ _ sample_zxcvbn sample_hmac sample_change) (idle change_db)).1 =
     Val (CpOk LoggedOut (u "alice"))) by (vm_compute; reflexivity).
  destruct (interp _ _ _) as [o s]. split; [exact Hv | exact H].
Defined.
