(* ===== verification/ChangeRefinement.v ===== *)
(** change_password_apply.ts: a change of password on PostgreSQL refines the
    change on the store in memory.  The two implementations of the interface
    of [ChangePassword] get the same answers of the clock, the random source
    and the hash; only the connection may lose statements. *)
From S2P Require Import Prelude JsString JsValue JsDate Settings Effects AuditEvents Tokens Sessions Login ChangePassword.

(** The store in memory that the tables stand for. *)
Definition store_of (d : Db) : MemoryStore := {| memory_users := users d; memory_sessions := abs d |}.

(** [p] with the answers of [other] put in place of the calls that are not
    the connection's. *)
Fixpoint answered {A} (other : forall X, AuthE X -> X) (p : prog AuthE A) : prog AuthE A :=
  match p with
  | Ret a => Ret a
  | @Vis _ _ X e k =>
      match e in AuthE X return (X -> prog AuthE A) -> prog AuthE A with
      | PgConnect => Vis PgConnect
      | PgQuery q => Vis (PgQuery q)
      | PgRelease => Vis PgRelease
      | c => fun run => run (other _ c)
      end (fun x => answered other (k x))
  end.

(** The change on the store in memory, with the answers of [other]. *)
Definition in_memory {A} (other : forall X, AuthE X -> X) (p : InMemory A) (m : MemoryStore) : outcome A * MemoryStore :=
  (interp (answers other) (p m) tt).1.

(** What the statements have left in the open transaction is what the
    operations in memory have left in the store. *)
Definition mirrors {A} (faulty : Prop) (d : Db) (om : outcome A * MemoryStore)
    (o : outcome A) (d' : Db) (t' : TxState) : Prop :=
  d' = d /\
  match o with
  | Val r => om.1 = Val r /\ exists w, t' = InTx w /\ store_of w = om.2
  | Exc e => om = (Exc e, store_of d) \/ faulty
  end.

(** What a run on PostgreSQL answered and committed, against the run in
    memory: the same answer with the same store; or the same exception with
    nothing changed; or, when a statement was lost, an exception with all or
    nothing of the change committed. *)
Definition agrees {A} (faulty : Prop) (d : Db) (om : outcome A * MemoryStore) (o : outcome A) (d' : Db)
    : Prop :=
  match o with
  | Val r => om = (Val r, store_of d')
  | Exc e =>
      d' = d /\ om = (Exc e, store_of d) \/
      faulty /\ (d' = d \/ exists r, om = (Val r, store_of d'))
  end.

(** A change that keeps the sessions, from one that has no token yet. *)
Definition first_token_change : ExecuteArgs := {|
  exec_user_id := exec_user_id sample_change; exec_session_id := exec_session_id sample_change;
  exec_input := exec_input sample_change; exec_invalidate_user_sessions := false;
  exec_settings := exec_settings sample_change; exec_refresh_hmac_secret := [];
  exec_ip_address := None; exec_user_agent := Some (u "browser") |}.

(** ** Lemmas *)

Section Answered.
Context (other : forall X, AuthE X -> X).

Lemma interp_answered {A} faults (p : prog AuthE A) s :
  interp (pg_handler faults other) (answered other p) s = interp (pg_handler faults other) p s.
Proof.
  revert s. induction p as [a|X e k IH]; intros s; simpl; [done|].
  destruct e; simpl; try apply IH.
  destruct (pg_statement _ _ _ _) as [o [d t]]. apply IH.
Qed.

Lemma pgwp_answered_bind {A B} faulty (p : prog AuthE A) (f : A -> prog AuthE B) d t Q :
  pgwp faulty (answered other p) d t (fun a d' t' => pgwp faulty (answered other (f a)) d' t' Q) ->
  pgwp faulty (answered other (bind p f)) d t Q.
Proof.
  revert d t. induction p as [a|X e k IH]; intros d t; simpl; [done|].
  destruct e; simpl; eauto.
  intros H g Hg. specialize (H g Hg). destruct (pg_statement _ _ _ _) as [o [d' t']]. eauto.
Qed.

(** One data statement of an open transaction, which the tables cannot make
    fail: a lost one leaves the transaction aborted. *)
Lemma data_statement {X} faulty (q : query X) d w x w' (P : outcome X -> Db -> TxState -> Prop) :
  is_data q = true -> exec q w = (Val x, w') ->
  (faulty -> P (Exc lost) d AbortedTx) -> P (Val x) d (InTx w') ->
  forall f, f = NoFault \/ faulty -> let '(o, (d', t')) := pg_statement q f d (InTx w) in P o d' t'.
Proof.
  intros Hd Hx He Hk f Hf. unfold pg_statement.
  destruct f; [|destruct Hf as [?|Hf]; [done|by apply He]|];
    destruct q; try done; rewrite Hx; try done; destruct Hf as [?|Hf]; done || by apply He.
Qed.

Context `{ZX : Zxcvbn} `{HM : Hmac}.

Ltac statement := eapply data_statement; [reflexivity|reflexivity|simpl; auto|simpl].
Ltac unchanged := split; [done|]; split; [done|]; eexists; split; reflexivity.

Lemma change_in_tx_refines faulty args now user d :
  db_ok d -> user_id user = exec_user_id args ->
  pgwp faulty (answered other (change_in_tx args now (tx_from_client user))) d (InTx d)
    (mirrors faulty d (in_memory other (change_in_tx args now (memory_tx (exec_user_id args) user)) (store_of d))).
Proof.
  intros Hok Hu. unfold mirrors, in_memory, change_in_tx, evaluate_change_password.
  cbn [tx_bind tx_call tx_ret pg_monad tx_user get_session apply_password_change issue_first_refresh
       invalidate_all_sessions tx_from_client memory_monad memory_tx].
  destruct (change_locked _ _ _); [simpl; eauto 6|].
  simpl. destruct (other _ (VerifyPassword _ _)) as [ok|e]; simpl; [|by auto].
  destruct (ok && _); simpl; [|eauto 6].
  destruct (other _ (HashPassword _)) as [hash|e]; simpl; [|by auto].
  rewrite Hu.
  statement. destruct (exec_invalidate_user_sessions args) eqn:Hinv; simpl.
  - statement. statement. split; [done|]. split; [done|]. eexists. split; [done|].
    unfold store_of, on_sessions. f_equal. apply (abs_invalidate_all _ (with_users d _)).
  - destruct (exec_session_id args) as [sid|]; simpl; [|unchanged].
    destruct (seqb sid []); simpl; [unchanged|].
    statement. rewrite find_head, filter_map, head_map.
    destruct (List.filter _ (user_session d)) as [|row rest] eqn:Hf; simpl; [unchanged|].
    destruct (refresh_hmac (sess row)) eqn:Hh; simpl; [unchanged|].
    statement.
    pose proof (fun hmac exp ip ua t actor =>
      first_refresh_update (exec_user_id args) sid hmac exp ip ua t actor _ row rest Hok Hf Hh) as Hr.
    rewrite (proj2 (proj2 (Hr [] 0 None None 0 []))). simpl.
    unfold on_store, memory_issue_first_refresh, store_of, abs. simpl.
    rewrite (proj1 (proj2 (Hr [] 0 None None 0 []))), Hh. simpl.
    split; [done|]. split; [done|]. eexists. split; [reflexivity|].
    unfold store_of, abs, on_sessions. simpl. do 2 f_equal. apply Hr.
Qed.

(** The bracket of the transaction, with the answers in place. *)
Lemma pgwp_answered_in_transaction {A} faulty (body : M A) d (Q : outcome A -> Db -> Prop) :
  (faulty -> forall e, Q (Exc e) d) ->
  pgwp faulty (answered other body) d NoTx (fun o d' _ => Q o d') ->
  pgwp faulty (answered other (in_transaction body)) d NoTx (fun o d' t' => t' = NoTx /\ Q o d').
Proof.
  intros He Hb. simpl. intros o Ho. destruct o as [[]|e]; simpl.
  - apply pgwp_answered_bind, pgwp_answered_bind. eapply pgwp_mono; [|exact Hb].
    intros [a|e] d' t' HQ; simpl; [done|].
    intros f _. unfold pg_statement.
    destruct f; simpl; (split; [done|]); destruct t'; simpl; done.
  - destruct Ho as [?|Hf]; [done|]. split; [done|]. by apply He.
Qed.

Lemma load_by_id_head uid d :
  memory_load_by_id uid (store_of d) = head (List.filter (fun r => seqb (user_id r) uid) (users d)).
Proof. apply find_head. Qed.

Lemma in_memory_bind {A B} (p : InMemory A) (f : A -> InMemory B) m :
  in_memory other (tx_bind p f) m =
  match in_memory other p m with
  | (Val a, m') => in_memory other (f a) m'
  | (Exc e, m') => (Exc e, m')
  end.
Proof.
  unfold in_memory. simpl. rewrite interp_bind.
  destruct (interp (answers other) (p m) tt) as [[[a|e] m'] []]; done.
Qed.

Lemma in_memory_on_store {A} (f : MemoryStore -> A * MemoryStore) m :
  in_memory other (on_store f) m = (Val (f m).1, (f m).2).
Proof. unfold in_memory, on_store. by destruct (f m). Qed.

Lemma in_memory_locked {A} uid (fm : LockedChangePasswordTx InMemory -> InMemory A) d :
  in_memory other (memory_change_password_apply A uid fm) (store_of d) =
  match List.filter (fun r => seqb (user_id r) uid) (users d) with
  | [] => (Val None, store_of d)
  | user :: _ =>
      match in_memory other (fm (memory_tx uid user)) (store_of d) with
      | (Val a, m) => (Val (Some a), m)
      | (Exc e, m) => (Exc e, m)
      end
  end.
Proof.
  unfold memory_change_password_apply. rewrite in_memory_bind, in_memory_on_store.
  cbn [fst snd]. rewrite load_by_id_head.
  destruct (List.filter _ _) as [|user us]; cbn [head]; [done|].
  rewrite in_memory_bind. by destruct (in_memory _ _ _) as [[a|e] m].
Qed.

(** The two implementations of [run_locked] run functions that mirror each
    other in agreement. *)
Lemma run_locked_refines {A} faulty uid (fn : LockedChangePasswordTx M -> M A)
    (fm : LockedChangePasswordTx InMemory -> InMemory A) d :
  (forall user, user_id user = uid ->
     pgwp faulty (answered other (fn (tx_from_client user))) d (InTx d)
       (mirrors faulty d (in_memory other (fm (memory_tx uid user)) (store_of d)))) ->
  pgwp faulty (answered other (make_change_password_apply A uid fn)) d NoTx (fun o d' t' =>
    t' = NoTx /\ agrees faulty d (in_memory other (memory_change_password_apply A uid fm) (store_of d)) o d').
Proof.
  intros Hfn. apply pgwp_answered_in_transaction; [simpl; auto|].
  rewrite in_memory_locked. unfold run_locked_body. apply pgwp_answered_bind.
  simpl. intros f Hf. destruct f; [clear Hf| |]; simpl; try (destruct Hf as [?|Hf]; [done|auto]).
  eapply data_statement; [reflexivity|reflexivity|simpl; auto|cbv beta iota].
  destruct (List.filter _ (users d)) as [|user us] eqn:Hus.
  { simpl. intros f Hf. destruct f; simpl; [done| |]; (destruct Hf as [?|Hf]; [done|auto]). }
  apply pgwp_answered_bind. eapply pgwp_mono; [|apply Hfn, (selected_user _ _ _ _ Hus)].
  destruct (in_memory _ (fm _) _) as [om m]. unfold mirrors. cbn [fst snd].
  intros [r|e] d' t' [-> H]; simpl.
  - destruct H as (-> & w & -> & <-). intros f Hf. destruct f; simpl; [done| |];
      (destruct Hf as [?|Hf]; [done|]); eauto.
  - destruct H as [[= -> ->]|Hf]; auto.
Qed.
End Answered.

(** The change as a whole, from the tables [d] on an idle connection. *)
Lemma execute_refines `{ZX : Zxcvbn} `{HM : Hmac} other faulty args d : db_ok d ->
  pgwp faulty (answered other (execute_change_password (F := M) args)) d NoTx (fun o d' t' =>
    t' = NoTx /\ agrees faulty d (in_memory other (execute_change_password args) (store_of d)) o d').
Proof.
  intros Hok. unfold execute_change_password, run_locked. rewrite in_memory_bind.
  apply pgwp_answered_bind. change (in_memory other (tx_call (perform NewDate)) (store_of d))
    with (Val (other _ NewDate), store_of d). cbn [answered perform tx_call pg_monad pgwp].
  rewrite in_memory_bind. apply pgwp_answered_bind.
  eapply pgwp_mono; [|apply run_locked_refines; intros user Hu; by apply change_in_tx_refines].
  destruct (in_memory _ (memory_change_password_apply _ _ _) _) as [om m].
  intros [[r|]|e] d' t' [-> H]; cbn [agrees] in H; simpl; (split; [done|]).
  1,2: by injection H as -> ->.
  destruct H as [[-> [= -> ->]]|[Hf [->|[[r|] [= -> ->]]]]]; eauto 7.
Qed.

(** Property C24. A change of password on PostgreSQL refines the change on
    the store in memory, which is the specification of the interface: with the
    same answers of the clock, the random source and the hash, what it answers
    is what the change in memory answers, and the accounts, sessions and
    exchanged tokens that it commits are the store that the change in memory
    leaves.  It throws what the change in memory throws, with nothing
    committed; when statements are lost it may also throw instead, and then the
    change is committed entirely or not at all.  The connection always ends
    idle. *)
Theorem change_password_refines_memory `{ZX : Zxcvbn} `{HM : Hmac} args d faults other : db_ok d ->
  let '(o, s) := interp (pg_handler faults other) (execute_change_password args) (idle d) in
  let om := in_memory other (execute_change_password args) (store_of d) in
  tx s = NoTx /\ agrees True d om o (committed s) /\
  ((forall n, faults n = NoFault) -> agrees False d om o (committed s)).
Proof.
  intros Hok.
  pose proof (fun faulty Hf => pgwp_sound faulty _ (idle d) _ faults other Hf
    (execute_refines other faulty args d Hok)) as H.
  rewrite !interp_answered in H. pose proof (H True (or_intror I)) as H1.
  destruct (interp _ _ _) as [o s]. destruct H1 as [H1 H2].
  split; [done|]. split; [done|]. intros Hf. apply (H False (or_introl Hf)).
Qed.

Lemma change_password_refines_memory_witness :
  let r := interp (pg_handler (fun _ => NoFault) login_calls)
             (@execute_change_password M _ _ sample_zxcvbn sample_hmac first_token_change) (idle change_db) in
  let om := in_memory login_calls
              (@execute_change_password InMemory _ _ sample_zxcvbn sample_hmac first_token_change)
              (store_of change_db) in
  (exists token age, r.1 = Val (CpOk (FirstRefresh token age) (u "alice")) /\
     map refresh_hmac (rows (memory_sessions om.2)) = [Some token]) /\
  tx r.2 = NoTx /\ om = (r.1, store_of (committed r.2)).
Proof.
  assert (Hok : db_ok change_db) by (apply NoDup_singleton).
  pose proof (@change_password_refines_memory sample_zxcvbn sample_hmac first_token_change change_db
    (fun _ => NoFault) login_calls Hok) as H.
  intros r om.
  assert (Hv : exists token age, r.1 = Val (CpOk (FirstRefresh token age) (u "alice")) /\
     map refresh_hmac (rows (memory_sessions om.2)) = [Some token])
    by (eexists _, _; split; vm_compute; reflexivity).
  split; [exact Hv|]. fold r in H. clearbody r. destruct r as [o s].
  destruct H as (H1 & _ & H2). split; [exact H1|]. specialize (H2 (fun _ => eq_refl)).
  destruct Hv as (token & age & Ho & _). simpl in Ho. rewrite Ho in H2. simpl. rewrite Ho. exact H2.
Defined.
