(* ===== verification/Users.v ===== *)
(** users.ts: the repository of the accounts on PostgreSQL, and
    [run_change_password] of change_password.ts, which uses it.  The logins of
    login_pipeline.ts on these tables: how failed attempts lock an account, and
    what concurrent attempts do to the count. *)
From S2P Require Import Prelude JsString JsValue JsDate Settings Effects AuditEvents Tokens Sessions Login ChangePassword.

(** ** The repository

    [from_row] and the select list copy the columns, which are the fields of
    [LoadedUser]. *)
Definition load_by_username (folded : jstr) : M (option LoadedUser) :=
  let* rows := pg (QSelectUserByName folded) in ret (head rows).

Definition load_by_id (id : jstr) : M (option LoadedUser) :=
  let* rows := pg (QSelectUserById id) in ret (head rows).

Definition set_failed_login_count (id : jstr) (count : Z) : M unit :=
  let* stamped := utc_now in
  let* _ := pg (QUpdateFailedCount count stamped SYSTEM_USER_ID id) in
  ret tt.

Definition apply_password_change (id hash : jstr) (expires : Z) (actor_id : jstr) : M unit :=
  let* stamped := utc_now in
  let* _ := pg (QUpdatePassword hash (utc_seconds expires) stamped actor_id id) in
  ret tt.

(** ** [run_change_password] *)

Inductive ChangePasswordOutcome :=
| ChangedUntil (user : LoadedUser) (password_expires_at : Z)
| NotChanged (verdict : ChangePasswordVerdict).

Definition run_change_password `{Zxcvbn} (user : LoadedUser) (input : ChangePasswordInput)
    (settings : LoginProcessSettings) (now : Z) : M ChangePasswordOutcome :=
  let* evaluated := evaluate_change_password user input settings now in
  match evaluated with
  | ChangeOk =>
      let password_expires_at := utc_seconds (now + password_expiry_days settings * 86400000) in
      let* new_hash := call (HashPassword (new_password input)) in
      let* _ := apply_password_change (user_id user) new_hash password_expires_at (user_id user) in
      ret (ChangedUntil user password_expires_at)
  | verdict => ret (NotChanged verdict)
  end.

(** ** Statements on the tables *)

(** [pool.query]: each statement runs on its own. *)
Definition pool (other : forall X, AuthE X -> X) : handler AuthE Db := fun X e =>
  match e in AuthE X return Db -> X * Db with
  | PgQuery q => fun d => exec q d
  | c => fun d => (other _ c, d)
  end.

(** The calls of the pipelines that the repository answers, on the tables. *)
Definition accounts (other : forall X, AuthE X -> X) : handler AuthE Db := fun X e =>
  match e in AuthE X return Db -> X * Db with
  | LoadByUsername folded => interp (pool other) (load_by_username folded)
  | LoadById id => interp (pool other) (load_by_id id)
  | SetFailedLoginCount id count => interp (pool other) (set_failed_login_count id count)
  | PgQuery q => fun d => exec q d
  | c => fun d => (other _ c, d)
  end.

(** The primary key and the unique user names. *)
Definition users_ok (d : Db) : Prop :=
  NoDup (map user_id (users d)) /\ NoDup (map username (users d)).

(** The account with this identifier or name. *)
Definition account (d : Db) (id : jstr) : option LoadedUser :=
  find (fun r => seqb (user_id r) id) (users d).

Definition account_named (d : Db) (name : jstr) : option LoadedUser :=
  find (fun r => seqb (username r) name) (users d).

(** ** Lemmas *)

Lemma head_filter_find {A} (p : A -> bool) l : head (List.filter p l) = find p l.
Proof. induction l as [|x l IH]; simpl; [done|]. by destruct (p x). Qed.

Lemma load_by_username_on other folded d :
  interp (pool other) (load_by_username folded) d = (Val (account_named d folded), d).
Proof. unfold load_by_username, account_named. simpl. by rewrite head_filter_find. Qed.

Lemma load_by_id_on other id d :
  interp (pool other) (load_by_id id) d = (Val (account d id), d).
Proof. unfold load_by_id, account. simpl. by rewrite head_filter_find. Qed.

Definition with_count (id : jstr) (count : Z) (d : Db) : Db :=
  with_users d (update_where (fun r => seqb (user_id r) id) (set_failed_count count) (users d)).

Lemma set_failed_login_count_on other id count d :
  interp (pool other) (set_failed_login_count id count) d = (Val tt, with_count id count d).
Proof. done. Qed.

Lemma apply_password_change_on other id hash expires actor d :
  interp (pool other) (apply_password_change id hash expires actor) d =
  (Val tt, with_users d (update_where (fun r => seqb (user_id r) id)
                           (set_password hash (utc_seconds expires)) (users d))).
Proof. done. Qed.

(** An update of one account keeps the keys, and is read back. *)
Lemma find_update (key : LoadedUser -> jstr) k id (f : LoadedUser -> LoadedUser) l :
  (forall r, key (f r) = key r) ->
  find (fun r => seqb (key r) k) (update_where (fun r => seqb (user_id r) id) f l) =
  match find (fun r => seqb (key r) k) l with
  | Some r => Some (if seqb (user_id r) id then f r else r)
  | None => None
  end.
Proof.
  intros Hf. induction l as [|r l IH]; simpl; [done|].
  assert (Hk : key (if seqb (user_id r) id then f r else r) = key r) by (destruct (seqb _ _); auto).
  rewrite Hk. destruct (seqb (key r) k); [done|]. exact IH.
Qed.

Lemma map_update (key : LoadedUser -> jstr) id (f : LoadedUser -> LoadedUser) l :
  (forall r, key (f r) = key r) ->
  map key (update_where (fun r => seqb (user_id r) id) f l) = map key l.
Proof.
  intros Hf. unfold update_where. rewrite map_map. apply map_ext. intros r. destruct (seqb _ _); auto.
Qed.

Lemma users_ok_with_count id count d : users_ok d -> users_ok (with_count id count d).
Proof. intros [H1 H2]. unfold users_ok, with_count. simpl. by rewrite !map_update. Qed.

Lemma account_find d id r : account d id = Some r -> user_id r = id /\ r ∈ users d.
Proof. intros [Hin Hr]%find_some. apply seqb_eq in Hr. split; [done|by apply list_elem_of_In]. Qed.

Lemma named_find d name r : account_named d name = Some r -> username r = name /\ r ∈ users d.
Proof. intros [Hin Hr]%find_some. apply seqb_eq in Hr. split; [done|by apply list_elem_of_In]. Qed.

(** Accounts with the same identifier are the same. *)
Lemma same_account d r s : users_ok d -> r ∈ users d -> s ∈ users d -> user_id r = user_id s -> r = s.
Proof.
  intros [Hd _] Hr Hs He. apply list_elem_of_lookup_1 in Hr as [i Hi]. apply list_elem_of_lookup_1 in Hs as [j Hj].
  assert (i = j) as ->; [|congruence].
  eapply NoDup_lookup; [exact Hd| |]; rewrite list_lookup_fmap, ?Hi, ?Hj; [done|]. simpl. by rewrite He.
Qed.

(** ** An attempt to log in, on the tables *)

Definition denied (r : outcome LoginPipelineResult) : Prop :=
  forall uid must_change, r <> Val (LoginSuccess uid must_change).

(** What one attempt does to the accounts: nothing, one more failure, or a
    reset of the count, which only an account below its limit gets. *)
Definition attempt_effect (settings : LoginProcessSettings) (ctx : LoginRequestContext)
    (other : forall X, AuthE X -> X) (d : Db) (r : outcome LoginPipelineResult) (d' : Db) : Prop :=
  (d' = d /\ denied r) \/
  exists user, account_named d (fold_username (provided_username ctx)) = Some user /\
    ((d' = with_count (user_id user) (failed_login_count user + 1) d /\ denied r) \/
     (d' = with_count (user_id user) 0 d /\ is_active user = true /\
      failed_login_count user < maximum_failed_count settings /\
      other _ (VerifyPassword (password_hash user) (login_password ctx)) = Val true /\
      forall uid must_change, r = Val (LoginSuccess uid must_change) -> uid = user_id user)).

(** Runs a program on the tables, by cases on the answers it gets. *)
Ltac serve other :=
  repeat (cbn [interp bind accounts negb];
    first
      [ rewrite load_by_username_on
      | rewrite set_failed_login_count_on
      | match goal with
        | |- context [match other (outcome ?X) ?c with _ => _ end] => destruct (other (outcome X) c) eqn:?
        | |- context [if other bool ?c then _ else _] => destruct (other bool c)
        | |- context [if negb (other bool ?c) then _ else _] => destruct (other bool c)
        | |- context [interp (accounts other) ?p _] => head_case p
        end ]).

Lemma login_attempt_effect settings dummy ctx other d :
  let '(r, d') := interp (accounts other) (run_login_pipeline settings dummy ctx) d in
  attempt_effect settings ctx other d r d'.
Proof.
  unfold run_login_pipeline, login_held, login_landing, judge, update_counter, login_audit_event, make_event,
    new_correlation_id, audit_timestamp. io_unfold.
  serve other; cbv beta iota; try (by left); right; eexists; (split; [eassumption|]); test_facts;
    first [by left | right; split_and!; try done; intros ? ? [=]; congruence].
Qed.

(** An attempt that reached the account [user] with a password that does not
    match. *)
Definition wrong_password (settings : LoginProcessSettings) (ctx : LoginRequestContext)
    (other : forall X, AuthE X -> X) (user : LoadedUser) : Prop :=
  let folded := fold_username (provided_username ctx) in
  let key := if username_is_valid folded then folded else INVALID_OR_OVERSIZE in
  folded = username user /\
  (exists t, other _ (DrawT (process_time_minimum_ms settings) (process_time_maximum_ms settings)) = Val t) /\
  (exists rl, other _ (RlEvaluate key (login_source_ip ctx)) = Val rl /\
     early_denial (username_is_valid folded) (lockout rl) (login_password ctx) = None) /\
  other _ SlotTryAcquire = true /\
  other _ (VerifyPassword (password_hash user) (login_password ctx)) = Val false.

Lemma wrong_password_counts settings dummy ctx other d user :
  account_named d (username user) = Some user -> wrong_password settings ctx other user ->
  (interp (accounts other) (run_login_pipeline settings dummy ctx) d).2 =
  with_count (user_id user) (failed_login_count user + 1) d.
Proof.
  intros Hu (Hname & (t & Ht) & (rl & Hrl & Hearly) & Hslot & Hv).
  login_cases. io_unfold.
  cbn [interp bind accounts]. rewrite Ht. cbn [interp bind accounts]. rewrite Hrl. cbn [interp bind accounts].
  rewrite Hearly. cbn [interp bind accounts]. rewrite Hslot. cbn [negb interp bind accounts].
  rewrite load_by_username_on, Hname, Hu. cbn [interp bind accounts]. rewrite Hv.
  cbn [negb interp bind accounts]. rewrite set_failed_login_count_on. serve other; done.
Qed.

(** ** Attempts one after the other *)

Record Attempt := {
  attempt_settings : LoginProcessSettings;
  attempt_dummy : jstr;
  attempt_ctx : LoginRequestContext;
  attempt_other : forall X, AuthE X -> X }.

Definition attempt_on (a : Attempt) (d : Db) : outcome LoginPipelineResult * Db :=
  interp (accounts (attempt_other a)) (run_login_pipeline (attempt_settings a) (attempt_dummy a) (attempt_ctx a)) d.

Fixpoint attempts_on (l : list Attempt) (d : Db) : list (outcome LoginPipelineResult) * Db :=
  match l with
  | [] => ([], d)
  | a :: rest => let '(r, d1) := attempt_on a d in
                 let '(rs, d2) := attempts_on rest d1 in (r :: rs, d2)
  end.

Lemma account_with_count id count k d :
  account (with_count id count d) k =
  option_map (fun r => if seqb (user_id r) id then set_failed_count count r else r) (account d k).
Proof.
  unfold account, with_count. simpl. rewrite find_update by done. by destruct (find _ _).
Qed.

Lemma named_with_count id count k d :
  account_named (with_count id count d) k =
  option_map (fun r => if seqb (user_id r) id then set_failed_count count r else r) (account_named d k).
Proof.
  unfold account_named, with_count. simpl. rewrite find_update by done. by destruct (find _ _).
Qed.

Lemma account_of d r : users_ok d -> r ∈ users d -> account d (user_id r) = Some r.
Proof.
  intros Hok Hr. destruct (account d (user_id r)) as [s|] eqn:Hs.
  - apply account_find in Hs as [Hid Hs]. f_equal. by eapply same_account.
  - exfalso. unfold account in Hs. apply list_elem_of_In in Hr. eapply find_none in Hs; [|exact Hr].
    by rewrite seqb_refl in Hs.
Qed.

(** The account [id] has reached the count [n]. *)
Definition locked_at (id : jstr) (n : Z) (d : Db) : Prop :=
  users_ok d /\ exists user, account d id = Some user /\ n <= failed_login_count user.

Lemma attempt_keeps_lock a d id n : locked_at id n d -> maximum_failed_count (attempt_settings a) <= n ->
  let '(r, d') := attempt_on a d in
  locked_at id n d' /\ forall must_change, r <> Val (LoginSuccess id must_change).
Proof.
  intros [Hok (user & Hu & Hn)] Hmax. unfold attempt_on.
  pose proof (login_attempt_effect (attempt_settings a) (attempt_dummy a) (attempt_ctx a) (attempt_other a) d) as He.
  destruct (interp _ _ d) as [r d']. destruct (account_find _ _ _ Hu) as [Hid Hin].
  destruct He as [[-> Hd]|(v & Hv & He)]; [split; [split; [done|by exists user]|intros b; apply Hd]|].
  apply named_find in Hv as [_ Hvin].
  destruct He as [[-> Hd]|(-> & _ & Hlt & _ & Hr)].
  - split; [|intros b; apply Hd]. split; [by apply users_ok_with_count|].
    rewrite account_with_count, Hu. simpl. eexists. split; [done|].
    destruct (seqb (user_id user) (user_id v)) eqn:Heq; [|done]. apply seqb_eq in Heq.
    assert (user = v) as -> by (by eapply same_account). simpl. lia.
  - assert (Hne : user_id v <> id).
    { intros Heq. assert (user = v) as -> by (eapply same_account; [done..|congruence]). lia. }
    split; [|intros b Hb; apply Hr in Hb; congruence]. split; [by apply users_ok_with_count|].
    rewrite account_with_count, Hu. simpl. exists user. split; [|done].
    destruct (seqb (user_id user) (user_id v)) eqn:Heq; [|done]. apply seqb_eq in Heq. congruence.
Qed.

Lemma attempts_keep_lock l d id n : locked_at id n d ->
  Forall (fun a => maximum_failed_count (attempt_settings a) <= n) l ->
  let '(rs, d') := attempts_on l d in
  locked_at id n d' /\ Forall (fun r => forall must_change, r <> Val (LoginSuccess id must_change)) rs.
Proof.
  revert d. induction l as [|a l IH]; intros d Hd Hl; [done|]. apply Forall_cons in Hl as [Ha Hl].
  pose proof (attempt_keeps_lock a d id n Hd Ha) as H1. simpl.
  destruct (attempt_on a d) as [r d1]. destruct H1 as [Hd1 Hr]. specialize (IH d1 Hd1 Hl).
  destruct (attempts_on l d1) as [rs d2]. destruct IH as [Hd2 Hrs]. split; [done|]. by constructor.
Qed.

(** The account as it is after [n] more failures. *)
Definition failed_more (user : LoadedUser) (n : nat) : LoadedUser :=
  set_failed_count (failed_login_count user + Z.of_nat n) user.

Lemma wrong_passwords_count l d user : users_ok d -> user ∈ users d ->
  Forall (fun a => wrong_password (attempt_settings a) (attempt_ctx a) (attempt_other a) user) l ->
  users_ok (attempts_on l d).2 /\
  account (attempts_on l d).2 (user_id user) = Some (failed_more user (length l)).
Proof.
  intros Hok Hin Hl. revert d user Hok Hin Hl. induction l as [|a l IH]; intros d user Hok Hin Hl.
  - split; [done|]. simpl. rewrite account_of by done. unfold failed_more. simpl. rewrite Z.add_0_r. by destruct user.
  - apply Forall_cons in Hl as [Ha Hl]. simpl.
    assert (Hnamed : account_named d (username user) = Some user).
    { destruct Hok as [Hid Hname]. unfold account_named. destruct (find _ (users d)) as [v|] eqn:Hf.
      - apply find_some in Hf as [Hv%list_elem_of_In He%seqb_eq]. f_equal.
        apply list_elem_of_lookup_1 in Hv as [i Hi]. apply list_elem_of_lookup_1 in Hin as [j Hj].
        assert (i = j) as ->; [|congruence].
        eapply NoDup_lookup; [exact Hname| |]; rewrite list_lookup_fmap, ?Hi, ?Hj; [done|]. simpl. by rewrite He.
      - apply list_elem_of_In in Hin. eapply find_none in Hf; [|exact Hin]. by rewrite seqb_refl in Hf. }
    pose proof (wrong_password_counts _ (attempt_dummy a) _ _ d user Hnamed Ha) as Hd1. unfold attempt_on.
    destruct (interp _ _ d) as [r d1]. simpl in Hd1. subst d1.
    set (d1 := with_count (user_id user) (failed_login_count user + 1) d).
    set (user1 := set_failed_count (failed_login_count user + 1) user).
    assert (Hok1 : users_ok d1) by (by apply users_ok_with_count).
    assert (Hu1 : account d1 (user_id user1) = Some user1).
    { unfold d1. rewrite account_with_count. simpl. rewrite account_of by done. simpl. by rewrite seqb_refl. }
    destruct (IH d1 user1 Hok1) as [Hok2 Hacc]; [by apply account_find in Hu1 as [_ ?]| |].
    { eapply Forall_impl; [exact Hl|]. intros b Hb. exact Hb. }
    destruct (attempts_on l d1) as [rs d2]. simpl in *. split; [done|]. rewrite Hacc. unfold failed_more, user1.
    f_equal. unfold set_failed_count. simpl. f_equal. lia.
Qed.


(** An attempt with this password at the sample account. *)
Definition sample_attempt (password : string) : Attempt := {|
  attempt_settings := login sample_settings; attempt_dummy := u "dummy";
  attempt_ctx := {| provided_username := u " Alice "; login_password := u password; login_source_ip := None;
    login_protocol := None; login_host := None; login_context_path := u "/login"; login_user_agent := None |};
  attempt_other := login_calls |}.

Definition sample_accounts : Db :=
  {| user_session := []; used_refresh_token := []; users := [sample_user] |}.


(** ** Attempts at the same time *)

(** One call of a program on the tables. *)
Definition next_call {A} (h : handler AuthE Db) (p : prog AuthE A) (d : Db) : prog AuthE A * Db :=
  match p with
  | Ret a => (Ret a, d)
  | Vis e k => let '(x, d') := h _ e d in (k x, d')
  end.

(** The programs take turns as the schedule says ([true] is the first's turn)
    and then run to their ends. *)
Fixpoint race {A B} (h : handler AuthE Db) (turns : list bool) (p : prog AuthE A) (q : prog AuthE B) (d : Db)
    : A * B * Db :=
  match turns with
  | true :: rest => let '(p', d') := next_call h p d in race h rest p' q d'
  | false :: rest => let '(q', d') := next_call h q d in race h rest p q' d'
  | [] => let '(a, d1) := interp h p d in let '(b, d2) := interp h q d1 in (a, b, d2)
  end.

Definition race_attempts (turns : list bool) (a b : Attempt) (d : Db) :=
  race (accounts login_calls) turns
    (run_login_pipeline (attempt_settings a) (attempt_dummy a) (attempt_ctx a))
    (run_login_pipeline (attempt_settings b) (attempt_dummy b) (attempt_ctx b)) d.

Definition count_of (d : Db) : option Z := option_map failed_login_count (account d (user_id sample_user)).

(** The count is read and written back: two attempts with wrong passwords that
    overlap are counted as one. *)
Example parallel_failures_count_once :
  let '(r1, r2, d) := race_attempts (repeat true 6 ++ repeat false 6) (sample_attempt "a") (sample_attempt "b")
                        sample_accounts in
  r1 = Val LoginDenied /\ r2 = Val LoginDenied /\ count_of d = Some 3.
Proof. vm_compute. repeat split. Qed.

(** An account that failures have just locked is unlocked by a login that was
    under way. *)
Example lock_lost_in_flight :
  let d0 := (attempts_on [sample_attempt "a"; sample_attempt "b"] sample_accounts).2 in
  let '(r1, r2, d) := race_attempts (repeat true 6 ++ repeat false 9) (sample_attempt "secret") (sample_attempt "b") d0 in
  count_of d0 = Some 4 /\ r2 = Val LoginDenied /\
  r1 = Val (LoginSuccess (user_id sample_user) false) /\ count_of d = Some 0.
Proof. vm_compute. repeat split. Qed.

(** ** Changing a password through the repository *)

(** A change that was accepted is found by the next lookup, with the count
    reset and the expiry on a whole second; every other account and every
    refused change leaves the tables as they were. *)
Lemma run_change_password_effect `{Zxcvbn} other user input settings now d :
  users_ok d -> user ∈ users d ->
  let '(r, d') := interp (accounts other) (run_change_password user input settings now) d in
  match r with
  | Val (ChangedUntil who expires) =>
      who = user /\ change_valid user input settings = true /\ expires mod 1000 = 0 /\
      exists hash, other _ (HashPassword (new_password input)) = Val hash /\
        account d' (user_id user) = Some (set_password hash expires user) /\
        forall id, id <> user_id user -> account d' id = account d id
  | _ => d' = d
  end.
Proof.
  intros Hok Hin. unfold run_change_password, evaluate_change_password.
  destruct (change_locked user settings now); [done|]. io_unfold. cbn [interp bind accounts].
  destruct (other _ (VerifyPassword _ _)) as [ok|e]; cbn [interp bind accounts]; [|done].
  destruct (ok && change_valid user input settings) eqn:Hok'; cbn [interp bind accounts]; [|done].
  apply andb_true_iff in Hok' as [_ Hvalid].
  destruct (other _ (HashPassword _)) as [hash|e] eqn:Hh; cbn [interp bind accounts]; [|done].
  set (expires := utc_seconds (now + password_expiry_days settings * 86400000)).
  cbn. split; [done|]. split; [done|]. split; [unfold expires, utc_seconds; by rewrite Z.mod_mul|].
  exists hash. split; [done|].
  assert (Hfind : forall id, account (with_users d (update_where (fun r => seqb (user_id r) (user_id user))
      (set_password hash (utc_seconds expires)) (users d))) id =
    match account d id with
    | Some r => Some (if seqb (user_id r) (user_id user) then set_password hash (utc_seconds expires) r else r)
    | None => None
    end) by (intros id; by apply find_update).
  subst expires. setoid_rewrite utc_seconds_idemp in Hfind. rewrite utc_seconds_idemp. split.
  - etransitivity; [exact (Hfind _)|]. by rewrite account_of, seqb_refl, utc_seconds_idemp.
  - intros id Hid. etransitivity; [exact (Hfind _)|]. destruct (account d id) as [r|] eqn:Hr; [|done].
    apply account_find in Hr as [<- _]. by rewrite (proj2 (seqb_neq _ _)).
Qed.
