(* ===== verification/Http.v ===== *)
(** The HTTP layer of the auth service (http.ts, server.ts): routing, the
    CSRF and origin guard, and the handlers around the pipelines.

    zod and the WHATWG URL parser are parameters.  A handler is a program
    whose calls include the writes to the response; an exception that leaves
    [handle_request] is caught by [serve], the listener of server.ts. *)
From S2P Require Import Prelude JsString JsValue JsDate JsText Settings Effects AuditEvents Tokens.
From S2P Require Import Sessions Jwt Login Refresh Cookies ChangePassword.

(** ** Parameters *)

(** The field types that the schemas use; every field is optional. *)
Inductive ZField := ZString | ZStringMin (n : Z) | ZBoolOrString.

(** zod's [z.object(fields).safeParse(value)]: the parsed members when it
    succeeds. *)
Class Zod := safeParse : list (jstr * ZField) -> jsval -> option (list (jstr * jsval)).

(** The path name of a request target; [None] when it does not parse. *)
Class UrlPath := url_pathname : jstr -> option jstr.

(** ** Requests *)

Inductive HeaderValue := HOne (s : jstr) | HMany (l : list jstr).

(** A request: its target, its headers by lower-case name, the peer address
    and the chunks of its body, which may end with a stream error. *)
Record Request := {
  req_method : option jstr;
  req_url : option jstr;
  req_headers : list (jstr * HeaderValue);
  req_remote : option jstr;
  req_body : list (list Z);
  req_body_error : option exn }.

(** The parts of [AuthConfig] that are values. *)
Record AuthConfig := {
  public_origin : jstr;
  cookie_secure : bool;
  refresh_hmac_secret : list Z;
  dummy_hash : jstr }.

Definition header_value (value : option HeaderValue) : option jstr :=
  match value with
  | None => None
  | Some (HOne s) => Some s
  | Some (HMany l) => head l
  end.

Definition header (req : Request) (name : jstr) : option jstr :=
  header_value (match find (fun kv => seqb kv.1 name) (req_headers req) with
                | Some (_, v) => Some v
                | None => None
                end).

(** [value ?? ""] *)
Definition or_empty (s : option jstr) : jstr := match s with Some v => v | None => [] end.

Definition CSRF_PATH : jstr := u "/api/v2/auth/csrf".
Definition LOGIN_PATH : jstr := u "/api/v2/auth/login".
Definition REFRESH_PATH : jstr := u "/api/v2/auth/refresh".
Definition LOGOUT_PATH : jstr := u "/api/v2/auth/logout".
Definition ME_PATH : jstr := u "/api/v2/auth/me".
Definition CHANGE_PASSWORD_PATH : jstr := u "/api/v2/auth/change-password".
Definition HEALTH_PATH : jstr := u "/health".
Definition MAX_BODY_BYTES := 8192.

Fixpoint read_chunks (total : Z) (chunks : list (list Z)) (failed : option exn) : outcome (list Z) :=
  match chunks with
  | [] => match failed with Some e => Exc e | None => Val [] end
  | buf :: rest =>
      let total' := total + Z.of_nat (length buf) in
      if MAX_BODY_BYTES <? total' then Exc (Error_ "body too large")
      else match read_chunks total' rest failed with
           | Val bs => Val (buf ++ bs)
           | Exc e => Exc e
           end
  end.

Definition read_body (req : Request) : outcome jstr :=
  match read_chunks 0 (req_body req) (req_body_error req) with
  | Val bs => Val (utf8_decode bs)
  | Exc e => Exc e
  end.

(** ** Responses *)

Definition json (status : Z) (payload : list (jstr * jsval)) : M unit :=
  let body := utf8_bytes (or_empty (json_stringify (VObj payload))) in
  let* _ := perform (RespStatus status) in
  let* _ := perform (RespHeader "Content-Type" [u "application/json"]) in
  let* _ := perform (RespHeader "Content-Length" [num_to_string (Z.of_nat (length body))]) in
  perform (RespEnd body).

Definition redirect (location : jstr) : M unit :=
  let* _ := perform (RespStatus 302) in
  let* _ := perform (RespHeader "Location" [location]) in
  perform (RespEnd []).

Definition set_cookies (cookies : list jstr) : M unit := perform (RespHeader "Set-Cookie" cookies).

Definition detail (text : jstr) : list (jstr * jsval) := [(u "detail", VStr text)].

Definition credentials_denied (retry : bool) : M unit :=
  json 401 (detail "Could not validate credentials" ++
            if retry then [(u "retry", VBool true)] else []).

(** ** Bodies *)

Definition login_form_schema : list (jstr * ZField) :=
  [(u "csrf_token", ZStringMin 1); (u "username", ZString); (u "password", ZString); (u "next", ZString)].

Definition refresh_body_schema : list (jstr * ZField) :=
  [(u "csrf_token", ZStringMin 1); (u "refresh_token", ZString)].

Definition logout_body_schema : list (jstr * ZField) :=
  [(u "csrf_token", ZStringMin 1); (u "refresh_token", ZString)].

Definition change_password_schema : list (jstr * ZField) :=
  [(u "csrf_token", ZStringMin 1); (u "current_password", ZString); (u "new_password", ZString);
   (u "verify_new_password", ZString); (u "invalidate_user_sessions", ZBoolOrString)].

Section Handlers.
Context `{J : Jose} `{HM : Hmac} `{ZX : Zxcvbn} `{UP : UrlParser} `{PA : UrlPath} `{ZO : Zod}.

(** The common body of [parse_login_body], [parse_refresh_body] and
    [parse_logout_body]: [None] is malformed JSON. *)
Definition parse_body (schema : list (jstr * ZField)) (req : Request) (body : jstr)
    : option (list (jstr * jsval)) :=
  let content_type := or_empty (header req "content-type") in
  let parsed v := match safeParse schema v with Some data => data | None => [] end in
  if includes (u "application/json") content_type then
    match json_parse body with
    | Some v => Some (parsed v)
    | None => None
    end
  else if includes (u "application/x-www-form-urlencoded") content_type then
    Some (parsed (object_from_entries (url_search_params body)))
  else Some [].

Definition parse_login_body := parse_body login_form_schema.
Definition parse_refresh_body := parse_body refresh_body_schema.
Definition parse_logout_body := parse_body logout_body_schema.

Definition field (name : jstr) (data : list (jstr * jsval)) : option jstr :=
  as_string (fields_get name data).

Definition submitted_csrf_token (req : Request) (data : list (jstr * jsval)) : jstr :=
  match header req "x-csrf-token" with
  | Some token => if seqb token [] then or_empty (field "csrf_token" data) else token
  | None => or_empty (field "csrf_token" data)
  end.

Definition access_token_from_request (req : Request) : option jstr :=
  let authorization := or_empty (header req "authorization") in
  if starts_with (u "bearer ") (to_lower authorization) then
    nonempty (Some (trim (slice_from authorization 7)))
  else nonempty (map_get ACCESS_COOKIE_NAME (parse_cookie_header (header req "cookie"))).

Definition parse_invalidate_user_sessions (value : jsval) : bool :=
  match value with
  | VBool b => b
  | VStr s => seqb s (u "true") || seqb s (u "on") || seqb s (u "1")
  | _ => false
  end.

(** ** The guard *)

Definition identity_of (config : AuthConfig) (req : Request) : RequestIdentity :=
  request_identity (header req "forwarded") (req_remote req) (Some (public_origin config)).

Definition refuse_csrf_origin (config : AuthConfig) (req : Request) (reason context_path : jstr)
    (username : option jstr) : M unit :=
  let identity := identity_of config req in
  let cookies := parse_cookie_header (header req "cookie") in
  let csrf_cookie_value := or_empty (map_get CSRF_COOKIE_NAME cookies) in
  let csrf_header := or_empty (header req "x-csrf-token") in
  let data :=
    [(u "method", VStr (or_empty (req_method req))); (u "context_path", VStr context_path);
     (u "protocol", opt_str (protocol identity)); (u "host", opt_str (identity_host identity));
     (u "origin", VStr (bound_event_text (or_empty (header req "origin"))));
     (u "user_agent", VStr (bound_event_text (or_empty (header req "user-agent"))));
     (u "csrf_header_length", VNum (NInt (jlen csrf_header)));
     (u "csrf_cookie_length", VNum (NInt (jlen csrf_cookie_value)))] ++
    match username with
    | Some name => if seqb name [] then [] else [(u "username_provided", VStr (bound_event_text name))]
    | None => []
    end in
  let* audited := attempt
    (let* event := csrf_denied_audit_event reason (source_ip identity) data in
     call (AuditEmit event)) in
  match audited with
  | Exc _ => json 500 (detail "Internal error")
  | Val _ => json 403 (detail "Forbidden")
  end.

(** The double-submit check of the cookie against the submitted token. *)
Definition csrf_ok (cookie_token submitted : jstr) : bool :=
  negb (seqb cookie_token []) && negb (seqb submitted []) && tokens_equal cookie_token submitted.

Definition csrf_cookie_of (req : Request) : jstr :=
  or_empty (map_get CSRF_COOKIE_NAME (parse_cookie_header (header req "cookie"))).

(** ** The handlers *)

Definition handle_csrf (config : AuthConfig) : M unit :=
  let* token := random_token in
  let* _ := set_cookies [csrf_cookie token (cookie_secure config)] in
  json 200 [(u "csrf_token", VStr token)].

(** After a successful login pipeline. *)
Definition issue_session (config : AuthConfig) (req : Request) (settings : AuthRuntimeSettings)
    (data : list (jstr * jsval)) (cookie_token uid : jstr) (must_change : bool) : M unit :=
  let* now := perform NewDate in
  let times := login_session_times now (session_access_ttl_seconds settings)
                 (session_refresh_ttl_seconds settings) (session_total_ttl_seconds settings) must_change in
  let* sid := new_uuid7 now in
  let* refresh :=
    match refresh_max_age times with
    | Some age => let* token := mint_refresh_token in ret (Some (token, age))
    | None => ret None
    end in
  let refresh_hmac := match refresh with
                      | Some (token, _) => Some (hmac_refresh_token (refresh_hmac_secret config) token)
                      | None => None
                      end in
  let* signed := attempt
    (let* _ := call (SessCreate {| session_id := sid; session_user_id := uid; refresh_hmac := refresh_hmac;
                                   session_expires_at := times_session_expires_at times;
                                   refresh_expires_at := times_refresh_expires_at times;
                                   ip_address := source_ip (identity_of config req);
                                   user_agent := nonempty (header req "user-agent") |}) in
     sign_access_token uid {| sign_ttl_seconds := Some (NInt (jwt_ttl_seconds times)); sign_exp := None;
                              sign_sid := Some sid; sign_password_change_required := Some must_change;
                              sign_now := Some now |}) in
  match signed with
  | Exc _ => json 500 (detail "Internal error")
  | Val token =>
      let* _ := set_cookies
        ([csrf_cookie cookie_token (cookie_secure config);
          access_cookie token (cookie_secure config) (access_max_age times)] ++
         match refresh with
         | Some (token, age) => [refresh_cookie token (cookie_secure config) age]
         | None => []
         end) in
      if includes (u "application/json") (or_empty (header req "accept"))
      then json 200 [(u "ok", VBool true)]
      else redirect (safe_next_path (field "next" data) (u "/"))
  end.

Definition handle_login (config : AuthConfig) (req : Request) : M unit :=
  match read_body req with
  | Exc _ => json 413 (detail "Forbidden")
  | Val body =>
      if negb (origin_is_exact_match (header req "origin") (public_origin config)) then
        refuse_csrf_origin config req CSRF_DENIED_ORIGIN LOGIN_PATH None
      else
        let cookie_token := csrf_cookie_of req in
        match parse_login_body req body with
        | None => json 400 (detail "Bad request")
        | Some data =>
            if negb (csrf_ok cookie_token (submitted_csrf_token req data)) then
              refuse_csrf_origin config req CSRF_DENIED_CSRF LOGIN_PATH (field "username" data)
            else
              let* settings := attempt (call GetSettings) in
              match settings with
              | Exc _ => json 500 (detail "Internal error")
              | Val settings =>
                  let identity := identity_of config req in
                  let* result := run_login_pipeline (login settings) (dummy_hash config)
                    {| provided_username := or_empty (field "username" data);
                       login_password := or_empty (field "password" data);
                       login_source_ip := source_ip identity; login_protocol := protocol identity;
                       login_host := identity_host identity; login_context_path := LOGIN_PATH;
                       login_user_agent := header req "user-agent" |} in
                  match result with
                  | LoginCapacity => json 503 (detail LOGIN_HASH_CAPACITY)
                  | LoginInternalError => json 500 (detail "Internal error")
                  | LoginDenied => json 401 (detail ACCESS_DENIED)
                  | LoginSuccess uid must_change =>
                      issue_session config req settings data cookie_token uid must_change
                  end
              end
        end
  end.

Definition handle_refresh (config : AuthConfig) (req : Request) : M unit :=
  match read_body req with
  | Exc _ => json 413 (detail "Payload too large")
  | Val body =>
      if negb (origin_is_exact_match (header req "origin") (public_origin config)) then
        refuse_csrf_origin config req CSRF_DENIED_ORIGIN REFRESH_PATH None
      else
        match parse_refresh_body req body with
        | None => json 400 (detail "Bad request")
        | Some data =>
            let csrf_cookie_value := csrf_cookie_of req in
            if negb (csrf_ok csrf_cookie_value (submitted_csrf_token req data)) then
              refuse_csrf_origin config req CSRF_DENIED_CSRF REFRESH_PATH None
            else
              let* settings := attempt (call GetSettings) in
              match settings with
              | Exc _ => json 500 (detail "Internal error")
              | Val settings =>
                  let identity := identity_of config req in
                  let cookies := parse_cookie_header (header req "cookie") in
                  let* result := run_refresh_pipeline settings (refresh_hmac_secret config)
                    {| access_token := nonempty (map_get ACCESS_COOKIE_NAME cookies);
                       refresh_token := nonempty (map_get REFRESH_COOKIE_NAME cookies);
                       refresh_source_ip := source_ip identity; refresh_protocol := protocol identity;
                       refresh_host := identity_host identity; refresh_context_path := REFRESH_PATH;
                       refresh_user_agent := header req "user-agent" |} in
                  match result with
                  | RefreshInternalError => json 500 (detail "Internal error")
                  | RefreshUnavailable => json 503 (detail SERVICE_UNAVAILABLE)
                  | RefreshSoft =>
                      json 401 (detail ACCESS_DENIED ++
                        [(u "retry", VBool true);
                         (u "max_retries", VNum (NInt (session_max_refresh_retries_for_client
                                                         (VNum (NInt (session_max_refresh_retries settings))))))])
                  | RefreshHard => json 401 (detail ACCESS_DENIED)
                  | RefreshSuccess new_refresh access refresh_age access_age =>
                      let* _ := set_cookies
                        ([csrf_cookie csrf_cookie_value (cookie_secure config);
                          refresh_cookie new_refresh (cookie_secure config) refresh_age] ++
                         match access with
                         | Some token => [access_cookie token (cookie_secure config) access_age]
                         | None => []
                         end) in
                      json 200 [(u "ok", VBool true)]
                  end
              end
        end
  end.

Definition handle_logout (config : AuthConfig) (req : Request) : M unit :=
  match read_body req with
  | Exc _ => json 413 (detail "Payload too large")
  | Val body =>
      if negb (origin_is_exact_match (header req "origin") (public_origin config)) then
        refuse_csrf_origin config req CSRF_DENIED_ORIGIN LOGOUT_PATH None
      else
        match parse_logout_body req body with
        | None => json 400 (detail "Bad request")
        | Some data =>
            if negb (csrf_ok (csrf_cookie_of req) (submitted_csrf_token req data)) then
              refuse_csrf_origin config req CSRF_DENIED_CSRF LOGOUT_PATH None
            else
              let identity := identity_of config req in
              let* result := run_logout_pipeline
                {| access_token := access_token_from_request req; refresh_token := None;
                   refresh_source_ip := source_ip identity; refresh_protocol := protocol identity;
                   refresh_host := identity_host identity; refresh_context_path := LOGOUT_PATH;
                   refresh_user_agent := header req "user-agent" |} in
              match result with
              | LogoutInternalError => json 500 (detail "Internal error")
              | LogoutDenied => json 401 (detail ACCESS_DENIED)
              | LogoutSuccess =>
                  let* _ := set_cookies [expire_access_cookie (cookie_secure config);
                                         expire_refresh_cookie (cookie_secure config)] in
                  json 200 [(u "ok", VBool true)]
              end
        end
  end.

Definition handle_me (config : AuthConfig) (req : Request) : M unit :=
  match access_token_from_request req with
  | None => credentials_denied false
  | Some token =>
      let* now := perform NewDate in
      match verify_access_jwt token now with
      | AccessInvalid => credentials_denied false
      | AccessExpired _ => credentials_denied true
      | AccessValid payload =>
          let* user := call (LoadById (subject payload)) in
          match user with
          | None => credentials_denied false
          | Some user =>
              if negb (is_active user) then credentials_denied false
              else
                let* rbac := call (RolesAndPermissions (user_id user)) in
                json 200
                  [(u "id", VStr (user_id user)); (u "username", VStr (username user));
                   (u "display_name", VStr (display_name user)); (u "is_active", VBool (is_active user));
                   (u "roles", VArr (map VStr (fst rbac))); (u "permissions", VArr (map VStr (snd rbac)))]
          end
      end
  end.

(** The part of [handle_change_password] from the held hash slot on. *)
Definition answer_change_password (config : AuthConfig) (payload : JWTPayload) (uid : jstr)
    (ip : option jstr) (outcome : ChangePasswordExecuteResult) : M unit :=
  match outcome with
  | CpMissingUser => json 401 (detail "Could not validate credentials")
  | CpLocked name =>
      let* _ := password_change_audit false (Some uid) ip "password_change_locked"
                  [(u "username", VStr name)] in
      json 401 (detail ACCESS_DENIED)
  | CpFailed name =>
      let* _ := password_change_audit false (Some uid) ip "password_change_failed"
                  [(u "username", VStr name)] in
      json 422 (detail "Password change failed.")
  | CpOk LoggedOut name =>
      let* _ := set_cookies [expire_access_cookie (cookie_secure config);
                             expire_refresh_cookie (cookie_secure config)] in
      let* _ := password_change_audit true (Some uid) ip "password_change_ok"
                  [(u "username", VStr name); (u "invalidate_user_sessions", VBool true)] in
      json 200 [(u "ok", VBool true); (u "detail", VStr "Password change complete.")]
  | CpOk effect name =>
      let finish :=
        let* _ := password_change_audit true (Some uid) ip "password_change_ok"
                    [(u "username", VStr name)] in
        json 200 [(u "ok", VBool true); (u "detail", VStr "Password change complete.")] in
      match effect with
      | FirstRefresh refresh age =>
          let* token := attempt (sign_access_token uid
            {| sign_ttl_seconds := None; sign_exp := remaining_access_exp payload;
               sign_sid := session_id_claim payload; sign_password_change_required := None;
               sign_now := None |}) in
          match token with
          | Exc _ => json 500 (detail "Internal error")
          | Val token =>
              let* _ := set_cookies [access_cookie token (cookie_secure config) age;
                                     refresh_cookie refresh (cookie_secure config) age] in
              finish
          end
      | _ => finish
      end
  end.

(** The verified part: settings, a hash slot, the change. *)
Definition change_password_verified (config : AuthConfig) (req : Request) (data : list (jstr * jsval))
    (payload : JWTPayload) : M unit :=
  let uid := subject payload in
  if seqb uid [] then credentials_denied false
  else
    let identity := identity_of config req in
    let* settings := attempt (call GetSettings) in
    match settings with
    | Exc _ => json 500 (detail "Internal error")
    | Val settings =>
        let* acquired := perform SlotTryAcquire in
        if negb acquired then
          let* audited := attempt (password_change_audit false (Some uid) (source_ip identity)
            "hash_capacity" [(u "context_path", VStr CHANGE_PASSWORD_PATH)]) in
          match audited with
          | Exc _ => json 500 (detail "Internal error")
          | Val _ => json 503 (detail CHANGE_PASSWORD_HASH_CAPACITY)
          end
        else
          let* outcome := attempt (execute_change_password
            {| exec_user_id := uid; exec_session_id := session_id_claim payload;
               exec_input := {| current_password := or_empty (field "current_password" data);
                                new_password := or_empty (field "new_password" data);
                                verify_new_password := or_empty (field "verify_new_password" data) |};
               exec_invalidate_user_sessions :=
                 parse_invalidate_user_sessions (fields_get "invalidate_user_sessions" data);
               exec_settings := settings; exec_refresh_hmac_secret := refresh_hmac_secret config;
               exec_ip_address := source_ip identity;
               exec_user_agent := nonempty (header req "user-agent") |}) in
          match outcome with
          | Exc _ =>
              let* _ := json 500 (detail "Internal error") in
              perform SlotRelease
          | Val outcome =>
              let* _ := perform SlotRelease in
              answer_change_password config payload uid (source_ip identity) outcome
          end
    end.

Definition handle_change_password (config : AuthConfig) (req : Request) : M unit :=
  match read_body req with
  | Exc _ => json 413 (detail "Payload too large")
  | Val body =>
      if negb (origin_is_exact_match (header req "origin") (public_origin config)) then
        refuse_csrf_origin config req CSRF_DENIED_ORIGIN CHANGE_PASSWORD_PATH None
      else
        match parse_body change_password_schema req body with
        | None => json 400 (detail "Malformed JSON")
        | Some data =>
            if negb (csrf_ok (csrf_cookie_of req) (submitted_csrf_token req data)) then
              refuse_csrf_origin config req CSRF_DENIED_CSRF CHANGE_PASSWORD_PATH None
            else
              match access_token_from_request req with
              | None => credentials_denied false
              | Some access =>
                  let* now := perform NewDate in
                  match verify_access_jwt access now with
                  | AccessInvalid => credentials_denied false
                  | AccessExpired _ => credentials_denied true
                  | AccessValid payload => change_password_verified config req data payload
                  end
              end
        end
  end.

(** ** Routing *)

Definition method_is (req : Request) (name : jstr) : bool :=
  match req_method req with Some m => seqb m name | None => false end.

Definition handle_request (config : AuthConfig) (req : Request) : M unit :=
  match url_pathname (match req_url req with Some t => t | None => u "/" end) with
  | None => throw (Error_ "Invalid URL")
  | Some path =>
      if method_is req "GET" && seqb path HEALTH_PATH then json 200 [(u "status", VStr "ok")]
      else if method_is req "GET" && seqb path CSRF_PATH then handle_csrf config
      else if method_is req "POST" && seqb path LOGIN_PATH then handle_login config req
      else if seqb path REFRESH_PATH && negb (method_is req "POST") then json 405 (detail "Method not allowed")
      else if method_is req "POST" && seqb path REFRESH_PATH then handle_refresh config req
      else if seqb path LOGOUT_PATH && negb (method_is req "POST") then json 405 (detail "Method not allowed")
      else if method_is req "POST" && seqb path LOGOUT_PATH then handle_logout config req
      else if method_is req "GET" && seqb path ME_PATH then handle_me config req
      else if method_is req "POST" && seqb path CHANGE_PASSWORD_PATH then handle_change_password config req
      else json 404 (detail "Not found")
  end.

(** The request listener of [create_server]. *)
Definition serve (config : AuthConfig) (req : Request) : M unit :=
  try_catch (handle_request config req) (fun _ =>
    let* sent := perform RespHeadersSent in
    if negb sent then
      let* _ := perform (RespStatus 500) in
      let* _ := perform (RespHeader "Content-Type" [u "application/json"]) in
      perform (RespEnd (utf8_bytes (or_empty (json_stringify (VObj (detail "Internal error"))))))
    else perform (RespEnd [])).

End Handlers.

(** ** Reading a run *)

Definition is_end (e : event AuthE) : bool :=
  match e with Ev c _ => match c with RespEnd _ => true | _ => false end end.

Definition status_set (e : event AuthE) : option Z :=
  match e with Ev c _ => match c with RespStatus n => Some n | _ => None end end.

Definition statuses (tr : trace) : list Z := omap status_set tr.

(** A call that changes an account, a session or a counter, or spends the
    work of a password hash. *)
Definition is_sensitive (e : event AuthE) : bool :=
  match e with
  | Ev c _ => match c with
              | SetFailedLoginCount _ _ | RlRecordFailure _ _ | RlEvaluate _ _
              | VerifyPassword _ _ | HashPassword _ | SlotTryAcquire
              | SessCreate _ | SessAttemptRotate _ | SessInvalidate _ _ | SignJwt _ _ _ _
              | PgConnect | PgQuery _ => true
              | _ => false
              end
  end.

(** A response was completed exactly once when the handler returned, and none
    was begun to be sent when it threw; the hash slots are balanced. *)
Definition answered (tr : trace) (o : outcome unit) : Prop :=
  occurs is_end tr = match o with Val _ => 1%nat | Exc _ => 0%nat end /\
  slot_discipline 0 tr = true.

(** The request passed the guard: a body that was read and parsed, an [Origin]
    equal to the configured one, and a submitted token whose bytes are those
    of the non-empty CSRF cookie. *)
Definition guard_passed `{ZO : Zod} (config : AuthConfig) (req : Request) (schema : list (jstr * ZField)) : Prop :=
  exists body data, read_body req = Val body /\
    header req "origin" = Some (public_origin config) /\ public_origin config <> [] /\
    parse_body schema req body = Some data /\
    csrf_cookie_of req <> [] /\ submitted_csrf_token req data <> [] /\
    utf8_bytes (csrf_cookie_of req) = utf8_bytes (submitted_csrf_token req data).

(** The schema of the body that a guarded path takes. *)
Definition route_schema (path : jstr) : option (list (jstr * ZField)) :=
  if seqb path LOGIN_PATH then Some login_form_schema
  else if seqb path REFRESH_PATH then Some refresh_body_schema
  else if seqb path LOGOUT_PATH then Some logout_body_schema
  else if seqb path CHANGE_PASSWORD_PATH then Some change_password_schema
  else None.

(** ** Lemmas *)

Lemma occurs_app p t1 t2 : occurs p (t1 ++ t2) = (occurs p t1 + occurs p t2)%nat.
Proof. unfold occurs. by rewrite List.filter_app, length_app. Qed.

Lemma occurs_end_quiet tr : response_quiet tr = true -> occurs is_end tr = 0%nat.
Proof.
  unfold occurs. induction tr as [|e tr IH]; simpl; [done|]. intros [He Hq]%andb_true_iff.
  rewrite <- (IH Hq). destruct e as [X c x]; by destruct c.
Qed.

Lemma answered_app t1 t2 o : response_quiet t1 = true -> slot_discipline 0 t1 = true ->
  answered t2 o -> answered (t1 ++ t2) o.
Proof.
  intros Hr Hs [H1 H2]. split.
  - by rewrite occurs_app, (occurs_end_quiet _ Hr).
  - by apply slot_discipline_app.
Qed.

Lemma slot_quiet_discipline tr : slot_quiet tr = true -> slot_discipline 0 tr = true.
Proof. intros H. rewrite <- (app_nil_r tr). by rewrite slot_discipline_quiet. Qed.

(** Cuts a handler at a pipeline that leaves the response and the slots alone. *)
Lemma answered_cut {A} (p : M A) (f : A -> M unit) :
  wp p (fun tr o => (exists r, o = Val r) /\ slot_discipline 0 tr = true /\ response_quiet tr = true) ->
  (forall a, wp (f a) answered) -> wp (then_ p f) answered.
Proof.
  intros Hp Hf. eapply wp_then; [exact Hp| |].
  - intros tr a (_ & Hs & Hr). eapply wp_mono; [|apply Hf]. intros tr' o. by apply answered_app.
  - by intros tr e [[r ?] _].
Qed.

Lemma json_answered status payload : wp (json status payload) answered.
Proof. unfold json. wp_run. split; reflexivity. Qed.

Lemma csrf_ok_spec a b : csrf_ok a b = true <-> a <> [] /\ b <> [] /\ utf8_bytes a = utf8_bytes b.
Proof.
  unfold csrf_ok, tokens_equal. rewrite !andb_true_iff, !negb_true_iff, !seqb_neq.
  destruct (Nat.eqb_spec (length (utf8_bytes a)) (length (utf8_bytes b))); simpl.
  - rewrite bool_decide_eq_true. tauto.
  - split; [intros [_ ?]; done|]. intros (_ & _ & E). by rewrite E in n.
Qed.

Lemma origin_exact_spec h origin : origin_is_exact_match h origin = true <->
  h = Some origin /\ origin <> [].
Proof.
  unfold origin_is_exact_match. destruct h as [[|c h]|]; [naive_solver| |naive_solver].
  rewrite seqb_eq. naive_solver.
Qed.

Section HttpLemmas.
Context `{J : Jose} `{HM : Hmac} `{ZX : Zxcvbn} `{UP : UrlParser} `{PA : UrlPath} `{ZO : Zod}.

Ltac http_unfold :=
  unfold issue_session, answer_change_password, handle_csrf, refuse_csrf_origin, credentials_denied,
    password_change_audit, csrf_denied_audit_event, make_event, new_correlation_id, audit_timestamp,
    json, redirect, set_cookies, random_token, mint_refresh_token, new_uuid7, sign_access_token.

Ltac answered_run := http_unfold; wp_run; split; reflexivity.

Lemma refuse_answered config req reason path name :
  wp (refuse_csrf_origin config req reason path name) answered.
Proof. answered_run. Qed.

Lemma csrf_answered config : wp (handle_csrf config) answered.
Proof. answered_run. Qed.

Lemma issue_answered config req settings data cookie uid mc :
  wp (issue_session config req settings data cookie uid mc) answered.
Proof. answered_run. Qed.

Lemma login_answered config req : wp (handle_login config req) answered.
Proof.
  unfold handle_login. destruct (read_body req); [|apply json_answered].
  destruct (negb _); [apply refuse_answered|]. destruct (parse_login_body _ _); [|apply json_answered].
  destruct (negb _); [apply refuse_answered|]. apply answered_cut; [wp_run; split_and!; done||by eexists|].
  intros [settings|e]; [|apply json_answered].
  apply answered_cut; [apply login_frame|]. intros []; try apply json_answered. apply issue_answered.
Qed.

Lemma refresh_answered config req : wp (handle_refresh config req) answered.
Proof.
  unfold handle_refresh. destruct (read_body req); [|apply json_answered].
  destruct (negb _); [apply refuse_answered|]. destruct (parse_refresh_body _ _); [|apply json_answered].
  destruct (negb _); [apply refuse_answered|]. apply answered_cut; [wp_run; split_and!; done||by eexists|].
  intros [settings|e]; [|apply json_answered].
  apply answered_cut; [eapply wp_mono; [|apply refresh_frame]; intros tr o (? & ?%slot_quiet_discipline & ?); done|].
  intros []; try apply json_answered. answered_run.
Qed.

Lemma logout_answered config req : wp (handle_logout config req) answered.
Proof.
  unfold handle_logout. destruct (read_body req); [|apply json_answered].
  destruct (negb _); [apply refuse_answered|]. destruct (parse_logout_body _ _); [|apply json_answered].
  destruct (negb _); [apply refuse_answered|].
  apply answered_cut; [eapply wp_mono; [|apply logout_frame]; intros tr o (? & ?%slot_quiet_discipline & ?); done|].
  intros []; try apply json_answered. answered_run.
Qed.

Lemma me_answered config req : wp (handle_me config req) answered.
Proof. unfold handle_me. answered_run. Qed.

Lemma answer_change_answered config payload uid ip o :
  wp (answer_change_password config payload uid ip o) answered.
Proof. answered_run. Qed.

Lemma change_verified_answered config req data payload :
  wp (change_password_verified config req data payload) answered.
Proof.
  unfold change_password_verified. destruct (seqb _ _); [answered_run|].
  apply answered_cut; [wp_run; split_and!; done||by eexists|]. intros [settings|e]; [|apply json_answered].
  intros [|]; cbn [negb].
  - apply (wp_bind_rule (attempt _) _ (fun tr o => slot_quiet tr = true /\ response_quiet tr = true /\ exists r, o = Val r)).
    { unfold attempt. eapply wp_bind_rule; [apply execute_frame|]. intros tr o [H1 H2]. simpl.
      rewrite app_nil_r. eauto. }
    intros tr o (Hs & Hr & r & ->).
    assert (Hheld : forall t2 o, occurs is_end t2 = match o with Val _ => 1%nat | Exc _ => 0%nat end ->
      slot_discipline 1 t2 = true -> answered (Ev SlotTryAcquire true :: tr ++ t2) o).
    { intros t2 o He Hd. split.
      - change (Ev SlotTryAcquire true :: tr ++ t2) with ([Ev SlotTryAcquire true] ++ tr ++ t2).
        rewrite !occurs_app, (occurs_end_quiet _ Hr), He. done.
      - cbn [slot_discipline]. change (0 + slot_change (Ev SlotTryAcquire true)) with 1.
        by rewrite slot_discipline_quiet. }
    destruct r as [outcome|e].
    + cbn [wp bind then_ perform]. intros []. eapply wp_mono; [|apply answer_change_answered].
      intros t2 o [He Hd]. apply (Hheld (Ev SlotRelease tt :: t2) o); [exact He|exact Hd].
    + http_unfold. wp_run. apply Hheld; reflexivity.
  - http_unfold. wp_run; split; reflexivity.
Qed.

Lemma change_answered config req : wp (handle_change_password config req) answered.
Proof.
  unfold handle_change_password. destruct (read_body req); [|apply json_answered].
  destruct (negb _); [apply refuse_answered|]. destruct (parse_body _ _ _); [|apply json_answered].
  destruct (negb _); [apply refuse_answered|]. destruct (access_token_from_request req); [|answered_run].
  cbn [wp bind then_ perform]. intros now.
  destruct (verify_access_jwt j now) as [payload| |] eqn:Hv; [|answered_run|answered_run].
  eapply wp_mono; [|apply change_verified_answered]. intros tr o. by apply (answered_app [Ev NewDate now]).
Qed.

Lemma request_answered config req : wp (handle_request config req) answered.
Proof.
  unfold handle_request. destruct (url_pathname _); [|split; reflexivity].
  destruct (_ && _); [apply json_answered|].
  destruct (_ && _); [apply csrf_answered|].
  destruct (_ && _); [apply login_answered|].
  destruct (_ && _); [apply json_answered|].
  destruct (_ && _); [apply refresh_answered|].
  destruct (_ && _); [apply json_answered|].
  destruct (_ && _); [apply logout_answered|].
  destruct (_ && _); [apply me_answered|].
  destruct (_ && _); [apply change_answered|].
  apply json_answered.
Qed.

(** The guard of a handler: nothing sensitive before it is passed. *)
Definition guarded (config : AuthConfig) (req : Request) (schema : list (jstr * ZField)) (p : M unit) : Prop :=
  wp p (fun tr _ => existsb is_sensitive tr = true -> guard_passed config req schema).

Ltac harmless := unfold guarded; http_unfold; wp_run; discriminate.

Lemma json_guarded config req schema status payload : guarded config req schema (json status payload).
Proof. harmless. Qed.

Lemma refuse_guarded config req schema reason path name :
  guarded config req schema (refuse_csrf_origin config req reason path name).
Proof. harmless. Qed.

(** The shape the four guarded handlers share. *)
Lemma guard_shape config req schema too_large bad refuse1 (refuse2 next : list (jstr * jsval) -> M unit) :
  guarded config req schema too_large -> guarded config req schema bad ->
  guarded config req schema refuse1 -> (forall data, guarded config req schema (refuse2 data)) ->
  guarded config req schema
    (match read_body req with
     | Exc _ => too_large
     | Val body =>
         if negb (origin_is_exact_match (header req "origin") (public_origin config)) then refuse1
         else match parse_body schema req body with
              | None => bad
              | Some data =>
                  if negb (csrf_ok (csrf_cookie_of req) (submitted_csrf_token req data))
                  then refuse2 data else next data
              end
     end).
Proof.
  intros H1 H2 H3 H4. destruct (read_body req) as [body|] eqn:Hb; [|done].
  destruct (origin_is_exact_match _ _) eqn:Ho; [|done]. cbn [negb].
  destruct (parse_body schema req body) as [data|] eqn:Hp; [|done].
  destruct (csrf_ok _ _) eqn:Hc; [|apply H4]. cbn [negb]. apply wp_all. intros tr o _.
  apply origin_exact_spec in Ho as [? ?]. apply csrf_ok_spec in Hc as (? & ? & ?).
  exists body, data. by split_and!.
Qed.

Ltac by_shape :=
  apply guard_shape; [apply json_guarded|apply json_guarded|apply refuse_guarded|intros; apply refuse_guarded].

Lemma login_guarded config req : guarded config req login_form_schema (handle_login config req).
Proof. by_shape. Qed.

Lemma refresh_guarded config req : guarded config req refresh_body_schema (handle_refresh config req).
Proof. by_shape. Qed.

Lemma logout_guarded config req : guarded config req logout_body_schema (handle_logout config req).
Proof. by_shape. Qed.

Lemma change_guarded config req : guarded config req change_password_schema (handle_change_password config req).
Proof. by_shape. Qed.

Lemma me_harmless config req : wp (handle_me config req) (fun tr _ => existsb is_sensitive tr = false).
Proof. unfold handle_me. http_unfold. wp_run; reflexivity. Qed.

Lemma csrf_harmless config : wp (handle_csrf config) (fun tr _ => existsb is_sensitive tr = false).
Proof. http_unfold. wp_run; reflexivity. Qed.

Lemma json_harmless status payload : wp (json status payload) (fun tr _ => existsb is_sensitive tr = false).
Proof. http_unfold. wp_run; reflexivity. Qed.
End HttpLemmas.

(** ** The properties *)


(** The profile is answered only to a valid access token of an
    active account: a response with status 200 is preceded by a verification
    that found the token valid at the time read and by the load of the active
    account it names; an expired token is told to retry. *)
Theorem me_requires_valid_token `{J : Jose} `{UP : UrlParser} config req :
  wp (handle_me config req) (fun tr o =>
    statuses tr = [200] ->
    exists token payload user now, access_token_from_request req = Some token /\
      head (dates tr) = Some now /\ verify_access_jwt token now = AccessValid payload /\
      In (Ev (LoadById (subject payload)) (Val (Some user))) tr /\ is_active user = true).
Proof.
  unfold handle_me, credentials_denied, json. wp_run; try discriminate.
  test_facts. subst. eexists _, _, _, _. split_and!; try reflexivity; try eassumption.
  simpl. auto.
Qed.


(** Property C10. Every request is answered exactly once: whatever fails, the
    listener never throws, completes exactly one response, and gives back
    every hash slot the request took. *)
Theorem served_once `{J : Jose} `{HM : Hmac} `{ZX : Zxcvbn} `{UP : UrlParser} `{PA : UrlPath} `{ZO : Zod}
    config req :
  wp (serve config req) (fun tr o =>
    o = Val tt /\ occurs is_end tr = 1%nat /\ slot_discipline 0 tr = true).
Proof.
  unfold serve, try_catch. eapply wp_bind_rule; [apply request_answered|].
  intros tr [[]|e] [He Hs]; simpl.
  - rewrite app_nil_r. done.
  - intros [|]; simpl; intros;
      (split; [by repeat match goal with x : unit |- _ => destruct x end|]);
      rewrite occurs_app, He; (split; [reflexivity|by apply slot_discipline_app]).
Qed.
