(* ===== verification/ServiceSetup.v ===== *)
(** The start of the auth service: config.ts, main.ts, keys.ts, redis_url.ts,
    passwords.ts, [load_refresh_hmac_secret] of refresh_hmac.ts, the subscriber
    of coherence.ts and the timer of session_cleanup.ts.  The key import of
    jose, argon2, the database, Redis, the file system and the listening socket
    are calls; the WHATWG URL parser is a parameter. *)
From S2P Require Import Prelude JsString JsValue JsText JsDate Settings Effects Tokens Login Cookies ChangePassword Http AuditFile.

(** ** Parameters *)

(** [new URL(text).origin]; [None] when the text does not parse. *)
Class UrlOrigin := url_origin : jstr -> option jstr.

(** The URL object that [redact_redis_url] uses. *)
Class RedisUrl := {
  parsed_url : Type;
  new_url : jstr -> option parsed_url;
  url_password : parsed_url -> jstr;
  without_password : parsed_url -> parsed_url;      (* after [parsed.password = ""] *)
  url_to_string : parsed_url -> jstr }.

(** ** The environment *)

(** [env[name]] *)
Definition env_vars : Type := list (jstr * jstr).

Definition env_get (env : env_vars) (name : jstr) : option jstr :=
  match find (fun kv => seqb kv.1 name) env with Some kv => Some kv.2 | None => None end.

(** [env[name]?.trim() ?? ""] *)
Definition env_trimmed (env : env_vars) (name : jstr) : jstr :=
  match env_get env name with Some v => trim v | None => [] end.

(** A key object of the platform, by a name of its own. *)
Inductive CryptoKey := Key (name : Z).

Inductive RedisClient := RateLimitClient | Subscriber.

(** ** The calls *)

Inductive SetupE : Type -> Type :=
| ReadFile (path : jstr) : SetupE (outcome (list Z))
| ImportPKCS8 (pem : jstr) : SetupE (outcome CryptoKey)
| ImportSPKI (pem : jstr) : SetupE (outcome CryptoKey)
| Argon2Hash (password : jstr) : SetupE (outcome jstr)
| Argon2Verify (hash password : jstr) : SetupE (outcome bool)
| FirstRejected : SetupE nat                        (* which rejection came first *)
| CreatePool (connection_string : jstr) (max : Z) : SetupE unit
| LoadSettings : SetupE (outcome AuthRuntimeSettings)
| RedisConnect (client : RedisClient) (url : jstr) : SetupE (outcome unit)
| RedisSubscribe (topic : jstr) : SetupE (outcome unit)
| RedisUnsubscribe (topic : jstr) : SetupE (outcome unit)
| RedisQuit : SetupE (outcome unit)
| RedisDisconnect : SetupE (outcome unit)
| StartCleanup : SetupE unit
| SetThreadpool (size : Z) : SetupE unit
| Listen (port : Z) (host : jstr) : SetupE unit
| WriteStderr (text : jstr) : SetupE unit
| ExitProcess (code : Z) : SetupE unit.

Abbreviation SM := (IO SetupE).

Definition of_outcome {A} (o : outcome A) : SM A := Ret o.

Definition fail {A} (message : jstr) : SM A := throw (Error_ message).

(** ** redis_url.ts *)

Definition DEFAULT_REDIS_URL : jstr := u "redis://localhost:6379/0".

Definition redis_url_from_env (raw : option jstr) : outcome jstr :=
  match raw with
  | None => Val DEFAULT_REDIS_URL
  | Some r =>
      let stripped := trim r in
      if seqb stripped [] then
        Exc (Error_ (u "UNTANGLED_REDIS_URL is set but empty; set a redis:// URL or unset the variable to use the host default"))
      else Val stripped
  end.

Definition not_slash_at (c : Z) : bool := negb ((c =? 47) || (c =? 64)).

(** A user name and an empty password at the start of what follows the two
    slashes: [([^/@]+):@]. *)
Definition user_colon_at (rest : jstr) : option (jstr * jstr) :=
  let h := take_while not_slash_at rest in
  match drop_while not_slash_at rest, rev h with
  | c :: after, d :: (_ :: _) as user => if (c =? 64) && (d =? 58) then Some (rev (tail user), after) else None
  | _, _ => None
  end.

(** [.replace(/\/\/([^/@]+):@/, "//$1@")]: the first match. *)
Fixpoint replace_user_colon (s : jstr) : jstr :=
  match s with
  | c :: s' =>
      match (if c =? 47 then match s' with d :: rest => if d =? 47 then user_colon_at rest else None | [] => None end
             else None) with
      | Some (user, after) => [47; 47] ++ user ++ [64] ++ after
      | None => c :: replace_user_colon s'
      end
  | [] => []
  end.

(** [.replace(/\/\/:@/, "//")] *)
Fixpoint replace_colon_at (s : jstr) : jstr :=
  match s with
  | c :: s' => if starts_with (u "//:@") s then [47; 47] ++ drop 4 s else c :: replace_colon_at s'
  | [] => []
  end.

Definition redact_redis_url `{RedisUrl} (url : jstr) : jstr :=
  match new_url url with
  | Some parsed =>
      let parsed := if seqb (url_password parsed) [] then parsed else without_password parsed in
      replace_colon_at (replace_user_colon (url_to_string parsed))
  | None => u "<invalid-redis-url>"
  end.

(** ** keys.ts *)

(** [pem.replaceAll("\\n", "\n")] *)
Fixpoint unescape_newlines (s : jstr) : jstr :=
  match s with
  | 92 :: 110 :: rest => 10 :: unescape_newlines rest
  | c :: rest => c :: unescape_newlines rest
  | [] => []
  end.

Definition normalize_pem (raw : jstr) : jstr :=
  let pem := trim raw in
  if includes [92; 110] pem && negb (includes [10] pem) then unescape_newlines pem else pem.

Definition read_pem (env : env_vars) (text_name path_name : jstr) : SM jstr :=
  let text := env_trimmed env text_name in
  let path := env_trimmed env path_name in
  if negb (seqb text []) && negb (seqb path []) then
    fail (text_name ++ u " and " ++ path_name ++ u " cannot both be set")
  else if negb (seqb text []) then ret (normalize_pem text)
  else if negb (seqb path []) then
    let* bytes := attempt (call (ReadFile path)) in
    match bytes with
    | Val bs => ret (normalize_pem (utf8_decode bs))
    | Exc error => fail (path_name ++ u " is unreadable (" ++ path ++ u "): " ++ error_message error)
    end
  else fail (text_name ++ u " or " ++ path_name ++ u " is required").

Definition load_private_key (env : env_vars) : SM CryptoKey :=
  let* pem := read_pem env (u "UNTANGLED_JWT_PRIVATE_KEY") (u "UNTANGLED_JWT_PRIVATE_KEY_PATH") in
  try_catch (call (ImportPKCS8 pem)) (fun _ =>
    fail (u "UNTANGLED_JWT_PRIVATE_KEY must be a PKCS8 P-256 private key")).

Definition load_public_key (env : env_vars) : SM CryptoKey :=
  let* pem := read_pem env (u "UNTANGLED_JWT_PUBLIC_KEY") (u "UNTANGLED_JWT_PUBLIC_KEY_PATH") in
  try_catch (call (ImportSPKI pem)) (fun _ =>
    fail (u "UNTANGLED_JWT_PUBLIC_KEY must be an SPKI P-256 public key")).

(** ** passwords.ts *)

Definition verify_password (password_hash password : jstr) : SM bool :=
  try_catch (call (Argon2Verify password_hash password)) (fun _ => ret false).

Definition make_dummy_hash : SM jstr := call (Argon2Hash (u "untangled-dummy-not-a-user-password")).

Definition hash_password (password : jstr) : SM jstr := call (Argon2Hash password).

(** ** refresh_hmac.ts *)

Definition SECRET_PATH_NAME : jstr := u "UNTANGLED_REFRESH_HMAC_SECRET_PATH".

Definition load_refresh_hmac_secret (env : env_vars) : SM (list Z) :=
  let path := env_trimmed env SECRET_PATH_NAME in
  if seqb path [] then fail (SECRET_PATH_NAME ++ u " is required")
  else
    let* raw := attempt (call (ReadFile path)) in
    match raw with
    | Exc error => fail (SECRET_PATH_NAME ++ u " is unreadable (" ++ path ++ u "): " ++ error_message error)
    | Val [] => fail (SECRET_PATH_NAME ++ u " is empty")
    | Val ((_ :: _) as bytes) => of_outcome (decode_base64_secret (utf8_decode bytes))
    end.

(** ** coherence.ts *)

Definition SYSTEM_CONFIG_INVALIDATE_TOPIC : jstr := u "untangled.coherence.system_config.invalidate".

Definition start_system_config_subscriber `{RedisUrl} (redis_url : jstr) : SM unit :=
  let* connected := attempt (call (RedisConnect Subscriber redis_url)) in
  match connected with
  | Exc error =>
      fail (u "Redis unreachable for auth system_config subscribe (" ++ redact_redis_url redis_url ++ u "): " ++
            error_message error)
  | Val _ => call (RedisSubscribe SYSTEM_CONFIG_INVALIDATE_TOPIC)
  end.

(** The function that [start_system_config_subscriber] returns, on its
    variable [stopped]. *)
Definition stop_subscriber (stopped : bool) : SM bool :=
  if stopped then ret true
  else
    let* _ := attempt (call (RedisUnsubscribe SYSTEM_CONFIG_INVALIDATE_TOPIC)) in
    let* quit := attempt (call RedisQuit) in
    match quit with
    | Val _ => ret true
    | Exc _ => let* _ := attempt (call RedisDisconnect) in ret true
    end.

(** ** config.ts *)

Section Config.
Context `{UO : UrlOrigin} `{RU : RedisUrl}.

Definition not_exact_origin (label raw : jstr) : jstr :=
  label ++ u " must be an exact origin (scheme + host + port); got " ++ json_string raw.

Definition require_exact_origin (raw label : jstr) : outcome jstr :=
  let public_origin := trim raw in
  if seqb public_origin [] then
    Exc (Error_ (label ++ u " is required (exact origin, e.g. https://localhost:8443)"))
  else match url_origin public_origin with
       | Some origin => if seqb origin public_origin then Val public_origin
                        else Exc (Error_ (not_exact_origin label raw))
       | None => Exc (Error_ (not_exact_origin label raw))
       end.

Definition require_database_url (env : env_vars) : outcome jstr :=
  let url := env_trimmed env (u "DATABASE_URL") in
  if seqb url [] then Exc (Error_ (u "DATABASE_URL is required")) else Val url.

Definition audit_log_dir (env : env_vars) : jstr :=
  let dir := env_trimmed env (u "UNTANGLED_AUDIT_LOG_DIR") in
  if negb (seqb dir []) then dir else u "/var/log/untangled/audit".

Definition audit_rollover_bytes (env : env_vars) : num :=
  let raw := env_trimmed env (u "UNTANGLED_AUDIT_ROLLOVER_BYTES") in
  if seqb raw [] then NInt 1048576 else js_number raw.

Definition audit_rollover_seconds (env : env_vars) : num :=
  let raw := env_trimmed env (u "UNTANGLED_AUDIT_ROLLOVER_SECONDS") in
  if seqb raw [] then NInt 86400 else js_number raw.

(** The members of [AuthConfig] that are not functions, the part the HTTP
    layer uses apart. *)
Record ServiceConfig := {
  http_config : Http.AuthConfig;
  private_key : CryptoKey;
  public_key : CryptoKey;
  audit_options : SinkOptions;
  config_redis_url : jstr;
  initial_hash_limit : Z }.

(** [get_settings] of the configuration, on [live_hash_limit.value]. *)
Definition get_settings (loaded : outcome AuthRuntimeSettings) (live_hash_limit : Z)
    : outcome AuthRuntimeSettings * Z :=
  match loaded with
  | Val settings => (Val settings, hash_concurrency_limit (login settings))
  | Exc e => (Exc e, live_hash_limit)
  end.

(** [Promise.all] of three promises: all run to their end; a rejection is the
    one that came first. *)
Definition all3 {A B C} (p : SM A) (q : SM B) (r : SM C) : SM (A * B * C) :=
  let* a := attempt p in
  let* b := attempt q in
  let* c := attempt r in
  let error {X} (o : outcome X) : list exn := match o with Exc e => [e] | Val _ => [] end in
  match a, b, c with
  | Val x, Val y, Val z => ret (x, y, z)
  | _, _, _ =>
      let* first := perform FirstRejected in
      let errors := error a ++ error b ++ error c in
      throw (nth (first mod length errors) errors (Error_ []))
  end.

Definition load_config_from_env (env : env_vars) (own_pid : Z) : SM ServiceConfig :=
  let* public_origin := of_outcome (require_exact_origin
    (match env_get env (u "UNTANGLED_PUBLIC_ORIGIN") with Some v => v | None => [] end)
    (u "UNTANGLED_PUBLIC_ORIGIN")) in
  let* secret := load_refresh_hmac_secret env in
  let* keys := all3 (load_private_key env) (load_public_key env) make_dummy_hash in
  let '(private_key, public_key, dummy_hash) := keys in
  let* database_url := of_outcome (require_database_url env) in
  let* _ := perform (CreatePool database_url 4) in
  let* loaded := attempt (call LoadSettings) in
  let '(settings, live_hash_limit) := get_settings loaded LOGIN_HASH_CONCURRENCY_DEFAULT in
  let* _ := of_outcome settings in
  let options := file_sink_options (audit_log_dir env) (Some (audit_rollover_bytes env))
                   (Some (audit_rollover_seconds env)) None own_pid in
  let* redis_url := of_outcome (redis_url_from_env (env_get env (u "UNTANGLED_REDIS_URL"))) in
  let* connected := attempt (call (RedisConnect RateLimitClient redis_url)) in
  let* _ := match connected with
            | Exc error =>
                fail (u "Redis unreachable for auth rate-limit (" ++ redact_redis_url redis_url ++ u "): " ++
                      error_message error)
            | Val _ => ret tt
            end in
  let* _ := start_system_config_subscriber redis_url in
  let* _ := perform StartCleanup in
  let* secure := of_outcome (cookie_secure_from_env (env_get env (u "UNTANGLED_COOKIE_SECURE"))) in
  ret {| http_config := {| public_origin := public_origin; cookie_secure := secure;
                           refresh_hmac_secret := secret; dummy_hash := dummy_hash |};
         private_key := private_key; public_key := public_key; audit_options := options;
         config_redis_url := redis_url; initial_hash_limit := live_hash_limit |}.

(** ** main.ts *)

Definition listen_port (env : env_vars) : outcome Z :=
  let raw := match env_get env (u "PORT") with Some v => v | None => u "3000" end in
  match js_number raw with
  | NInt port =>
      if (port <? 1) || (65535 <? port) then
        Exc (Error_ (u "PORT must be an integer 1" ++ [8211] ++ u "65535; got " ++ json_string raw))
      else Val port
  | _ => Exc (Error_ (u "PORT must be an integer 1" ++ [8211] ++ u "65535; got " ++ json_string raw))
  end.

(** The module: an exception that leaves it ends the process; [None] when the
    service was not started. *)
Definition main (env : env_vars) (own_pid : Z) : SM (option ServiceConfig) :=
  let* _ := perform (SetThreadpool (ensure_uv_threadpool (env_get env (u "UV_THREADPOOL_SIZE")))) in
  let* port := of_outcome (listen_port env) in
  try_catch
    (let* config := load_config_from_env env own_pid in
     let* _ := perform (Listen port (u "0.0.0.0")) in
     ret (Some config))
    (fun error =>
       let* _ := perform (WriteStderr (u "untangled-auth failed to start: " ++ error_message error ++ [10])) in
       let* _ := perform (ExitProcess 1) in
       ret None).

End Config.

(** ** What a start does *)

Abbreviation strace := (list (event SetupE)).

Definition is_listen (e : event SetupE) : option Z :=
  match e with Ev c _ => match c with Listen port _ => Some port | _ => None end end.

Definition is_exit (e : event SetupE) : option Z :=
  match e with Ev c _ => match c with ExitProcess code => Some code | _ => None end end.

Definition listened (tr : strace) : list Z := omap is_listen tr.
Definition exited (tr : strace) : list Z := omap is_exit tr.

Lemma listened_cons e tr : listened (e :: tr) = option_to_list (is_listen e) ++ listened tr.
Proof. unfold listened. cbn [omap list_omap]. by destruct (is_listen e). Qed.

Lemma exited_cons e tr : exited (e :: tr) = option_to_list (is_exit e) ++ exited tr.
Proof. unfold exited. cbn [omap list_omap]. by destruct (is_exit e). Qed.

(** The service neither listens nor ends. *)
Definition calm (tr : strace) : Prop := listened tr = [] /\ exited tr = [].

Lemma listened_app t1 t2 : listened (t1 ++ t2) = listened t1 ++ listened t2.
Proof. apply omap_app. Qed.

Lemma exited_app t1 t2 : exited (t1 ++ t2) = exited t1 ++ exited t2.
Proof. apply omap_app. Qed.

Lemma calm_app t1 t2 : calm t1 -> calm t2 -> calm (t1 ++ t2).
Proof. unfold calm. rewrite listened_app, exited_app. by intros [-> ->] [-> ->]. Qed.

#[local] Hint Resolve calm_app : setup.

Section Start.
Context `{UO : UrlOrigin} `{RU : RedisUrl}.

(** The secret was read from a file as at least 32 bytes of base 64. *)
Definition secret_read (tr : strace) (secret : list Z) : Prop :=
  exists path bytes, Ev (ReadFile path) (Val bytes) ∈ tr /\
    decode_base64_secret (utf8_decode bytes) = Val secret /\ 32 <= Z.of_nat (length secret).

Definition key_imported (tr : strace) (call : jstr -> SetupE (outcome CryptoKey)) (key : CryptoKey) : Prop :=
  exists pem, Ev (call pem) (Val key) ∈ tr.

(** Everything the configuration is made of was found in order. *)
Record start_sound (env : env_vars) (tr : strace) (c : ServiceConfig) : Prop := {
  start_origin : public_origin (http_config c) <> [] /\
    env_get env (u "UNTANGLED_PUBLIC_ORIGIN") <> None /\
    url_origin (public_origin (http_config c)) = Some (public_origin (http_config c));
  start_secret : secret_read tr (Http.refresh_hmac_secret (http_config c));
  start_private : key_imported tr ImportPKCS8 (private_key c);
  start_public : key_imported tr ImportSPKI (public_key c);
  start_dummy : Ev (Argon2Hash (u "untangled-dummy-not-a-user-password")) (Val (Http.dummy_hash (http_config c))) ∈ tr;
  start_settings : exists s, Ev LoadSettings (Val s) ∈ tr /\
    initial_hash_limit c = hash_concurrency_limit (login s);
  start_redis : config_redis_url c <> [] /\
    Ev (RedisConnect RateLimitClient (config_redis_url c)) (Val tt) ∈ tr /\
    Ev (RedisConnect Subscriber (config_redis_url c)) (Val tt) ∈ tr /\
    Ev (RedisSubscribe SYSTEM_CONFIG_INVALIDATE_TOPIC) (Val tt) ∈ tr;
  start_secure : cookie_secure_from_env (env_get env (u "UNTANGLED_COOKIE_SECURE")) =
    Val (Http.cookie_secure (http_config c)) }.

Lemma decode_base64_secret_length text secret : decode_base64_secret text = Val secret ->
  32 <= Z.of_nat (length secret).
Proof.
  unfold decode_base64_secret. repeat (case_match; try done). intros [= <-].
  match goal with H : (_ <? _) = false |- _ => apply Z.ltb_ge in H; exact H end.
Qed.

Lemma secret_spec env : wp (load_refresh_hmac_secret env)
  (fun tr o => calm tr /\ forall s, o = Val s -> secret_read tr s).
Proof.
  unfold load_refresh_hmac_secret, of_outcome, fail. case_match; wp_run; try done.
  destruct a as [|b bs]; wp_run; [done|]. split; [done|]. intros s Hs.
  eexists _, _. split; [by left|]. split; [done|]. by eapply decode_base64_secret_length.
Qed.

Lemma read_pem_spec env text path : wp (read_pem env text path) (fun tr _ => calm tr).
Proof. unfold read_pem, fail. repeat case_match; wp_run; done. Qed.

Lemma private_key_spec env : wp (load_private_key env)
  (fun tr o => calm tr /\ forall k, o = Val k -> key_imported tr ImportPKCS8 k).
Proof.
  unfold load_private_key, fail. eapply wp_then; [apply read_pem_spec| |by intros].
  intros tr pem Hc. wp_run; (split; [by apply calm_app|]); [|done]. intros k [= <-].
  exists pem. set_solver.
Qed.

Lemma public_key_spec env : wp (load_public_key env)
  (fun tr o => calm tr /\ forall k, o = Val k -> key_imported tr ImportSPKI k).
Proof.
  unfold load_public_key, fail. eapply wp_then; [apply read_pem_spec| |by intros].
  intros tr pem Hc. wp_run; (split; [by apply calm_app|]); [|done]. intros k [= <-].
  exists pem. set_solver.
Qed.

Lemma dummy_spec : wp make_dummy_hash
  (fun tr o => calm tr /\ forall h, o = Val h -> Ev (Argon2Hash (u "untangled-dummy-not-a-user-password")) (Val h) ∈ tr).
Proof. unfold make_dummy_hash. wp_run; (split; [done|]); intros h Hh; simplify_eq; by left. Qed.

(** What holds of every run of the part, however it ends, is passed on. *)
Lemma wp_then_calm {A B} (p : SM A) (f : A -> SM B) (P : strace -> A -> Prop) (Q : strace -> outcome B -> Prop) :
  wp p (fun tr o => calm tr /\ forall a, o = Val a -> P tr a) ->
  (forall tr a, calm tr -> P tr a -> wp (f a) (fun tr' b => calm tr' /\ Q (tr ++ tr') b)) ->
  (forall tr e, Q tr (Exc e)) ->
  wp (then_ p f) (fun tr o => calm tr /\ Q tr o).
Proof.
  intros Hp Hf He. eapply wp_then; [exact Hp| |].
  - intros tr a [Hc HP]. eapply wp_mono; [|by apply Hf; [|apply HP]].
    intros tr' b [Hc' HQ]. split; [by apply calm_app|done].
  - intros tr e [Hc _]. done.
Qed.

Lemma all3_spec {A B C} (p : SM A) (q : SM B) (r : SM C) (P : strace -> A -> Prop) (Q : strace -> B -> Prop)
    (R : strace -> C -> Prop) :
  wp p (fun tr o => calm tr /\ forall a, o = Val a -> P tr a) ->
  wp q (fun tr o => calm tr /\ forall a, o = Val a -> Q tr a) ->
  wp r (fun tr o => calm tr /\ forall a, o = Val a -> R tr a) ->
  wp (all3 p q r) (fun tr o => calm tr /\ forall x, o = Val x ->
    exists t1 t2 t3, tr = t1 ++ t2 ++ t3 /\ P t1 x.1.1 /\ Q t2 x.1.2 /\ R t3 x.2).
Proof.
  intros Hp Hq Hr. unfold all3, attempt, then_. rewrite !wp_bind. eapply wp_mono; [|exact Hp].
  intros t1 a [Hc1 HP]. simpl. rewrite app_nil_r, !wp_bind. eapply wp_mono; [|exact Hq].
  intros t2 b [Hc2 HQ]. simpl. rewrite app_nil_r, !wp_bind. eapply wp_mono; [|exact Hr].
  intros t3 c [Hc3 HR]. simpl. rewrite app_nil_r.
  assert (Hc : calm (t1 ++ t2 ++ t3)) by auto with setup.
  destruct a as [a|e1], b as [b|e2], c as [c|e3]; unfold ret, throw, perform; cbn [wp bind app];
    try (split; [rewrite ?app_nil_r; done|intros x [= <-]; exists t1, t2, t3; rewrite app_nil_r; simpl; auto]);
    intros n; (split; [|done]); rewrite !app_assoc; apply calm_app; rewrite <- ?app_assoc; done.
Qed.

Lemma subscriber_spec redis_url : wp (start_system_config_subscriber redis_url)
  (fun tr o => calm tr /\ forall a, o = Val a -> Ev (RedisConnect Subscriber redis_url) (Val tt) ∈ tr /\
    Ev (RedisSubscribe SYSTEM_CONFIG_INVALIDATE_TOPIC) (Val tt) ∈ tr).
Proof.
  unfold start_system_config_subscriber, fail. wp_run; (split; [done|]); try done.
  intros y Hy. simplify_eq. destruct y. set_solver.
Qed.

Lemma require_exact_origin_sound raw label origin : require_exact_origin raw label = Val origin ->
  origin = trim raw /\ origin <> [] /\ url_origin origin = Some origin.
Proof.
  unfold require_exact_origin. destruct (seqb (trim raw) []) eqn:He; [done|]. apply seqb_neq in He.
  destruct (url_origin (trim raw)) as [o|] eqn:Ho; [|done]. destruct (seqb o (trim raw)) eqn:Hs; [|done].
  apply seqb_eq in Hs. intros [= <-]. rewrite Ho. by subst o.
Qed.

Lemma redis_url_nonempty raw url : redis_url_from_env raw = Val url -> url <> [].
Proof.
  unfold redis_url_from_env. destruct raw as [r|]; [|by intros [= <-]].
  destruct (seqb (trim r) []) eqn:He; [done|]. intros [= <-]. by apply seqb_neq in He.
Qed.

Lemma secret_read_mono t1 t2 t3 s : secret_read t2 s -> secret_read (t1 ++ t2 ++ t3) s.
Proof. intros (p & bs & Hin & ?). exists p, bs. split; [set_solver|done]. Qed.

Lemma key_imported_mono t1 t2 t3 c k : key_imported t2 c k -> key_imported (t1 ++ t2 ++ t3) c k.
Proof. intros (pem & Hin). exists pem. set_solver. Qed.

(** The end of the start, from the database on. *)
Definition start_rest (env : env_vars) (own_pid : Z) (origin : jstr) (secret : list Z)
    (keys : CryptoKey * CryptoKey * jstr) (tr : strace) (c : ServiceConfig) : Prop :=
  public_origin (http_config c) = origin /\ Http.refresh_hmac_secret (http_config c) = secret /\
  (private_key c, public_key c, Http.dummy_hash (http_config c)) = keys /\
  (exists s, Ev LoadSettings (Val s) ∈ tr /\ initial_hash_limit c = hash_concurrency_limit (login s)) /\
  (config_redis_url c <> [] /\
    Ev (RedisConnect RateLimitClient (config_redis_url c)) (Val tt) ∈ tr /\
    Ev (RedisConnect Subscriber (config_redis_url c)) (Val tt) ∈ tr /\
    Ev (RedisSubscribe SYSTEM_CONFIG_INVALIDATE_TOPIC) (Val tt) ∈ tr) /\
  cookie_secure_from_env (env_get env (u "UNTANGLED_COOKIE_SECURE")) = Val (Http.cookie_secure (http_config c)).

Lemma load_config_spec env own_pid : wp (load_config_from_env env own_pid)
  (fun tr o => calm tr /\ forall c, o = Val c -> start_sound env tr c).
Proof.
  unfold load_config_from_env.
  destruct (require_exact_origin _ _) as [origin|e] eqn:Ho; [|done].
  apply require_exact_origin_sound in Ho as (Htrim & Hne & Hexact).
  apply wp_then_calm with (P := fun _ a => a = origin); [split; [done|by intros ? [= ->]]| |done].
  intros t0 ? _ ->. eapply wp_then_calm; [apply secret_spec| |done]. intros t1 secret _ Hsecret.
  eapply wp_then_calm; [apply all3_spec; [apply private_key_spec|apply public_key_spec|apply dummy_spec]| |done].
  intros t2 [[priv pub] dummy] _ (p1 & p2 & p3 & -> & Hpriv & Hpub & Hdummy). simpl in Hpriv, Hpub, Hdummy.
  eapply wp_mono with (Q := fun tr o => calm tr /\ forall c, o = Val c ->
    start_rest env own_pid origin secret (priv, pub, dummy) tr c).
  { intros tr o [Hc Hrest]. split; [done|]. intros c Hv.
    destruct (Hrest c Hv) as (H1 & H2 & H3 & (s & Hs & Hl) & (Hu & Hr1 & Hr2 & Hr3) & Hsec).
    injection H3 as <- <- <-. split; rewrite ?H1, ?H2; try done.
    - split; [done|]. split; [|done]. intros Hnone. rewrite Hnone in Htrim. done.
    - rewrite !app_assoc, <- (app_assoc t0). rewrite <- !app_assoc. by apply secret_read_mono.
    - rewrite <- !app_assoc. rewrite (app_assoc t0). by apply key_imported_mono.
    - rewrite <- !app_assoc. rewrite (app_assoc t0), (app_assoc (t0 ++ t1)). by apply key_imported_mono.
    - set_solver.
    - exists s. split; [set_solver|done].
    - split; [done|]. set_solver. }
  unfold of_outcome, fail, get_settings, start_system_config_subscriber.
  destruct (require_database_url env) as [db|e]; [|done].
  destruct (redis_url_from_env _) as [url|e] eqn:Hurl; [apply redis_url_nonempty in Hurl|];
    destruct (cookie_secure_from_env _) as [secure|e'] eqn:Hsecure;
    wp_run; (split; [done|]); intros c Hc; simplify_eq/=.
  split; [done|]. split; [done|]. split; [done|]. split; [|split; [|done]].
  - eexists. split; [|done]. set_solver.
  - split; [done|]. set_solver.
Qed.

Lemma listen_port_range env port : listen_port env = Val port -> 1 <= port <= 65535.
Proof.
  unfold listen_port. destruct (js_number _) as [z| | |]; try done.
  destruct ((z <? 1) || (65535 <? z)) eqn:Hr; [done|]. intros [= <-]. apply orb_false_iff in Hr. lia.
Qed.

(** Property C12. The service fails closed when it starts: in every run, whatever the file
    system, the key import, the database and Redis answer, it listens exactly
    once and on a port in range, or not at all.  When it listens, its public
    origin is exact and not empty, the refresh secret was read as at least 32
    bytes of base 64, both keys were imported, the settings were loaded and
    give the slot limit, and both Redis connections and the subscription are
    up.  When anything fails it writes the reason and exits with code 1. *)
Theorem startup_fails_closed env own_pid : wp (main env own_pid) (fun tr o =>
  match o with
  | Val (Some c) => start_sound env tr c /\ exited tr = [] /\
      exists port, listened tr = [port] /\ listen_port env = Val port /\ 1 <= port <= 65535
  | Val None => listened tr = [] /\ exited tr = [1]
  | Exc _ => listened tr = [] /\ exists e, listen_port env = Exc e
  end).
Proof.
  unfold main, of_outcome. unfold perform at 1, then_ at 1. cbn [bind wp]. intros [].
  destruct (listen_port env) as [port|e] eqn:Hport; unfold then_ at 1; cbn [bind wp]; [|by eauto].
  unfold try_catch, then_ at 1. rewrite !wp_bind. eapply wp_mono; [|apply load_config_spec].
  intros tr [c|e] [[Hl He] Hs]; cbn [bind wp ret perform then_]; intros []; [|intros []]; rewrite ?app_nil_r;
    rewrite !listened_cons, !exited_cons, listened_app, exited_app, !listened_cons, !exited_cons;
    cbn [is_listen is_exit option_to_list app]; rewrite Hl, He; [|done].
  specialize (Hs c eq_refl). split; [|split; [done|]].
  - destruct Hs as [H1 H2 H3 H4 H5 (s & H6 & H7) H8 H9].
    split; try done.
    + apply (secret_read_mono [_] tr [_]), H2.
    + apply (key_imported_mono [_] tr [_]), H3.
    + apply (key_imported_mono [_] tr [_]), H4.
    + set_solver.
    + exists s. split; [set_solver|done].
    + set_solver.
  - exists port. split; [done|]. split; [done|]. by apply (listen_port_range env).
Qed.

End Start.

(** A start on an environment in which everything is in order, and the same
    with [UNTANGLED_PUBLIC_ORIGIN] written with a path. *)
Definition sample_origin : UrlOrigin := fun text =>
  if starts_with (u "https://localhost:8443") text then Some (u "https://localhost:8443") else None.

Definition sample_redis_url : RedisUrl :=
  {| parsed_url := jstr; new_url := fun s => Some s; url_password := fun _ => [];
     without_password := fun s => s; url_to_string := fun s => s |}.

Definition sample_env (origin : string) : env_vars :=
  [(u "UNTANGLED_PUBLIC_ORIGIN", u origin); (SECRET_PATH_NAME, u "/run/secret.b64");
   (u "UNTANGLED_JWT_PRIVATE_KEY", u "private"); (u "UNTANGLED_JWT_PUBLIC_KEY_PATH", u "/run/public.pem");
   (u "DATABASE_URL", u "postgres://db"); (u "PORT", u "3000")].

Definition setup_calls : forall X, SetupE X -> X := fun X c =>
  match c in SetupE X return X with
  | ReadFile _ => Val (b64_encode Base64 (repeat 7 32) ++ [10])
  | ImportPKCS8 _ => Val (Key 1) | ImportSPKI _ => Val (Key 2)
  | Argon2Hash p => Val p | Argon2Verify _ _ => Val false | FirstRejected => O
  | LoadSettings => Val sample_settings
  | RedisConnect _ _ | RedisSubscribe _ | RedisUnsubscribe _ | RedisQuit | RedisDisconnect => Val tt
  | CreatePool _ _ | StartCleanup | SetThreadpool _ | Listen _ _ | WriteStderr _ | ExitProcess _ => tt
  end.

Definition setup_answers : handler SetupE unit := fun X e s => (setup_calls X e, s).

Example starts :
  let run env := trace_of setup_answers (main (UO := sample_origin) (RU := sample_redis_url) env 1) tt in
  listened (run (sample_env "https://localhost:8443")) = [3000] /\
  listened (run (sample_env "https://localhost:8443/app")) = [] /\
  exited (run (sample_env "https://localhost:8443/app")) = [1].
Proof. vm_compute. repeat split. Qed.

(** A limit that is no number is taken over from the environment as NaN. *)
Example rollover_not_a_number :
  audit_rollover_bytes [(u "UNTANGLED_AUDIT_ROLLOVER_BYTES", u "1MB")] = NNaN /\
  audit_rollover_seconds [(u "UNTANGLED_AUDIT_ROLLOVER_SECONDS", u "1d")] = NNaN.
Proof. vm_compute. split; reflexivity. Qed.
