(* ===== verification/ServiceRuntime.v ===== *)
(** What the auth service keeps while it runs beside its requests: the live
    limit of the hash slots (config.ts, hash_slots.ts), the timer of
    session_cleanup.ts, and the subscription of coherence.ts to changes of the
    settings. *)
From S2P Require Import Prelude JsString JsValue Settings Effects Sessions Login ServiceSetup.

(** ** Hash slots

    The limiter asks [live_hash_limit.value], which [get_settings] of config.ts
    assigns whenever the settings cache has answered. *)
Record HashPool := {
  pool_cache : CacheState;
  pool_limit : Z;          (* live_hash_limit.value *)
  pool_used : Z }.

Definition new_hash_pool : HashPool :=
  {| pool_cache := {| shared_entry := None; waiting := [] |};
     pool_limit := LOGIN_HASH_CONCURRENCY_DEFAULT; pool_used := 0 |}.

Inductive pool_step : HashPool -> HashPool -> Prop :=
| PoolSettings p o s : cache_step (pool_cache p) o s ->
    pool_step p {| pool_cache := s;
                   pool_limit := match o with
                                 | Some answer => (get_settings answer (pool_limit p)).2
                                 | None => pool_limit p
                                 end;
                   pool_used := pool_used p |}
| PoolAcquire p :
    pool_step p {| pool_cache := pool_cache p; pool_limit := pool_limit p;
                   pool_used := (slot_try_acquire (pool_limit p) (pool_used p)).2 |}
| PoolRelease p :
    pool_step p {| pool_cache := pool_cache p; pool_limit := pool_limit p;
                   pool_used := slot_release (pool_used p) |}.

Definition pool_ok (p : HashPool) : Prop :=
  cache_reaches (pool_cache p) /\
  LOGIN_HASH_CONCURRENCY_MIN <= pool_limit p <= LOGIN_HASH_CONCURRENCY_MAX /\
  0 <= pool_used p <= LOGIN_HASH_CONCURRENCY_MAX.

(** What the settings cache answers is well formed. *)
Lemma cache_answers_ok s v s' : cache_reaches s -> cache_step s (Some (Val v)) s' -> settings_ok v.
Proof.
  intros [Hs Hw]%cache_reaches_ok Hstep.
  inversion Hstep as [? now ? Hb| |? l1 p l2 query ? stored Hl He|]; subst.
  - unfold cache_begin in Hb. destruct (shared_entry s') as [e|]; [|done].
    destruct (_ <? _); by simplify_eq/=.
  - rewrite Hl, Forall_app, Forall_cons in Hw. destruct Hw as (_ & Hp & _).
    by apply cache_end_ok in He as [He _].
Qed.

Lemma pool_step_ok p p' : pool_ok p -> pool_step p p' -> pool_ok p'.
Proof.
  intros (Hc & Hl & Hu) Hstep. destruct Hstep as [p o s Hs|p|p]; unfold pool_ok; cbn.
  - split; [by eapply CacheNext|]. split; [|done].
    destruct o as [[v|e]|]; [|done..]. cbn. apply cache_answers_ok in Hs; [|done].
    destruct Hs as [(_ & _ & Hlim & _) _]. exact Hlim.
  - split; [done|]. split; [done|]. unfold slot_try_acquire. destruct (Z.leb_spec (pool_limit p) (pool_used p)); simpl; lia.
  - split; [done|]. split; [done|]. unfold slot_release. destruct (Z.ltb_spec 0 (pool_used p)); lia.
Qed.

Lemma pool_reaches_ok p : rtc pool_step new_hash_pool p -> pool_ok p.
Proof.
  assert (H0 : pool_ok new_hash_pool) by (split; [apply CacheNew|done]).
  intros H. revert H0. induction H as [|x y z Hxy _ IH]; [done|]. intros Hx. eapply IH, pool_step_ok; eauto.
Qed.

Lemma uv_threadpool_min size : UV_THREADPOOL_MIN <= ensure_uv_threadpool size.
Proof.
  unfold ensure_uv_threadpool. repeat case_match; try done.
  by match goal with H : (_ <=? _) = true |- _ => apply Z.leb_le in H end.
Qed.

(** However logins, changes of the settings, their reloads and failures
    overlap, at most ten passwords are hashed at once and never more than the
    settings last loaded allow when a slot is granted, at least one may always
    be, and the thread pool that main.ts sized keeps two threads free beside
    them. *)
Theorem hash_threads_bounded p uv_threadpool_size : rtc pool_step new_hash_pool p ->
  0 <= pool_used p /\ pool_used p + UV_THREADPOOL_HEADROOM <= ensure_uv_threadpool uv_threadpool_size /\
  1 <= pool_limit p <= 10 /\
  forall p', pool_step p p' -> pool_used p < pool_used p' ->
    pool_used p' = pool_used p + 1 /\ pool_used p' <= pool_limit p'.
Proof.
  intros (Hc & Hl & Hu)%pool_reaches_ok. pose proof (uv_threadpool_min uv_threadpool_size) as Hmin.
  unfold UV_THREADPOOL_MIN, UV_THREADPOOL_HEADROOM, LOGIN_HASH_CONCURRENCY_MIN, LOGIN_HASH_CONCURRENCY_MAX in *.
  split; [lia|]. split; [lia|]. split; [lia|].
  intros p' Hstep Hlt. destruct Hstep as [p o s Hs|p|p]; cbn in *; [lia|..].
  - unfold slot_try_acquire in *. destruct (Z.leb_spec (pool_limit p) (pool_used p)); simpl in *; lia.
  - unfold slot_release in *. destruct (Z.ltb_spec 0 (pool_used p)); lia.
Qed.

Lemma hash_threads_bounded_witness :
  let p := {| pool_cache := pool_cache new_hash_pool; pool_limit := 4; pool_used := 1 |} in
  rtc pool_step new_hash_pool p /\ pool_used p + 2 <= ensure_uv_threadpool (Some (u "1")).
Proof.
  intros p. assert (H : rtc pool_step new_hash_pool p) by (apply rtc_once, (PoolAcquire new_hash_pool)).
  split; [exact H|]. apply (hash_threads_bounded p (Some (u "1")) H).
Defined.

(** ** The cleanup timer

    The variables of [start_session_cleanup], the timers that are set, and the
    ticks under way.  The function of a timer that has fired is [tick]. *)
Record Cleanup := {
  cl_stopped : bool;
  cl_timer : option nat;
  cl_pending : list (nat * Z);       (* timer, delay in milliseconds *)
  cl_ticks : nat;
  cl_next : nat }.

Definition schedule (delay_ms : Z) (c : Cleanup) : Cleanup :=
  if cl_stopped c then c
  else {| cl_stopped := false; cl_timer := Some (cl_next c);
          cl_pending := cl_pending c ++ [(cl_next c, delay_ms)];
          cl_ticks := cl_ticks c; cl_next := S (cl_next c) |}.

Definition begin_tick (c : Cleanup) : Cleanup :=
  if cl_stopped c then c
  else {| cl_stopped := false; cl_timer := cl_timer c; cl_pending := cl_pending c;
          cl_ticks := S (cl_ticks c); cl_next := cl_next c |}.

Definition clear_timeout (id : nat) (pending : list (nat * Z)) : list (nat * Z) :=
  List.filter (fun t => negb (t.1 =? id)%nat) pending.

(** The function that [start_session_cleanup] returns. *)
Definition stop_cleanup (c : Cleanup) : Cleanup :=
  {| cl_stopped := true; cl_timer := None;
     cl_pending := match cl_timer c with Some id => clear_timeout id (cl_pending c) | None => cl_pending c end;
     cl_ticks := cl_ticks c; cl_next := cl_next c |}.

Definition start_session_cleanup : Cleanup :=
  begin_tick {| cl_stopped := false; cl_timer := None; cl_pending := []; cl_ticks := 0; cl_next := 0 |}.

(** The settings that a tick was given are those of the cache. *)
Definition settings_answer_ok (e : event AuthE) : Prop :=
  match e with
  | @Ev _ X c x =>
      match c in AuthE X return X -> Prop with
      | GetSettings => fun o => match o with Val s => settings_ok s | Exc _ => True end
      | _ => fun _ => True
      end x
  end.

Inductive cleanup_step : Cleanup -> Cleanup -> Prop :=
| TimerFires c id delay : (id, delay) ∈ cl_pending c ->
    cleanup_step c (begin_tick {| cl_stopped := cl_stopped c; cl_timer := cl_timer c;
                                  cl_pending := clear_timeout id (cl_pending c);
                                  cl_ticks := cl_ticks c; cl_next := cl_next c |})
| TickEnds c n tr delay : cl_ticks c = S n -> runs cleanup_tick tr (Val delay) ->
    Forall settings_answer_ok tr ->
    cleanup_step c (schedule delay {| cl_stopped := cl_stopped c; cl_timer := cl_timer c;
                                      cl_pending := cl_pending c; cl_ticks := n; cl_next := cl_next c |})
| Stops c : cleanup_step c (stop_cleanup c).

(** A tick never throws, and asks for the next one after at least a second. *)
Lemma cleanup_tick_delay : wp cleanup_tick (fun tr o =>
  exists delay, o = Val delay /\ (Forall settings_answer_ok tr -> 1000 <= delay)).
Proof.
  unfold cleanup_tick, run_session_cleanup, pg. wp_run; eexists; (split; [done|]); rewrite ?Forall_cons;
    intros Hs; destruct_and?; try (by vm_compute);
    match goal with H : settings_answer_ok (Ev GetSettings (Val ?s)) |- _ =>
      destruct H as (_ & _ & _ & _ & _ & _ & _ & _ & _ & _ & H); lia end.
Qed.

(** While the cleanup is on, exactly one timer or tick is under way; once it
    is stopped, no timer is set and at most the tick that was running is. *)
Record cleanup_ok (c : Cleanup) : Prop := {
  co_one : (length (cl_pending c) + cl_ticks c <= 1)%nat;
  co_on : cl_stopped c = false -> (length (cl_pending c) + cl_ticks c = 1)%nat;
  co_off : cl_stopped c = true -> cl_pending c = [];
  co_timer : forall id delay, (id, delay) ∈ cl_pending c -> cl_timer c = Some id /\ 1000 <= delay }.

Lemma clear_only (id : nat) (delay : Z) pending : (length pending <= 1)%nat -> (id, delay) ∈ pending ->
  clear_timeout id pending = [] /\ pending = [(id, delay)].
Proof.
  intros Hl Hin. destruct pending as [|t [|t' r]]; simpl in Hl; [by apply not_elem_of_nil in Hin| |lia].
  apply list_elem_of_singleton in Hin as <-. unfold clear_timeout. simpl. by rewrite Nat.eqb_refl.
Qed.

Lemma cleanup_step_ok c c' : cleanup_ok c -> cleanup_step c c' -> cleanup_ok c'.
Proof.
  intros [H1 Hon Hoff Ht] Hstep.
  destruct Hstep as [c id delay Hin|c n tr delay Hn Hr Hs|c].
  - destruct (clear_only id delay (cl_pending c) ltac:(lia) Hin) as [Hclear Hp].
    destruct (cl_stopped c) eqn:Hst; [rewrite (Hoff eq_refl) in Hp; done|].
    rewrite Hp in H1. simpl in H1. unfold begin_tick. simpl. rewrite Hclear.
    split; simpl; try (intros; lia); try done. intros ? ? []%not_elem_of_nil.
  - pose proof (proj1 (wp_runs _ _) cleanup_tick_delay _ _ Hr) as (d & Hd & Hle). injection Hd as <-.
    specialize (Hle Hs). rewrite Hn in *. assert (Hp : cl_pending c = []) by (destruct (cl_pending c); simpl in *; [done|lia]).
    unfold schedule. simpl. destruct (cl_stopped c) eqn:Hst; split; simpl; rewrite ?Hp; simpl; try done; try lia;
      intros ? ?; rewrite ?elem_of_nil, ?list_elem_of_singleton; [done|]. intros [= <- <-]. done.
  - assert (Hp : cl_pending (stop_cleanup c) = []).
    { unfold stop_cleanup. simpl. destruct (cl_pending c) as [|[id d] r] eqn:Hp; [by destruct (cl_timer c)|].
      destruct (Ht id d) as [-> _]; [by left|]. simpl in H1.
      destruct (clear_only id d ((id, d) :: r)) as [-> _]; [simpl; lia|by left|done]. }
    split; try (intros; done); rewrite Hp; simpl; try lia; intros ? ? []%not_elem_of_nil.
Qed.

Lemma cleanup_reaches_ok c : rtc cleanup_step start_session_cleanup c -> cleanup_ok c.
Proof.
  intros H. assert (H0 : cleanup_ok start_session_cleanup).
  { split; simpl; try done. intros ? ? []%not_elem_of_nil. }
  revert H0. induction H as [|x y z Hxy _ IH]; [done|]. intros Hx. eapply IH, cleanup_step_ok; eauto.
Qed.

(** Nothing starts after the stop. *)
Lemma stopped_step c c' : cl_stopped c = true -> cleanup_step c c' ->
  cl_stopped c' = true /\ (cl_ticks c' <= cl_ticks c)%nat.
Proof.
  intros Hst Hstep. destruct Hstep as [c id delay Hin|c n tr delay Hn _ _|c];
    unfold begin_tick, schedule, stop_cleanup; simpl; rewrite ?Hst; simpl; split; (done || lia).
Qed.

Lemma stopped_reaches c c' : rtc cleanup_step c c' -> cl_stopped c = true ->
  cl_stopped c' = true /\ (cl_ticks c' <= cl_ticks c)%nat.
Proof.
  induction 1 as [|x y z Hxy _ IH]; [done|]. intros Hx. destruct (stopped_step _ _ Hx Hxy) as [Hy Hle].
  destruct (IH Hy). split; [done|lia].
Qed.

(** The cleanup never overlaps itself and never dies: while it is on, either
    one tick is running and no timer is set, or one timer is set, for at least
    a second, and no tick is running, whatever the database and the settings
    answer; a tick never throws.  After it was stopped no timer is set and no
    tick begins any more. *)
Theorem cleanup_schedule c : rtc cleanup_step start_session_cleanup c ->
  (cl_stopped c = false ->
     (cl_ticks c = 1%nat /\ cl_pending c = []) \/
     (cl_ticks c = 0%nat /\ exists id delay, cl_pending c = [(id, delay)] /\ 1000 <= delay)) /\
  (forall tr o, runs cleanup_tick tr o -> exists delay, o = Val delay) /\
  forall c', rtc cleanup_step (stop_cleanup c) c' ->
    cl_pending c' = [] /\ (cl_ticks c' <= cl_ticks c)%nat.
Proof.
  intros Hr. pose proof (cleanup_reaches_ok c Hr) as [H1 Hon Hoff Ht]. split; [|split].
  - intros Hst. specialize (Hon Hst). destruct (cl_pending c) as [|[id d] r] eqn:Hp; simpl in Hon; [left; by split|right].
    destruct (Ht id d) as [_ Hd]; [by left|]. assert (r = []) as -> by (destruct r; simpl in Hon; [done|lia]).
    split; [simpl in Hon; lia|]. by exists id, d.
  - intros tr o Ho. destruct (proj1 (wp_runs _ _) cleanup_tick_delay _ _ Ho) as (d & -> & _). by exists d.
  - intros c' Hc'. destruct (stopped_reaches _ _ Hc' eq_refl) as [Hst Hle]. split; [|exact Hle].
    apply (cleanup_reaches_ok c'); [|exact Hst]. etransitivity; [exact Hr|]. eapply rtc_l; [apply Stops|exact Hc'].
Qed.

Lemma cleanup_schedule_witness :
  cl_pending (stop_cleanup start_session_cleanup) = [] /\
  (cl_ticks (stop_cleanup start_session_cleanup) <= 1)%nat.
Proof. apply (cleanup_schedule start_session_cleanup (rtc_refl _ _)). reflexivity. Defined.

(** ** The subscription *)

(** Stopping the subscriber never throws, and only the first time does it do
    anything: it unsubscribes and closes the connection, by force when that
    fails. *)
Lemma stop_subscriber_once :
  stop_subscriber true = ret true /\
  wp (stop_subscriber false) (fun tr o => o = Val true /\
    (exists x, Ev (RedisUnsubscribe SYSTEM_CONFIG_INVALIDATE_TOPIC) x ∈ tr) /\
    (Ev RedisQuit (Val tt) ∈ tr \/ exists x, Ev RedisDisconnect x ∈ tr)).
Proof.
  split; [done|]. unfold stop_subscriber. wp_run; (split; [done|]); split; eauto; try (eexists; by left).
  all: try (left; set_solver); right; eexists; do 2 right; by left.
Qed.

(** The listener of the topic: the entry is due, and the next [get] asks the
    database. *)
Lemma invalidation_reloads entry now : 0 <= now ->
  exists p, cache_begin (cache_invalidate entry) now = inr p.
Proof.
  intros Hn. destruct entry as [e|]; simpl; [|eauto]. destruct (Z.ltb_spec now 0); [lia|]. eauto.
Qed.

(** ** Passwords *)

(** An error of argon2 is a password that does not match. *)
Lemma verify_password_total hash password : wp (verify_password hash password) (fun tr o =>
  exists b, o = Val b /\ (b = true -> tr = [Ev (Argon2Verify hash password) (Val true)])).
Proof. unfold verify_password. wp_run; eexists; (split; [done|]); naive_solver. Qed.
