(* ===== verification/WebAccess.v ===== *)
(** auth/access_jwt.ts and auth/config.server.ts of the frontend, with
    [commit_access_token] of session.server.ts and route_error_copy.ts: how the
    web server verifies the access tokens of the auth service, the configuration
    that it refuses to run without, and what an error page says. *)
From S2P Require Import Prelude JsString JsValue JsText JsDate Effects Tokens Cookies AuditFile.
From S2P Require Jwt ServiceSetup.
From S2P Require Import Jwt.

(** ** access_jwt.ts *)

Section AccessJwt.
Context `{J : Jose}.

Definition custom_claims_ok (payload : JWTPayload) (now_seconds : Z) : bool :=
  if negb (match fields_get "typ" payload with VStr typ => seqb typ ACCESS_TOKEN_TYP | _ => false end) then false
  else if match fields_get "sub" payload with VStr sub => negb (uuid_re sub) | _ => true end then false
  else if match fields_get SESSION_ID_CLAIM payload with VStr sid => seqb sid [] | _ => true end then false
  else
    match fields_get "iat" payload, fields_get "exp" payload with
    | VNum iat, VNum exp =>
        if negb (num_ltb iat exp) then false
        else if num_ltb (NInt (now_seconds + ACCESS_TOKEN_IAT_SKEW_SECONDS)) iat then false
        else true
    | _, _ => false
    end.

Definition peek_iat (token : jstr) : option num :=
  match decodeJwt token with
  | None => None
  | Some peeked => match fields_get "iat" peeked with VNum iat => Some iat | _ => None end
  end.

Definition verify_access_jwt (token : jstr) (now : Z) : AccessJwtVerifyResult :=
  let now_seconds := now / 1000 in
  let relaxed :=
    match peek_iat token with
    | None => AccessInvalid
    | Some iat =>
        match jwtVerify token (date_of_seconds iat) with
        | None => AccessInvalid
        | Some payload => if negb (custom_claims_ok payload now_seconds) then AccessInvalid else AccessExpired payload
        end
    end in
  match jwtVerify token (Some now) with
  | Some payload => if negb (custom_claims_ok payload now_seconds) then AccessInvalid else AccessValid payload
  | None => relaxed
  end.
End AccessJwt.

(** ** config.server.ts *)

(** A public key as [createPublicKey] describes it. *)
Record PublicKeyObject : Type := {
  asymmetricKeyType : jstr;
  namedCurve : option jstr;
}.

Inductive WebE : Type -> Type :=
| ReadFileSync (path : jstr) : WebE (outcome (list Z))
| CreatePublicKey (pem : jstr) : WebE (outcome PublicKeyObject).

Abbreviation WM := (IO WebE).

Definition web_fail {A} (message : jstr) : WM A := throw (Error_ message).

Definition KEY_NAME : jstr := u "UNTANGLED_JWT_PUBLIC_KEY".
Definition KEY_PATH_NAME : jstr := u "UNTANGLED_JWT_PUBLIC_KEY_PATH".

Definition read_jwt_public_pem (env : ServiceSetup.env_vars) : WM jstr :=
  let text := ServiceSetup.env_trimmed env KEY_NAME in
  let path := ServiceSetup.env_trimmed env KEY_PATH_NAME in
  if negb (seqb text []) && negb (seqb path []) then
    web_fail (u "UNTANGLED_JWT_PUBLIC_KEY and UNTANGLED_JWT_PUBLIC_KEY_PATH cannot both be set")
  else if negb (seqb text []) then ret (ServiceSetup.normalize_pem text)
  else if negb (seqb path []) then
    let* read := attempt (call (ReadFileSync path)) in
    match read with
    | Val bytes => ret (ServiceSetup.normalize_pem (utf8_decode bytes))
    | Exc error => web_fail (u "UNTANGLED_JWT_PUBLIC_KEY_PATH is unreadable (" ++ path ++ u "): " ++ error_message error)
    end
  else web_fail (u "UNTANGLED_JWT_PUBLIC_KEY or UNTANGLED_JWT_PUBLIC_KEY_PATH is required; web auth cannot run without an ES256 public key").

Definition assert_p256_public_pem (pem : jstr) : WM unit :=
  let* created := attempt (call (CreatePublicKey pem)) in
  match created with
  | Exc _ => web_fail (u "UNTANGLED_JWT_PUBLIC_KEY must be an SPKI P-256 public key")
  | Val key =>
      if negb (seqb (asymmetricKeyType key) "ec") then web_fail (u "UNTANGLED_JWT_PUBLIC_KEY must be an EC public key")
      else match namedCurve key with
           | Some curve =>
               if seqb curve "prime256v1" || seqb curve "P-256" then ret tt
               else web_fail (u "UNTANGLED_JWT_PUBLIC_KEY must be a P-256 (secp256r1) key")
           | None => web_fail (u "UNTANGLED_JWT_PUBLIC_KEY must be a P-256 (secp256r1) key")
           end
  end.

Definition required_url (env : ServiceSetup.env_vars) (name hint : jstr) : WM unit :=
  match ServiceSetup.env_get env name with
  | None | Some [] => web_fail (name ++ hint)
  | Some _ => ret tt
  end.

Definition assert_web_auth_config (env : ServiceSetup.env_vars) : WM unit :=
  let* _ := required_url env (u "UNTANGLED_API_BASE_URL")
    (u " is required (e.g. http://api:8000 in Compose, http://localhost:8000 for host frontend-dev)") in
  let* _ := required_url env (u "UNTANGLED_AUTH_BASE_URL")
    (u " is required (e.g. http://auth:3000 in Compose, http://localhost:3001 for host frontend-dev)") in
  let* pem := read_jwt_public_pem env in
  assert_p256_public_pem pem.

(** [now] is the value of [Date.now()]. *)
Definition access_token_remaining_seconds (access_token : jstr) (now : Z) : outcome num :=
  match split_on 46 access_token with
  | _ :: ((_ :: _) as claims) :: _ =>
      match json_parse (utf8_decode (b64_decode claims)) with
      | None => Exc (Error_ (u "SyntaxError"))
      | Some VNull | Some VUndef => Exc (Error_ (u "TypeError"))
      | Some payload =>
          match vget payload (u "exp") with
          | VNum exp => if is_finite exp then Val (num_max (NInt 1) (num_add exp (- (now / 1000))))
                        else Exc (Error_ (u "Access token missing numeric exp claim"))
          | _ => Exc (Error_ (u "Access token missing numeric exp claim"))
          end
      end
  | _ => Exc (Error_ (u "Access token is not a JWT"))
  end.

(** ** route_error_copy.ts and the error page of root.tsx *)

Record RouteErrorCopy : Type := { copy_message : jstr; copy_details : jstr }.

Definition UNEXPECTED_DETAILS : jstr := u "An unexpected error occurred.".
Definition GENERIC_HTTP_DETAILS : jstr := u "Request could not be completed.".

Definition route_error_copy (status : Z) (statusText : option jstr) : RouteErrorCopy :=
  if status =? 404 then {| copy_message := u "404"; copy_details := u "The requested page could not be found." |}
  else if status =? 403 then {| copy_message := u "403"; copy_details := u "Access is denied." |}
  else
    let trimmed := match statusText with Some t => trim t | None => [] end in
    {| copy_message := num_to_string status;
       copy_details := if 0 <? jlen trimmed then trimmed else GENERIC_HTTP_DETAILS |}.

Definition unexpected_error_copy : RouteErrorCopy := {| copy_message := u "Oops!"; copy_details := UNEXPECTED_DETAILS |}.

(** What is thrown: a response of a loader, an error with its stack, or another
    value. *)
Inductive route_error : Type :=
| ErrorResponse (status : Z) (statusText : option jstr)
| ErrorObject (message : jstr) (stack : option jstr)
| OtherValue.

(** The heading, the text and the stack of the page; [dev] in development. *)
Definition ErrorBoundary (dev : bool) (error : route_error) : RouteErrorCopy * option jstr :=
  match error with
  | ErrorResponse status statusText => (route_error_copy status statusText, None)
  | ErrorObject message stack =>
      if dev then ({| copy_message := copy_message unexpected_error_copy; copy_details := message |}, stack)
      else (unexpected_error_copy, None)
  | OtherValue => (unexpected_error_copy, None)
  end.

(** ** The web server and the auth service *)

(** The files that a run read, with what came of it. *)
Definition web_read (e : event WebE) : option (jstr * outcome (list Z)) :=
  match e with
  | @Ev _ X c x =>
      match c in WebE X return X -> option (jstr * outcome (list Z)) with
      | ReadFileSync path => fun o => Some (path, o)
      | _ => fun _ => None
      end x
  end.

Definition service_read (e : event ServiceSetup.SetupE) : option (jstr * outcome (list Z)) :=
  match e with
  | @Ev _ X c x =>
      match c in ServiceSetup.SetupE X return X -> option (jstr * outcome (list Z)) with
      | ServiceSetup.ReadFile path => fun o => Some (path, o)
      | _ => fun _ => None
      end x
  end.

Lemma claims_agree payload now_seconds :
  custom_claims_ok payload now_seconds = Jwt.custom_claims_ok payload now_seconds.
Proof.
  unfold custom_claims_ok, Jwt.custom_claims_ok.
  destruct (match fields_get "typ" payload with VStr typ => seqb typ ACCESS_TOKEN_TYP | _ => false end); [|done].
  destruct (fields_get "sub" payload) as [| | | |sub| |]; try done. destruct (uuid_re sub); [|done].
  destruct (fields_get SESSION_ID_CLAIM payload) as [| | | |sid| |]; try done. destruct (seqb sid []); [done|].
  destruct (fields_get "iat" payload), (fields_get "exp" payload); try done. cbn [andb].
  destruct (num_ltb n n0); [|done]. 
  by destruct (num_ltb _ n).
Qed.

Lemma verify_agrees `{J : Jose} token now : verify_access_jwt token now = Jwt.verify_access_jwt token now.
Proof.
  unfold verify_access_jwt, Jwt.verify_access_jwt.
  destruct (jwtVerify token (Some now)) as [p|]; [rewrite claims_agree; by destruct (Jwt.custom_claims_ok _ _)|].
  unfold peek_iat, Jwt.peek_iat. destruct (decodeJwt token) as [q|]; [|done].
  destruct (fields_get "iat" q); simpl; try done. destruct (jwtVerify token _) as [p|]; [|done].
  rewrite claims_agree. by destruct (Jwt.custom_claims_ok _ _).
Qed.

(** Property C36. The two tiers agree on who is signed in: from the same
    environment and file they take the same key text, the web server refusing
    to start exactly when the service does for want of it; and with the same
    key the copy of the verification that the web server runs classifies every
    token, at every time, as the service does. *)
Theorem web_agrees_with_service `{J : Jose} :
  (forall env tr o, runs (read_jwt_public_pem env) tr o -> exists tr' o',
     runs (ServiceSetup.read_pem env KEY_NAME KEY_PATH_NAME) tr' o' /\
     omap service_read tr' = omap web_read tr /\ forall pem, o = Val pem <-> o' = Val pem) /\
  forall token now, verify_access_jwt token now = Jwt.verify_access_jwt token now.
Proof.
  split; [|apply verify_agrees]. intros env. apply (wp_runs (E := WebE)).
  unfold read_jwt_public_pem, ServiceSetup.read_pem, web_fail, ServiceSetup.fail.
  destruct (negb (seqb (ServiceSetup.env_trimmed env KEY_NAME) [])) eqn:Ht,
    (negb (seqb (ServiceSetup.env_trimmed env KEY_PATH_NAME) [])) eqn:Hp; simpl.
  - eexists [], _. split; [by split|]. by split.
  - eexists [], _. split; [by split|]. by split.
  - intros o. set (path := ServiceSetup.env_trimmed env KEY_PATH_NAME). destruct o as [bytes|e]; cbn [wp bind];
      [exists [Ev (ServiceSetup.ReadFile path) (Val bytes)]|exists [Ev (ServiceSetup.ReadFile path) (Exc e)]];
      eexists; (split; [eexists _, []; split; [reflexivity|split; reflexivity]|]); (split; [reflexivity|]); done.
  - eexists [], _. split; [by split|]. by split.
Qed.

(** The web server passes its check only with both addresses and with an EC key
    on the P-256 curve. *)
Lemma web_config_checked env : wp (assert_web_auth_config env) (fun tr o => o = Val tt ->
  (exists api auth, ServiceSetup.env_get env (u "UNTANGLED_API_BASE_URL") = Some api /\ api <> [] /\
     ServiceSetup.env_get env (u "UNTANGLED_AUTH_BASE_URL") = Some auth /\ auth <> []) /\
  exists pem key, Ev (CreatePublicKey pem) (Val key) ∈ tr /\ asymmetricKeyType key = u "ec" /\
    (namedCurve key = Some (u "prime256v1") \/ namedCurve key = Some (u "P-256"))).
Proof.
  unfold assert_web_auth_config, required_url, web_fail.
  destruct (ServiceSetup.env_get env (u "UNTANGLED_API_BASE_URL")) as [[|a api]|]; [done| |done].
  destruct (ServiceSetup.env_get env (u "UNTANGLED_AUTH_BASE_URL")) as [[|b auth]|]; [done| |done].
  unfold ret at 1 2. cbn [then_ bind]. apply (wp_then _ _ (fun _ _ => True)); [by apply wp_all| |done].
  intros tr pem _. unfold assert_p256_public_pem, web_fail, attempt, call, then_. cbn [bind wp].
  intros [key|e]; [|done]. cbn [bind]. destruct (seqb (asymmetricKeyType key) "ec") eqn:Hk; [|done]. cbn [negb].
  apply seqb_eq in Hk. destruct (namedCurve key) as [curve|] eqn:Hc; [|done].
  destruct (seqb curve "prime256v1" || seqb curve "P-256") eqn:Hcurve; [|done]. intros _. split; [eauto 10|].
  exists pem, key. split_and!; [set_solver|done|]. rewrite Hc.
  apply orb_true_iff in Hcurve as [->%seqb_eq | ->%seqb_eq]; auto.
Qed.

(** Out of development, the error page says nothing of an exception: all of them
    look alike. *)
Lemma error_page_uniform message stack message' stack' :
  ErrorBoundary false (ErrorObject message stack) = ErrorBoundary false (ErrorObject message' stack') /\
  ErrorBoundary false (ErrorObject message stack) = ErrorBoundary false OtherValue.
Proof. done. Qed.

Example remaining_seconds :
  access_token_remaining_seconds (u "h.eyJleHAiOjE5MDB9.s") 1000000 = Val (NInt 900) /\
  access_token_remaining_seconds (u "h.eyJleHAiOjE5MDB9.s") 3000000 = Val (NInt 1) /\
  access_token_remaining_seconds (u "token") 0 = Exc (Error_ (u "Access token is not a JWT")).
Proof. by vm_compute. Qed.
