(* ===== verification/Rbac.v ===== *)
(** rbac/permissions.ts with its query effective_permissions.sql, and
    [roles_and_permissions] of users.ts: the permission keys a user has through
    the role graph, and their cache in Redis.

    [flatten] is the meaning of the query on the tables; the service's side is
    a program over the calls [RbacE].  [world] runs any number of these
    programs against a database that changes meanwhile and one shared cache. *)
From S2P Require Import Prelude JsString JsValue JsText.

Definition MAX_ROLE_GRAPH_DEPTH := 16.
Definition AUTHZ_VERSION_ID : jstr := u "01900000-0000-7000-8000-000000000051".
Definition AUTHZ_USER_KEY_PREFIX : jstr := u "untangled.authz.user:".
Definition AUTHZ_CACHE_TTL_SECONDS := 60.

Definition authz_user_redis_key (user_id : jstr) : jstr := AUTHZ_USER_KEY_PREFIX ++ user_id.

Record FlattenRow := {
  has_cycle : bool;
  depth_exceeded : bool;
  row_key : option jstr }.

(** ** effective_permissions.sql *)

(** The tables the query reads, the version row, and the names of a user's
    roles in the database's order. *)
Record AuthzDb := {
  user_role : list (jstr * jstr);        (* user_id, role_id *)
  role_child : list (jstr * jstr);       (* parent_role_id, child_role_id *)
  role_permission : list (jstr * jstr);  (* role_id, permission_id *)
  permission : list (jstr * jstr);       (* id, key *)
  authz_version : Z;
  role_names : jstr -> list jstr }.

(** A row of [role_tree] with the columns that [CYCLE] adds. *)
Record TreeRow := {
  tree_role : jstr;
  tree_depth : Z;
  is_cycle : bool;
  path : list jstr }.

Definition seeds (db : AuthzDb) (user_id : jstr) : list TreeRow :=
  map (fun ur => {| tree_role := ur.2; tree_depth := 1; is_cycle := false; path := [ur.2] |})
    (filter (fun ur => ur.1 = user_id) (user_role db)).

(** The rows one row of the working table adds. *)
Definition child_rows (db : AuthzDb) (max_depth : Z) (rt : TreeRow) : list TreeRow :=
  if (tree_depth rt <? max_depth) && negb (is_cycle rt) then
    map (fun rc => {| tree_role := rc.2; tree_depth := tree_depth rt + 1;
                      is_cycle := bool_decide (rc.2 ∈ path rt); path := path rt ++ [rc.2] |})
      (filter (fun rc => rc.1 = tree_role rt) (role_child db))
  else [].

Definition expand (db : AuthzDb) (max_depth : Z) (working : list TreeRow) : list TreeRow :=
  working ≫= child_rows db max_depth.

(** [WITH RECURSIVE ... UNION ALL]: the working tables one after another. *)
Fixpoint working_tables (db : AuthzDb) (max_depth : Z) (fuel : nat) (working : list TreeRow)
    : list TreeRow :=
  match fuel with
  | O => []
  | S f => working ++ working_tables db max_depth f (expand db max_depth working)
  end.

(** Rows stop at the depth bound, so as many tables as it says are enough. *)
Definition role_tree (db : AuthzDb) (user_id : jstr) (max_depth : Z) : list TreeRow :=
  working_tables db max_depth (Z.to_nat max_depth) (seeds db user_id).

Definition tree_has_cycle (tree : list TreeRow) : bool := existsb is_cycle tree.

Definition tree_depth_exceeded (db : AuthzDb) (max_depth : Z) (tree : list TreeRow) : bool :=
  existsb (fun rt => (max_depth <=? tree_depth rt) && negb (is_cycle rt) &&
                     existsb (fun rc => seqb rc.1 (tree_role rt)) (role_child db)) tree.

Definition role_keys (db : AuthzDb) (role_id : jstr) : list jstr :=
  filter (fun rp => rp.1 = role_id) (role_permission db) ≫= fun rp =>
    map snd (filter (fun perm => perm.1 = rp.2) (permission db)).

Definition tree_keys (db : AuthzDb) (tree : list TreeRow) : list jstr :=
  remove_dups (filter (fun rt => is_cycle rt = false) tree ≫= fun rt => role_keys db (tree_role rt)).

Definition flatten (db : AuthzDb) (user_id : jstr) (max_depth : Z) : list FlattenRow :=
  let tree := role_tree db user_id max_depth in
  let row k := {| has_cycle := tree_has_cycle tree;
                  depth_exceeded := tree_depth_exceeded db max_depth tree; row_key := k |} in
  match tree_keys db tree with
  | [] => [row None]
  | keys => map (fun k => row (Some k)) keys
  end.

(** ** permissions.ts *)

(** The bigint column as the driver gives it. *)
Inductive version_column := VersionText (s : jstr) | VersionNumber (n : num).

Inductive RbacE : Type -> Type :=
| QAuthzVersion (id : jstr) : RbacE (outcome (list version_column))
| QEffectivePermissions (user_id : jstr) (max_depth : Z) : RbacE (outcome (list FlattenRow))
| QRoleNames (user_id : jstr) : RbacE (outcome (list jstr))
| RedisGet (key : jstr) : RbacE (outcome (option jstr))
| RedisSet (key value : jstr) (ex : Z) : RbacE (outcome unit)
| StderrWrite (line : jstr) : RbacE unit.

Definition version_number (c : version_column) : num :=
  match c with VersionText s => js_number s | VersionNumber n => n end.

Definition fetch_global_authz_version : IO RbacE num :=
  let* rows := call (QAuthzVersion AUTHZ_VERSION_ID) in
  match rows with
  | [] => throw (Error_ "authz_version singleton row is missing")
  | row :: _ => ret (version_number row)
  end.

(** The keys of a [Set] in insertion order, sorted. *)
Definition sorted_key_set (keys : list jstr) : list jstr :=
  merge_sort str_le (rev (remove_dups (rev keys))).

(** What is made of the query's rows. *)
Definition keys_of_rows (user_id : jstr) (rows : list FlattenRow) : outcome (list jstr) :=
  if existsb has_cycle rows then
    Exc (RoleGraphError
           (u "role graph cycle detected while resolving permissions for user " ++ user_id))
  else if existsb depth_exceeded rows then
    Exc (RoleGraphError
           (u "role graph exceeds max depth " ++ num_to_string MAX_ROLE_GRAPH_DEPTH ++
            u " while resolving permissions for user " ++ user_id))
  else Val (sorted_key_set (omap row_key rows)).

Definition fetch_effective_permission_keys (user_id : jstr) : IO RbacE (list jstr) :=
  let* rows := call (QEffectivePermissions user_id MAX_ROLE_GRAPH_DEPTH) in
  Ret (keys_of_rows user_id rows).

(** [CachePayload] *)
Definition cache_payload (v : num) (keys : list jstr) : jsval :=
  VObj [(u "v", VNum v); (u "keys", VArr (map VStr keys))].

(** [a === b] on numbers *)
Definition num_eqb (a b : num) : bool :=
  match a, b with NNaN, _ => false | _, _ => bool_decide (a = b) end.

(** The keys of a payload that is well formed and of this version. *)
Definition payload_keys (parsed : jsval) (global_version : num) : option (list jstr) :=
  match parsed with
  | VObj fields =>
      match fields_get (u "v") fields, fields_get (u "keys") fields with
      | VNum v, VArr keys => if num_eqb v global_version then mapM as_string keys else None
      | _, _ => None
      end
  | _ => None
  end.

Definition exn_message (e : exn) : jstr :=
  match e with Error_ m | SessionSettingsAbortError m | RoleGraphError m => m end.

Section Cached.

(** The text of the [SyntaxError] that [JSON.parse] throws. *)
Context (syntax_error : jstr -> jstr).

Definition JSON_parse (raw : jstr) : IO RbacE jsval :=
  match json_parse raw with
  | Some v => ret v
  | None => throw (Error_ (syntax_error raw))
  end.

(** The [try] block that reads the cache: the keys of a hit. *)
Definition read_cache (key : jstr) (global_version : num) : IO RbacE (option (list jstr)) :=
  try_catch
    (let* raw := call (RedisGet key) in
     match raw with
     | Some raw =>
         let* parsed := JSON_parse raw in
         match payload_keys parsed global_version with
         | Some keys => ret (Some (merge_sort str_le keys))
         | None => ret None
         end
     | None => ret None
     end)
    (fun error =>
       perform (StderrWrite (u "authz cache GET failed for " ++ key ++
                             u "; falling back to database: " ++ exn_message error ++ [10])) >>
       ret None).

(** The [try] block that fills it. *)
Definition write_cache (key : jstr) (global_version : num) (keys : list jstr) : IO RbacE unit :=
  try_catch
    (call (RedisSet key (json_text (cache_payload global_version keys)) AUTHZ_CACHE_TTL_SECONDS))
    (fun error =>
       perform (StderrWrite (u "authz cache SET failed for " ++ key ++
                             u "; continuing without cache: " ++ exn_message error ++ [10]))).

(** [redis]: is there a client? *)
Definition fetch_effective_permission_keys_cached (user_id : jstr) (redis : bool)
    : IO RbacE (list jstr) :=
  let* global_version := fetch_global_authz_version in
  let key := authz_user_redis_key user_id in
  let* hit := (if redis then read_cache key global_version else ret None) in
  match hit with
  | Some keys => ret keys
  | None =>
      let* keys := fetch_effective_permission_keys user_id in
      (if redis then write_cache key global_version keys else ret tt) >>
      ret keys
  end.

(** users.ts: the names of the roles and the permission keys. *)
Definition roles_and_permissions (id : jstr) (redis : bool) : IO RbacE (list jstr * list jstr) :=
  let* roles := call (QRoleNames id) in
  let* permissions := fetch_effective_permission_keys_cached id redis in
  ret (roles, permissions).

End Cached.

(** ** Role graphs *)

(** [walk db uid w r]: the roles [w], from one assigned to the user, each the
    next one's parent, the last being [r]. *)
Inductive walk (db : AuthzDb) (user_id : jstr) : list jstr -> jstr -> Prop :=
| walk_seed r : (user_id, r) ∈ user_role db -> walk db user_id [r] r
| walk_step w r c : walk db user_id w r -> (r, c) ∈ role_child db -> walk db user_id (w ++ [c]) c.

(** The user holds the key through some role. *)
Definition grants (db : AuthzDb) (user_id key : jstr) : Prop :=
  exists w r pid, walk db user_id w r /\ (r, pid) ∈ role_permission db /\ (pid, key) ∈ permission db.

(** No chain of roles is longer than the bound; this excludes cycles. *)
Definition bounded_graph (db : AuthzDb) (user_id : jstr) (max_depth : Z) : Prop :=
  forall w r, walk db user_id w r -> Z.of_nat (length w) <= max_depth.

(** What the service makes of a database. *)
Definition effective (db : AuthzDb) (user_id : jstr) : outcome (list jstr) :=
  keys_of_rows user_id (flatten db user_id MAX_ROLE_GRAPH_DEPTH).

(** ** Lemmas: the tree *)

(** The row a walk gives: it closes a cycle when its last role occurs before. *)
Definition walk_row (w : list jstr) (r : jstr) : TreeRow :=
  {| tree_role := r; tree_depth := Z.of_nat (length w);
     is_cycle := bool_decide (r ∈ removelast w); path := w |}.

Section Tree.
Context (db : AuthzDb) (uid : jstr) (max_depth : Z).

Lemma walk_last w r : walk db uid w r -> exists w', w = w' ++ [r].
Proof. destruct 1; [by exists []|by eexists]. Qed.

(** A walk of one more role is a walk and an edge. *)
Lemma walk_snoc w c r : walk db uid (w ++ [c]) r ->
  c = r /\ ((w = [] /\ (uid, r) ∈ user_role db) \/
            exists r', walk db uid w r' /\ (r', r) ∈ role_child db).
Proof.
  intros H. inversion H as [r0 Hr Heq|w0 r0 c0 Hw He Heq]; subst.
  - symmetry in Heq. change [r] with ([] ++ [r]) in Heq.
    apply app_inj_tail in Heq as [-> ->]. auto.
  - apply app_inj_tail in Heq as [-> ->]. split; [done|]. eauto.
Qed.

Lemma elem_of_child_rows rt row :
  row ∈ child_rows db max_depth rt <->
  tree_depth rt < max_depth /\ is_cycle rt = false /\
  exists c, (tree_role rt, c) ∈ role_child db /\
    row = {| tree_role := c; tree_depth := tree_depth rt + 1;
             is_cycle := bool_decide (c ∈ path rt); path := path rt ++ [c] |}.
Proof.
  unfold child_rows. destruct (Z.ltb_spec (tree_depth rt) max_depth); simpl;
    [destruct (is_cycle rt)|]; simpl.
  - split; [by intros ?%not_elem_of_nil|by intros (_ & ? & _)].
  - rewrite list_elem_of_fmap. split.
    + intros ([p c] & -> & [Hp Hin]%list_elem_of_filter). simpl in *. subst p. eauto 6.
    + intros (_ & _ & c & Hin & ->). exists (tree_role rt, c).
      by rewrite list_elem_of_filter.
  - split; [by intros ?%not_elem_of_nil|lia].
Qed.

(** The [n]-th working table holds the walks of [n + 1] roles whose roles
    before the last are distinct. *)
Lemma elem_of_table n row : 1 <= max_depth ->
  row ∈ Nat.iter n (expand db max_depth) (seeds db uid) <->
  exists w r, walk db uid w r /\ length w = S n /\ Z.of_nat (S n) <= max_depth /\
    NoDup (removelast w) /\ row = walk_row w r.
Proof.
  intros Hmax. revert row. induction n as [|n IH]; intros row; simpl.
  - unfold seeds. rewrite list_elem_of_fmap. split.
    + intros ([p r] & -> & [Hp Hin]%list_elem_of_filter). simpl in *. subst p.
      exists [r], r. split; [by constructor|]. split; [done|]. split; [lia|].
      split; [constructor|done].
    + intros (w & r & Hw & Hlen & _ & _ & ->). destruct (walk_last w r Hw) as [w' ->].
      apply walk_snoc in Hw as [_ [[-> Hr]|(r' & Hw & _)]].
      * exists (uid, r). by rewrite list_elem_of_filter.
      * rewrite length_app in Hlen. simpl in Hlen. destruct (walk_last _ _ Hw) as [w'' ->].
        rewrite length_app in Hlen. simpl in Hlen. lia.
  - unfold expand at 1. rewrite list_elem_of_bind. setoid_rewrite IH.
    setoid_rewrite elem_of_child_rows. split.
    + intros (rt & (Hd & Hc & c & Hin & ->) & w & r & Hw & Hlen & _ & Hnd & ->). simpl in *.
      exists (w ++ [c]), c. split; [by econstructor|]. rewrite length_app, removelast_last. simpl.
      split; [lia|]. split; [lia|]. split.
      * destruct (walk_last w r Hw) as [w' ->]. rewrite removelast_last in *.
        apply bool_decide_eq_false in Hc. apply NoDup_app. split; [done|].
        split; [|by apply NoDup_singleton]. by intros x Hx ->%list_elem_of_singleton.
      * unfold walk_row. rewrite length_app, removelast_last. simpl. f_equal. lia.
    + intros (w & c & Hw & Hlen & Hm & Hnd & ->). destruct (walk_last w c Hw) as [w' ->].
      rewrite removelast_last in Hnd. rewrite length_app in Hlen. simpl in Hlen.
      apply walk_snoc in Hw as [_ [[-> _]|(r & Hw & Hin)]]; [simpl in Hlen; lia|].
      exists (walk_row w' r). destruct (walk_last w' r Hw) as [w'' ->].
      split.
      * simpl. rewrite removelast_last in *. apply NoDup_app in Hnd as (Hnd & Hr & _).
        split; [lia|]. split.
        { apply bool_decide_eq_false. intros Hx. apply (Hr r Hx). by left. }
        exists c. split; [done|]. unfold walk_row. rewrite length_app, removelast_last. simpl.
        f_equal. lia.
      * exists (w'' ++ [r]), r. split; [done|]. split; [lia|]. split; [lia|].
        split; [|done]. rewrite removelast_last. by apply NoDup_app in Hnd as (? & _).
Qed.

Lemma elem_of_working_tables fuel rows row :
  row ∈ working_tables db max_depth fuel rows <->
  exists n, (n < fuel)%nat /\ row ∈ Nat.iter n (expand db max_depth) rows.
Proof.
  revert rows. induction fuel as [|f IH]; intros rows; simpl.
  - split; [by intros ?%not_elem_of_nil|intros (? & ? & _); lia].
  - rewrite elem_of_app, IH. split.
    + intros [H|(n & Hn & H)]; [by exists 0%nat; split; [lia|]|].
      exists (S n). split; [lia|]. by rewrite Nat.iter_succ_r.
    + intros ([|n] & Hn & H); [by left|]. right. exists n. split; [lia|].
      by rewrite Nat.iter_succ_r in H.
Qed.

Lemma elem_of_role_tree row : 1 <= max_depth ->
  row ∈ role_tree db uid max_depth <->
  exists w r, walk db uid w r /\ Z.of_nat (length w) <= max_depth /\
    NoDup (removelast w) /\ row = walk_row w r.
Proof.
  intros Hmax. unfold role_tree. rewrite elem_of_working_tables.
  setoid_rewrite elem_of_table; [|done]. split.
  - intros (n & Hn & w & r & Hw & Hlen & Hm & Hnd & ->). exists w, r.
    rewrite Hlen. eauto.
  - intros (w & r & Hw & Hlen & Hnd & ->). destruct (walk_last w r Hw) as [w' ->].
    rewrite length_app in Hlen. simpl in Hlen.
    exists (length w'). split; [lia|]. exists (w' ++ [r]), r. rewrite length_app. simpl.
    repeat split; [done|lia|lia|done].
Qed.

(** The tables after the bound are empty: the recursion has ended. *)
Lemma role_tree_complete n : 1 <= max_depth -> max_depth <= Z.of_nat n ->
  Nat.iter n (expand db max_depth) (seeds db uid) = [].
Proof.
  intros Hmax Hn. apply elem_of_nil_inv. intros row (w & r & _ & _ & H & _)%elem_of_table; [|done].
  lia.
Qed.

End Tree.

(** ** Runs against a database and a cache *)

Abbreviation cache := (gmap jstr jstr).

(** What becomes of a call: it is served, or its answer is an error before or
    after it took effect. *)
Inductive fate := Served | LostBefore (e : exn) | LostAfter (e : exn).

Definition lose {A} (f : fate) (a : A) : outcome A :=
  match f with Served => Val a | LostBefore e | LostAfter e => Exc e end.

Definition serve (db : AuthzDb) (f : fate) : handler RbacE cache := fun X e c =>
  match e in RbacE X return X * cache with
  | QAuthzVersion _ => (lose f [VersionText (num_to_string (authz_version db))], c)
  | QEffectivePermissions uid max_depth => (lose f (flatten db uid max_depth), c)
  | QRoleNames uid => (lose f (role_names db uid), c)
  | RedisGet key => (lose f (c !! key), c)
  | RedisSet key value _ =>
      (lose f tt, match f with LostBefore _ => c | _ => <[key := value]> c end)
  | StderrWrite _ => (tt, c)
  end.

(** ** Lemmas: flags and keys *)

Section Flags.
Context (db : AuthzDb) (uid : jstr) (max_depth : Z) (Hmax : 1 <= max_depth).

Lemma walk_suffix a x b r w : walk db uid (a ++ x :: b) r -> walk db uid w x ->
  walk db uid (w ++ b) r.
Proof.
  intros Ha Hw. revert r Ha. induction b as [|c b IH] using rev_ind; intros r Ha.
  - apply walk_snoc in Ha as [<- _]. by rewrite app_nil_r.
  - rewrite app_comm_cons, app_assoc in Ha.
    apply walk_snoc in Ha as [-> [[Hn _]|(r' & Ha & He)]]; [by destruct a|].
    rewrite app_assoc. econstructor; [by apply IH|done].
Qed.

(** A walk that comes back to a role can be made as long as one likes. *)
Lemma walk_pump w r n : walk db uid w r -> r ∈ removelast w ->
  exists w', walk db uid w' r /\ (n <= length w')%nat.
Proof.
  intros Hw Hr. destruct (walk_last db uid w r Hw) as [w0 ->]. rewrite removelast_last in Hr.
  apply list_elem_of_split in Hr as (a & b & ->). rewrite <- app_assoc in Hw. simpl in Hw.
  induction n as [|n (w' & Hw' & Hn)]; [eexists; split; [exact Hw|lia]|].
  exists (w' ++ b ++ [r]). split; [by eapply walk_suffix|]. rewrite !length_app. simpl. lia.
Qed.

Lemma bounded_acyclic w r : bounded_graph db uid max_depth -> walk db uid w r ->
  r ∉ removelast w.
Proof.
  intros Hb Hw Hr. destruct (walk_pump w r (S (Z.to_nat max_depth)) Hw Hr) as (w' & Hw' & Hn).
  specialize (Hb w' r Hw'). lia.
Qed.

Lemma bounded_NoDup w r : bounded_graph db uid max_depth -> walk db uid w r -> NoDup w.
Proof.
  intros Hb Hw. induction Hw as [r|w r c Hw IH He]; [apply NoDup_singleton|].
  apply NoDup_app. split; [done|]. split; [|apply NoDup_singleton].
  intros x Hx ->%list_elem_of_singleton.
  apply (bounded_acyclic (w ++ [c]) c Hb); [by econstructor|]. by rewrite removelast_last.
Qed.

(** Cut at its first repeated role, a walk that repeats one closes a cycle. *)
Lemma walk_first_cycle w r : walk db uid w r -> ~ NoDup w ->
  exists w' r', walk db uid w' r' /\ (length w' <= length w)%nat /\
    NoDup (removelast w') /\ r' ∈ removelast w'.
Proof.
  induction 1 as [r|w r c Hw IH He]; intros Hnd; [by destruct Hnd; apply NoDup_singleton|].
  rewrite length_app. destruct (decide (NoDup w)) as [Hn|Hn].
  - exists (w ++ [c]), c. split; [by econstructor|]. rewrite length_app, removelast_last.
    split; [done|]. split; [done|]. destruct (decide (c ∈ w)) as [|Hc]; [done|].
    destruct Hnd. apply NoDup_app. split; [done|]. split; [|apply NoDup_singleton].
    by intros x Hx ->%list_elem_of_singleton.
  - destruct (IH Hn) as (w' & r' & ? & ? & ?). exists w', r'. split; [done|]. split; [lia|done].
Qed.

(** The first roles of a walk are a walk. *)
Lemma walk_take n w r : walk db uid w r -> (n < length w)%nat -> (0 < n)%nat ->
  exists p q c, length p = n /\ walk db uid p q /\ (q, c) ∈ role_child db.
Proof.
  induction 1 as [r|w r c Hw IH He]; rewrite ?length_app; simpl; intros Hn H0; [lia|].
  destruct (decide (n = length w)) as [->|Hne]; [by exists w, r, c|]. apply IH; lia.
Qed.

Lemma bounded_flags : bounded_graph db uid max_depth ->
  tree_has_cycle (role_tree db uid max_depth) = false /\
  tree_depth_exceeded db max_depth (role_tree db uid max_depth) = false.
Proof.
  intros Hb. split; apply not_true_iff_false; unfold tree_has_cycle, tree_depth_exceeded;
    rewrite existsb_exists; intros (row & Hin%list_elem_of_In & Hrow);
    apply elem_of_role_tree in Hin as (w & r & Hw & _ & _ & ->); try done; simpl in *.
  - apply bool_decide_eq_true in Hrow. by eapply bounded_acyclic.
  - rewrite !andb_true_iff, existsb_exists, Z.leb_le in Hrow.
    destruct Hrow as [[Hd _] ([p c] & Hin%list_elem_of_In & Hp%seqb_eq)]. simpl in Hp. subst p.
    specialize (Hb (w ++ [c]) c ltac:(by econstructor)). rewrite length_app in Hb. simpl in Hb. lia.
Qed.

Lemma unbounded_flags w r : walk db uid w r -> max_depth < Z.of_nat (length w) ->
  tree_has_cycle (role_tree db uid max_depth) = true \/
  tree_depth_exceeded db max_depth (role_tree db uid max_depth) = true.
Proof.
  intros Hw Hlen.
  destruct (walk_take (Z.to_nat max_depth) w r Hw) as (p & q & c & Hp & Hwp & He); [lia..|].
  unfold tree_has_cycle, tree_depth_exceeded. rewrite !existsb_exists.
  destruct (decide (NoDup p)) as [Hnd|Hnd].
  - right. exists (walk_row p q). destruct (walk_last db uid p q Hwp) as [p' ->].
    apply NoDup_app in Hnd as (Hnd & Hq & _).
    split.
    + apply list_elem_of_In, elem_of_role_tree; [done|]. exists (p' ++ [q]), q.
      rewrite removelast_last, Hp. repeat split; [done|lia|done].
    + simpl. rewrite removelast_last, Hp, !andb_true_iff, Z.leb_le, existsb_exists.
      rewrite bool_decide_eq_false_2 by (intros Hx; apply (Hq q Hx); by left).
      split; [split; [lia|done]|]. exists (q, c). split; [by apply list_elem_of_In|apply seqb_refl].
  - left. destruct (walk_first_cycle p q Hwp Hnd) as (w' & r' & Hw' & Hlen' & Hnd' & Hin).
    exists (walk_row w' r'). split; [|by apply bool_decide_eq_true].
    apply list_elem_of_In, elem_of_role_tree; [done|]. exists w', r'. repeat split; [done|lia|done].
Qed.

Lemma elem_of_tree_keys k : bounded_graph db uid max_depth ->
  k ∈ tree_keys db (role_tree db uid max_depth) <-> grants db uid k.
Proof.
  intros Hb. unfold tree_keys, role_keys, grants. rewrite elem_of_remove_dups, list_elem_of_bind.
  setoid_rewrite list_elem_of_filter. setoid_rewrite list_elem_of_bind.
  setoid_rewrite list_elem_of_filter. setoid_rewrite list_elem_of_fmap.
  setoid_rewrite list_elem_of_filter. setoid_rewrite elem_of_role_tree; [|done]. split.
  - intros (row & ([r0 pid] & ([p0 k0] & -> & Hp0 & Hk) & Hr0 & Hrp) & _ & w & r & Hw & _ & _ & ->).
    simpl in *. subst. eauto 8.
  - intros (w & r & pid & Hw & Hrp & Hk). exists (walk_row w r).
    split; [exists (r, pid); split; [by exists (pid, k)|done]|].
    split; [by apply bool_decide_eq_false_2, bounded_acyclic|].
    exists w, r. split; [done|]. split; [by eapply Hb|]. split; [|done].
    destruct (walk_last db uid w r Hw) as [w' ->]. rewrite removelast_last.
    apply (bounded_NoDup _ _ Hb) in Hw. by apply NoDup_app in Hw as (? & _).
Qed.

End Flags.

Lemma flatten_flags db uid max_depth :
  existsb has_cycle (flatten db uid max_depth) = tree_has_cycle (role_tree db uid max_depth) /\
  existsb depth_exceeded (flatten db uid max_depth) =
    tree_depth_exceeded db max_depth (role_tree db uid max_depth).
Proof.
  unfold flatten. destruct (tree_keys _ _) as [|k keys]; simpl; [by rewrite !orb_false_r|].
  induction keys as [|k' keys [IH1 IH2]]; simpl; [by rewrite !orb_false_r|].
  simpl in *. rewrite orb_assoc, orb_diag, orb_assoc, orb_diag. auto.
Qed.

Lemma flatten_keys db uid max_depth :
  omap row_key (flatten db uid max_depth) = tree_keys db (role_tree db uid max_depth).
Proof.
  unfold flatten. destruct (tree_keys _ _) as [|k keys]; simpl; [done|]. f_equal.
  induction keys as [|k' keys IH]; simpl; [done|]. by f_equal.
Qed.

Lemma sorted_key_set_spec keys :
  StronglySorted str_le (sorted_key_set keys) /\ NoDup (sorted_key_set keys) /\
  forall k, k ∈ sorted_key_set keys <-> k ∈ keys.
Proof.
  unfold sorted_key_set. split; [apply (StronglySorted_merge_sort str_le)|]. split.
  - rewrite merge_sort_Permutation, <- Permutation_rev. apply NoDup_remove_dups.
  - intros k. rewrite merge_sort_Permutation, <- Permutation_rev, elem_of_remove_dups.
    by rewrite <- Permutation_rev.
Qed.

(** Sorting sorted keys again changes nothing. *)
Lemma merge_sort_sorted_keys keys :
  merge_sort str_le (sorted_key_set keys) = sorted_key_set keys.
Proof.
  apply (StronglySorted_unique str_le); [apply (StronglySorted_merge_sort str_le)| |].
  - apply sorted_key_set_spec.
  - apply merge_sort_Permutation.
Qed.

Lemma effective_bounded db uid : bounded_graph db uid MAX_ROLE_GRAPH_DEPTH ->
  effective db uid =
    Val (sorted_key_set (tree_keys db (role_tree db uid MAX_ROLE_GRAPH_DEPTH))).
Proof.
  intros Hb. unfold effective, keys_of_rows.
  destruct (flatten_flags db uid MAX_ROLE_GRAPH_DEPTH) as [-> ->].
  destruct (bounded_flags db uid MAX_ROLE_GRAPH_DEPTH ltac:(done) Hb) as [-> ->].
  by rewrite flatten_keys.
Qed.

Lemma effective_val db uid keys : effective db uid = Val keys ->
  bounded_graph db uid MAX_ROLE_GRAPH_DEPTH.
Proof.
  intros He w r Hw. apply Z.le_ngt. intros Hlen.
  destruct (flatten_flags db uid MAX_ROLE_GRAPH_DEPTH) as [H1 H2].
  unfold effective, keys_of_rows in He. rewrite H1, H2 in He.
  destruct (unbounded_flags db uid MAX_ROLE_GRAPH_DEPTH ltac:(done) w r Hw Hlen) as [Hf|Hf];
    rewrite Hf in He; [done|]. by destruct (tree_has_cycle _).
Qed.

(** Errors come from the graph only. *)
Lemma effective_exc db uid e : effective db uid = Exc e -> exists m, e = RoleGraphError m.
Proof. unfold effective, keys_of_rows. repeat case_match; intros [= <-]; eauto. Qed.

(** Property C5. Resolving permissions is exact and fails closed: from the
    tables, the service returns keys if and only if no chain of roles from the
    user's own is longer than [MAX_ROLE_GRAPH_DEPTH] (so there is no cycle), and
    the keys are then sorted, without repetition, and exactly those that a role
    of a chain grants; otherwise it throws a [RoleGraphError]. *)
Theorem effective_permissions_exact db uid c :
  let result := (interp (serve db Served) (fetch_effective_permission_keys uid) c).1 in
  ((exists keys, result = Val keys) <-> bounded_graph db uid MAX_ROLE_GRAPH_DEPTH) /\
  (forall keys, result = Val keys ->
     StronglySorted str_le keys /\ NoDup keys /\ forall k, k ∈ keys <-> grants db uid k) /\
  (forall e, result = Exc e -> exists m, e = RoleGraphError m).
Proof.
  simpl. fold (effective db uid). split; [split|split].
  - intros [keys He]. by eapply effective_val.
  - intros Hb. eexists. by apply effective_bounded.
  - intros keys He. pose proof (effective_val db uid keys He) as Hb.
    rewrite effective_bounded in He by done. injection He as <-.
    destruct (sorted_key_set_spec (tree_keys db (role_tree db uid MAX_ROLE_GRAPH_DEPTH)))
      as (Hs & Hnd & Hin).
    split; [done|]. split; [done|]. intros k. rewrite Hin. by apply elem_of_tree_keys.
  - intros e. apply effective_exc.
Qed.

(** A role with a child role, and a role that is its own child. *)
Definition sample_db (version : Z) : AuthzDb := {|
  user_role := [(u "ann", u "admin"); (u "bob", u "loop")];
  role_child := [(u "admin", u "reader"); (u "loop", u "loop")];
  role_permission := [(u "reader", u "p1"); (u "admin", u "p2"); (u "admin", u "p1")];
  permission := [(u "p1", u "users.read"); (u "p2", u "users.edit")];
  authz_version := version; role_names := fun _ => [] |}.

Example effective_sample :
  effective (sample_db 1) (u "ann") = Val [u "users.edit"; u "users.read"] /\
  exists m, effective (sample_db 1) (u "bob") = Exc (RoleGraphError m).
Proof. split; [by vm_compute|eexists; by vm_compute]. Qed.

Lemma effective_permissions_exact_witness :
  let result := (interp (serve (sample_db 1) Served)
                   (fetch_effective_permission_keys (u "ann")) ∅).1 in
  result = Val [u "users.edit"; u "users.read"] /\
  forall k, k ∈ [u "users.edit"; u "users.read"] <-> grants (sample_db 1) (u "ann") k.
Proof.
  assert (H : (interp (serve (sample_db 1) Served) (fetch_effective_permission_keys (u "ann")) ∅).1 =
              Val [u "users.edit"; u "users.read"]) by (by vm_compute).
  split; [exact H|].
  apply (proj1 (proj2 (effective_permissions_exact (sample_db 1) (u "ann") ∅)) _ H).
Defined.

(** ** The cache under concurrent requests *)

(** A request in progress: its user, the database it started on (as a position
    in the history) and what it has still to do. *)
Record process := {
  proc_user : jstr;
  proc_start : nat;
  proc_rest : IO RbacE (list jstr) }.

(** The database's position in its history, the shared cache, the requests. *)
Record world := {
  position : nat;
  cached : cache;
  processes : list process }.

Definition initial_world : world := {| position := 0; cached := ∅; processes := [] |}.

(** What happens next: the database changes, an entry expires or is evicted, a
    request starts, or the next call of a request is answered. *)
Inductive action :=
| Change
| Evict (key : jstr)
| Start (user_id : jstr)
| Advance (i : nat) (f : fate).

Section Worlds.
Context (syntax_error : jstr -> jstr) (history : nat -> AuthzDb).

Definition advance (f : fate) (w : world) (p : process) : process * cache :=
  match proc_rest p with
  | Ret _ => (p, cached w)
  | Vis e k =>
      let '(x, c) := serve (history (position w)) f _ e (cached w) in
      ({| proc_user := proc_user p; proc_start := proc_start p; proc_rest := k x |}, c)
  end.

Definition act (w : world) (a : action) : world :=
  match a with
  | Change =>
      {| position := S (position w); cached := cached w; processes := processes w |}
  | Evict key =>
      {| position := position w; cached := delete key (cached w); processes := processes w |}
  | Start uid =>
      {| position := position w; cached := cached w;
         processes := processes w ++
           [{| proc_user := uid; proc_start := position w;
               proc_rest := fetch_effective_permission_keys_cached syntax_error uid true |}] |}
  | Advance i f =>
      match processes w !! i with
      | Some p =>
          let '(p', c) := advance f w p in
          {| position := position w; cached := c; processes := <[i := p']> (processes w) |}
      | None => w
      end
  end.

(** What the backend that owns the tables guarantees of their history: it
    raises the version whenever it changes what a user may do, in the same
    transaction, and never lowers it; versions are safe integers and keys are
    strings. *)
Class AuthzHistory : Prop := {
  version_monotone i j : (i <= j)%nat -> authz_version (history i) <= authz_version (history j);
  version_pins i j uid : authz_version (history i) = authz_version (history j) ->
    effective (history i) uid = effective (history j) uid;
  version_safe i : Z.abs (authz_version (history i)) <= 2 ^ 53 - 1;
  keys_are_strings i id key : (id, key) ∈ permission (history i) -> units_ok key = true }.

(** The keys are the user's at some moment from [lo] to [hi]. *)
Definition fresh (uid : jstr) (lo hi : nat) (keys : list jstr) : Prop :=
  exists s, (lo <= s <= hi)%nat /\ effective (history s) uid = Val keys.

(** An entry holds the keys of a database no older than its version. *)
Definition entry_ok (now : nat) (key raw : jstr) : Prop :=
  exists uid v s keys, key = authz_user_redis_key uid /\
    raw = json_text (cache_payload (NInt v) keys) /\ (s <= now)%nat /\
    effective (history s) uid = Val keys /\ v <= authz_version (history s) /\ Z.abs v <= 2 ^ 53 - 1.

Definition cache_ok (now : nat) (c : cache) : Prop :=
  forall key raw, c !! key = Some raw -> entry_ok now key raw.

(** From [now] on, whatever happens between its calls, the request keeps the
    cache in order and ends with fresh keys if it returns any. *)
Fixpoint safe (uid : jstr) (start : nat) (p : IO RbacE (list jstr)) (now : nat) : Prop :=
  match p with
  | Ret (Val keys) => fresh uid start now keys
  | Ret (Exc _) => True
  | Vis e k =>
      forall t c f, (now <= t)%nat -> cache_ok t c ->
        let '(x, c') := serve (history t) f _ e c in
        cache_ok t c' /\ safe uid start (k x) t
  end.

Definition world_ok (w : world) : Prop :=
  cache_ok (position w) (cached w) /\
  Forall (fun p => safe (proc_user p) (proc_start p) (proc_rest p) (position w)) (processes w).

(** ** Lemmas *)

Lemma fresh_later uid lo hi hi' keys : (hi <= hi')%nat -> fresh uid lo hi keys -> fresh uid lo hi' keys.
Proof. intros Hh (s & Hs & He). exists s. split; [lia|done]. Qed.

Lemma cache_ok_later now now' c : (now <= now')%nat -> cache_ok now c -> cache_ok now' c.
Proof.
  intros Hn Hc key raw H. destruct (Hc key raw H) as (uid & v & s & keys & ? & ? & ? & ?).
  exists uid, v, s, keys. repeat split; try tauto. lia.
Qed.

Lemma safe_later uid start p now now' : (now <= now')%nat ->
  safe uid start p now -> safe uid start p now'.
Proof.
  intros Hn. destruct p as [[keys|e]|X e k]; simpl; [by apply fresh_later|done|].
  intros H t c f Ht. apply H. lia.
Qed.

Context {HH : AuthzHistory}.

Lemma effective_keys_ok s uid keys : effective (history s) uid = Val keys ->
  forallb units_ok keys = true /\ merge_sort str_le keys = keys.
Proof.
  intros He. pose proof (effective_val _ _ _ He) as Hb.
  rewrite effective_bounded in He by done. injection He as <-.
  split; [|apply merge_sort_sorted_keys]. apply forallb_forall. intros k Hk%list_elem_of_In.
  apply sorted_key_set_spec, elem_of_tree_keys in Hk as (w & r & pid & _ & _ & Hp); [|done..].
  by eapply keys_are_strings.
Qed.

(** What was stored is read back. *)
Lemma payload_roundtrip v keys : Z.abs v <= 2 ^ 53 - 1 -> forallb units_ok keys = true ->
  json_parse (json_text (cache_payload (NInt v) keys)) = Some (cache_payload (NInt v) keys).
Proof.
  intros Hv Hk. apply json_parse_text. cbn -[Z.pow]. rewrite (proj2 (Z.leb_le _ _)) by done. simpl.
  rewrite andb_true_r. apply forallb_forall. intros x (k & <- & Hin)%in_map_iff. simpl.
  rewrite forallb_forall in Hk. auto.
Qed.

Lemma payload_keys_payload v keys g :
  payload_keys (cache_payload (NInt v) keys) g = if num_eqb (NInt v) g then Some keys else None.
Proof.
  change (payload_keys (cache_payload (NInt v) keys) g) with
    (if num_eqb (NInt v) g then mapM as_string (map VStr keys) else None).
  destruct (num_eqb (NInt v) g); [|done].
  induction keys as [|k keys IH]; simpl; [done|]. by rewrite IH.
Qed.

(** A hit of the version read at [t0] is fresh since [t0]. *)
Lemma entry_fresh t0 now uid raw : (t0 <= now)%nat ->
  entry_ok now (authz_user_redis_key uid) raw ->
  exists parsed, json_parse raw = Some parsed /\
    forall keys, payload_keys parsed (NInt (authz_version (history t0))) = Some keys ->
      fresh uid t0 now (merge_sort str_le keys).
Proof.
  intros Ht (uid' & v & s & ks & Hkey & -> & Hs & He & Hv & Habs).
  unfold authz_user_redis_key in Hkey. apply app_inv_head in Hkey as <-.
  destruct (effective_keys_ok _ _ _ He) as [Hu Hsort].
  exists (cache_payload (NInt v) ks). split; [by apply payload_roundtrip|].
  intros keys. rewrite payload_keys_payload. unfold num_eqb.
  destruct (bool_decide_reflect (NInt v = NInt (authz_version (history t0)))) as [Heq|]; [|done].
  injection Heq as ->. intros [= <-]. rewrite Hsort.
  destruct (decide (t0 <= s)%nat) as [|Hlt]; [by exists s|].
  exists t0. split; [lia|]. rewrite <- He. apply version_pins.
  pose proof (version_monotone s t0 ltac:(lia)). lia.
Qed.

(** The tail of a request after a miss: query, store, return. *)
Lemma safe_miss uid start t0 now : (start <= t0 <= now)%nat ->
  let v := NInt (authz_version (history t0)) in
  safe uid start
    (let* keys := fetch_effective_permission_keys uid in
     write_cache (authz_user_redis_key uid) v keys >> ret keys) now.
Proof.
  intros Ht v t1 c f Ht1 Hc. simpl. split; [done|]. destruct f as [|e|e]; simpl; [|done..].
  fold (effective (history t1) uid). destruct (effective (history t1) uid) as [keys|e] eqn:He; [|done].
  intros t2 c2 f Ht2 Hc2. simpl.
  assert (Hfresh : forall t, (t2 <= t)%nat -> fresh uid start t keys).
  { intros t H. exists t1. split; [lia|done]. }
  assert (Hins : cache_ok t2 (<[authz_user_redis_key uid :=
                   json_text (cache_payload v keys)]> c2)).
  { intros key raw [[<- <-]|[_ Hk]]%lookup_insert_Some; [|by apply Hc2].
    exists uid, (authz_version (history t0)), t1, keys. split; [done|]. split; [done|].
    split; [lia|]. split; [done|]. split; [apply version_monotone; lia|apply version_safe]. }
  destruct f as [|e|e]; simpl; (split; [done|]); auto.
  all: intros t3 c3 f Ht3 Hc3; simpl; split; [done|]; apply Hfresh; lia.
Qed.

Lemma safe_cached uid start : safe uid start
  (fetch_effective_permission_keys_cached syntax_error uid true) start.
Proof.
  intros t0 c f Ht0 Hc. simpl. split; [done|]. destruct f as [|e|e]; simpl; [|done..].
  rewrite js_number_num_to_string. intros t1 c1 f Ht1 Hc1. simpl. split; [done|].
  assert (Hmiss : forall now, (t1 <= now)%nat -> safe uid start
    (let* keys := fetch_effective_permission_keys uid in
     write_cache (authz_user_redis_key uid) (NInt (authz_version (history t0))) keys >> ret keys) now).
  { intros now Hn. apply safe_miss. lia. }
  destruct f as [|e|e]; simpl;
    [|intros t2 c2 f2 Ht2 Hc2; simpl; split; [done|]; apply Hmiss; lia..].
  destruct (c1 !! authz_user_redis_key uid) as [raw|] eqn:Hraw; [|by apply Hmiss].
  destruct (entry_fresh t0 t1 uid raw Ht1) as (parsed & Hp & Hkeys); [by apply Hc1|].
  unfold JSON_parse. rewrite Hp. unfold ret at 1, then_ at 1. cbn [bind].
  destruct (payload_keys parsed _) as [keys|] eqn:Hk; [|by apply Hmiss].
  destruct (Hkeys keys eq_refl) as (s & Hs & He). exists s. split; [lia|done].
Qed.

Lemma act_ok w a : world_ok w -> world_ok (act w a).
Proof.
  intros [Hc Hp]. destruct a as [|key|uid|i f]; simpl.
  - split; [by apply (cache_ok_later (position w)); simpl; [lia|]|].
    eapply Forall_impl; [exact Hp|]. intros p. apply safe_later. simpl. lia.
  - split; [|done]. intros key' raw H. simpl in H. apply lookup_delete_Some in H as [_ H]. by apply Hc.
  - split; [done|]. apply Forall_app. split; [done|]. constructor; [|done]. apply safe_cached.
  - destruct (processes w !! i) as [p|] eqn:Hi; [|done].
    pose proof (Forall_lookup_1 _ _ _ _ Hp Hi) as Hsafe. unfold advance.
    destruct (proc_rest p) as [o|X e k] eqn:Hr.
    + split; [done|]. simpl. by rewrite list_insert_id.
    + simpl in Hsafe. rewrite Hr in Hsafe. specialize (Hsafe (position w) (cached w) f ltac:(lia) Hc).
      destruct (serve _ f X e (cached w)) as [x c]. destruct Hsafe as [Hc' Hs].
      split; [done|]. by apply Forall_insert.
Qed.

Lemma world_ok_reachable actions : world_ok (fold_left act actions initial_world).
Proof.
  assert (H0 : world_ok initial_world).
  { split; [|constructor]. intros key raw H. simpl in H. by rewrite lookup_empty in H. }
  revert H0. generalize initial_world. induction actions as [|a actions IH]; intros w Hw; [done|].
  simpl. by apply IH, act_ok.
Qed.

End Worlds.

(** ** Properties of the cache *)

(** Property C6. The cache never serves stale permissions: with any number of
    requests interleaved call by call with changes of the database, evictions
    and failures of either store, keys that a request returns were the user's
    effective permissions at some moment between its start and its end. *)
Theorem cached_permissions_fresh syntax_error history actions i p keys :
  AuthzHistory history ->
  let w := fold_left (act syntax_error history) actions initial_world in
  processes w !! i = Some p -> proc_rest p = Ret (Val keys) ->
  exists s, (proc_start p <= s <= position w)%nat /\
    effective (history s) (proc_user p) = Val keys.
Proof.
  intros HH w Hi Hr. destruct (world_ok_reachable syntax_error history actions) as [_ Hp].
  pose proof (Forall_lookup_1 _ _ _ _ Hp Hi) as Hs. simpl in Hs. by rewrite Hr in Hs.
Qed.

(** A database whose user gains a permission at the second change. *)
Definition sample_history (i : nat) : AuthzDb :=
  let db := sample_db 7 in
  if decide (i < 2)%nat then db
  else {| user_role := user_role db; role_child := role_child db;
          role_permission := (u "reader", u "p3") :: role_permission db;
          permission := (u "p3", u "audit.read") :: permission db;
          authz_version := 8; role_names := role_names db |}.

Lemma sample_history_ok : AuthzHistory sample_history.
Proof.
  unfold sample_history. split.
  - intros i j Hij. repeat case_decide; simpl; lia.
  - intros i j uid. repeat case_decide; intros Heq; [reflexivity|discriminate Heq..|reflexivity].
  - intros i. case_decide; simpl; lia.
  - intros i id key. case_decide; simpl; intros Hin;
      repeat (apply elem_of_cons in Hin as [Hin|Hin]);
      try (by apply not_elem_of_nil in Hin); by injection Hin as -> ->.
Qed.

(** A request fills the cache across a change, a second one hits a stale entry
    and reads again, a third one hits. *)
Definition sample_actions : list action :=
  [Start (u "ann"); Advance 0 Served; Advance 0 (LostBefore (Error_ "down")); Advance 0 Served;
   Change; Change; Advance 0 Served; Advance 0 (LostAfter (Error_ "down")); Advance 0 Served] ++
  Start (u "ann") :: repeat (Advance 1 Served) 4 ++ Start (u "ann") :: repeat (Advance 2 Served) 2.

Lemma cached_permissions_fresh_witness :
  let w := fold_left (act (fun t => t) sample_history) sample_actions initial_world in
  exists p, processes w !! 2%nat = Some p /\
    proc_rest p = Ret (Val [u "audit.read"; u "users.edit"; u "users.read"]) /\
    exists s, (proc_start p <= s <= position w)%nat /\
      effective (sample_history s) (proc_user p) =
        Val [u "audit.read"; u "users.edit"; u "users.read"].
Proof.
  intros w. eexists. split; [vm_compute; reflexivity|]. split; [vm_compute; reflexivity|].
  apply (cached_permissions_fresh (fun t => t) sample_history sample_actions 2).
  - exact sample_history_ok.
  - vm_compute. reflexivity.
  - vm_compute. reflexivity.
Defined.

(** The answers of the database in a run. *)
Definition version_answer (e : event RbacE) : option (outcome (list version_column)) :=
  match e with
  | @Ev _ X c x =>
      match c in RbacE X return X -> option (outcome (list version_column)) with
      | QAuthzVersion _ => fun o => Some o
      | _ => fun _ => None
      end x
  end.

Definition rows_answer (e : event RbacE) : option (outcome (list FlattenRow)) :=
  match e with
  | @Ev _ X c x =>
      match c in RbacE X return X -> option (outcome (list FlattenRow)) with
      | QEffectivePermissions _ _ => fun o => Some o
      | _ => fun _ => None
      end x
  end.

(** Redis can neither block a request nor change an error into
    permissions: whatever Redis answers or fails with, the request reads the
    version once and fails only by the database's own failure, a missing
    version row or a refused role graph; and whenever it queries the role
    graph, the result is what the rows say. *)
Theorem redis_never_decides syntax_error uid redis :
  wp (fetch_effective_permission_keys_cached syntax_error uid redis) (fun tr r =>
    exists va, omap version_answer tr = [va] /\
      match va, omap rows_answer tr with
      | Exc e, _ => r = Exc e
      | Val [], _ => r = Exc (Error_ "authz_version singleton row is missing")
      | Val _, [] => redis = true /\ exists keys, r = Val keys
      | Val _, Exc e :: _ => r = Exc e
      | Val _, Val rows :: _ => r = keys_of_rows uid rows
      end).
Proof.
  unfold fetch_effective_permission_keys_cached, fetch_global_authz_version, read_cache,
    write_cache, JSON_parse, fetch_effective_permission_keys.
  wp_run; simpl in *; simplify_eq; eexists; (split; [reflexivity|]); simpl; eauto.
Qed.
