(* ===== verification/JsArray.v ===== *)
(** The array operations of the language that the frontend's code uses:
    [sort] (stable, by a comparator), [splice], [findIndex] and a map built
    from entries, with the lemmas on them; and [toUpperCase] on one code
    unit. *)
From S2P Require Import Prelude JsString.

(** ** [toUpperCase] *)

(** The upper-case form of one code unit, for ASCII and Latin-1; the other
    units are left as they are. *)
Definition upper_unit (c : Z) : list Z :=
  if is_lower c then [c - 32]
  else if (224 <=? c) && (c <=? 254) && negb (c =? 247) then [c - 32]
  else if c =? 223 then [83; 83]
  else if c =? 255 then [376]
  else if c =? 181 then [924]
  else [c].

(** [s.charAt(0).toUpperCase() + s.slice(1)] *)
Definition capitalize (s : jstr) : jstr :=
  match s with [] => [] | c :: s' => upper_unit c ++ s' end.

(** ** [sort] *)

Section Sort.
Context {A : Type} (le : A -> A -> bool).

Fixpoint insert_sorted (x : A) (l : list A) : list A :=
  match l with
  | [] => [x]
  | y :: l' => if le x y then x :: l else y :: insert_sorted x l'
  end.

(** [l.sort(compare)] with [le x y] for [compare(x, y) <= 0]: elements that
    compare equal keep their order. *)
Definition stable_sort (l : list A) : list A := foldr insert_sorted [] l.

Lemma insert_sorted_perm x l : insert_sorted x l ≡ₚ x :: l.
Proof.
  induction l as [|y l IH]; simpl; [done|]. destruct (le x y); [done|].
  rewrite IH. constructor.
Qed.

Lemma stable_sort_perm l : stable_sort l ≡ₚ l.
Proof. induction l as [|x l IH]; simpl; [done|]. by rewrite insert_sorted_perm, IH. Qed.

Definition sorted_by (l : list A) : Prop := StronglySorted (fun x y => le x y = true) l.

Context (Htot : forall x y, le x y = true \/ le y x = true)
        (Htrans : forall x y z, le x y = true -> le y z = true -> le x z = true).

Lemma insert_sorted_sorted x l : sorted_by l -> sorted_by (insert_sorted x l).
Proof.
  unfold sorted_by. induction 1 as [|y l Hl IH Hy]; simpl; [repeat constructor|].
  destruct (le x y) eqn:Hxy.
  - repeat constructor; auto. eapply Forall_impl; [exact Hy|]. eauto.
  - constructor; [done|]. rewrite insert_sorted_perm. constructor; [|done].
    destruct (Htot x y); congruence.
Qed.

Lemma stable_sort_sorted l : sorted_by (stable_sort l).
Proof. induction l; simpl; [constructor|]. by apply insert_sorted_sorted. Qed.

(** A list already in order is left alone. *)
Lemma stable_sort_id l : sorted_by l -> stable_sort l = l.
Proof.
  induction 1 as [|y l Hl IH Hy]; simpl; [done|]. rewrite IH.
  destruct l as [|z l]; simpl; [done|]. apply Forall_cons in Hy as [-> _]. done.
Qed.

(** The order does not depend on that of the input when equal-comparing
    elements are equal. *)
Lemma stable_sort_canonical l l' :
  (forall x y, le x y = true -> le y x = true -> x = y) ->
  l ≡ₚ l' -> stable_sort l = stable_sort l'.
Proof.
  intros Hanti Hp.
  assert (Hs : stable_sort l ≡ₚ stable_sort l') by by rewrite !stable_sort_perm.
  revert Hs. generalize (stable_sort_sorted l) (stable_sort_sorted l').
  generalize (stable_sort l) (stable_sort l'). clear l l' Hp.
  induction l as [|x l IH]; intros [|y l'] Hl Hl' Hp.
  - done.
  - by apply Permutation_nil_l in Hp.
  - by apply symmetry, Permutation_nil_l in Hp.
  - assert (x = y) as ->.
    { apply StronglySorted_inv in Hl as [_ Hx], Hl' as [_ Hy].
      rewrite Forall_forall in Hx, Hy.
      assert (x ∈ y :: l') as [->|Hxl]%elem_of_cons by (rewrite <- Hp; left); [done|].
      assert (y ∈ x :: l) as [->|Hyl]%elem_of_cons by (rewrite Hp; left); [done|].
      apply Hanti; auto. }
    f_equal. apply IH; [by apply StronglySorted_inv in Hl as [? _]
      |by apply StronglySorted_inv in Hl' as [? _]|]. by apply Permutation_cons_inv in Hp.
Qed.

End Sort.

(** ** Arrays *)

(** [xs.findIndex(f)]; [None] is [-1]. *)
Fixpoint find_index {A : Type} (f : A -> bool) (l : list A) : option nat :=
  match l with
  | [] => None
  | x :: l' => if f x then Some O else S <$> find_index f l'
  end.

Lemma find_index_Some {A : Type} (f : A -> bool) l i : find_index f l = Some i ->
  exists x, l !! i = Some x /\ f x = true /\
    forall j y, (j < i)%nat -> l !! j = Some y -> f y = false.
Proof.
  revert i. induction l as [|x l IH]; intros i; simpl; [done|].
  destruct (f x) eqn:Hx.
  - intros [= <-]. exists x. repeat split; [done|]. intros; lia.
  - destruct (find_index f l) as [j|]; simpl; [|done]. intros [= <-].
    destruct (IH j eq_refl) as (y & Hy & Hfy & Hlt). exists y. repeat split; [done|done|].
    intros [|k] z Hk Hz; simplify_eq/=; [done|]. apply (Hlt k); [lia|done].
Qed.

(** [xs.splice(at, 0, x)] *)
Definition splice_in {A : Type} (at_ : nat) (x : A) (l : list A) : list A :=
  take at_ l ++ x :: drop at_ l.

(** Taking an element out ([splice(i, 1)]) and putting it elsewhere permutes. *)
Lemma splice_in_perm {A : Type} i (x : A) l : splice_in i x l ≡ₚ x :: l.
Proof. unfold splice_in. rewrite <- Permutation_middle. by rewrite take_drop. Qed.

(** [new Map(xs.map((x) => [key(x), x]))]: a later entry replaces an earlier. *)
Definition map_of {A : Type} (key : A -> jstr) (l : list A) : gmap jstr A :=
  fold_left (fun m x => <[key x := x]> m) l ∅.

Lemma map_of_lookup {A : Type} (key : A -> jstr) l k x :
  map_of key l !! k = Some x -> x ∈ l /\ key x = k.
Proof.
  unfold map_of. assert (H : forall (m : gmap jstr A), fold_left (fun m x => <[key x := x]> m) l m !! k = Some x ->
    (x ∈ l /\ key x = k) \/ m !! k = Some x).
  { induction l as [|y l IH]; intros m; simpl; [auto|]. intros [[? ?]|Hm]%IH.
    - left. split; [by right|done].
    - destruct (decide (key y = k)) as [<-|Hk].
      + rewrite lookup_insert_eq in Hm. simplify_eq. left. split; [left|done].
      + rewrite lookup_insert_ne in Hm by done. auto. }
  intros [?|Hm]%H; [done|]. by rewrite lookup_empty in Hm.
Qed.

Lemma map_of_is_Some {A : Type} (key : A -> jstr) l x :
  x ∈ l -> is_Some (map_of key l !! key x).
Proof.
  unfold map_of. generalize (∅ : gmap jstr A).
  assert (Hkeep : forall l (m : gmap jstr A) k, is_Some (m !! k) ->
    is_Some (fold_left (fun m x => <[key x := x]> m) l m !! k)).
  { clear. induction l as [|y l IH]; intros m k Hm; simpl; [done|]. apply IH.
    destruct (decide (key y = k)) as [<-|Hk].
    - rewrite lookup_insert_eq. eauto.
    - by rewrite lookup_insert_ne. }
  induction l as [|y l IH]; intros m Hx; [by apply not_elem_of_nil in Hx|]. simpl.
  apply elem_of_cons in Hx as [->|Hx]; [|by apply IH].
  apply Hkeep. rewrite lookup_insert_eq. eauto.
Qed.

Lemma map_of_lookup_eq {A : Type} (key : A -> jstr) l x :
  NoDup (map key l) -> x ∈ l -> map_of key l !! key x = Some x.
Proof.
  intros Hnd Hx. destruct (map_of_is_Some key l x Hx) as [y Hy]. rewrite Hy.
  apply map_of_lookup in Hy as [Hy Hk]. f_equal.
  clear -Hnd Hx Hy Hk. induction l as [|z l IH]; [by apply not_elem_of_nil in Hx|].
  simpl in Hnd. apply NoDup_cons in Hnd as [Hz Hnd].
  apply elem_of_cons in Hx as [->|Hx], Hy as [->|Hy]; auto; exfalso; apply Hz.
  - rewrite <- Hk. by apply list_elem_of_fmap_2.
  - rewrite Hk. by apply list_elem_of_fmap_2.
Qed.

(** ** Code-unit order *)

Lemma str_leb_total a b : str_leb a b = true \/ str_leb b a = true.
Proof.
  revert b. induction a as [|x a IH]; intros [|y b]; simpl; auto.
  destruct (Z.ltb_spec x y), (Z.ltb_spec y x), (Z.eqb_spec x y), (Z.eqb_spec y x);
    simpl; auto; try lia.
Qed.

Lemma str_leb_trans a b c : str_leb a b = true -> str_leb b c = true -> str_leb a c = true.
Proof.
  revert b c. induction a as [|x a IH]; intros [|y b] [|z c]; simpl; auto; try discriminate.
  rewrite !orb_true_iff, !andb_true_iff, !Z.ltb_lt, !Z.eqb_eq.
  intros [?|[-> ?]] [?|[-> ?]]; try (left; lia). right. eauto.
Qed.

Lemma str_leb_antisym a b : str_leb a b = true -> str_leb b a = true -> a = b.
Proof.
  revert b. induction a as [|x a IH]; intros [|y b]; simpl; auto; try discriminate.
  rewrite !orb_true_iff, !andb_true_iff, !Z.ltb_lt, !Z.eqb_eq.
  intros [?|[-> ?]] [?|[? ?]]; try lia. f_equal. auto.
Qed.

#[export] Hint Resolve str_leb_total str_leb_trans str_leb_antisym : untangled.

(** ** [join] on a separator that the parts do not contain *)

Lemma split_join c ps : ps <> [] -> Forall (fun p => c ∉ p) ps ->
  split_on c (join [c] ps) = ps.
Proof.
  intros Hne Hps. induction Hps as [|p ps Hp Hps IH]; [done|].
  destruct ps as [|q ps]; [by apply split_on_none|].
  change (join [c] (p :: q :: ps)) with (p ++ c :: join [c] (q :: ps)).
  rewrite split_on_app by done. by rewrite IH.
Qed.

Lemma join_inj c ps qs :
  Forall (fun p => p <> [] /\ c ∉ p) ps -> Forall (fun p => p <> [] /\ c ∉ p) qs ->
  join [c] ps = join [c] qs -> ps = qs.
Proof.
  intros Hps Hqs Heq.
  assert (Hw : forall l, Forall (fun p : jstr => p <> [] /\ c ∉ p) l -> Forall (fun p => c ∉ p) l).
  { intros l Hl. eapply Forall_impl; [exact Hl|]. by intros ? [_ ?]. }
  assert (Hn : forall l, Forall (fun p : jstr => p <> [] /\ c ∉ p) l -> join [c] l = [] -> l = []).
  { intros [|p [|q l]] Hl; simpl; [done|..]; apply Forall_cons in Hl as [[Hp _] _].
    - by intros ->.
    - destruct p; [done|discriminate]. }
  destruct (decide (ps = [])) as [->|Hp].
  { symmetry. apply Hn; [done|]. by rewrite <- Heq. }
  destruct (decide (qs = [])) as [->|Hq]; [by apply Hn|].
  rewrite <- (split_join c ps), <- (split_join c qs) by auto. by rewrite Heq.
Qed.

(** ** Loops over arrays *)

Section Loops.
Context {A B S : Type} (f : A -> outcome B) (g : A -> S -> B * S).

(** Of which each element may throw. *)
Fixpoint traverse (l : list A) : outcome (list B) :=
  match l with
  | [] => Val []
  | x :: l' =>
      match f x with
      | Exc e => Exc e
      | Val y => match traverse l' with Exc e => Exc e | Val ys => Val (y :: ys) end
      end
  end.

(** Of which each element changes a state. *)
Fixpoint map_state (l : list A) (s : S) : list B * S :=
  match l with
  | [] => ([], s)
  | x :: l' => let '(y, s) := g x s in let '(ys, s) := map_state l' s in (y :: ys, s)
  end.
End Loops.
