(* ===== verification/ListColumns.v ===== *)
(** list/columns.ts, list/column_layout.ts and list/header_sort.ts: the columns
    of a record list, the session's column order and widths, and the sort that
    clicks on the headers build. *)
From Stdlib Require Import QArith.
From S2P Require Import Prelude JsString JsValue JsText JsArray.
#[local] Open Scope Z_scope.

(** ** Generated metadata (emit_field_meta.py writes these types) *)

Record AttributeFieldMeta : Type := {
  attr_name_snake : jstr;
  attr_type_name : jstr;
  attr_required : bool;
  attr_references : option jstr;
  attr_order : num;
  attr_create_default : option jsval;
  attr_min_value : option jsval;
  attr_max_value : option jsval;
}.

Record ClassFieldMeta : Type := {
  meta_name_snake : jstr;
  meta_display_name : jstr;
  meta_attributes : list AttributeFieldMeta;
  meta_friendly_id_attr : option jstr;
  meta_display_attribute : option jstr;
  meta_public : bool;
  meta_permissions : list jstr;
}.

(** ** columns.ts *)

Record ListColumn : Type := {
  col_name_snake : jstr;
  col_type_name : jstr;
  col_references : option jstr;
  col_label : jstr;
  col_is_friendly_id : bool;
  col_order : num;
}.

(** Each part of the name capitalised. *)
Definition attribute_display_label (name_snake : jstr) : jstr :=
  join " " (map capitalize
    (filter (fun part => part <> []) (split_on 95 name_snake))).

Definition attribute_to_column (attr : AttributeFieldMeta) : ListColumn := {|
  col_name_snake := attr_name_snake attr;
  col_type_name := attr_type_name attr;
  col_references := attr_references attr;
  col_label := attribute_display_label (attr_name_snake attr);
  col_is_friendly_id := seqb (attr_type_name attr) "friendly_id";
  col_order := attr_order attr;
|}.

(** A number with a finite integer value. *)
Definition valid_ordinal (n : num) : bool := is_finite n && is_integer n.

(** [left.order - right.order <= 0] *)
Definition attr_order_leb (a b : AttributeFieldMeta) : bool := num_leb (attr_order a) (attr_order b).

Definition attributes_in_declaration_order (attributes : list AttributeFieldMeta)
  : outcome (list AttributeFieldMeta) :=
  match find (fun attr => negb (valid_ordinal (attr_order attr))) attributes with
  | Some attr =>
      Exc (Error_ (u "field meta for attribute '" ++ attr_name_snake attr ++
                   u "' is missing a valid declaration order ordinal"))
  | None => Val (stable_sort attr_order_leb attributes)
  end.

Definition list_display_columns (meta : ClassFieldMeta) : outcome (list ListColumn) :=
  match attributes_in_declaration_order (meta_attributes meta) with
  | Exc e => Exc e
  | Val ordered =>
      let columns := map attribute_to_column ordered in
      match meta_friendly_id_attr meta with
      | None => Val columns
      | Some friendly =>
          match find_index (fun c => seqb (col_name_snake c) friendly) columns with
          | None | Some O => Val columns
          | Some index =>
              match columns !! index with
              | None => Val columns
              | Some friendly_column => Val (friendly_column :: delete index columns)
              end
          end
      end
  end.

Definition column_width_px (type_name : jstr) : Z :=
  if seqb type_name "friendly_id" then 140
  else if seqb type_name "boolean" then 96
  else if seqb type_name "integer" || seqb type_name "float" || seqb type_name "decimal" then 112
  else if seqb type_name "datetime" then 200
  else if seqb type_name "uuid" then 280
  else 200.

(** ** column_layout.ts *)

Definition MIN_COLUMN_WIDTH_PX : Z := 48.

Record ColumnLayoutSession : Type := {
  layout_order : list jstr;
  layout_widths : gmap jstr num;
}.

Definition column_names (columns : list ListColumn) : list jstr := map col_name_snake columns.

Definition column_set_signature (columns : list ListColumn) : jstr :=
  join [0] (stable_sort str_leb (column_names columns)).

Definition seed_column_layout (columns : list ListColumn) : outcome ColumnLayoutSession :=
  match find (fun c => negb (valid_ordinal (col_order c))) columns with
  | Some c =>
      Exc (Error_ (u "list column '" ++ col_name_snake c ++
                   u "' is missing a valid declaration order ordinal"))
  | None =>
      Val {| layout_order := column_names columns;
             layout_widths :=
               fold_left (fun w c => <[col_name_snake c := NInt (column_width_px (col_type_name c))]> w)
                 columns ∅ |}
  end.

(** The loop over [order]: the columns found, and the names seen. *)
Fixpoint resolve_order (by_name : gmap jstr ListColumn) (seen : gset jstr) (order : list jstr)
  : outcome (list ListColumn * gset jstr) :=
  match order with
  | [] => Val ([], seen)
  | name :: rest =>
      if decide (name ∈ seen) then
        Exc (Error_ (u "list column session order has duplicate attribute '" ++ name ++ u "'"))
      else match by_name !! name with
           | None =>
               Exc (Error_ (u "list column session order references unknown attribute '"
                            ++ name ++ u "'"))
           | Some column =>
               match resolve_order by_name ({[name]} ∪ seen) rest with
               | Exc e => Exc e
               | Val (resolved, seen') => Val (column :: resolved, seen')
               end
           end
  end.

Definition apply_column_order (columns : list ListColumn) (order : list jstr)
  : outcome (list ListColumn) :=
  if negb (length order =? length columns)%nat then
    Exc (Error_ (u "list column session order does not match schema column set"))
  else match resolve_order (map_of col_name_snake columns) ∅ order with
       | Exc e => Exc e
       | Val (resolved, seen) =>
           match find (fun c => negb (bool_decide (col_name_snake c ∈ seen))) columns with
           | Some c =>
               Exc (Error_ (u "list column session order is missing attribute '"
                            ++ col_name_snake c ++ u "'"))
           | None => Val resolved
           end
       end.

Record ReconciledLayout : Type := {
  rec_layout : ColumnLayoutSession;
  rec_signature : jstr;
  rec_reset : bool;
}.

Definition reconcile_column_layout (columns : list ListColumn)
    (session : option ColumnLayoutSession) (previous_signature : option jstr)
  : outcome ReconciledLayout :=
  let signature := column_set_signature columns in
  let reseed :=
    match seed_column_layout columns with
    | Exc e => Exc e
    | Val l => Val {| rec_layout := l; rec_signature := signature;
                      rec_reset := match session with Some _ => true | None => false end |}
    end in
  match session with
  | None => reseed
  | Some s =>
      if bool_decide (previous_signature = Some signature)
         && (length (layout_order s) =? length columns)%nat
      then match apply_column_order columns (layout_order s) with
           | Val _ => Val {| rec_layout := s; rec_signature := signature; rec_reset := false |}
           | Exc _ => reseed
           end
      else reseed
  end.

(** The order after dragging column [from_index] to the gap
    [insert_before_index] of the order before the drag. *)
Definition move_column_order (order : list jstr) (from_index insert_before_index : Z) : list jstr :=
  if (from_index <? 0) || (insert_before_index <? 0)
     || (Z.of_nat (length order) <=? from_index) || (Z.of_nat (length order) <? insert_before_index)
     || (from_index =? insert_before_index) || (from_index + 1 =? insert_before_index)
  then order
  else match order !! Z.to_nat from_index with
       | None => order
       | Some moved =>
           let next := delete (Z.to_nat from_index) order in
           let insert_at := if from_index <? insert_before_index then insert_before_index - 1
                            else insert_before_index in
           splice_in (Z.to_nat insert_at) moved next
       end.

(** [Math.round(n)] of a finite number: halves go up. *)
Definition math_round (n : num) : Z :=
  match n with
  | NInt z => z
  | NFrac a d => (2 * a + Zpos d) / (2 * Zpos d)
  | _ => 0
  end.

Definition clamp_column_width (width_px : num) : Z :=
  if negb (is_finite width_px) then MIN_COLUMN_WIDTH_PX
  else Z.max MIN_COLUMN_WIDTH_PX (math_round width_px).

Definition width_for_attribute (widths : gmap jstr num) (attribute type_name : jstr) : Z :=
  match widths !! attribute with
  | Some stored => if is_finite stored then clamp_column_width stored else column_width_px type_name
  | None => column_width_px type_name
  end.

Definition total_column_widths_px (columns : list ListColumn) (widths : gmap jstr num) : Z :=
  fold_left (fun sum c => sum + width_for_attribute widths (col_name_snake c) (col_type_name c)) columns 0.

(** Rectangles of the header cells, in exact coordinates. *)
Record header_rect : Type := { rect_left : Q; rect_width : Q }.

Definition Qltb (x y : Q) : bool := negb (Qle_bool y x).

Fixpoint insert_before_from (i : Z) (rects : list header_rect) (client_x : Q) : Z :=
  match rects with
  | [] => i
  | r :: rest =>
      if Qltb client_x (rect_left r + rect_width r / 2)%Q then i
      else insert_before_from (i + 1) rest client_x
  end.

Definition insert_before_index_for_client_x (header_rects : list header_rect) (client_x : Q) : Z :=
  insert_before_from 0 header_rects client_x.

Definition drop_separator_x_for_insert_before (header_rects : list header_rect)
    (insert_before_index : Z) : option Q :=
  if (length header_rects =? 0)%nat then None
  else if insert_before_index <=? 0 then rect_left <$> header_rects !! O
  else if Z.of_nat (length header_rects) <=? insert_before_index then
    (fun r => (rect_left r + rect_width r)%Q) <$> header_rects !! (length header_rects - 1)%nat
  else rect_left <$> header_rects !! Z.to_nat insert_before_index.

(** ** header_sort.ts *)

Inductive sort_direction : Type := asc | desc.

#[export] Instance sort_direction_eq_dec : EqDecision sort_direction.
Proof. solve_decision. Defined.

Record ListSortSpec : Type := {
  sort_attribute : jstr;
  sort_dir : sort_direction;
}.

#[export] Instance ListSortSpec_eq_dec : EqDecision ListSortSpec.
Proof. solve_decision. Defined.

(** The value of a form field: absent, a string, or a file. *)
Inductive form_value : Type := NoField | FormString (s : jstr) | FormFile.

(** [{ ok: true, sort }] is [Some sort]; [{ ok: false }] is [None]. *)
Definition parse_sort_entry (sort : list ListSortSpec) (entry : jsval) : option (list ListSortSpec) :=
  match entry with
  | VObj _ | VArr _ =>
      match vget entry "attribute" with
      | VStr attribute =>
          if bool_decide (attribute = []) then None
          else
            let push d :=
              if existsb (fun existing => seqb (sort_attribute existing) attribute) sort then None
              else Some (sort ++ [{| sort_attribute := attribute; sort_dir := d |}]) in
            match vget entry "direction" with
            | VStr d => if seqb d "asc" then push asc else if seqb d "desc" then push desc else None
            | _ => None
            end
      | _ => None
      end
  | _ => None
  end.

Fixpoint parse_sort_entries (sort : list ListSortSpec) (entries : list jsval)
  : option (list ListSortSpec) :=
  match entries with
  | [] => Some sort
  | e :: rest =>
      match parse_sort_entry sort e with
      | None => None
      | Some sort' => parse_sort_entries sort' rest
      end
  end.

Definition parse_sort_form_value (raw : form_value) : option (option (list ListSortSpec)) :=
  match raw with
  | NoField => Some None
  | FormFile => None
  | FormString text =>
      match json_parse text with
      | Some (VArr entries) =>
          match parse_sort_entries [] entries with
          | None => None
          | Some [] => Some None
          | Some sort => Some (Some sort)
          end
      | _ => None
      end
  end.

Definition apply_sort_click (current : list ListSortSpec) (attribute : jstr) : list ListSortSpec :=
  let as_new_primary :=
    {| sort_attribute := attribute; sort_dir := asc |}
    :: filter (fun entry => sort_attribute entry <> attribute) current in
  match current with
  | primary :: rest =>
      if seqb (sort_attribute primary) attribute then
        match sort_dir primary with
        | asc => {| sort_attribute := attribute; sort_dir := desc |} :: rest
        | desc => rest
        end
      else as_new_primary
  | [] => as_new_primary
  end.

Definition sort_accessible_label (sort : list ListSortSpec) (attribute : jstr) : option jstr :=
  match find_index (fun entry => seqb (sort_attribute entry) attribute) sort with
  | None => None
  | Some index =>
      match sort !! index with
      | None => None
      | Some entry =>
          let direction := match sort_dir entry with asc => u "ascending" | desc => u "descending" end in
          if (index =? 0)%nat then Some (u "sorted " ++ direction ++ u ", primary")
          else Some (u "sorted " ++ direction ++ u ", " ++ num_to_string (Z.of_nat index + 1) ++
                     u " of " ++ num_to_string (Z.of_nat (length sort)))
      end
  end.

(** The sort list as the JSON text that a form field carries. *)
Definition sort_json (sort : list ListSortSpec) : jsval :=
  VArr (map (fun entry => VObj
    [(u "attribute", VStr (sort_attribute entry));
     (u "direction", VStr (match sort_dir entry with asc => u "asc" | desc => u "desc" end))]) sort).

Example label_created_at : attribute_display_label "created__at" = u "Created At".
Proof. reflexivity. Qed.

Example move_right : move_column_order [u "a"; u "b"; u "c"; u "d"] 0 3 = [u "b"; u "c"; u "a"; u "d"].
Proof. reflexivity. Qed.

Example move_left : move_column_order [u "a"; u "b"; u "c"; u "d"] 3 1 = [u "a"; u "d"; u "b"; u "c"].
Proof. reflexivity. Qed.

(** ** The display columns *)

Lemma num_leb_int a b : num_leb (NInt a) (NInt b) = (a <=? b).
Proof. unfold num_leb. rewrite num_ltb_int. destruct (Z.ltb_spec b a), (Z.leb_spec a b); auto; lia. Qed.

Lemma find_none_forall {A : Type} (f : A -> bool) l :
  find (fun x => negb (f x)) l = None <-> Forall (fun x => f x = true) l.
Proof.
  split.
  - intros H. apply Forall_forall. intros x Hx%list_elem_of_In.
    apply (find_none _ _ H), negb_false_iff in Hx. done.
  - induction 1 as [|x l Hx Hl IH]; simpl; [done|]. by rewrite Hx.
Qed.

Lemma valid_ordinal_int n : valid_ordinal n = true -> exists z, n = NInt z.
Proof. destruct n; simpl; eauto; done. Qed.

(** The attributes come out in declaration order, or the metadata is refused. *)
Lemma declaration_order_spec attributes ordered :
  attributes_in_declaration_order attributes = Val ordered ->
  ordered ≡ₚ attributes /\ sorted_by attr_order_leb ordered.
Proof.
  unfold attributes_in_declaration_order.
  destruct (find _ attributes) as [a|] eqn:Hf; [done|]. intros [= <-].
  split; [apply stable_sort_perm|]. apply find_none_forall in Hf.
  assert (Hz : forall l, Forall (fun x => valid_ordinal (attr_order x) = true) l ->
                 sorted_by attr_order_leb (stable_sort attr_order_leb l)).
  { clear. induction 1 as [|x l Hx Hl IH]; simpl; [constructor|].
    assert (Hl' : Forall (fun x => valid_ordinal (attr_order x) = true)
                    (stable_sort attr_order_leb l)) by by rewrite stable_sort_perm.
    revert IH Hl'. generalize (stable_sort attr_order_leb l). clear l Hl.
    unfold sorted_by. induction 1 as [|y l Hl IH Hy]; intros Hv; simpl; [repeat constructor|].
    apply Forall_cons in Hv as [Hyv Hv].
    destruct (valid_ordinal_int _ Hx) as [zx Hzx], (valid_ordinal_int _ Hyv) as [zy Hzy].
    destruct (attr_order_leb x y) eqn:Hxy.
    - repeat constructor; auto. rewrite Forall_forall in *. intros z Hzl.
      destruct (valid_ordinal_int _ (Hv z Hzl)) as [zz Hzz]. specialize (Hy z Hzl).
      unfold attr_order_leb in *. rewrite Hzx, Hzy, Hzz, num_leb_int in *.
      rewrite Z.leb_le in *. lia.
    - constructor; [auto|]. rewrite insert_sorted_perm. constructor; [|done].
      unfold attr_order_leb in *. rewrite Hzx, Hzy, num_leb_int in *.
      rewrite Z.leb_le, Z.leb_gt in *. lia. }
  by apply Hz.
Qed.

Lemma sorted_filter {A : Type} (R : A -> A -> Prop) (P : A -> Prop) `{forall x, Decision (P x)} l :
  StronglySorted R l -> StronglySorted R (filter P l).
Proof.
  induction 1 as [|x l Hl IH Hx]; [constructor|]. rewrite filter_cons.
  case_decide; [|done]. constructor; [done|]. rewrite Forall_forall in *.
  intros y [_ Hy]%list_elem_of_filter. auto.
Qed.

Lemma filter_delete {A : Type} (P : A -> Prop) `{forall x, Decision (P x)} (l : list A) i x :
  l !! i = Some x -> ~ P x -> filter P (delete i l) = filter P l.
Proof.
  revert i. induction l as [|y l IH]; intros [|i] Hx HP; simplify_eq/=; [|].
  - rewrite filter_cons. by rewrite decide_False.
  - change (delete (S i) (y :: l)) with (y :: delete i l). rewrite !filter_cons.
    case_decide; [f_equal|]; by apply IH.
Qed.

Definition col_order_le (a b : ListColumn) : Prop := num_leb (col_order a) (col_order b) = true.

(** The columns after the friendly id. *)
Definition declared_columns (meta : ClassFieldMeta) (columns : list ListColumn) : list ListColumn :=
  match meta_friendly_id_attr meta with
  | None => columns
  | Some friendly => filter (fun c => col_name_snake c <> friendly) columns
  end.

(** The columns of a list are the attributes of the class, each once: the
    friendly id first when the class has one, the others in declaration
    order. *)
Theorem list_display_columns_spec meta columns :
  list_display_columns meta = Val columns ->
  columns ≡ₚ map attribute_to_column (meta_attributes meta) /\
  StronglySorted col_order_le (declared_columns meta columns) /\
  (forall friendly, meta_friendly_id_attr meta = Some friendly ->
     friendly ∈ map attr_name_snake (meta_attributes meta) ->
     col_name_snake <$> head columns = Some friendly).
Proof.
  unfold list_display_columns, declared_columns.
  destruct (attributes_in_declaration_order _) as [ordered|e] eqn:Hord; [|done].
  apply declaration_order_spec in Hord as [Hp Hs].
  assert (Hcs : StronglySorted col_order_le (map attribute_to_column ordered)).
  { clear -Hs. induction Hs as [|x l Hl IH Hx]; simpl; constructor; [done|].
    rewrite Forall_map. exact Hx. }
  assert (Hmp : map attribute_to_column ordered ≡ₚ map attribute_to_column (meta_attributes meta))
    by by apply Permutation_map.
  assert (Hname : forall n, n ∈ map attr_name_snake (meta_attributes meta) ->
            exists c, c ∈ map attribute_to_column ordered /\ col_name_snake c = n).
  { intros n (a & -> & Ha)%list_elem_of_fmap. exists (attribute_to_column a).
    split; [|done]. apply list_elem_of_fmap_2. by rewrite Hp. }
  revert Hcs Hmp Hname. generalize (map attribute_to_column ordered) as cs. intros cs Hcs Hmp Hname.
  destruct (meta_friendly_id_attr meta) as [friendly|]; [|intros [= <-]; done].
  destruct (find_index _ cs) as [[|i]|] eqn:Hi.
  - intros [= <-]. split; [done|]. split; [by apply sorted_filter|].
    intros ? [= <-] _. apply find_index_Some in Hi as (x & Hx & Hn & _).
    rewrite head_lookup, Hx. simpl. f_equal. by apply seqb_eq.
  - pose proof (find_index_Some _ _ _ Hi) as (x & Hx & Hn%seqb_eq & _). rewrite Hx.
    intros [= <-]. split; [|split].
    + rewrite <- Hmp. symmetry. by apply delete_Permutation.
    + rewrite filter_cons, decide_False by naive_solver.
      rewrite (filter_delete _ _ _ x) by naive_solver. by apply sorted_filter.
    + intros ? [= <-] _. simpl. by rewrite Hn.
  - intros [= <-]. split; [done|]. split; [by apply sorted_filter|].
    intros ? [= <-] (c & Hc & Hn)%Hname. exfalso.
    apply list_elem_of_In in Hc. clear -Hi Hc Hn.
    induction cs as [|d cs IH]; simpl in *; [done|].
    destruct (seqb (col_name_snake d) friendly) eqn:Hd; [done|].
    destruct (find_index _ cs); [done|].
    destruct Hc as [->|Hc]; [|auto]. apply seqb_neq in Hd. done.
Qed.

(** ** The session order *)

Lemma resolve_order_spec by_name order seen :
  (forall n c, by_name !! n = Some c -> col_name_snake c = n) ->
  match resolve_order by_name seen order with
  | Val (resolved, seen') =>
      column_names resolved = order /\ NoDup order /\ (forall n, n ∈ order -> n ∉ seen) /\
      seen' = list_to_set order ∪ seen /\ Forall (fun n => is_Some (by_name !! n)) order /\
      Forall (fun c => by_name !! col_name_snake c = Some c) resolved
  | Exc _ =>
      ~ (NoDup order /\ (forall n, n ∈ order -> n ∉ seen) /\ Forall (fun n => is_Some (by_name !! n)) order)
  end.
Proof.
  intros Hkey. revert seen. induction order as [|name rest IH]; intros seen; simpl.
  { repeat split; try constructor; [set_solver|set_solver]. }
  case_decide as Hseen; [intros (_ & H & _); by apply (H name); [left|]|].
  destruct (by_name !! name) as [column|] eqn:Hb.
  2: { intros (_ & _ & H). apply Forall_cons in H as [[? ?] _]. congruence. }
  specialize (IH ({[name]} ∪ seen)).
  destruct (resolve_order by_name ({[name]} ∪ seen) rest) as [[resolved seen']|e].
  - destruct IH as (Hn & Hnd & Hfresh & -> & Hs & Hr). unfold column_names in *. simpl.
    rewrite Hn. pose proof (Hkey _ _ Hb) as Hc. rewrite Hc. repeat split.
    + constructor; [|done]. intros H%Hfresh. set_solver.
    + intros n [->|Hin]%elem_of_cons; [done|]. apply Hfresh in Hin. set_solver.
    + set_solver.
    + constructor; eauto.
    + constructor; [by rewrite Hc|done].
  - intros (Hnd & Hfresh & Hs). apply IH. apply NoDup_cons in Hnd as [Hni Hnd].
    apply Forall_cons in Hs as [_ Hs]. split; [done|]. split; [|done].
    intros n Hin. specialize (Hfresh n (list_elem_of_further _ _ _ Hin)). set_solver.
Qed.

Lemma map_of_key columns n c : map_of col_name_snake columns !! n = Some c -> col_name_snake c = n.
Proof. intros H. by apply map_of_lookup in H as [_ ?]. Qed.

(** The session order resolves exactly when it is a permutation of
    a duplicate-free column set; the result is then the columns, each once, in
    the session's order. *)
Lemma apply_column_order_iff columns order resolved :
  apply_column_order columns order = Val resolved <->
  NoDup (column_names columns) /\ resolved ≡ₚ columns /\ column_names resolved = order.
Proof.
  unfold apply_column_order. pose proof (resolve_order_spec (map_of col_name_snake columns) order ∅
    (map_of_key columns)) as Hr.
  assert (Hmem : forall n, is_Some (map_of col_name_snake columns !! n) <-> n ∈ column_names columns).
  { intros n. split.
    - intros [c Hc]. apply map_of_lookup in Hc as [Hc <-]. by apply list_elem_of_fmap_2.
    - intros (c & -> & Hc)%list_elem_of_fmap. by apply map_of_is_Some. }
  destruct (Nat.eqb_spec (length order) (length columns)) as [Hlen|Hlen]; simpl.
  2: { split; [done|]. intros (_ & Hp & <-). destruct Hlen. unfold column_names.
       by rewrite length_map, Hp. }
  destruct (resolve_order _ ∅ order) as [[r seen']|e].
  - destruct Hr as (Hn & Hnd & _ & -> & Hsome & Hin). rewrite union_empty_r_L.
    assert (Hsub : order ⊆ column_names columns).
    { intros n Hno. apply Hmem. rewrite Forall_forall in Hsome. auto. }
    assert (Hperm : NoDup (column_names columns) -> r ≡ₚ columns).
    { intros Hnc. apply submseteq_length_Permutation.
      - apply NoDup_submseteq; [apply (NoDup_fmap_1 col_name_snake); change (NoDup (column_names r)); by rewrite Hn|].
        intros c Hc. rewrite Forall_forall in Hin. apply Hin in Hc.
        by apply map_of_lookup in Hc as [? _].
      - rewrite <- Hlen, <- Hn. unfold column_names. by rewrite length_map. }
    destruct (find _ columns) as [c|] eqn:Hf.
    + split; [done|]. intros (Hnc & Hp & Ho). exfalso.
      apply find_some in Hf as [Hc%list_elem_of_In Hb]. apply negb_true_iff, bool_decide_eq_false in Hb.
      apply Hb, elem_of_list_to_set. rewrite <- Ho. apply list_elem_of_fmap_2. by rewrite Hp.
    + apply find_none_forall in Hf. split.
      * intros [= <-].
        assert (Hnc : NoDup (column_names columns)).
        { assert (order ≡ₚ column_names columns) as <-; [|done].
          apply NoDup_submseteq in Hsub; [|done].
          apply submseteq_length_Permutation; [done|]. unfold column_names. rewrite length_map. lia. }
        auto.
      * intros (Hnc & Hp & Ho). f_equal.
        assert (Hinr : Forall (fun c => map_of col_name_snake columns !! col_name_snake c = Some c) resolved).
        { rewrite Hp. apply Forall_forall. intros c Hc. by apply map_of_lookup_eq. }
        rewrite <- Ho in Hn. clear -Hn Hin Hinr. revert resolved Hn Hinr.
        induction Hin as [|x r Hx Hin IH]; intros [|y res] Hn Hinr; try done.
        unfold column_names in Hn. simpl in Hn. apply Forall_cons in Hinr as [Hy Hinr].
        injection Hn as Hxy Hn. rewrite <- Hxy, Hx in Hy. injection Hy as ->.
        f_equal. by apply IH.
  - split; [done|]. intros (Hnc & Hp & <-). destruct Hr. split; [|split].
    + unfold column_names. by rewrite Hp.
    + intros. set_solver.
    + apply Forall_forall. intros n Hn. apply Hmem. unfold column_names in *. by rewrite <- Hp.
Qed.

Lemma session_order_resolves columns order :
  NoDup (column_names columns) -> order ≡ₚ column_names columns ->
  exists shown, apply_column_order columns order = Val shown /\ shown ≡ₚ columns /\ column_names shown = order.
Proof.
  intros Hnd Hp. apply Permutation_map_inv in Hp as (shown & -> & Hp). exists shown.
  split; [|split; [by symmetry|done]]. apply apply_column_order_iff. by split; [|split; [symmetry|]].
Qed.

(** ** Moving a column *)

Lemma delete_ge {A : Type} (l : list A) i : (length l <= i)%nat -> delete i l = l.
Proof.
  intros H. rewrite delete_take_drop, take_ge, drop_ge by lia. apply app_nil_r.
Qed.

(** A column dragged to a gap between the columns of the order before the drag
    stands in that gap, and every other column keeps its place around it; a
    drag outside the table changes nothing. *)
Theorem move_column_order_spec order from ins :
  (0 <= from < Z.of_nat (length order) -> 0 <= ins <= Z.of_nat (length order) ->
   exists moved, order !! Z.to_nat from = Some moved /\
     move_column_order order from ins =
       delete (Z.to_nat from) (take (Z.to_nat ins) order) ++
       moved :: (if from <? ins then drop (Z.to_nat ins) order
                 else delete (Z.to_nat (from - ins)) (drop (Z.to_nat ins) order))) /\
  (~ (0 <= from < Z.of_nat (length order) /\ 0 <= ins <= Z.of_nat (length order)) ->
   move_column_order order from ins = order).
Proof.
  split.
  2: { intros Hout. unfold move_column_order.
       destruct (Z.ltb_spec from 0), (Z.ltb_spec ins 0), (Z.leb_spec (Z.of_nat (length order)) from),
         (Z.ltb_spec (Z.of_nat (length order)) ins); try done. lia. }
  intros Hf Hi.
  destruct (lookup_lt_is_Some_2 order (Z.to_nat from)) as [moved Hm]; [lia|].
  exists moved. split; [done|]. unfold move_column_order. rewrite Hm.
  rewrite (proj2 (Z.ltb_ge from 0)), (proj2 (Z.ltb_ge ins 0)), (proj2 (Z.leb_gt _ from)),
    (proj2 (Z.ltb_ge _ ins)) by lia. simpl.
  assert (Hsplit : order = take (Z.to_nat from) order ++ moved :: drop (S (Z.to_nat from)) order)
    by by rewrite take_drop_middle.
  remember (take (Z.to_nat from) order) as a eqn:Ha.
  remember (drop (S (Z.to_nat from)) order) as b eqn:Hb.
  assert (Hla : Z.to_nat from = length a) by (rewrite Ha, length_take; lia).
  clear Ha Hb. rewrite Hla in *. subst order. rewrite length_app in *. simpl in *.
  destruct (Z.eqb_spec from ins) as [<-|Hne]; simpl.
  { rewrite Z.ltb_irrefl, Z.sub_diag, Hla, take_app_length, drop_app_length. simpl.
    by rewrite delete_ge. }
  destruct (Z.eqb_spec (from + 1) ins) as [<-|Hne']; simpl.
  { rewrite (proj2 (Z.ltb_lt _ _)) by lia. rewrite Z2Nat.inj_add, Hla by lia.
    change (Z.to_nat 1) with 1%nat. rewrite take_app_add, drop_app_add. simpl. rewrite take_0.
    rewrite delete_middle, app_nil_r. done. }
  rewrite delete_middle. unfold splice_in. destruct (Z.ltb_spec from ins).
  - replace (Z.to_nat ins) with (length a + S (Z.to_nat (ins - 1 - from)))%nat by lia.
    replace (Z.to_nat (ins - 1)) with (length a + Z.to_nat (ins - 1 - from))%nat by lia.
    rewrite !take_app_add, !drop_app_add. simpl. by rewrite delete_middle, <- app_assoc.
  - rewrite !take_app_le, !drop_app_le by lia. rewrite delete_ge by (rewrite length_take; lia).
    f_equal. f_equal. replace (Z.to_nat (from - ins)) with (length (drop (Z.to_nat ins) a))
      by (rewrite length_drop; lia). by rewrite delete_middle.
Qed.

Lemma move_column_order_perm order from ins : move_column_order order from ins ≡ₚ order.
Proof.
  unfold move_column_order. destruct (_ || _); [done|].
  destruct (order !! Z.to_nat from) as [moved|] eqn:Hm; [|done].
  rewrite splice_in_perm. symmetry. by apply delete_Permutation.
Qed.

(** ** Signatures and seeds *)

(** Attribute names, as the signature needs them. *)
Definition plain_name (name : jstr) : Prop := name <> [] /\ 0 ∉ name.

Definition well_formed_columns (columns : list ListColumn) : Prop :=
  NoDup (column_names columns) /\ Forall plain_name (column_names columns) /\
  Forall (fun c => valid_ordinal (col_order c) = true) columns.

Lemma signature_eq columns columns' :
  Forall plain_name (column_names columns) -> Forall plain_name (column_names columns') ->
  column_set_signature columns = column_set_signature columns' <->
  column_names columns ≡ₚ column_names columns'.
Proof.
  intros Hc Hc'. unfold column_set_signature. split.
  - intros Hj. apply join_inj in Hj; [|by rewrite stable_sort_perm..].
    by rewrite <- (stable_sort_perm str_leb (column_names columns)), Hj, stable_sort_perm.
  - intros Hp. f_equal. apply stable_sort_canonical; eauto with untangled.
Qed.

Lemma seed_column_layout_ok columns : well_formed_columns columns ->
  exists l, seed_column_layout columns = Val l /\ layout_order l = column_names columns.
Proof.
  intros (_ & _ & Hv). unfold seed_column_layout. apply find_none_forall in Hv. rewrite Hv. eauto.
Qed.

Lemma list_display_columns_well_formed meta columns :
  NoDup (map attr_name_snake (meta_attributes meta)) ->
  Forall plain_name (map attr_name_snake (meta_attributes meta)) ->
  list_display_columns meta = Val columns -> well_formed_columns columns.
Proof.
  intros Hnd Hpl Hl.
  assert (Hv : Forall (fun a => valid_ordinal (attr_order a) = true) (meta_attributes meta)).
  { unfold list_display_columns, attributes_in_declaration_order in Hl.
    destruct (find _ _) eqn:Hf in Hl; [done|]. by apply find_none_forall in Hf. }
  assert (Hp : columns ≡ₚ map attribute_to_column (meta_attributes meta)).
  { revert Hl. unfold list_display_columns.
    destruct (attributes_in_declaration_order _) as [ordered|] eqn:Ho; [|done].
    apply declaration_order_spec in Ho as [Ho _]. rewrite <- Ho.
    destruct (meta_friendly_id_attr meta); [|by intros [= <-]].
    destruct (find_index _ _) as [[|i]|]; [by intros [= <-]| |by intros [= <-]].
    destruct (_ !! S i) eqn:Hi; intros [= <-]; [|done]. symmetry. by apply delete_Permutation. }
  assert (Hn : column_names columns ≡ₚ map attr_name_snake (meta_attributes meta)).
  { unfold column_names. rewrite Hp, map_map. done. }
  split; [|split].
  - by rewrite Hn.
  - by rewrite Hn.
  - rewrite Hp, Forall_map. exact Hv.
Qed.

Lemma reconcile_ok columns session previous : well_formed_columns columns ->
  exists r, reconcile_column_layout columns session previous = Val r /\
    layout_order (rec_layout r) ≡ₚ column_names columns /\
    rec_signature r = column_set_signature columns /\
    (rec_reset r = false -> session = None \/ session = Some (rec_layout r)).
Proof.
  intros Hw. destruct (seed_column_layout_ok columns Hw) as (l & Hl & Ho).
  assert (Hseed : layout_order l ≡ₚ column_names columns) by by rewrite Ho.
  unfold reconcile_column_layout. rewrite Hl.
  destruct session as [s|]; [|eexists; split; [done|]; simpl; auto].
  destruct (_ && _); [|eexists; split; [done|]; simpl; auto; repeat split; auto; done].
  destruct (apply_column_order columns (layout_order s)) as [resolved|] eqn:Ha.
  - eexists. split; [done|]. simpl. apply apply_column_order_iff in Ha as (_ & Hp & <-).
    repeat split; auto. unfold column_names. by rewrite Hp.
  - eexists. split; [done|]. simpl. repeat split; auto; done.
Qed.

(** ** Widths *)

Lemma clamp_column_width_min n : MIN_COLUMN_WIDTH_PX <= clamp_column_width n.
Proof. unfold clamp_column_width. destruct (negb _); lia. Qed.

Lemma width_for_attribute_min widths a t : MIN_COLUMN_WIDTH_PX <= width_for_attribute widths a t.
Proof.
  unfold width_for_attribute.
  assert (MIN_COLUMN_WIDTH_PX <= column_width_px t)
    by (unfold MIN_COLUMN_WIDTH_PX, column_width_px; repeat case_match; lia).
  destruct (widths !! a) as [n|]; [|done]. destruct (is_finite n); [|done]. apply clamp_column_width_min.
Qed.

(** A table is never narrower than its columns at their least width. *)
Lemma total_column_widths_min columns widths :
  MIN_COLUMN_WIDTH_PX * Z.of_nat (length columns) <= total_column_widths_px columns widths.
Proof.
  unfold total_column_widths_px.
  assert (H : forall s, s + MIN_COLUMN_WIDTH_PX * Z.of_nat (length columns) <=
    fold_left (fun sum c => sum + width_for_attribute widths (col_name_snake c) (col_type_name c)) columns s).
  { induction columns as [|c cs IH]; intros s; [simpl; lia|]. cbn [fold_left length].
    specialize (IH (s + width_for_attribute widths (col_name_snake c) (col_type_name c))).
    pose proof (width_for_attribute_min widths (col_name_snake c) (col_type_name c)). lia. }
  specialize (H 0). lia.
Qed.

(** A drop lands on a gap of the header, so that [move_column_order] accepts it. *)
Lemma insert_before_index_bounds rects x :
  0 <= insert_before_index_for_client_x rects x <= Z.of_nat (length rects).
Proof.
  unfold insert_before_index_for_client_x.
  assert (H : forall i, 0 <= i -> i <= insert_before_from i rects x <= i + Z.of_nat (length rects)).
  { induction rects as [|r rs IH]; intros i Hi; simpl; [lia|].
    destruct (Qltb _ _); [lia|]. specialize (IH (i + 1)). lia. }
  specialize (H 0). lia.
Qed.

(** ** Sort lists *)

(** The sort lists that clicks on header names can build. *)
Definition sort_after (clicks : list jstr) : list ListSortSpec := fold_left apply_sort_click clicks [].

Definition sort_attributes (sort : list ListSortSpec) : list jstr := map sort_attribute sort.

(** A non-empty attribute name of proper code units. *)
Definition sortable (name : jstr) : Prop := name <> [] /\ units_ok name = true.

Lemma sort_filter_attributes a sort :
  sort_attributes (filter (fun e => sort_attribute e <> a) sort) =
  filter (fun n => n <> a) (sort_attributes sort).
Proof.
  induction sort as [|e sort IH]; [done|]. cbn [sort_attributes map]. rewrite !filter_cons.
  case_decide; [|exact IH]. cbn [sort_attributes map]. by f_equal.
Qed.

Lemma apply_sort_click_ok sort a :
  NoDup (sort_attributes sort) -> Forall sortable (sort_attributes sort) -> sortable a ->
  NoDup (sort_attributes (apply_sort_click sort a)) /\
  Forall sortable (sort_attributes (apply_sort_click sort a)).
Proof.
  intros Hnd Hs Ha.
  assert (Hnew : NoDup (sort_attributes ({| sort_attribute := a; sort_dir := asc |}
                    :: filter (fun e => sort_attribute e <> a) sort)) /\
    Forall sortable (sort_attributes ({| sort_attribute := a; sort_dir := asc |}
                    :: filter (fun e => sort_attribute e <> a) sort))).
  { simpl. rewrite sort_filter_attributes. split.
    - constructor; [|by apply NoDup_filter]. rewrite list_elem_of_filter. naive_solver.
    - constructor; [done|]. apply Forall_forall. intros n [_ Hn]%list_elem_of_filter.
      rewrite Forall_forall in Hs. auto. }
  unfold apply_sort_click. destruct sort as [|[n d] rest]; [exact Hnew|].
  destruct (seqb _ a) eqn:Hn; [|exact Hnew]. apply seqb_eq in Hn. simpl in Hn. subst n.
  simpl in *. apply NoDup_cons in Hnd as [Hni Hnd]. apply Forall_cons in Hs as [Hsa Hs].
  destruct d; simpl; [|done]. split; by constructor.
Qed.

Lemma sort_after_ok clicks : Forall sortable clicks ->
  NoDup (sort_attributes (sort_after clicks)) /\ Forall sortable (sort_attributes (sort_after clicks)).
Proof.
  unfold sort_after. intros Hc.
  assert (H : forall s, NoDup (sort_attributes s) -> Forall sortable (sort_attributes s) ->
    NoDup (sort_attributes (fold_left apply_sort_click clicks s)) /\
    Forall sortable (sort_attributes (fold_left apply_sort_click clicks s))).
  { induction Hc as [|a cs Ha Hc IH]; intros s Hnd Hs; simpl; [done|].
    apply IH; by apply apply_sort_click_ok. }
  apply H; constructor.
Qed.

Lemma parse_sort_entries_json sort acc :
  NoDup (sort_attributes (acc ++ sort)) -> Forall sortable (sort_attributes sort) ->
  parse_sort_entries acc
    (map (fun entry => VObj
      [(u "attribute", VStr (sort_attribute entry));
       (u "direction", VStr (match sort_dir entry with asc => u "asc" | desc => u "desc" end))]) sort)
  = Some (acc ++ sort).
Proof.
  revert acc. induction sort as [|[n d] sort IH]; intros acc Hnd Hs; [by rewrite app_nil_r|].
  cbn [map parse_sort_entries]. simpl in Hs. apply Forall_cons in Hs as [[Hn _] Hs].
  assert (Hex : existsb (fun existing => seqb (sort_attribute existing) n) acc = false).
  { apply not_true_is_false. intros (e & He & Hen%seqb_eq)%existsb_exists.
    unfold sort_attributes in Hnd. rewrite map_app in Hnd.
    apply NoDup_app in Hnd as (_ & Hdis & _). apply (Hdis n).
    - rewrite <- Hen. by apply list_elem_of_fmap_2, list_elem_of_In.
    - simpl. left. }
  assert (He : parse_sort_entry acc (VObj
      [(u "attribute", VStr n);
       (u "direction", VStr (match d with asc => u "asc" | desc => u "desc" end))])
    = Some (acc ++ [{| sort_attribute := n; sort_dir := d |}])).
  { unfold parse_sort_entry. change (vget _ "attribute") with (VStr n).
    cbv iota. rewrite bool_decide_eq_false_2 by done.
    change (vget _ "direction") with (VStr (match d with asc => u "asc" | desc => u "desc" end)).
    rewrite Hex. by destruct d. }
  simpl sort_attribute. simpl sort_dir. rewrite He, IH; [by rewrite <- app_assoc| |done].
  by rewrite <- app_assoc.
Qed.

Lemma sort_json_ok sort : Forall sortable (sort_attributes sort) -> json_ok (sort_json sort) = true.
Proof.
  intros Hs. simpl. apply forallb_forall. intros v ([n d] & <- & He)%in_map_iff.
  rewrite Forall_forall in Hs. destruct (Hs n) as [_ Hn].
  { apply list_elem_of_In in He. by apply (list_elem_of_fmap_2 sort_attribute) in He. }
  simpl. rewrite Hn. destruct d; reflexivity.
Qed.

(** Whatever headers are clicked, the sort list names no attribute twice and
    the form text it is sent as is accepted and read back as that list. *)
Theorem sort_clicks_roundtrip clicks : Forall sortable clicks ->
  NoDup (sort_attributes (sort_after clicks)) /\
  parse_sort_form_value (FormString (json_text (sort_json (sort_after clicks)))) =
    Some (match sort_after clicks with [] => None | sort => Some sort end).
Proof.
  intros Hc. destruct (sort_after_ok clicks Hc) as [Hnd Hs]. split; [done|].
  unfold parse_sort_form_value. rewrite json_parse_text by by apply sort_json_ok.
  unfold sort_json. rewrite (parse_sort_entries_json _ []) by done. simpl.
  by destruct (sort_after clicks).
Qed.

(** Ascending, descending, unsorted: the third click on a header gives back
    the list that the first one met. *)
Lemma sort_click_cycle sort a : a ∉ sort_attributes sort ->
  apply_sort_click (apply_sort_click (apply_sort_click sort a) a) a = sort.
Proof.
  intros Ha.
  assert (Hf : filter (fun e => sort_attribute e <> a) sort = sort).
  { clear -Ha. induction sort as [|e sort IH]; [done|]. simpl in Ha.
    apply not_elem_of_cons in Ha as [Hne Ha]. rewrite filter_cons, decide_True by done.
    f_equal. auto. }
  assert (H1 : apply_sort_click sort a = {| sort_attribute := a; sort_dir := asc |} :: sort).
  { unfold apply_sort_click. rewrite Hf. destruct sort as [|[n d] rest]; [done|].
    rewrite (proj2 (seqb_neq _ _)); [done|]. simpl. intros ->. apply Ha. simpl. left. }
  rewrite H1. cbn [apply_sort_click sort_attribute sort_dir]. rewrite seqb_refl.
  cbn [apply_sort_click sort_attribute sort_dir]. by rewrite seqb_refl.
Qed.
