(* ===== verification/Pagination.v ===== *)
(** list/pagination.ts and the handlers of list/list_pagination.tsx: the
    windows of a record list, and the page changes that the pager asks for. *)
From S2P Require Import Prelude JsString JsValue ListColumns.

Definition PER_PAGE_OPTIONS : list Z := [10; 20; 50; 100].

Definition DEFAULT_PER_PAGE : Z := 20.

Definition DEFAULT_OFFSET : Z := 0.

Definition is_per_page_option (value : Z) : bool := existsb (Z.eqb value) PER_PAGE_OPTIONS.

Section Count.
(** [Intl.NumberFormat(locales, { useGrouping: true }).format(n)], which
    throws when it rejects a language tag. *)
Context (number_format : option (list jstr) -> Z -> outcome jstr).

Definition format_record_count (n : Z) (locales : option (list jstr)) : jstr :=
  match number_format locales n with
  | Val s => s
  | Exc _ => match number_format None n with Val s => s | Exc _ => num_to_string n end
  end.
End Count.

Definition start_from_offset (offset : Z) : Z := offset + 1.

Definition offset_from_start (start : Z) : Z := start - 1.

Definition last_page_start (total per_page : Z) : Z :=
  if (total <=? 0) || (per_page <? 1) then 1
  else (total - 1) / per_page * per_page + 1.

Definition can_go_prev (start : Z) : bool := 1 <? start.

Definition can_go_next (start total per_page : Z) : bool := negb (total - per_page <? start).

Definition visible_row_count (total offset limit : Z) : Z := Z.min limit (Z.max 0 (total - offset)).

Definition per_page_change_needs_refresh (start total old_per_page new_per_page : Z) : bool :=
  if old_per_page =? new_per_page then false
  else
    let offset := offset_from_start start in
    negb (visible_row_count total offset old_per_page =? visible_row_count total offset new_per_page).

Definition digits_only (raw : jstr) : jstr := filter (fun c => is_digit c = true) raw.

(** [Number.parseInt(digits, 10)]: a value that no double reaches is
    infinite. *)
Definition parse_digits (digits : jstr) : num :=
  let v := digits_value digits in
  if v <? 2 ^ 1024 - 2 ^ 970 then NInt v else NInf false.

(** The text of [String(Math.trunc(raw))]. *)
Definition trunc_text (raw : num) : jstr :=
  match num_trunc raw with
  | NInt z => num_to_string z
  | NInf negative => if negative then u "-Infinity" else u "Infinity"
  | _ => u "NaN"
  end.

Definition clamp_starting_record (raw : jstr + num) (total per_page : Z) : Z :=
  let digits := match raw with
                | inr n => digits_only (trunc_text n)
                | inl text => digits_only text
                end in
  let start := if bool_decide (digits = []) then NInt 1 else parse_digits digits in
  let start := match start with NInt z => if z <? 1 then 1 else z | _ => 1 end in
  let last := last_page_start total per_page in
  if last <? start then last else start.

Definition start_past_last_page (offset total limit : Z) : bool :=
  last_page_start total limit <? start_from_offset offset.

Definition clamped_offset_for_total (total limit : Z) : Z :=
  offset_from_start (last_page_start total limit).

(** [Number.isSafeInteger] *)
Definition safe_integer (z : Z) : bool := Z.abs z <=? 2 ^ 53 - 1.

Definition parse_int_field (raw : form_value) : option Z :=
  match raw with
  | FormString text =>
      if bool_decide (text = []) then None
      else match parse_integer text with
      | Some value => if safe_integer value then Some value else None
      | None => None
      end
  | _ => None
  end.

Definition parse_paging_form_values (limit_raw offset_raw : form_value) : option (Z * Z) :=
  let limit := match limit_raw with NoField => Some DEFAULT_PER_PAGE | _ => parse_int_field limit_raw end in
  match limit with
  | None => None
  | Some limit =>
      if negb (is_per_page_option limit) then None
      else
        let offset := match offset_raw with NoField => Some DEFAULT_OFFSET | _ => parse_int_field offset_raw end in
        match offset with
        | None => None
        | Some offset => if offset <? 0 then None else Some (limit, offset)
        end
  end.

(** ** The pager (list_pagination.tsx) *)

Record pager_props : Type := {
  pager_total : Z;
  pager_limit : Z;
  pager_offset : Z;
  pager_busy : bool;
}.

Record paging_change : Type := {
  next_limit : Z;
  next_offset : Z;
  next_search : bool;
}.

(** What the reader does: Enter in the starting-record field, a choice of the
    page size, a pager button. *)
Inductive pager_action : Type :=
| CommitStart (raw : jstr)
| PerPageChange (value : Z)
| FirstPage | PreviousPage | NextPage | LastPage.

Definition commit_start (p : pager_props) (raw : jstr) : option paging_change :=
  let next_start := clamp_starting_record (inl raw) (pager_total p) (pager_limit p) in
  let next_offset := offset_from_start next_start in
  if next_offset =? pager_offset p then None
  else Some {| next_limit := pager_limit p; next_offset := next_offset; next_search := true |}.

Definition on_per_page_change (p : pager_props) (next_limit : Z) : option paging_change :=
  if negb (is_per_page_option next_limit) || (next_limit =? pager_limit p) then None
  else Some {| next_limit := next_limit; next_offset := pager_offset p;
               next_search := per_page_change_needs_refresh (start_from_offset (pager_offset p))
                 (pager_total p) (pager_limit p) next_limit |}.

Definition prev_enabled (p : pager_props) : bool :=
  negb (pager_busy p) && can_go_prev (start_from_offset (pager_offset p)).

Definition next_enabled (p : pager_props) : bool :=
  negb (pager_busy p) &&
  can_go_next (start_from_offset (pager_offset p)) (pager_total p) (pager_limit p).

(** The page change that an action asks for; disabled controls ask nothing. *)
Definition pager_handle (p : pager_props) (a : pager_action) : option paging_change :=
  let start := start_from_offset (pager_offset p) in
  let go offset := Some {| next_limit := pager_limit p; next_offset := offset; next_search := true |} in
  match a with
  | CommitStart raw => if pager_busy p then None else commit_start p raw
  | PerPageChange value => if pager_busy p then None else on_per_page_change p value
  | FirstPage => if prev_enabled p then go 0 else None
  | PreviousPage =>
      if prev_enabled p then go (offset_from_start (Z.max 1 (start - pager_limit p))) else None
  | NextPage => if next_enabled p then go (offset_from_start (start + pager_limit p)) else None
  | LastPage =>
      if next_enabled p
      then go (offset_from_start (last_page_start (pager_total p) (pager_limit p))) else None
  end.

Example commit_start_clamps :
  clamp_starting_record (inl (u "12,345")) 25 10 = 21 /\ clamp_starting_record (inl (u "0")) 25 10 = 1.
Proof. split; reflexivity. Qed.

(** ** Windows *)

(** The last page starts at the largest start [k * per_page + 1] that is a record. *)
Lemma last_page_start_spec total per_page : 1 <= per_page -> 1 <= total ->
  exists k, 0 <= k /\ last_page_start total per_page = k * per_page + 1 /\
    k * per_page + 1 <= total <= k * per_page + per_page.
Proof.
  intros Hp Ht. unfold last_page_start.
  rewrite (proj2 (Z.leb_gt _ _)), (proj2 (Z.ltb_ge _ _)) by lia. simpl.
  exists ((total - 1) / per_page). pose proof (Z.div_mod (total - 1) per_page ltac:(lia)).
  pose proof (Z.mod_pos_bound (total - 1) per_page ltac:(lia)).
  split; [apply Z.div_pos; lia|]. split; [done|]. lia.
Qed.

Lemma last_page_start_bounds total per_page :
  1 <= last_page_start total per_page <= Z.max 1 total.
Proof.
  destruct (Z.le_gt_cases 1 total), (Z.le_gt_cases 1 per_page).
  - destruct (last_page_start_spec total per_page) as (k & ? & -> & ?); nia.
  - unfold last_page_start. rewrite (proj2 (Z.ltb_lt per_page 1)) by lia.
    rewrite orb_true_r. lia.
  - unfold last_page_start. rewrite (proj2 (Z.leb_le total 0)) by lia. simpl. lia.
  - unfold last_page_start. rewrite (proj2 (Z.leb_le total 0)) by lia. simpl. lia.
Qed.

(** The starting record that the field commits to. *)
Lemma clamp_starting_record_bounds raw total per_page :
  1 <= clamp_starting_record raw total per_page <= last_page_start total per_page.
Proof.
  pose proof (last_page_start_bounds total per_page). unfold clamp_starting_record.
  set (start := match _ with NInt z => _ | _ => _ end).
  assert (1 <= start) by (subst start; repeat case_match; lia).
  destruct (Z.ltb_spec (last_page_start total per_page) start); lia.
Qed.

(** A re-fetch at the clamped offset is not past the last page again, as long
    as the server still counts as many records. *)
Lemma clamped_offset_not_past total limit : start_past_last_page (clamped_offset_for_total total limit) total limit = false.
Proof.
  unfold start_past_last_page, clamped_offset_for_total, start_from_offset, offset_from_start.
  apply Z.ltb_ge. lia.
Qed.

(** The pager only ever asks for a window that starts at a record of the list
    (at its first position when the list is empty), with a page size that it
    had or that it offers. *)
Theorem pager_windows p a c :
  1 <= pager_limit p -> 0 <= pager_offset p < Z.max 1 (pager_total p) ->
  pager_handle p a = Some c ->
  0 <= next_offset c < Z.max 1 (pager_total p) /\
  (next_limit c = pager_limit p \/ In (next_limit c) PER_PAGE_OPTIONS) /\
  (pager_busy p = false).
Proof.
  intros Hl Ho. pose proof (last_page_start_bounds (pager_total p) (pager_limit p)) as Hlast.
  destruct (pager_busy p) eqn:Hb.
  { destruct a; unfold pager_handle, prev_enabled, next_enabled; rewrite Hb; done. }
  destruct a as [raw|v| | | |]; unfold pager_handle, prev_enabled, next_enabled; rewrite Hb; simpl negb;
    rewrite ?andb_true_l; unfold can_go_prev, can_go_next, start_from_offset, offset_from_start in *.
  - unfold commit_start, offset_from_start. destruct (_ =? _); [done|]. intros [= <-]. simpl.
    pose proof (clamp_starting_record_bounds (inl raw) (pager_total p) (pager_limit p)). lia.
  - unfold on_per_page_change. destruct (is_per_page_option v) eqn:Hv; simpl; [|done].
    destruct (v =? pager_limit p); [done|]. intros [= <-]. simpl. split; [lia|].
    split; [|done]. right. apply existsb_exists in Hv as (x & Hx & ->%Z.eqb_eq). exact Hx.
  - destruct (1 <? _); [|done]. intros [= <-]. simpl. lia.
  - destruct (Z.ltb_spec 1 (pager_offset p + 1)); [|done]. intros [= <-]. simpl. lia.
  - destruct (Z.ltb_spec (pager_total p - pager_limit p) (pager_offset p + 1)); [done|].
    intros [= <-]. simpl. lia.
  - destruct (Z.ltb_spec (pager_total p - pager_limit p) (pager_offset p + 1)); [done|].
    intros [= <-]. simpl. lia.
Qed.

Lemma pager_windows_witness :
  pager_handle {| pager_total := 25; pager_limit := 10; pager_offset := 0; pager_busy := false |} LastPage
    = Some {| next_limit := 10; next_offset := 20; next_search := true |} /\
  0 <= 20 < Z.max 1 25.
Proof.
  split; [reflexivity|].
  apply (pager_windows {| pager_total := 25; pager_limit := 10; pager_offset := 0; pager_busy := false |}
    LastPage {| next_limit := 10; next_offset := 20; next_search := true |}); simpl; [lia|lia|reflexivity].
Defined.

(** A change of the page size that asks for no search shows the same rows. *)
Lemma per_page_change_same_rows p v c :
  on_per_page_change p v = Some c -> next_search c = false ->
  visible_row_count (pager_total p) (next_offset c) (next_limit c) =
  visible_row_count (pager_total p) (pager_offset p) (pager_limit p).
Proof.
  unfold on_per_page_change. destruct (_ || _) eqn:Hv; [done|]. intros [= <-]. simpl.
  unfold per_page_change_needs_refresh. apply orb_false_iff in Hv as [_ Hv].
  rewrite Z.eqb_sym, Hv. unfold offset_from_start, start_from_offset. rewrite Z.add_simpl_r.
  intros H%negb_false_iff%Z.eqb_eq. auto.
Qed.

(** Only the offered page sizes and non-negative safe offsets pass the form. *)
Lemma parse_paging_form_ok l o limit offset : parse_paging_form_values l o = Some (limit, offset) ->
  In limit PER_PAGE_OPTIONS /\ 0 <= offset <= 2 ^ 53 - 1.
Proof.
  unfold parse_paging_form_values. intros H.
  assert (Hs : forall r z, parse_int_field r = Some z -> Z.abs z <= 2 ^ 53 - 1).
  { clear. intros r z. unfold parse_int_field. destruct r as [|s|]; [done| |done].
    case_bool_decide; [done|].
    destruct (parse_integer s) as [v|]; [|discriminate]. unfold safe_integer.
    destruct (Z.leb_spec (Z.abs v) (2 ^ 53 - 1)); [|discriminate]. by intros [= <-]. }
  assert (Ho : forall z, match o with NoField => Some DEFAULT_OFFSET | _ => parse_int_field o end = Some z ->
     Z.abs z <= 2 ^ 53 - 1).
  { intros z. destruct o as [|s|]; [|apply Hs|apply Hs]. intros [= <-]. unfold DEFAULT_OFFSET. lia. }
  destruct (match l with NoField => _ | _ => _ end) as [lim|]; [|done].
  destruct (is_per_page_option lim) eqn:Hl; simpl in H; [|done].
  destruct (match o with NoField => _ | _ => _ end) as [off|] eqn:Hoff; [|done].
  specialize (Ho off eq_refl). destruct (Z.ltb_spec off 0); [done|]. injection H as <- <-.
  split; [|lia]. apply existsb_exists in Hl as (x & Hx & ->%Z.eqb_eq). exact Hx.
Qed.

Example paging_form_values :
  parse_paging_form_values (FormString (u "50")) (FormString (u "100")) = Some (50, 100) /\
  parse_paging_form_values (FormString (u "25")) NoField = None /\
  parse_paging_form_values NoField (FormString (u "-1")) = None /\
  parse_paging_form_values NoField NoField = Some (20, 0).
Proof. vm_compute. auto. Qed.
