(* ===== verification/LocalTime.v ===== *)
(** datetime/parse_time.ts, datetime/format.ts, datetime/local_datetime_compose.ts
    and datetime/local_datetime_chrome_sync.ts, with the commits of
    time_24_field.tsx and local_datetime_input.tsx: dates and times as the
    reader types and sees them, in the browser's time zone, and as they are
    stored, in UTC. *)
From S2P Require Import Prelude JsString JsValue JsText JsDate.

(** [{ ok: true, ... }] or [{ ok: false, warning }]. *)
Inductive checked (A : Type) : Type :=
| Ok_ (a : A)
| Warning (w : jstr).
Arguments Ok_ {A} a.
Arguments Warning {A} w.

(** ** parse_time.ts *)

Definition TIME_WARNING : jstr := u "Enter time as 24-hour HH:mm:ss (e.g. 14:30:00).".

(** [String(n).padStart(2, "0")] *)
Definition two (n : Z) : jstr := pad_zero 2 (num_to_string n).

Definition hms_text (hour minute second : Z) : jstr := two hour ++ u ":" ++ two minute ++ u ":" ++ two second.

Definition pack_hms (hour minute second : Z) : checked jstr :=
  if (hour <? 0) || (23 <? hour) || (minute <? 0) || (59 <? minute) || (second <? 0) || (59 <? second)
  then Warning TIME_WARNING
  else Ok_ (hms_text hour minute second).

(** [/^\d+$/] and [/^\d{1,2}$/]. *)
Definition all_digits (s : jstr) : bool := negb (bool_decide (s = [])) && forallb is_digit s.

Definition one_or_two_digits (s : jstr) : bool := all_digits s && (length s <=? 2)%nat.

Definition parse_time_24h (raw : jstr) : checked jstr :=
  let t := trim raw in
  if bool_decide (t = []) then Warning TIME_WARNING
  else if all_digits t then
    if (length t =? 6)%nat then
      pack_hms (digits_value (slice t 0 2)) (digits_value (slice t 2 4)) (digits_value (slice t 4 6))
    else if (length t =? 5)%nat then
      pack_hms (digits_value (slice t 0 1)) (digits_value (slice t 1 3)) (digits_value (slice t 3 5))
    else if (length t =? 4)%nat then
      pack_hms (digits_value (slice t 0 2)) (digits_value (slice t 2 4)) 0
    else Warning TIME_WARNING
  else if includes (u ":") t then
    match split_on 58 t with
    | [a; b; c] =>
        if negb (forallb one_or_two_digits [a; b; c]) then Warning TIME_WARNING
        else pack_hms (digits_value a) (digits_value b) (digits_value c)
    | [a; b] =>
        if negb (forallb one_or_two_digits [a; b]) then Warning TIME_WARNING
        else pack_hms (digits_value a) (digits_value b) 0
    | _ => Warning TIME_WARNING
    end
  else Warning TIME_WARNING.

(** ** local_datetime_compose.ts *)

Definition DATETIME_FROM_DEFAULT_TIME : jstr := u "00:00:00".

Definition DATETIME_TO_DEFAULT_TIME : jstr := u "23:59:59".

(** [/^\d{1,2}:\d{1,2}(?::\d{1,2})?$/] *)
Definition colon_time (t : jstr) : bool :=
  match split_on 58 t with
  | [a; b] => forallb one_or_two_digits [a; b]
  | [a; b; c] => forallb one_or_two_digits [a; b; c]
  | _ => false
  end.

Definition normalize_time_seconds (time : jstr) : jstr :=
  let t := trim time in
  if colon_time t then match parse_time_24h t with Ok_ t' => t' | Warning _ => t end else t.

(** The date and the time of a stored local date-time. *)
Definition split_datetime_local (combined : option jstr) : jstr * jstr :=
  let raw := match combined with Some s => trim s | None => [] end in
  if bool_decide (raw = []) then ([], [])
  else match index_of 84 raw with
       | None => (raw, [])
       | Some sep => (take sep raw, normalize_time_seconds (drop (S sep) raw))
       end.

Definition combine_datetime_local (date time default_time : jstr) : jstr :=
  let d := trim date in
  if bool_decide (d = []) then []
  else
    let t := trim time in
    d ++ u "T" ++ (if bool_decide (t = []) then default_time else normalize_time_seconds t).

Inductive range_side : Type := FromSide | ToSide.

Definition apply_datetime_date_change (side : range_side) (date : jstr) (current_combined : option jstr) : jstr :=
  let d := trim date in
  if bool_decide (d = []) then []
  else
    let time := snd (split_datetime_local current_combined) in
    let default_time := match side with
                        | FromSide => DATETIME_FROM_DEFAULT_TIME
                        | ToSide => DATETIME_TO_DEFAULT_TIME
                        end in
    combine_datetime_local d time default_time.

Definition apply_datetime_time_change (time : jstr) (current_combined : option jstr)
    (default_time : jstr) : checked jstr :=
  let date := fst (split_datetime_local current_combined) in
  if bool_decide (date = []) then
    Warning (u "Pick a date first (time defaults when you choose a date).")
  else
    let trimmed := trim time in
    if bool_decide (trimmed = []) then Ok_ (combine_datetime_local date [] default_time)
    else match parse_time_24h trimmed with
         | Warning w => Warning w
         | Ok_ t => Ok_ (combine_datetime_local date t default_time)
         end.

(** ** The language's dates *)

(** Exactly [n] decimal digits at the front. *)
Definition take_number (n : nat) (s : jstr) : option (Z * jstr) :=
  let ds := take n s in
  if (length ds =? n)%nat && forallb is_digit ds then Some (digits_value ds, drop n s) else None.

Definition expect (c : Z) (s : jstr) : option jstr :=
  match s with d :: s' => if c =? d then Some s' else None | [] => None end.

(** One or two digits at the front, as many as there are. *)
Definition take_one_or_two (s : jstr) : option (Z * jstr) :=
  match take_number 2 s with Some r => Some r | None => take_number 1 s end.

Definition wall_ms (y m d hour minute second ms : Z) : Z :=
  days_from_civil y m d * MS_PER_DAY + hour * 3600000 + minute * 60000 + second * 1000 + ms.

Section Zone.
(** The browser's time zone: the wall clock at an instant, as a count of
    milliseconds, and the instant that a wall clock names.  [other_dates] is
    [Date.parse] on the texts outside the language's date-time format, which
    engines accept as they like. *)
Context (wall_of utc_of_wall : Z -> Z) (other_dates : jstr -> option Z).

(** [YYYY], [YYYY-MM] or [YYYY-MM-DD] *)
Definition iso_date (s : jstr) : option (Z * Z * Z * jstr) :=
  match take_number 4 s with
  | None => None
  | Some (y, r) =>
      match expect 45 r with
      | None => Some (y, 1, 1, r)
      | Some r =>
          match take_number 2 r with
          | None => None
          | Some (m, r) =>
              match expect 45 r with
              | None => Some (y, m, 1, r)
              | Some r =>
                  match take_number 2 r with
                  | None => None
                  | Some (d, r) => Some (y, m, d, r)
                  end
              end
          end
      end
  end.

(** [HH:mm], [HH:mm:ss] or [HH:mm:ss.sss] *)
Definition iso_time (s : jstr) : option (Z * Z * Z * Z * jstr) :=
  match take_number 2 s with
  | None => None
  | Some (h, r) =>
      match expect 58 r with
      | None => None
      | Some r =>
          match take_number 2 r with
          | None => None
          | Some (mi, r) =>
              match expect 58 r with
              | None => Some (h, mi, 0, 0, r)
              | Some r =>
                  match take_number 2 r with
                  | None => None
                  | Some (sec, r) =>
                      match expect 46 r with
                      | None => Some (h, mi, sec, 0, r)
                      | Some r =>
                          match take_number 3 r with
                          | None => None
                          | Some (ms, r) => Some (h, mi, sec, ms, r)
                          end
                      end
                  end
              end
          end
      end
  end.

(** What follows the time: nothing, [Z] or [+HH:mm]; the offset in minutes. *)
Definition iso_offset (s : jstr) : option (option Z) :=
  match s with
  | [] => Some None
  | [90] => Some (Some 0)
  | sign :: r =>
      if (sign =? 43) || (sign =? 45) then
        match take_number 2 r with
        | Some (h, 58 :: r) =>
            match take_number 2 r with
            | Some (m, []) =>
                if (h <=? 23) && (m <=? 59)
                then Some (Some ((if sign =? 45 then -1 else 1) * (60 * h + m))) else None
            | _ => None
            end
        | _ => None
        end
      else None
  end.

(** The instant of a text in the date-time format: a date alone is in UTC, a
    date and time without an offset on the wall clock. *)
Definition iso_instant (s : jstr) : option Z :=
  match iso_date s with
  | None => None
  | Some (y, m, d, r) =>
      if negb ((1 <=? m) && (m <=? 12) && (1 <=? d) && (d <=? days_in_month y m)) then None
      else match r with
           | [] => Some (wall_ms y m d 0 0 0 0)
           | c :: r =>
               if negb (c =? 84) then None
               else match iso_time r with
                    | None => None
                    | Some (h, mi, sec, ms, r) =>
                        if negb ((h <=? 23) && (mi <=? 59) && (sec <=? 59)) then None
                        else match iso_offset r with
                             | None => None
                             | Some None => Some (utc_of_wall (wall_ms y m d h mi sec ms))
                             | Some (Some off) => Some (wall_ms y m d h mi sec ms - off * 60000)
                             end
                    end
           end
  end.

(** [Date.parse(s)]; [None] is [NaN]. *)
Definition date_parse (s : jstr) : option Z :=
  match iso_instant s with Some ms => Some ms | None => other_dates s end.

(** [new Date(year, month, ...).getTime()]: years below 100 count from 1900,
    and months and days carry over. *)
Definition new_local_date (year month day hour minute second ms : Z) : Z :=
  let y := if (0 <=? year) && (year <=? 99) then 1900 + year else year in
  utc_of_wall (wall_ms (y + month / 12) (month mod 12 + 1) 1 hour minute second ms
               + (day - 1) * MS_PER_DAY).

(** ** format.ts *)

Definition format_local_datetime_parts (value : Z) : jstr :=
  let wall := wall_of value in
  let '(y, m, d) := civil_from_days (wall / MS_PER_DAY) in
  let t := wall mod MS_PER_DAY in
  num_to_string y ++ u "-" ++ two m ++ u "-" ++ two d ++ u " " ++
  two (t / 3600000) ++ u ":" ++ two (t / 60000 mod 60) ++ u ":" ++ two (t / 1000 mod 60).

(** [/(?:Z|[+-]\d{2}:?\d{2})$/i] *)
Definition has_timezone_suffix (raw : jstr) : bool :=
  match rev raw with
  | c :: rest =>
      (c =? 90) || (c =? 122) ||
      match c :: rest with
      | d4 :: d3 :: r =>
          is_digit d4 && is_digit d3 &&
          match (match r with 58 :: r' => r' | _ => r end) with
          | d2 :: d1 :: s :: _ => is_digit d2 && is_digit d1 && ((s =? 43) || (s =? 45))
          | _ => false
          end
      | _ => false
      end
  | [] => false
  end.

(** [raw.replace("T", " ")] and [raw.replace(" ", "T")]: the first one only. *)
Fixpoint replace_first (from to : Z) (s : jstr) : jstr :=
  match s with
  | [] => []
  | c :: s' => if c =? from then to :: s' else c :: replace_first from to s'
  end.

(** The fields of a wall-clock text,
    [/^(\d{4})-(\d{2})-(\d{2})[ T](\d{1,2}):(\d{1,2})(?::(\d{1,2}))?(?:\.(\d+))?$/];
    the last is the fraction's digits. *)
Definition wall_fields (s : jstr) : option (Z * Z * Z * Z * Z * Z * jstr) :=
  match take_number 4 s with
  | Some (y, 45 :: r) =>
      match take_number 2 r with
      | Some (m, 45 :: r) =>
          match take_number 2 r with
          | Some (d, sep :: r) =>
              if negb ((sep =? 32) || (sep =? 84)) then None
              else match take_one_or_two r with
                   | Some (h, 58 :: r) =>
                       match take_one_or_two r with
                       | Some (mi, r) =>
                           let '(sec, r) := match r with
                                            | 58 :: r' =>
                                                match take_one_or_two r' with
                                                | Some (sec, r'') => (sec, r'')
                                                | None => (0, r)
                                                end
                                            | _ => (0, r)
                                            end in
                           match r with
                           | [] => Some (y, m, d, h, mi, sec, [])
                           | c :: frac =>
                               if (c =? 46) && all_digits frac
                               then Some (y, m, d, h, mi, sec, frac) else None
                           end
                       | None => None
                       end
                   | _ => None
                   end
          | _ => None
          end
      | _ => None
      end
  | _ => None
  end.

Definition format_datetime_local (raw : jstr) : option jstr :=
  let trimmed := trim raw in
  if bool_decide (trimmed = []) then None
  else if has_timezone_suffix trimmed then
    match date_parse trimmed with
    | None => None
    | Some ms => Some (format_local_datetime_parts (utc_seconds ms))
    end
  else
    match wall_fields (replace_first 84 32 trimmed) with
    | None => None
    | Some (year, month, day, hour, minute, second, frac) =>
        if (23 <? hour) || (59 <? minute) || (59 <? second) then None
        else
          let millis := if bool_decide (frac = []) then 0
                        else digits_value (take 3 (frac ++ u "000")) in
          Some (format_local_datetime_parts
                  (utc_seconds (new_local_date year (month - 1) day hour minute second millis)))
    end.

Definition display_field_value (type_name : jstr) (value : jsval) : jstr :=
  match value with
  | VUndef | VNull => []
  | _ =>
      if seqb type_name "datetime" then
        match value with
        | VStr s => match format_datetime_local s with Some t => t | None => [] end
        | _ => []
        end
      else match value with
           | VStr s => s
           | VNum n => num_text n
           | VBool b => if b then u "true" else u "false"
           | _ => match json_stringify value with Some t => t | None => [] end
           end
  end.

Definition local_datetime_control_parts (value : jsval) : jstr * jstr :=
  match value with
  | VStr s =>
      match format_datetime_local s with
      | None => ([], [])
      | Some formatted =>
          match index_of 32 formatted with
          | None => ([], [])
          | Some space => (take space formatted, drop (S space) formatted)
          end
      end
  | _ => ([], [])
  end.

Definition iso_to_local_combined (iso : jstr) : jstr :=
  let trimmed := trim iso in
  if bool_decide (trimmed = []) then []
  else
    let '(date, time) := local_datetime_control_parts (VStr trimmed) in
    if negb (bool_decide (date = [])) then date ++ u "T" ++ time
    else match date_parse trimmed with
         | None => if includes (u "T") trimmed then trimmed else replace_first 32 84 trimmed
         | Some _ => []
         end.

(** [None] is [undefined]. *)
Definition local_combined_to_iso (combined : jstr) : option jstr :=
  if bool_decide (trim combined = []) then None
  else match date_parse combined with
       | None => Some combined
       | Some ms => Some (to_iso_string ms)
       end.

(** ** local_datetime_chrome_sync.ts, time_24_field.tsx, local_datetime_input.tsx *)

Definition sync_datetime_chrome_from_committed (remount_key : Z) (value : jsval) : Z * (jstr * jstr) :=
  (remount_key + 1, local_datetime_control_parts value).

(** What the field shows after a commit; [None] of [commit] is [false]. *)
Definition commit_time_24_draft (draft committed : jstr) (commit : jstr -> option jstr) : jstr :=
  if seqb draft committed then draft
  else match commit draft with None => committed | Some next => next end.

(** The value passed to [on_change]: [None] is [null]. *)
Definition commit_iso (combined : jstr) : option jstr :=
  if bool_decide (trim combined = []) then None else local_combined_to_iso combined.

(** [local] of the input: the committed value on the wall clock. *)
Definition input_local (value : jsval) : jstr :=
  match value with VStr s => iso_to_local_combined s | _ => [] end.

(** [commit_time]: the new committed value and the time shown. *)
Definition commit_time (value : jsval) (raw : jstr) : option (option jstr * jstr) :=
  match apply_datetime_time_change raw (Some (input_local value)) DATETIME_FROM_DEFAULT_TIME with
  | Warning _ => None
  | Ok_ combined => Some (commit_iso combined, snd (split_datetime_local (Some combined)))
  end.

(** [onChange] of the date input. *)
Definition commit_date (value : jsval) (date : jstr) : option jstr :=
  commit_iso (apply_datetime_date_change FromSide date (Some (input_local value))).

End Zone.

Example parse_times :
  parse_time_24h (u " 12345 ") = Ok_ (u "01:23:45") /\ parse_time_24h (u "9:05") = Ok_ (u "09:05:00") /\
  parse_time_24h (u "24:00") = Warning TIME_WARNING /\ parse_time_24h (u "12:") = Warning TIME_WARNING.
Proof. vm_compute. auto. Qed.

Example compose_dates :
  apply_datetime_date_change ToSide (u "2026-07-27") None = u "2026-07-27T23:59:59" /\
  apply_datetime_date_change FromSide (u "2026-07-28") (Some (u "2026-07-27T15:30")) = u "2026-07-28T15:30:00" /\
  apply_datetime_time_change (u "14:30") (Some (u "2026-07-27T00:00:00")) DATETIME_FROM_DEFAULT_TIME
    = Ok_ (u "2026-07-27T14:30:00").
Proof. vm_compute. auto. Qed.

(** One hour ahead of UTC, as an example. *)
Example format_offsets :
  format_datetime_local (fun t => t + 3600000) (fun t => t - 3600000) (fun _ => None)
    (u "2026-07-14T05:02:34.600Z") = Some (u "2026-07-14 06:02:35") /\
  format_datetime_local (fun t => t + 3600000) (fun t => t - 3600000) (fun _ => None)
    (u "2026-07-14 01:02") = Some (u "2026-07-14 01:02:00") /\
  format_datetime_local (fun t => t + 3600000) (fun t => t - 3600000) (fun _ => None)
    (u "2026-02-31 10:00") = Some (u "2026-03-03 10:00:00") /\
  format_datetime_local (fun t => t + 3600000) (fun t => t - 3600000) (fun _ => None)
    (u "2026-07-14T05:02:34Z-nope") = None.
Proof. vm_compute. auto. Qed.

(** ** Two-digit numbers *)

Definition dig (n : Z) : Z := 48 + n.

Lemma two_digits n : 0 <= n < 100 -> two n = [dig (n / 10); dig (n mod 10)].
Proof.
  intros Hn. assert (H : forallb (fun n => bool_decide (two n = [dig (n / 10); dig (n mod 10)])) (seqZ 100) = true)
    by (vm_compute; reflexivity).
  apply (forallb_seqZ _ 100 n) in H; [|lia]. by apply bool_decide_eq_true in H.
Qed.

Lemma dig_digit n : 0 <= n < 10 -> is_digit (dig n) = true.
Proof. intros. unfold is_digit, dig. apply andb_true_iff; split; apply Z.leb_le; lia. Qed.

Lemma div_mod_10 n : 0 <= n < 100 -> 0 <= n / 10 < 10 /\ 0 <= n mod 10 < 10 /\ 10 * (n / 10) + n mod 10 = n.
Proof.
  intros. pose proof (Z.div_mod n 10 ltac:(lia)). pose proof (Z.mod_pos_bound n 10 ltac:(lia)). lia.
Qed.

Lemma two_length n : 0 <= n < 100 -> length (two n) = 2%nat.
Proof. intros. by rewrite two_digits. Qed.

Lemma two_all_digits n : 0 <= n < 100 -> forallb is_digit (two n) = true.
Proof.
  intros Hn. rewrite two_digits by done. destruct (div_mod_10 n Hn) as (? & ? & _).
  simpl. by rewrite !dig_digit.
Qed.

Lemma two_value n : 0 <= n < 100 -> digits_value (two n) = n.
Proof.
  intros Hn. rewrite two_digits by done. destruct (div_mod_10 n Hn) as (? & ? & ?).
  unfold digits_value, dig. cbn [fold_left]. lia.
Qed.

Lemma two_one_or_two n : 0 <= n < 100 -> one_or_two_digits (two n) = true.
Proof.
  intros Hn. unfold one_or_two_digits, all_digits. rewrite two_length, two_all_digits by done.
  rewrite two_digits by done. done.
Qed.

Lemma digits_no c s : forallb is_digit s = true -> is_digit c = false -> c ∉ s.
Proof.
  intros Hs Hc Hin. rewrite forallb_forall in Hs. apply list_elem_of_In in Hin.
  rewrite (Hs c Hin) in Hc. done.
Qed.

Definition clock (h m s : Z) : Prop := 0 <= h <= 23 /\ 0 <= m <= 59 /\ 0 <= s <= 59.

Lemma pack_hms_clock h m s : clock h m s -> pack_hms h m s = Ok_ (hms_text h m s).
Proof.
  intros (Hh & Hm & Hs). unfold pack_hms.
  rewrite (proj2 (Z.ltb_ge h 0)), (proj2 (Z.ltb_ge 23 h)), (proj2 (Z.ltb_ge m 0)), (proj2 (Z.ltb_ge 59 m)),
    (proj2 (Z.ltb_ge s 0)), (proj2 (Z.ltb_ge 59 s)) by lia. done.
Qed.

Lemma pack_hms_inv h m s t : pack_hms h m s = Ok_ t -> clock h m s /\ t = hms_text h m s.
Proof.
  unfold pack_hms, clock.
  destruct (Z.ltb_spec h 0), (Z.ltb_spec 23 h), (Z.ltb_spec m 0), (Z.ltb_spec 59 m), (Z.ltb_spec s 0),
    (Z.ltb_spec 59 s); simpl; try discriminate. intros [= <-]. split; [lia|done].
Qed.

Lemma hms_text_split h m s : clock h m s ->
  split_on 58 (hms_text h m s) = [two h; two m; two s].
Proof.
  intros (Hh & Hm & Hs). unfold hms_text. change (u ":") with [58]. simpl app.
  rewrite !split_on_app, split_on_none; [done|..]; apply digits_no; try done; apply two_all_digits; lia.
Qed.

Lemma hms_text_units h m s : clock h m s ->
  Forall (fun c => is_digit c = true \/ c = 58) (hms_text h m s).
Proof.
  intros (Hh & Hm & Hs). unfold hms_text. change (u ":") with [58].
  assert (Ht : forall n, 0 <= n < 100 -> Forall (fun c => is_digit c = true \/ c = 58) (two n)).
  { intros n Hn. apply Forall_forall. intros c Hc%list_elem_of_In. left.
    pose proof (two_all_digits n Hn) as Hd. rewrite forallb_forall in Hd. auto. }
  rewrite !Forall_app, !Forall_singleton. repeat split; auto; apply Ht; lia.
Qed.

Lemma hms_text_trim h m s : clock h m s -> trim (hms_text h m s) = hms_text h m s.
Proof.
  intros Hc. apply trim_nospace, forallb_forall. intros c Hin%list_elem_of_In.
  pose proof (proj1 (Forall_forall _ _) (hms_text_units h m s Hc) c Hin) as [Hd| ->]; [|done].
  by rewrite is_digit_space.
Qed.

Lemma hms_text_colon h m s : clock h m s ->
  all_digits (hms_text h m s) = false /\ includes (u ":") (hms_text h m s) = true /\
  hms_text h m s <> [].
Proof.
  intros (Hh & _ & _). unfold hms_text. rewrite (two_digits h) by lia.
  change (u ":") with [58]. simpl app. destruct (div_mod_10 h ltac:(lia)) as (H1 & H2 & _).
  split; [|split; [|done]].
  - unfold all_digits. simpl. by rewrite !dig_digit.
  - simpl. rewrite !orb_true_r. done.
Qed.

(** The normal form of a time is read back as itself. *)
Lemma parse_time_hms h m s : clock h m s -> parse_time_24h (hms_text h m s) = Ok_ (hms_text h m s).
Proof.
  intros Hc. destruct (hms_text_colon h m s Hc) as (Hd & Hi & Hn).
  unfold parse_time_24h. rewrite hms_text_trim by done.
  rewrite bool_decide_eq_false_2, Hd, Hi, hms_text_split by done.
  pose proof Hc as (Hh & Hm & Hs). cbn [forallb]. rewrite !two_one_or_two by lia. simpl negb. cbv iota.
  rewrite !two_value by lia. by apply pack_hms_clock.
Qed.

(** An accepted time is a time of the day in the form HH:mm:ss, which is
    accepted as itself; the compact form HHmmss of any time of the day is
    accepted as that time. *)
Theorem parse_time_24h_spec :
  (forall raw t, parse_time_24h raw = Ok_ t ->
     exists h m s, clock h m s /\ t = hms_text h m s /\ parse_time_24h t = Ok_ t) /\
  (forall h m s, clock h m s -> parse_time_24h (two h ++ two m ++ two s) = Ok_ (hms_text h m s)).
Proof.
  split.
  - intros raw t H.
    assert (Hp : exists h m s, pack_hms h m s = Ok_ t).
    { revert H. unfold parse_time_24h.
      repeat first [discriminate | case_bool_decide | case_match]; eauto; intros; discriminate. }
    destruct Hp as (h & m & s & [Hc ->]%pack_hms_inv). exists h, m, s.
    split; [done|]. split; [done|]. by apply parse_time_hms.
  - intros h m s (Hh & Hm & Hs).
    assert (Hall : forallb is_digit (two h ++ two m ++ two s) = true)
      by (rewrite !forallb_app, !two_all_digits by lia; done).
    assert (Hvals : digits_value (slice (two h ++ two m ++ two s) 0 2) = h /\
      digits_value (slice (two h ++ two m ++ two s) 2 4) = m /\
      digits_value (slice (two h ++ two m ++ two s) 4 6) = s).
    { rewrite <- (two_value h) at 2 by lia. rewrite <- (two_value m) at 3 by lia.
      rewrite <- (two_value s) at 4 by lia. by rewrite !two_digits by lia. }
    assert (Hlen : length (two h ++ two m ++ two s) = 6%nat)
      by (rewrite !length_app, !two_length by lia; done).
    destruct Hvals as (Hvh & Hvm & Hvs). revert Hall Hlen Hvh Hvm Hvs.
    generalize (two h ++ two m ++ two s) as t. intros t Hall Hlen Hvh Hvm Hvs.
    unfold parse_time_24h. rewrite trim_digits by done.
    rewrite bool_decide_eq_false_2 by (intros ->; done).
    unfold all_digits. rewrite bool_decide_eq_false_2 by (intros ->; done). rewrite Hall, Hlen. simpl.
    rewrite Hvh, Hvm, Hvs. by apply pack_hms_clock.
Qed.

(** ** Date texts *)

Lemma take_number_app n s r : length s = n -> forallb is_digit s = true ->
  take_number n (s ++ r) = Some (digits_value s, r).
Proof.
  intros <- Hd. unfold take_number. rewrite take_app_length, drop_app_length, Nat.eqb_refl, Hd. done.
Qed.

Lemma take_number_two n r : 0 <= n < 100 -> take_number 2 (two n ++ r) = Some (n, r).
Proof. intros. rewrite take_number_app by auto using two_length, two_all_digits. by rewrite two_value. Qed.

Definition four (y : Z) : jstr := pad_zero 4 (num_to_string y).

Lemma four_two y : 0 <= y < 10000 -> four y = two (y / 100) ++ two (y mod 100).
Proof.
  intros Hy.
  assert (H : forallb (fun a => forallb (fun b => bool_decide (four (100 * a + b) = two a ++ two b)) (seqZ 100))
     (seqZ 100) = true) by (vm_compute; reflexivity).
  pose proof (Z.mod_pos_bound y 100 ltac:(lia)).
  assert (0 <= y / 100 < 100) by (split; [apply Z.div_pos; lia|apply Z.div_lt_upper_bound; lia]).
  apply (forallb_seqZ _ 100 (y / 100)) in H; [|lia]. apply (forallb_seqZ _ 100 (y mod 100)) in H; [|lia].
  apply bool_decide_eq_true in H. rewrite <- Z.div_mod in H by lia. done.
Qed.

Lemma year_parts y : 0 <= y < 10000 -> 0 <= y / 100 < 100 /\ 0 <= y mod 100 < 100 /\ 100 * (y / 100) + y mod 100 = y.
Proof.
  intros. pose proof (Z.div_mod y 100 ltac:(lia)). pose proof (Z.mod_pos_bound y 100 ltac:(lia)).
  repeat split; lia.
Qed.

Lemma four_digits y : 0 <= y < 10000 -> forallb is_digit (four y) = true.
Proof.
  intros Hy. destruct (year_parts y Hy) as (? & ? & _).
  by rewrite four_two, forallb_app, !two_all_digits by done.
Qed.

Lemma take_number_four y r : 0 <= y < 10000 -> take_number 4 (four y ++ r) = Some (y, r).
Proof.
  intros Hy. destruct (year_parts y Hy) as (H1 & H2 & H3).
  rewrite take_number_app; [|by rewrite four_two, length_app, !two_length by done|by apply four_digits].
  rewrite four_two by done. do 2 f_equal. rewrite (two_digits (y / 100)), (two_digits (y mod 100)) by done.
  destruct (div_mod_10 (y / 100) H1) as (? & ? & ?), (div_mod_10 (y mod 100) H2) as (? & ? & ?).
  unfold digits_value, dig. cbn [fold_left app]. lia.
Qed.

Lemma four_num_to_string y : 1000 <= y < 10000 -> four y = num_to_string y.
Proof.
  intros Hy. unfold four, pad_zero.
  assert (Hl : length (four y) = 4%nat).
  { destruct (year_parts y ltac:(lia)) as (? & ? & _).
    by rewrite four_two, length_app, !two_length by (done || lia). }
  unfold four, pad_zero in Hl. rewrite length_app, repeat_length in Hl.
  destruct (Nat.le_gt_cases 4 (length (num_to_string y))) as [H4|H4].
  - by replace (4 - length (num_to_string y))%nat with 0%nat by lia.
  - exfalso. assert (Hz : forallb is_digit (num_to_string y) = true /\ digits_value (num_to_string y) = y).
    { unfold num_to_string. rewrite (proj2 (Z.ltb_ge y 0)) by lia.
      split; [apply digits_forallb; lia|apply digits_value_digits; lia]. }
    destruct Hz as [Hd Hv]. revert H4 Hd Hv. generalize (num_to_string y) as s. intros s H4 Hd Hv.
    assert (Hb : forall l, forallb is_digit l = true -> (length l < 4)%nat -> digits_value l < 1000).
    { intros l Hl' Hlt. unfold digits_value.
      destruct l as [|a [|b [|c [|]]]]; cbn [forallb fold_left length] in *; try lia;
        unfold is_digit in Hl'; rewrite ?andb_true_iff, ?Z.leb_le in Hl'; lia. }
    specialize (Hb s Hd H4). lia.
Qed.

Definition date_text (y m d : Z) : jstr := four y ++ u "-" ++ two m ++ u "-" ++ two d.

Lemma valid_date_bounds y m d : valid_date y m d -> 1 <= m <= 12 /\ 1 <= d <= 31.
Proof. intros [Hm Hd]. split; [done|]. unfold days_in_month in Hd. repeat case_match; lia. Qed.

Lemma iso_date_text y m d r : 0 <= y < 10000 -> valid_date y m d ->
  iso_date (date_text y m d ++ r) = Some (y, m, d, r).
Proof.
  intros Hy Hv. destruct (valid_date_bounds _ _ _ Hv) as [Hm Hd].
  unfold iso_date, date_text. change (u "-") with [45]. rewrite <- !app_assoc. simpl app.
  rewrite take_number_four by done. cbn [expect]. rewrite Z.eqb_refl, take_number_two by lia.
  cbn [expect]. rewrite Z.eqb_refl, take_number_two by lia. done.
Qed.

Lemma valid_date_checks y m d : valid_date y m d ->
  (1 <=? m) && (m <=? 12) && (1 <=? d) && (d <=? days_in_month y m) = true.
Proof. intros [Hm Hd]. rewrite !andb_true_iff, !Z.leb_le. lia. Qed.

Lemma wall_ms_div y m d h mi s ms : clock h mi s -> 0 <= ms < 1000 ->
  wall_ms y m d h mi s ms / MS_PER_DAY = days_from_civil y m d /\
  let t := wall_ms y m d h mi s ms mod MS_PER_DAY in
  t / 3600000 = h /\ t / 60000 mod 60 = mi /\ t / 1000 mod 60 = s /\ t mod 1000 = ms.
Proof.
  intros (Hh & Hm & Hs) Hms. unfold wall_ms, MS_PER_DAY. set (days := days_from_civil y m d).
  assert (Hlt : 0 <= h * 3600000 + mi * 60000 + s * 1000 + ms < 86400000) by lia.
  replace (days * 86400000 + h * 3600000 + mi * 60000 + s * 1000 + ms)
    with (days * 86400000 + (h * 3600000 + mi * 60000 + s * 1000 + ms)) by lia.
  rewrite Z.div_add_l, Z.div_small, Z.add_0_r by lia. split; [done|]. cbv zeta.
  rewrite Z.add_comm, Z.mod_add, Z.mod_small by lia.
  replace (h * 3600000 + mi * 60000 + s * 1000 + ms) with (h * 3600000 + (mi * 60000 + s * 1000 + ms)) by lia.
  rewrite Z.div_add_l, Z.div_small, Z.add_0_r by lia. split; [done|].
  replace (h * 3600000 + (mi * 60000 + s * 1000 + ms)) with ((h * 60 + mi) * 60000 + (s * 1000 + ms)) by lia.
  rewrite Z.div_add_l, (Z.div_small (s * 1000 + ms)), Z.add_0_r by lia.
  split; [rewrite Z.add_comm, Z.mod_add, Z.mod_small by lia; done|].
  replace ((h * 60 + mi) * 60000 + (s * 1000 + ms)) with (((h * 60 + mi) * 60 + s) * 1000 + ms) by lia.
  rewrite Z.div_add_l, (Z.div_small ms), Z.add_0_r by lia.
  split; [rewrite Z.add_comm, Z.mod_add, Z.mod_small by lia; done|].
  rewrite Z.add_comm, Z.mod_add, Z.mod_small by lia. done.
Qed.

(** The calendar fields of any instant. *)
Lemma wall_fields_of v : exists y m d h mi s ms,
  civil_from_days (v / MS_PER_DAY) = (y, m, d) /\ valid_date y m d /\ clock h mi s /\ 0 <= ms < 1000 /\
  v = wall_ms y m d h mi s ms.
Proof.
  pose proof (civil_from_days_spec (v / MS_PER_DAY)) as Hc.
  destruct (civil_from_days (v / MS_PER_DAY)) as [[y m] d]. destruct Hc as [Hv Hd].
  set (t := v mod MS_PER_DAY).
  assert (Ht : 0 <= t < MS_PER_DAY) by (apply Z.mod_pos_bound; done). unfold MS_PER_DAY in Ht.
  exists y, m, d, (t / 3600000), (t / 60000 mod 60), (t / 1000 mod 60), (t mod 1000).
  pose proof (Z.div_mod v MS_PER_DAY ltac:(done)) as Hdm. fold t in Hdm.
  pose proof (Z.mod_pos_bound (t / 60000) 60 ltac:(lia)). pose proof (Z.mod_pos_bound (t / 1000) 60 ltac:(lia)).
  pose proof (Z.mod_pos_bound t 1000 ltac:(lia)).
  assert (t / 3600000 = t / 60000 / 60) by (by rewrite Z.div_div).
  assert (t / 60000 = t / 1000 / 60) by (by rewrite Z.div_div).
  pose proof (Z.div_mod t 1000 ltac:(lia)). pose proof (Z.div_mod (t / 1000) 60 ltac:(lia)).
  pose proof (Z.div_mod (t / 60000) 60 ltac:(lia)).
  assert (0 <= t / 3600000 <= 23)
    by (split; [apply Z.div_pos; lia|apply Z.lt_succ_r, Z.div_lt_upper_bound; lia]).
  split; [done|]. split; [done|]. split; [unfold clock; lia|]. split; [lia|].
  unfold wall_ms. rewrite Hd. unfold MS_PER_DAY in *. lia.
Qed.

(** A text of digits and punctuation is its own trim. *)
Definition dateish (c : Z) : bool :=
  is_digit c || (c =? 45) || (c =? 58) || (c =? 46) || (c =? 84) || (c =? 90) .

Lemma dateish_trim s : forallb dateish s = true -> trim s = s.
Proof.
  intros H. apply trim_nospace. rewrite forallb_forall in *. intros c Hc. specialize (H c Hc).
  unfold dateish in H. rewrite !orb_true_iff, !Z.eqb_eq in H.
  destruct H as [[[[[H| ->]| ->]| ->]| ->]| ->]; [by rewrite is_digit_space|reflexivity..].
Qed.

Lemma digits_dateish s : forallb is_digit s = true -> forallb dateish s = true.
Proof. rewrite !forallb_forall. intros H c Hc. unfold dateish. by rewrite (H c Hc). Qed.

Lemma date_text_dateish y m d : 0 <= y < 10000 -> valid_date y m d -> forallb dateish (date_text y m d) = true.
Proof.
  intros Hy Hv. destruct (valid_date_bounds _ _ _ Hv). unfold date_text. rewrite !forallb_app.
  rewrite (digits_dateish (four y)), (digits_dateish (two m)), (digits_dateish (two d))
    by first [by apply four_digits | apply two_all_digits; lia]. done.
Qed.

Lemma hms_text_dateish h m s : clock h m s -> forallb dateish (hms_text h m s) = true.
Proof.
  intros (Hh & Hm & Hs). unfold hms_text. rewrite !forallb_app.
  rewrite (digits_dateish (two h)), (digits_dateish (two m)), (digits_dateish (two s))
    by (apply two_all_digits; lia). done.
Qed.

Definition three (n : Z) : jstr := pad_zero 3 (num_to_string n).

Lemma three_spec n : 0 <= n < 1000 ->
  length (three n) = 3%nat /\ forallb is_digit (three n) = true /\ digits_value (three n) = n.
Proof.
  intros Hn. assert (H : forallb (fun n => (length (three n) =? 3)%nat && forallb is_digit (three n) &&
    (digits_value (three n) =? n)) (seqZ 1000) = true) by (vm_compute; reflexivity).
  apply (forallb_seqZ _ 1000 n) in H; [|lia].
  rewrite !andb_true_iff, Nat.eqb_eq, Z.eqb_eq in H. tauto.
Qed.

Lemma iso_time_text h mi s r : clock h mi s -> expect 46 r = None ->
  iso_time (hms_text h mi s ++ r) = Some (h, mi, s, 0, r).
Proof.
  intros (Hh & Hm & Hs) Hr. unfold iso_time, hms_text. change (u ":") with [58].
  rewrite <- !app_assoc. simpl app. rewrite take_number_two by lia. cbn [expect].
  rewrite Z.eqb_refl, take_number_two by lia. cbn [expect].
  rewrite Z.eqb_refl, take_number_two by lia. by rewrite Hr.
Qed.

Lemma iso_time_ms h mi s ms r : clock h mi s -> 0 <= ms < 1000 ->
  iso_time (hms_text h mi s ++ 46 :: three ms ++ r) = Some (h, mi, s, ms, r).
Proof.
  intros (Hh & Hm & Hs) Hms. destruct (three_spec ms Hms) as (H1 & H2 & H3).
  unfold iso_time, hms_text. change (u ":") with [58].
  rewrite <- !app_assoc. simpl app. rewrite take_number_two by lia. cbn [expect].
  rewrite Z.eqb_refl, take_number_two by lia. cbn [expect].
  rewrite Z.eqb_refl, take_number_two by lia. cbn [expect].
  rewrite Z.eqb_refl, take_number_app by done. by rewrite H3.
Qed.

Lemma clock_checks h mi s : clock h mi s -> (h <=? 23) && (mi <=? 59) && (s <=? 59) = true.
Proof. intros (? & ? & ?). rewrite !andb_true_iff, !Z.leb_le. lia. Qed.

(** The laws of a time zone: its offsets are whole seconds. *)
Class ZoneLaws (wall_of : Z -> Z) : Prop := {
  offset_seconds : forall v, (wall_of v - v) mod 1000 = 0;
}.

(** The year of an instant in UTC. *)
Definition utc_year (v : Z) : Z := fst (fst (civil_from_days (v / MS_PER_DAY))).

Section ZoneRoundTrip.
Context (wall_of utc_of_wall : Z -> Z) (other_dates : jstr -> option Z) `{!ZoneLaws wall_of}.

Definition local_text (y m d h mi s : Z) : jstr := date_text y m d ++ u "T" ++ hms_text h mi s.

Lemma date_parse_local y m d h mi s : 0 <= y < 10000 -> valid_date y m d -> clock h mi s ->
  date_parse utc_of_wall other_dates (local_text y m d h mi s) =
    Some (utc_of_wall (wall_ms y m d h mi s 0)).
Proof.
  intros Hy Hv Hc. unfold date_parse, iso_instant, local_text. rewrite iso_date_text by done.
  rewrite valid_date_checks by done. change (u "T") with [84]. simpl negb. cbv iota. simpl app.
  rewrite <- (app_nil_r (hms_text h mi s)), iso_time_text by done. by rewrite clock_checks.
Qed.

Lemma to_iso_text v : 0 <= utc_year v < 10000 -> exists y m d h mi s ms,
  to_iso_string v = date_text y m d ++ u "T" ++ hms_text h mi s ++ 46 :: three ms ++ u "Z" /\
  0 <= y < 10000 /\ valid_date y m d /\ clock h mi s /\ 0 <= ms < 1000 /\ v = wall_ms y m d h mi s ms.
Proof.
  intros Hy. destruct (wall_fields_of v) as (y & m & d & h & mi & s & ms & Hciv & Hv & Hc & Hms & Heq).
  unfold utc_year in Hy. rewrite Hciv in Hy. simpl in Hy. exists y, m, d, h, mi, s, ms.
  split; [|done]. unfold to_iso_string. rewrite Hciv. rewrite Heq.
  destruct (wall_ms_div y m d h mi s ms Hc Hms) as (_ & H1 & H2 & H3 & H4). cbv zeta.
  rewrite H1, H2, H3, H4. unfold iso_year.
  rewrite (proj2 (Z.leb_le 0 y)), (proj2 (Z.leb_le y 9999)) by lia. simpl andb. cbv iota.
  unfold date_text, hms_text, four, two, three. rewrite <- !app_assoc. done.
Qed.

Lemma date_parse_iso v : 0 <= utc_year v < 10000 ->
  date_parse utc_of_wall other_dates (to_iso_string v) = Some v.
Proof.
  intros Hy. destruct (to_iso_text v Hy) as (y & m & d & h & mi & s & ms & -> & Hy' & Hv & Hc & Hms & Heq).
  unfold date_parse, iso_instant. rewrite iso_date_text by done.
  rewrite valid_date_checks by done. change (u "T") with [84]. cbn [app negb].
  change (84 =? 84) with true. cbn [negb].
  rewrite iso_time_ms by done. rewrite clock_checks by done. change (u "Z") with [90]. cbn [iso_offset].
  f_equal. simpl. lia.
Qed.

Lemma iso_shape v : 0 <= utc_year v < 10000 ->
  trim (to_iso_string v) = to_iso_string v /\ to_iso_string v <> [] /\
  has_timezone_suffix (to_iso_string v) = true.
Proof.
  intros Hy. destruct (to_iso_text v Hy) as (y & m & d & h & mi & s & ms & -> & Hy' & Hv & Hc & Hms & _).
  split; [|split].
  - apply dateish_trim. rewrite !forallb_app. cbn [forallb]. rewrite forallb_app.
    rewrite date_text_dateish, hms_text_dateish by done.
    rewrite (digits_dateish (three ms)) by by apply three_spec. done.
  - unfold date_text. destruct (year_parts y Hy') as (? & _). rewrite four_two, two_digits by done. done.
  - unfold has_timezone_suffix. rewrite !app_assoc.
    change (46 :: three ms ++ u "Z") with ((46 :: three ms) ++ [90]).
    rewrite app_assoc, rev_app_distr. reflexivity.
Qed.

Lemma format_parts v y m d h mi s : 1000 <= y < 10000 -> valid_date y m d -> clock h mi s ->
  wall_of v = wall_ms y m d h mi s 0 ->
  format_local_datetime_parts wall_of v = date_text y m d ++ 32 :: hms_text h mi s.
Proof.
  intros Hy Hv Hc Hw. unfold format_local_datetime_parts. rewrite Hw.
  destruct (wall_ms_div y m d h mi s 0 Hc ltac:(lia)) as (H0 & H1 & H2 & H3 & _).
  rewrite H0, civil_from_days_from_civil by done. rewrite H1, H2, H3.
  rewrite <- four_num_to_string by done. unfold date_text, hms_text. rewrite <- !app_assoc. done.
Qed.

Lemma date_text_no_space y m d : 0 <= y < 10000 -> valid_date y m d -> 32 ∉ date_text y m d.
Proof.
  intros Hy Hv Hin. pose proof (date_text_dateish y m d Hy Hv) as H.
  rewrite forallb_forall in H. apply list_elem_of_In, H in Hin. discriminate.
Qed.

(** A date and time that the reader enters is stored as an instant in UTC
    that is shown again as the date and time entered, for every date of the
    years 1000 to 9999 and every wall-clock time that the zone has. *)
Theorem editor_datetime_roundtrip y m d h mi s :
  1000 <= y < 10000 -> valid_date y m d -> clock h mi s ->
  let wall := wall_ms y m d h mi s 0 in
  wall_of (utc_of_wall wall) = wall -> 0 <= utc_year (utc_of_wall wall) < 10000 ->
  exists iso,
    local_combined_to_iso utc_of_wall other_dates (local_text y m d h mi s) = Some iso /\
    format_datetime_local wall_of utc_of_wall other_dates iso
      = Some (date_text y m d ++ u " " ++ hms_text h mi s) /\
    iso_to_local_combined wall_of utc_of_wall other_dates iso = local_text y m d h mi s.
Proof.
  intros Hy Hv Hc wall Hwall Hyear. set (v := utc_of_wall wall) in *.
  exists (to_iso_string v). destruct (iso_shape v Hyear) as (Htrim & Hne & Hsuf).
  assert (Hsec : utc_seconds v = v).
  { assert (Hm : v mod 1000 = 0).
    { pose proof (offset_seconds v) as Ho. rewrite Hwall in Ho.
      assert (Hw : wall mod 1000 = 0).
      { subst wall. unfold wall_ms, MS_PER_DAY.
        replace (_ + _) with ((days_from_civil y m d * 86400 + h * 3600 + mi * 60 + s) * 1000) by lia.
        apply Z.mod_mul. lia. }
      apply Z.mod_divide in Ho as [a Ha], Hw as [b Hb]; [|done..].
      apply Z.mod_divide; [done|]. exists (b - a). lia. }
    apply Z.mod_divide in Hm as [a Ha]; [|done]. unfold utc_seconds. rewrite Ha.
    rewrite Z.div_add_l by done. change (500 / 1000) with 0. lia. }
  assert (Hfmt : format_datetime_local wall_of utc_of_wall other_dates (to_iso_string v)
                 = Some (date_text y m d ++ 32 :: hms_text h mi s)).
  { unfold format_datetime_local. rewrite Htrim, bool_decide_eq_false_2, Hsuf, date_parse_iso, Hsec by done.
    by rewrite (format_parts v y m d h mi s). }
  split; [|split; [exact Hfmt|]].
  - unfold local_combined_to_iso. rewrite date_parse_local by (done || lia).
    rewrite bool_decide_eq_false_2; [done|].
    unfold local_text. rewrite dateish_trim.
    + destruct (hms_text_colon h mi s Hc) as (_ & _ & Hnn).
      intros [_ [_ ?]%app_eq_nil]%app_eq_nil. done.
    + rewrite !forallb_app, date_text_dateish, hms_text_dateish by (done || lia). done.
  - unfold iso_to_local_combined, local_datetime_control_parts.
    rewrite Htrim, bool_decide_eq_false_2, Hfmt by done.
    rewrite index_of_app by (apply date_text_no_space; done || lia).
    rewrite take_app_length. rewrite bool_decide_eq_false_2.
    + cbn [negb]. unfold local_text. do 2 f_equal.
      replace (date_text y m d ++ 32 :: hms_text h mi s)
        with ((date_text y m d ++ [32]) ++ hms_text h mi s) by by rewrite <- app_assoc.
      apply drop_app_length'. rewrite length_app. simpl. lia.
    + unfold date_text. destruct (year_parts y ltac:(lia)) as (? & _).
      rewrite four_two, two_digits by (done || lia). done.
Qed.
End ZoneRoundTrip.

(** A zone an hour ahead of UTC. *)
#[export] Instance an_hour_ahead : ZoneLaws (fun t => t + 3600000).
Proof. constructor. intros v. replace (v + 3600000 - v) with (3600 * 1000) by lia. by apply Z.mod_mul. Qed.

Lemma editor_datetime_roundtrip_witness :
  local_combined_to_iso (fun t => t - 3600000) (fun _ => None) (local_text 2026 7 14 6 2 34)
    = Some (u "2026-07-14T05:02:34.000Z") /\
  exists iso,
    local_combined_to_iso (fun t => t - 3600000) (fun _ => None) (local_text 2026 7 14 6 2 34) = Some iso /\
    format_datetime_local (fun t => t + 3600000) (fun t => t - 3600000) (fun _ => None) iso
      = Some (date_text 2026 7 14 ++ u " " ++ hms_text 6 2 34) /\
    iso_to_local_combined (fun t => t + 3600000) (fun t => t - 3600000) (fun _ => None) iso
      = local_text 2026 7 14 6 2 34.
Proof.
  split; [vm_compute; reflexivity|].
  apply (editor_datetime_roundtrip (fun t => t + 3600000) (fun t => t - 3600000) (fun _ => None) 2026 7 14 6 2 34).
  - lia.
  - split; [lia|]. vm_compute. split; discriminate.
  - unfold clock. lia.
  - vm_compute. reflexivity.
  - vm_compute. split; [discriminate|reflexivity].
Defined.
