(* ===== verification/QuickFilter.v ===== *)
(** list/quick_filter.ts, list/list_destination_sync.ts and the quick-filter
    handlers of list/list_context_bar.tsx: search predicates, and the ones
    that a quick filter adds to the filter in effect. *)
From S2P Require Import Prelude JsString JsValue JsText JsDate JsArray LocalTime ListColumns.

(** ** Predicates *)

(** A search predicate as the wire has it; an absent key is [None].  A key
    [value] may be present and hold [undefined]. *)
Inductive SearchPredicate : Type :=
| Pred (op : jstr) (attribute : option jstr) (value : option jsval)
       (predicates : option (list SearchPredicate)) (predicate : option SearchPredicate).

Definition pred_op (p : SearchPredicate) : jstr := let 'Pred op _ _ _ _ := p in op.
Definition pred_attribute (p : SearchPredicate) : option jstr := let 'Pred _ a _ _ _ := p in a.
Definition pred_value (p : SearchPredicate) : option jsval := let 'Pred _ _ v _ _ := p in v.
Definition pred_predicates (p : SearchPredicate) : option (list SearchPredicate) := let 'Pred _ _ _ l _ := p in l.
Definition pred_predicate (p : SearchPredicate) : option SearchPredicate := let 'Pred _ _ _ _ c := p in c.

(** [{ op, attribute, value }] and [{ op, predicates }] *)
Definition comparison (op attribute : jstr) (value : jsval) : SearchPredicate :=
  Pred op (Some attribute) (Some value) None None.

Definition logical (op : jstr) (predicates : list SearchPredicate) : SearchPredicate :=
  Pred op None None (Some predicates) None.

Lemma SearchPredicate_rect' (P : SearchPredicate -> Prop) :
  (forall op a v l c, Forall P (from_option id [] l) -> (forall c', c = Some c' -> P c') -> P (Pred op a v l c)) ->
  forall p, P p.
Proof.
  intros H. fix IH 1. intros [op a v l c]. apply H.
  - destruct l as [l|]; simpl; [|constructor]. induction l as [|x l IHl]; constructor; [apply IH|apply IHl].
  - intros c'. destruct c as [d|]; [|discriminate]. intros [= <-]. apply IH.
Qed.

(** ** Control kinds *)

Definition TEXT_FAMILY : list jstr :=
  [u "string"; u "compact_text"; u "choice"; u "status"; u "text"; u "multiline_text"].

Definition in_set (s : jstr) (l : list jstr) : bool := existsb (seqb s) l.

Inductive QuickFilterControlKind : Type := text_kind | numeric_kind | datetime_kind | boolean_kind | friendly_id_kind.

#[export] Instance QuickFilterControlKind_eq_dec : EqDecision QuickFilterControlKind.
Proof. solve_decision. Defined.

Definition quick_filter_control_kind (type_name : jstr) : option QuickFilterControlKind :=
  if in_set type_name TEXT_FAMILY then Some text_kind
  else if in_set type_name [u "integer"; u "float"; u "decimal"] then Some numeric_kind
  else if seqb type_name "datetime" then Some datetime_kind
  else if seqb type_name "boolean" then Some boolean_kind
  else if seqb type_name "friendly_id" then Some friendly_id_kind
  else None.

Definition kind_of_type (type_name : option jstr) : option QuickFilterControlKind :=
  match type_name with None => None | Some t => quick_filter_control_kind t end.

Definition should_clear_value_on_field_change (prev_type next_type : option jstr) : bool :=
  negb (bool_decide (kind_of_type prev_type = kind_of_type next_type)).

Definition has_control (attr : AttributeFieldMeta) : bool :=
  match quick_filter_control_kind (attr_type_name attr) with Some _ => true | None => false end.

Definition quick_filterable_attributes (attributes : list AttributeFieldMeta)
  : outcome (list AttributeFieldMeta) :=
  match attributes_in_declaration_order attributes with
  | Exc e => Exc e
  | Val ordered => Val (List.filter has_control ordered)
  end.

Record QuickFilterValues : Type := {
  qf_text : option jstr;
  qf_from : option jstr;
  qf_to : option jstr;
  qf_not : option bool;
}.

Definition no_values : QuickFilterValues :=
  {| qf_text := None; qf_from := None; qf_to := None; qf_not := None |}.

Definition quick_filter_ui_defaults (attributes : list AttributeFieldMeta) : outcome (jstr * QuickFilterValues) :=
  match quick_filterable_attributes attributes with
  | Exc e => Exc e
  | Val filterable =>
      Val (match filterable with attr :: _ => attr_name_snake attr | [] => [] end, no_values)
  end.

Record QuickFilterDestinationReset : Type := {
  reset_selected_name : jstr;
  reset_values : QuickFilterValues;
  reset_warning : option jstr;
  reset_menu_open : bool;
  reset_copied : bool;
}.

Definition quick_filter_destination_reset (attributes : list AttributeFieldMeta)
  : outcome QuickFilterDestinationReset :=
  match quick_filter_ui_defaults attributes with
  | Exc e => Exc e
  | Val (selected_name, values) =>
      Val {| reset_selected_name := selected_name; reset_values := values; reset_warning := None;
             reset_menu_open := false; reset_copied := false |}
  end.

(** ** Adding to the filter in effect *)

Definition and_predicates (left : option SearchPredicate) (additions : list SearchPredicate)
  : option SearchPredicate :=
  let parts :=
    match left with
    | None => []
    | Some l =>
        match pred_predicates l with
        | Some ps => if seqb (pred_op l) "and" then ps else [l]
        | None => [l]
        end
    end ++ additions in
  match parts with
  | [] => None
  | [p] => Some p
  | _ => Some (logical (u "and") parts)
  end.

(** ** Building predicates *)

(** The greatest magnitude that rounds to a finite double is below this. *)
Definition double_limit : Z := 2 ^ 1024 - 2 ^ 970.

Definition to_double (n : num) : num :=
  match n with
  | NInt z => if Z.abs z <? double_limit then n else NInf (z <? 0)
  | NFrac a d => if Z.abs a <? double_limit * Zpos d then n else NInf (a <? 0)
  | _ => n
  end.

(** [/^-?\d+(\.\d+)?$/] *)
Definition decimal_literal (raw : jstr) : bool :=
  let s := match raw with 45 :: r => r | _ => raw end in
  let '(ip, r) := split_digits s in
  negb (bool_decide (ip = [])) &&
  match r with
  | [] => true
  | c :: fp => (c =? 46) && all_digits fp
  end.

Definition number_warning : jstr := u "Enter a valid number.".

Definition datetime_warning : jstr := u "Enter a valid date/time.".

Definition parse_numeric (raw : jstr) : checked jsval :=
  if negb (decimal_literal raw) then Warning number_warning
  else
    let value := to_double (js_number raw) in
    if is_finite value then Ok_ (VNum value) else Warning number_warning.

(** [left < right] on numbers, and on strings by code units. *)
Definition compare_ordered (left right : jsval) : Z :=
  match left, right with
  | VNum a, VNum b => if num_ltb a b then -1 else if num_ltb b a then 1 else 0
  | VStr a, VStr b => if negb (str_leb b a) then -1 else if negb (str_leb a b) then 1 else 0
  | _, _ => 0
  end.

Section Dates.
Context (utc_of_wall : Z -> Z) (other_dates : jstr -> option Z).

Definition parse_datetime (raw : jstr) : checked jsval :=
  if bool_decide (raw = []) then Warning datetime_warning
  else match date_parse utc_of_wall other_dates raw with
       | None => Warning datetime_warning
       | Some ms => Ok_ (VStr (to_iso_string ms))
       end.

Definition trimmed_value (o : option jstr) : jstr := match o with Some s => trim s | None => [] end.

(** A side of the range: absent when nothing is typed. *)
Definition parse_side (parse : jstr -> checked jsval) (raw : jstr) : checked (option jsval) :=
  if bool_decide (raw = []) then Ok_ None
  else match parse raw with Ok_ v => Ok_ (Some v) | Warning w => Warning w end.

Definition build_range_predicates (attr : AttributeFieldMeta) (values : QuickFilterValues)
    (parse : jstr -> checked jsval) (to_op : jstr) : checked (list SearchPredicate) :=
  let from_raw := trimmed_value (qf_from values) in
  let to_raw := trimmed_value (qf_to values) in
  let name := attr_name_snake attr in
  if bool_decide (from_raw = []) && bool_decide (to_raw = []) then Ok_ []
  else
    match parse_side parse from_raw with
    | Warning w => Warning w
    | Ok_ from_value =>
        match parse_side parse to_raw with
        | Warning w => Warning w
        | Ok_ to_value =>
            let bounds :=
              match from_value with Some f => [comparison (u "gte") name f] | None => [] end ++
              match to_value with Some t => [comparison to_op name t] | None => [] end in
            match from_value, to_value with
            | Some f, Some t =>
                if compare_ordered f t =? 0 then Ok_ [comparison (u "eq") name f]
                else if 0 <? compare_ordered f t
                then Warning (u "From must be less than or equal to To.")
                else Ok_ bounds
            | _, _ => Ok_ bounds
            end
        end
    end.

Definition build_quick_filter_predicates (attr : AttributeFieldMeta) (values : QuickFilterValues)
  : checked (list SearchPredicate) :=
  let name := attr_name_snake attr in
  let text_filter op :=
    let text := trimmed_value (qf_text values) in
    if bool_decide (text = []) then Ok_ [] else Ok_ [comparison op name (VStr text)] in
  match quick_filter_control_kind (attr_type_name attr) with
  | None => Warning (u "This attribute does not support quick filters.")
  | Some text_kind => text_filter (u "contains")
  | Some friendly_id_kind => text_filter (u "ends_with")
  | Some boolean_kind =>
      Ok_ [comparison (u "eq") name
             (VBool (negb (match qf_not values with Some true => true | _ => false end)))]
  | Some numeric_kind => build_range_predicates attr values parse_numeric (u "lt")
  | Some datetime_kind => build_range_predicates attr values parse_datetime (u "lte")
  end.
End Dates.

Definition datetime_side_for_op (op : jstr) : range_side :=
  if seqb op "lt" || seqb op "lte" then ToSide else FromSide.

Definition datetime_default_time_for_op (op : jstr) : jstr :=
  match datetime_side_for_op op with
  | ToSide => DATETIME_TO_DEFAULT_TIME
  | FromSide => DATETIME_FROM_DEFAULT_TIME
  end.

(** [{ ok: false }] is [None]; the predicate is the parsed object, unchecked. *)
Definition parse_predicate_json (raw : form_value) : option (option jsval) :=
  match raw with
  | NoField => Some None
  | FormFile => None
  | FormString text =>
      if bool_decide (text = []) then Some None
      else match json_parse text with
           | Some VNull => Some None
           | Some (VObj fields) => Some (Some (VObj fields))
           | _ => None
           end
  end.

(** ** list_destination_sync.ts *)

Record ListSearchPayload : Type := {
  search_rows : list jsval;
  search_total : Z;
  search_limit : Z;
  search_offset : Z;
  search_effective : option SearchPredicate;
}.

Definition list_destination_ui_sync (loader : ListSearchPayload) (attributes : list AttributeFieldMeta)
  : outcome (ListSearchPayload * QuickFilterDestinationReset) :=
  match quick_filter_destination_reset attributes with
  | Exc e => Exc e
  | Val reset => Val (loader, reset)
  end.

(** ** The quick filter of the context bar (list_context_bar.tsx) *)

(** What a handler asks of the page: a warning to show, and a search. *)
Record bar_effect : Type := {
  bar_warning : option jstr;
  bar_search : option (option SearchPredicate * bool);   (* predicate, reset_start *)
}.

Definition on_refresh (effective : option SearchPredicate) : bar_effect :=
  {| bar_warning := None; bar_search := Some (effective, false) |}.

(** [None]: no attribute can be selected, nothing happens. *)
Definition on_quick_filter_enter (utc_of_wall : Z -> Z) (other_dates : jstr -> option Z)
    (selected : option AttributeFieldMeta) (filter_values : QuickFilterValues)
    (effective : option SearchPredicate) : option bar_effect :=
  match selected with
  | None => None
  | Some attr =>
      Some match build_quick_filter_predicates utc_of_wall other_dates attr filter_values with
           | Warning w => {| bar_warning := Some w; bar_search := None |}
           | Ok_ [] =>
               {| bar_warning := Some (u "Nothing to apply " ++ [8212] ++ u " enter a filter value.");
                  bar_search := None |}
           | Ok_ predicates =>
               {| bar_warning := None;
                  bar_search := Some (and_predicates effective predicates, true) |}
           end
  end.

(** ** What a predicate selects

    [leaf] says which records a comparison selects; the service that runs the
    search gives it. *)
Section Meaning.
Context {R : Type} (leaf : SearchPredicate -> R -> bool).

Fixpoint holds (p : SearchPredicate) (r : R) : bool :=
  match p with
  | Pred op _ _ (Some ps) _ =>
      if seqb op "and" then forallb (fun q => holds q r) ps
      else if seqb op "or" then existsb (fun q => holds q r) ps
      else leaf p r
  | Pred op _ _ None (Some q) => if seqb op "not" then negb (holds q r) else leaf p r
  | Pred _ _ _ None None => leaf p r
  end.

(** No filter selects every record. *)
Definition filter_holds (p : option SearchPredicate) (r : R) : bool :=
  match p with None => true | Some p => holds p r end.

(** A quick filter only narrows: the filter it leaves selects exactly the
    records that the filter in effect selected and that every added predicate
    selects. *)
Theorem and_predicates_meaning left additions r :
  filter_holds (and_predicates left additions) r =
    filter_holds left r && forallb (fun q => holds q r) additions.
Proof.
  assert (Hparts : forall parts, filter_holds
      (match parts with [] => None | [p] => Some p | _ => Some (logical (u "and") parts) end) r
      = forallb (fun q => holds q r) parts).
  { intros [|p [|q parts]]; [done|simpl; by rewrite andb_true_r|]. reflexivity. }
  unfold and_predicates. rewrite Hparts, forallb_app. f_equal.
  destruct left as [[op a v [ps|] c]|]; simpl; [| |done].
  - destruct (seqb op "and") eqn:Hop; [done|]. simpl. by rewrite Hop, andb_true_r.
  - by rewrite andb_true_r.
Qed.
End Meaning.

Example quick_range :
  build_quick_filter_predicates (fun t => t) (fun _ => None)
    {| attr_name_snake := u "cost"; attr_type_name := u "decimal"; attr_required := false;
       attr_references := None; attr_order := NInt 0; attr_create_default := None;
       attr_min_value := None; attr_max_value := None |}
    {| qf_text := None; qf_from := Some (u " 1.5 "); qf_to := Some (u "20"); qf_not := None |}
  = Ok_ [comparison (u "gte") (u "cost") (VNum (NFrac 15 10)); comparison (u "lt") (u "cost") (VNum (NInt 20))].
Proof. vm_compute. reflexivity. Qed.
