(* ===== verification/FilterEditor.v ===== *)
(** list/filter_ops.ts and the editor of list/filter_chrome.tsx: the draft tree
    of a filter, its operations, and the loading and committing of predicates.
    The counter of editor ids is passed and returned. *)
From S2P Require Import Prelude JsString JsValue JsArray LocalTime ListColumns QuickFilter.

(** ** Operators *)

Definition OPERATOR_DISPLAY_NAMES : list (jstr * jstr) :=
  [(u "and", u "And"); (u "or", u "Or"); (u "eq", u "Equals"); (u "ne", u "Not equals");
   (u "gt", u "Greater than"); (u "gte", u "Greater than or equal"); (u "lt", u "Less than");
   (u "lte", u "Less than or equal"); (u "contains", u "Contains"); (u "starts_with", u "Starts with");
   (u "ends_with", u "Ends with"); (u "regexp", u "Matches regexp"); (u "empty", u "Is empty");
   (u "not_empty", u "Is not empty")].

Definition operator_display_name (op : jstr) : jstr :=
  match find (fun kv => seqb kv.1 op) OPERATOR_DISPLAY_NAMES with Some kv => kv.2 | None => op end.

Definition ORDERED_TYPES : list jstr :=
  TEXT_FAMILY ++ [u "integer"; u "float"; u "decimal"; u "datetime"; u "friendly_id"].

Definition TEXT_PATTERN_TYPES : list jstr := TEXT_FAMILY ++ [u "friendly_id"].

Definition NO_VALUE_OPS : list jstr := [u "empty"; u "not_empty"].

Definition op_requires_value (op : option jstr) : bool :=
  match op with
  | None => true
  | Some op => if bool_decide (op = []) then true else negb (in_set op NO_VALUE_OPS)
  end.

(** ** Draft trees *)

Inductive logical_op : Type := and_op | or_op.

#[export] Instance logical_op_eq_dec : EqDecision logical_op.
Proof. solve_decision. Defined.

Definition logical_name (op : logical_op) : jstr := match op with and_op => u "and" | or_op => u "or" end.

Definition as_logical (op : jstr) : option logical_op :=
  if seqb op "and" then Some and_op else if seqb op "or" then Some or_op else None.

Inductive EditorNode : Type :=
| EditorLeaf (id : jstr) (attribute op : option jstr) (value : jsval)
| EditorGroup (id : jstr) (op : logical_op) (children : list EditorNode).

Definition node_id (n : EditorNode) : jstr :=
  match n with EditorLeaf id _ _ _ | EditorGroup id _ _ => id end.

(** [new_editor_id]: the counter and the id it gives. *)
Definition new_editor_id (next : Z) : jstr * Z := (u "fe-" ++ num_to_string (next + 1), next + 1).

Definition empty_leaf (next : Z) : EditorNode * Z :=
  let '(id, next) := new_editor_id next in (EditorLeaf id None None VUndef, next).

Section Locale.
(** [left.localeCompare(right, undefined, { sensitivity: "base" })] *)
Context (compare_display_name : jstr -> jstr -> Z).

Definition by_display_name (a b : jstr) : bool :=
  compare_display_name (operator_display_name a) (operator_display_name b) <=? 0.

Definition editor_filterable_attributes (attributes : list AttributeFieldMeta) : list AttributeFieldMeta :=
  stable_sort (fun l r => compare_display_name (attribute_display_label (attr_name_snake l))
                            (attribute_display_label (attr_name_snake r)) <=? 0)
    (List.filter (fun attr => match attr_references attr with None => true | Some _ => false end
                              && has_control attr) attributes).

(** The set as it is filled, before it is sorted; [add] keeps a member where
    it is. *)
Definition set_add (op : jstr) (ops : list jstr) : list jstr := if in_set op ops then ops else ops ++ [op].

Definition leaf_ops (type_name : jstr) : list jstr :=
  [u "eq"; u "ne"; u "empty"; u "not_empty"] ++
  (if in_set type_name ORDERED_TYPES then [u "gt"; u "gte"; u "lt"; u "lte"] else []) ++
  (if in_set type_name TEXT_PATTERN_TYPES
   then [u "contains"; u "starts_with"; u "ends_with"; u "regexp"] else []).

Definition leaf_ops_for_type (type_name : jstr) : list jstr := stable_sort by_display_name (leaf_ops type_name).

Definition eligible_ops_for_empty_or_leaf (parent_op : option logical_op) (attribute_type : option jstr)
    (include_logical : bool) : list jstr :=
  let ops :=
    match attribute_type with
    | Some t => leaf_ops_for_type t
    | None =>
        [u "eq"; u "ne"; u "empty"; u "not_empty"; u "gt"; u "gte"; u "lt"; u "lte"; u "contains";
         u "starts_with"; u "ends_with"; u "regexp"]
    end in
  let ops := if include_logical then
      let ops := if bool_decide (parent_op = Some and_op) then ops else set_add "and" ops in
      if bool_decide (parent_op = Some or_op) then ops else set_add "or" ops
    else ops in
  stable_sort by_display_name ops.

Definition would_create_same_op_nesting (parent_op : logical_op) (children : list EditorNode) : bool :=
  existsb (fun child => match child with
                        | EditorGroup _ op _ => bool_decide (op = parent_op)
                        | EditorLeaf _ _ _ _ => false
                        end) children.

Definition eligible_ops_for_row (node : EditorNode) (parent_op : option logical_op)
    (attribute_type : option jstr) : list jstr :=
  match node with
  | EditorGroup _ op ((_ :: _) as children) =>
      let allowed := map logical_name
        (List.filter (fun c => negb (would_create_same_op_nesting c children)) [and_op; or_op]) in
      let allowed := if in_set (logical_name op) allowed then allowed else allowed ++ [logical_name op] in
      stable_sort by_display_name allowed
  | EditorGroup _ _ [] => eligible_ops_for_empty_or_leaf parent_op attribute_type true
  | EditorLeaf _ _ _ _ => eligible_ops_for_empty_or_leaf parent_op attribute_type true
  end.
End Locale.

(** ** Loading *)

Fixpoint predicate_contains_not (p : SearchPredicate) : bool :=
  match p with
  | Pred op _ _ predicates predicate =>
      if seqb op "not" then true
      else match predicates with
           | Some ps => existsb predicate_contains_not ps
           | None => match predicate with Some q => predicate_contains_not q | None => false end
           end
  end.

(** Children take their ids before their group does. *)
Fixpoint predicate_to_editor_node (p : SearchPredicate) (next : Z) : EditorNode * Z :=
  match p with
  | Pred op attribute value predicates _ =>
      match as_logical op with
      | Some lop =>
          let '(children, next) :=
            match predicates with
            | Some ps =>
                map_state predicate_to_editor_node ps next
            | None => ([], next)
            end in
          let '(id, next) := new_editor_id next in
          (EditorGroup id lop children, next)
      | None =>
          let '(id, next) := new_editor_id next in
          (EditorLeaf id attribute (Some op) (match value with Some v => v | None => VUndef end), next)
      end
  end.

(** [None] is [{ ok: false, reason: "not" }]. *)
Definition load_editor_from_predicate (predicate : option SearchPredicate) (next : Z)
  : option (option EditorNode) * Z :=
  match predicate with
  | None => (Some None, next)
  | Some p =>
      if predicate_contains_not p then (None, next)
      else let '(n, next) := predicate_to_editor_node p next in (Some (Some n), next)
  end.

(** ** Editing *)

Definition wrap_leaf_as_group (attribute lop : option jstr) (value : jsval) (op : logical_op) (next : Z)
  : EditorNode * Z :=
  let '(id, next) := new_editor_id next in
  let '(leaf_id, next) := new_editor_id next in
  (EditorGroup id op [EditorLeaf leaf_id attribute lop value], next).

Definition apply_operator_change (node : EditorNode) (next_op : jstr) (next : Z) : EditorNode * Z :=
  match as_logical next_op with
  | Some lop =>
      match node with
      | EditorLeaf _ attribute op value => wrap_leaf_as_group attribute op value lop next
      | EditorGroup id _ children => (EditorGroup id lop children, next)
      end
  | None =>
      match node with
      | EditorGroup _ _ (_ :: _) => (node, next)
      | EditorGroup id _ [] => (EditorLeaf id None (Some next_op) VUndef, next)
      | EditorLeaf id attribute op value =>
          let cleared :=
            if op_requires_value (Some next_op) && negb (op_requires_value op) then VUndef
            else if negb (op_requires_value (Some next_op)) then VUndef
            else value in
          (EditorLeaf id attribute (Some next_op) cleared, next)
      end
  end.

Definition nonempty (o : option jstr) : bool :=
  match o with Some s => negb (bool_decide (s = [])) | None => false end.

Fixpoint commit_node (node : EditorNode) : outcome SearchPredicate :=
  match node with
  | EditorGroup _ op children =>
      match children with
      | [] => Exc (Error_ "Every And/Or group must have at least one condition.")
      | _ =>
          match traverse commit_node children with
          | Exc e => Exc e
          | Val ps => Val (logical (logical_name op) ps)
          end
      end
  | EditorLeaf _ attribute op value =>
      if negb (nonempty attribute) then Exc (Error_ "Every condition needs a field.")
      else if negb (nonempty op) then Exc (Error_ "Every condition needs an operator.")
      else match attribute, op with
           | Some a, Some o =>
               if seqb o "and" || seqb o "or" || seqb o "not"
               then Exc (Error_ "Invalid operator on a field condition.")
               else if negb (op_requires_value op) then Val (Pred o attribute None None None)
               else match value with
                    | VUndef => Exc (Error_ "Every condition needs a value.")
                    | VStr [] => Exc (Error_ "Every condition needs a value.")
                    | _ => Val (comparison o a value)
                    end
           | _, _ => Exc (Error_ "Every condition needs a field.")
           end
  end.

(** [{ ok: true, predicate }] or [{ ok: false, message }]. *)
Definition commit_editor_root (root : option EditorNode) : (option SearchPredicate) + jstr :=
  match root with
  | None => inl None
  | Some r =>
      match commit_node r with
      | Val p => inl (Some p)
      | Exc (Error_ message) => inr message
      | Exc _ => inr (u "Invalid filter.")
      end
  end.

Fixpoint remove_node (node : EditorNode) (target_id : jstr) : option EditorNode :=
  if seqb (node_id node) target_id then None
  else match node with
       | EditorLeaf _ _ _ _ => Some node
       | EditorGroup id op children =>
           Some (EditorGroup id op (omap (fun child => remove_node child target_id) children))
       end.

Definition remove_editor_node (root : option EditorNode) (target_id : jstr) : option EditorNode :=
  match root with None => None | Some r => remove_node r target_id end.

(** Every group with the id gets a child; the recursion is left to right. *)
Fixpoint append_group_child (root : EditorNode) (group_id : jstr) (next : Z) : EditorNode * Z :=
  match root with
  | EditorLeaf _ _ _ _ => (root, next)
  | EditorGroup id op children =>
      if seqb id group_id then
        let '(leaf, next) := empty_leaf next in (EditorGroup id op (children ++ [leaf]), next)
      else
        let '(children, next) :=
          map_state (fun c => append_group_child c group_id) children next in
        (EditorGroup id op children, next)
  end.

Fixpoint update_editor_node (root : EditorNode) (target_id : jstr) (updater : EditorNode -> EditorNode)
  : EditorNode :=
  if seqb (node_id root) target_id then updater root
  else match root with
       | EditorLeaf _ _ _ _ => root
       | EditorGroup id op children =>
           EditorGroup id op (map (fun child => update_editor_node child target_id updater) children)
       end.

Fixpoint find_node (node : EditorNode) (target_id : jstr) : option EditorNode :=
  if seqb (node_id node) target_id then Some node
  else match node with
       | EditorLeaf _ _ _ _ => None
       | EditorGroup _ _ children =>
           (fix go (l : list EditorNode) : option EditorNode :=
              match l with
              | [] => None
              | c :: l' => match find_node c target_id with Some n => Some n | None => go l' end
              end) children
       end.

Definition find_editor_node (root : option EditorNode) (target_id : jstr) : option EditorNode :=
  match root with None => None | Some r => find_node r target_id end.

Fixpoint parent_op_of_walk (node : EditorNode) (target_id : jstr) (parent_op : option logical_op)
  : option logical_op :=
  if seqb (node_id node) target_id then parent_op
  else match node with
       | EditorLeaf _ _ _ _ => None
       | EditorGroup _ op children =>
           (fix go (l : list EditorNode) : option logical_op :=
              match l with
              | [] => None
              | c :: l' =>
                  let found := parent_op_of_walk c target_id (Some op) in
                  if seqb (node_id c) target_id then Some op
                  else match found with Some _ => found | None => go l' end
              end) children
       end.

Definition parent_op_of (root : option EditorNode) (target_id : jstr) : option logical_op :=
  match root with None => None | Some r => parent_op_of_walk r target_id None end.

(** ** The editor panel (filter_chrome.tsx) *)

Definition type_of_attribute (filterable : list AttributeFieldMeta) (name : jstr) : option jstr :=
  attr_type_name <$> find (fun attr => seqb (attr_name_snake attr) name) filterable.

(** What a numeric value control stores for a typed text. *)
Definition numeric_input (text : jstr) : jsval :=
  let raw := trim text in
  if bool_decide (raw = []) then VUndef
  else if decimal_literal raw then VNum (to_double (js_number raw))
  else VStr raw.

(** The time field of a datetime value control: the warning it sets, the value
    it stores ([None] leaves it) and the time shown ([None] reverts). *)
Definition commit_datetime_time (wall_of utc_of_wall : Z -> Z) (other_dates : jstr -> option Z)
    (op : jstr) (value : jsval) (raw : jstr) : option jstr * option jsval * option jstr :=
  let as_string := match value with VStr s => s | _ => [] end in
  let local := iso_to_local_combined wall_of utc_of_wall other_dates as_string in
  match apply_datetime_time_change raw (Some local) (datetime_default_time_for_op op) with
  | Warning w => (Some w, None, None)
  | Ok_ combined =>
      let iso := local_combined_to_iso utc_of_wall other_dates combined in
      (None, Some (match iso with Some s => VStr s | None => VUndef end),
       Some (snd (split_datetime_local (Some combined))))
  end.

(** [onChange] of its date field: the value it stores. *)
Definition change_datetime_date (wall_of utc_of_wall : Z -> Z) (other_dates : jstr -> option Z)
    (op : jstr) (value : jsval) (date : jstr) : jsval :=
  let as_string := match value with VStr s => s | _ => [] end in
  let local := iso_to_local_combined wall_of utc_of_wall other_dates as_string in
  let combined := apply_datetime_date_change (datetime_side_for_op op) date (Some local) in
  match local_combined_to_iso utc_of_wall other_dates combined with Some s => VStr s | None => VUndef end.

(** An edit of the row of one node. *)
Inductive row_edit : Type :=
| RemoveRow
| ChangeOperator (op : jstr)
| AddCondition
| ChangeField (name : jstr)
| ChangeValue (value : jsval).

Section Panel.
Context (compare_display_name : jstr -> jstr -> Z) (filterable : list AttributeFieldMeta).

(** [onChange] of a leaf's field list. *)
Definition change_field (id : jstr) (attribute op : option jstr) (value : jsval)
    (parent_op : option logical_op) (name : jstr) : EditorNode :=
  let type_name := match attribute with Some a => type_of_attribute filterable a | None => None end in
  let next_type := type_of_attribute filterable name in
  let value' := if should_clear_value_on_field_change type_name next_type then VUndef else value in
  let op' :=
    match next_type, op with
    | Some t, Some o =>
        if in_set o (eligible_ops_for_row compare_display_name (EditorLeaf id (Some name) op value)
                       parent_op (Some t))
        then op else None
    | _, _ => op
    end in
  EditorLeaf id (if bool_decide (name = []) then None else Some name) op' value'.

(** An edit of the row whose node has the id; a row that is not on screen
    changes nothing. *)
Definition edit_row (root : EditorNode) (target_id : jstr) (e : row_edit) (next : Z) : option EditorNode * Z :=
  match find_node root target_id with
  | None => (Some root, next)
  | Some node =>
      let replace n := Some (update_editor_node root target_id (fun _ => n)) in
      match e with
      | RemoveRow => (remove_node root target_id, next)
      | ChangeOperator op =>
          if bool_decide (op = []) then (Some root, next)
          else let '(n, next) := apply_operator_change node op next in (replace n, next)
      | AddCondition =>
          match node with
          | EditorGroup _ _ _ =>
              let '(root, next) := append_group_child root target_id next in (Some root, next)
          | EditorLeaf _ _ _ _ => (Some root, next)
          end
      | ChangeField name =>
          match node with
          | EditorLeaf id attribute op value =>
              (replace (change_field id attribute op value (parent_op_of (Some root) target_id) name), next)
          | EditorGroup _ _ _ => (Some root, next)
          end
      | ChangeValue value =>
          match node with
          | EditorLeaf id attribute op _ => (replace (EditorLeaf id attribute op value), next)
          | EditorGroup _ _ _ => (Some root, next)
          end
      end
  end.

Record panel : Type := {
  panel_open : bool;
  panel_draft : option EditorNode;
  panel_blocked_not : bool;
  panel_warning : option jstr;
  panel_next_id : Z;
}.

Definition not_warning : jstr :=
  u "This filter uses a Not condition and cannot be edited in this UI. Reset or Close, or clear the filter another way.".

Definition sync_draft_from_effective (p : panel) (effective : option SearchPredicate) : panel :=
  match load_editor_from_predicate effective (panel_next_id p) with
  | (None, next) =>
      {| panel_open := panel_open p; panel_draft := None; panel_blocked_not := true;
         panel_warning := Some not_warning; panel_next_id := next |}
  | (Some root, next) =>
      {| panel_open := panel_open p; panel_draft := root; panel_blocked_not := false;
         panel_warning := None; panel_next_id := next |}
  end.

Definition set_warning (w : option jstr) (p : panel) : panel :=
  {| panel_open := panel_open p; panel_draft := panel_draft p; panel_blocked_not := panel_blocked_not p;
     panel_warning := w; panel_next_id := panel_next_id p |}.

Definition set_open (b : bool) (p : panel) : panel :=
  {| panel_open := b; panel_draft := panel_draft p; panel_blocked_not := panel_blocked_not p;
     panel_warning := panel_warning p; panel_next_id := panel_next_id p |}.

Definition set_draft (d : option EditorNode) (next : Z) (p : panel) : panel :=
  {| panel_open := panel_open p; panel_draft := d; panel_blocked_not := panel_blocked_not p;
     panel_warning := panel_warning p; panel_next_id := next |}.

(** [EditorWarning] is the call that a value control makes. *)
Inductive panel_action : Type :=
| Toggle
| Close
| ResetDraft
| AddRoot
| Execute
| EditRow (id : jstr) (e : row_edit)
| EditorWarning (w : option jstr)
| EffectiveChanged (effective : option SearchPredicate).

(** What an action does to the page: it clears the page's warning, and it
    submits a search (with [reset_start]). *)
Record panel_effect : Type := {
  clears_warning : bool;
  submits : option (option SearchPredicate);
}.

Definition no_effect : panel_effect := {| clears_warning := false; submits := None |}.

Definition clear_page_warning : panel_effect := {| clears_warning := true; submits := None |}.

Definition sync_if_open (effective : option SearchPredicate) (p : panel) : panel :=
  if panel_open p then sync_draft_from_effective p effective else p.

Definition on_toggle (effective : option SearchPredicate) (p : panel) : panel :=
  if panel_open p then set_warning None (set_open false p)
  else sync_if_open effective (set_open true p).

Definition on_close (p : panel) : panel * panel_effect :=
  (set_warning None (set_open false p), clear_page_warning).

Definition on_reset (effective : option SearchPredicate) (p : panel) : panel * panel_effect :=
  (sync_draft_from_effective p effective, clear_page_warning).

Definition on_add_root (p : panel) : panel :=
  match panel_draft p with
  | Some _ => p
  | None =>
      if panel_blocked_not p then p
      else let '(leaf, next) := empty_leaf (panel_next_id p) in
           set_warning None (set_draft (Some leaf) next p)
  end.

Definition on_execute_click (p : panel) : panel * panel_effect :=
  if panel_blocked_not p then
    (set_warning (Some (u "This filter uses a Not condition and cannot be edited in this UI.")) p, no_effect)
  else match commit_editor_root (panel_draft p) with
       | inr message => (set_warning (Some message) p, no_effect)
       | inl predicate =>
           (set_open false (set_warning None p), {| clears_warning := true; submits := Some predicate |})
       end.

(** The panel after an action; its buttons and rows exist while it is open, and
    a disabled button does nothing.  [effective] is the filter in effect;
    opening the panel and a change of the filter while it is open load the
    draft again. *)
Definition panel_step (busy : bool) (effective : option SearchPredicate) (p : panel) (a : panel_action)
  : panel * panel_effect :=
  let shown disabled r := if disabled || negb (panel_open p) then (p, no_effect) else r in
  match a with
  | Toggle => (on_toggle effective p, no_effect)
  | Close => shown busy (on_close p)
  | ResetDraft => shown busy (on_reset effective p)
  | AddRoot =>
      shown (busy || panel_blocked_not p || match panel_draft p with Some _ => true | None => false end)
        (on_add_root p, no_effect)
  | Execute => shown (busy || panel_blocked_not p) (on_execute_click p)
  | EditRow id e =>
      shown (panel_blocked_not p)
        match panel_draft p with
        | Some root =>
            let '(root', next) := edit_row root id e (panel_next_id p) in
            (set_draft root' next p, no_effect)
        | None => (p, no_effect)
        end
  | EditorWarning w => shown (panel_blocked_not p) (set_warning w p, no_effect)
  | EffectiveChanged effective' => (sync_if_open effective' p, no_effect)
  end.
End Panel.

Definition initial_panel : panel :=
  {| panel_open := false; panel_draft := None; panel_blocked_not := false; panel_warning := None;
     panel_next_id := 1 |}.

Arguments nonempty : simpl never.
Arguments op_requires_value : simpl never.

(** ** Trees *)

Lemma EditorNode_rect' (P : EditorNode -> Prop) :
  (forall id a op v, P (EditorLeaf id a op v)) ->
  (forall id op children, Forall P children -> P (EditorGroup id op children)) ->
  forall n, P n.
Proof.
  intros Hl Hg. fix IH 1. intros [id a op v|id op children]; [apply Hl|]. apply Hg.
  induction children as [|c children IHc]; constructor; [apply IH|apply IHc].
Qed.

Fixpoint ids (n : EditorNode) : list jstr :=
  match n with
  | EditorLeaf id _ _ _ => [id]
  | EditorGroup id _ children => id :: List.concat (map ids children)
  end.

(** An id given when the counter stood at most at [next]. *)
Definition issued (next : Z) (id : jstr) : Prop := exists k, 1 < k <= next /\ id = u "fe-" ++ num_to_string k.

(** A draft whose ids are distinct and were all given by the counter. *)
Definition draft_ok (next : Z) (root : option EditorNode) : Prop :=
  1 <= next /\ match root with
               | None => True
               | Some r => NoDup (ids r) /\ Forall (issued next) (ids r)
               end.

Lemma num_to_string_inj a b : num_to_string a = num_to_string b -> a = b.
Proof. intros H. apply (f_equal parse_integer) in H. rewrite !parse_integer_num_to_string in H. congruence. Qed.

Lemma issued_mono n m id : n <= m -> issued n id -> issued m id.
Proof. intros Hnm (k & Hk & ->). exists k. split; [lia|done]. Qed.

Lemma issued_all_mono n m l : n <= m -> Forall (issued n) l -> Forall (issued m) l.
Proof. intros Hnm H. eapply Forall_impl; [exact H|]. intros. by eapply issued_mono. Qed.

Lemma fresh_not_issued n k : n < k -> ~ issued n (u "fe-" ++ num_to_string k).
Proof.
  intros Hk (j & Hj & Heq). apply app_inv_head, num_to_string_inj in Heq. lia.
Qed.

Lemma fresh_issued n : 1 <= n -> issued (n + 1) (u "fe-" ++ num_to_string (n + 1)).
Proof. intros. exists (n + 1). split; [lia|done]. Qed.

(** Ids that were given after the counter passed [n] and up to [m], each once. *)
Definition fresh_between (n m : Z) (l : list jstr) : Prop :=
  n <= m /\ NoDup l /\ Forall (fun id => issued m id /\ ~ issued n id) l.

Lemma fresh_between_app n m k l1 l2 :
  fresh_between n m l1 -> fresh_between m k l2 -> fresh_between n k (l1 ++ l2).
Proof.
  intros (H1 & Hd1 & Hf1) (H2 & Hd2 & Hf2). rewrite Forall_forall in Hf1, Hf2. split; [lia|]. split.
  - apply NoDup_app. split; [done|]. split; [|done]. intros id Hi1 Hi2.
    destruct (Hf2 id Hi2) as [_ Hn]. apply Hn. by apply Hf1.
  - apply Forall_forall. intros id [Hi|Hi]%elem_of_app.
    + destruct (Hf1 id Hi). split; [|done]. by apply issued_mono with m.
    + destruct (Hf2 id Hi) as [? Hn]. split; [done|]. intros Hi'. apply Hn. by apply issued_mono with n.
Qed.

Lemma fresh_between_new n : 1 <= n -> fresh_between n (n + 1) [u "fe-" ++ num_to_string (n + 1)].
Proof.
  intros Hn. split; [lia|]. split; [apply NoDup_singleton|]. constructor; [|constructor].
  split; [by apply fresh_issued|apply fresh_not_issued; lia].
Qed.

Lemma fresh_between_perm n m l l' : l ≡ₚ l' -> fresh_between n m l -> fresh_between n m l'.
Proof. intros Hp (? & Hd & Hf). split; [done|]. by rewrite <- Hp. Qed.

Lemma predicate_to_editor_ids p : forall next, 1 <= next ->
  let '(n, next') := predicate_to_editor_node p next in fresh_between next next' (ids n).
Proof.
  induction p as [op a v l c IHl _] using SearchPredicate_rect'. intros next Hn. simpl.
  destruct (as_logical op) as [lop|]; simpl; [|by apply fresh_between_new].
  assert (Hch : forall l, Forall (fun p => forall next, 1 <= next ->
      let '(n, next') := predicate_to_editor_node p next in fresh_between next next' (ids n)) l ->
    forall next, 1 <= next ->
      let '(ns, next') := map_state predicate_to_editor_node l next in
      fresh_between next next' (List.concat (map ids ns))).
  { clear. induction 1 as [|p l Hp Hl IH]; intros next Hn; simpl; [repeat split; [lia|constructor|constructor]|].
    specialize (Hp next Hn). destruct (predicate_to_editor_node p next) as [n m].
    assert (Hm : 1 <= m) by (destruct Hp; lia). specialize (IH m Hm).
    destruct (map_state predicate_to_editor_node l m) as [ns m']. simpl.
    by apply fresh_between_app with m. }
  assert (Hres : let '(ns, next') := match l with
                   | Some ps => map_state predicate_to_editor_node ps next | None => ([], next) end in
                 fresh_between next next' (List.concat (map ids ns))).
  { destruct l as [ps|]; [by apply Hch|]. repeat split; [lia|constructor|constructor]. }
  destruct (match l with Some ps => _ | None => _ end) as [ns m]. simpl.
  apply (fresh_between_perm _ _ (List.concat (map ids ns) ++ [u "fe-" ++ num_to_string (m + 1)])).
  { symmetry. apply Permutation_cons_append. }
  apply fresh_between_app with m; [done|]. apply fresh_between_new. destruct Hres. lia.
Qed.

Lemma fresh_draft_ok n m r : 1 <= n -> fresh_between n m (ids r) -> draft_ok m (Some r).
Proof.
  intros Hn (Hm & Hd & Hf). split; [lia|]. split; [done|].
  eapply Forall_impl; [exact Hf|]. by intros ? [? _].
Qed.

Lemma draft_ok_fresh n root : draft_ok n root -> 1 <= n.
Proof. by intros [? _]. Qed.

(** ** Edits *)

Lemma update_absent root target f : target ∉ ids root -> update_editor_node root target f = root.
Proof.
  induction root as [id a op v|id op children IH] using EditorNode_rect'; simpl.
  - intros Hn. rewrite (proj2 (seqb_neq id target)); [done|]. intros ->. apply Hn. left.
  - rewrite not_elem_of_cons. intros [Hn Hc]. rewrite (proj2 (seqb_neq id target)) by done. f_equal.
    induction IH as [|c children Hcc _ IHc]; simpl in *; [done|].
    rewrite not_elem_of_app in Hc. destruct Hc. by rewrite Hcc, IHc.
Qed.

Lemma map_update_absent children target f : target ∉ List.concat (map ids children) ->
  map (fun c => update_editor_node c target f) children = children.
Proof.
  induction children as [|c children IH]; simpl; [done|]. rewrite not_elem_of_app. intros [? ?].
  by rewrite update_absent, IH.
Qed.

Lemma find_node_in root target n : find_node root target = Some n -> target ∈ ids root.
Proof.
  induction root as [id a op v|id op children IH] using EditorNode_rect'; simpl;
    destruct (seqb id target) eqn:Hid; try (apply seqb_eq in Hid as ->; left); [done|].
  intros H. right. induction IH as [|c children Hc _ IHc]; [done|]. simpl. apply elem_of_app.
  destruct (find_node c target) as [m|]; [left; by apply Hc|right; by apply IHc].
Qed.

(** With distinct ids an update replaces the one node of that id and nothing
    else. *)
Lemma update_replaces root target n n' : NoDup (ids root) -> find_node root target = Some n ->
  exists rest, ids root ≡ₚ ids n ++ rest /\
    ids (update_editor_node root target (fun _ => n')) ≡ₚ ids n' ++ rest.
Proof.
  induction root as [id a op v|id op children IH] using EditorNode_rect'; intros Hnd; simpl;
    destruct (seqb id target) eqn:Hid; try done.
  - intros [= <-]. exists []. by rewrite !app_nil_r.
  - intros [= <-]. exists []. by rewrite !app_nil_r.
  - simpl in Hnd. apply NoDup_cons in Hnd as [Hni Hnd]. intros Hf.
    assert (H : exists rest, List.concat (map ids children) ≡ₚ ids n ++ rest /\
      List.concat (map ids (map (fun c => update_editor_node c target (fun _ => n')) children)) ≡ₚ ids n' ++ rest).
    { clear Hni. induction IH as [|c children Hc _ IHc]; [done|]. simpl in Hnd |- *.
      apply NoDup_app in Hnd as (Hndc & Hdis & Hnd).
      destruct (find_node c target) as [m|] eqn:Hm.
      - injection Hf as ->. destruct (Hc Hndc eq_refl) as (rest & H1 & H2).
        exists (rest ++ List.concat (map ids children)). rewrite H1, H2.
        rewrite map_update_absent by (apply Hdis; by eapply find_node_in). by rewrite <- !app_assoc.
      - destruct (IHc Hnd Hf) as (rest & H1 & H2). exists (ids c ++ rest).
        rewrite update_absent.
        + rewrite H1, H2. split; by rewrite !(Permutation_app_swap_app (ids c)).
        + assert (Ht : target ∈ List.concat (map ids children)).
          { clear -Hf. induction children as [|d ds IHd]; [done|]. simpl. apply elem_of_app.
            destruct (find_node d target) eqn:Hd; [left; by eapply find_node_in|right; by apply IHd]. }
          intros Htc. by apply (Hdis target). }
    destruct H as (rest & H1 & H2). exists (id :: rest). simpl.
    rewrite H1, H2. split; by rewrite Permutation_middle.
Qed.

Lemma remove_ids root target : match remove_node root target with
  | Some r => sublist (ids r) (ids root) | None => True end.
Proof.
  induction root as [id a op v|id op children IH] using EditorNode_rect'; simpl;
    destruct (seqb id target); try done. simpl. apply sublist_skip.
  induction IH as [|c children Hc _ IHc]; simpl; [done|].
  destruct (remove_node c target) as [d|]; simpl; [by apply sublist_app|].
  by apply sublist_inserts_l.
Qed.

(** A new condition takes one new id. *)
Lemma append_ids root target next : 1 <= next -> NoDup (ids root) ->
  let '(root', next') := append_group_child root target next in
  next <= next' /\
  ((ids root' = ids root /\ next' = next) \/
   (target ∈ ids root /\ next' = next + 1 /\ ids root' ≡ₚ (u "fe-" ++ num_to_string (next + 1)) :: ids root)).
Proof.
  intros Hnext. induction root as [id a op v|id op children IH] using EditorNode_rect'; intros Hnd; simpl.
  { split; [lia|by left]. }
  destruct (seqb id target) eqn:Hid.
  - apply seqb_eq in Hid as ->. simpl. split; [lia|]. right. split; [left|]. split; [done|].
    rewrite map_app, concat_app. simpl. rewrite <- Permutation_cons_append. constructor.
  - apply NoDup_cons in Hnd as [Hni Hnd].
    assert (Hsame : forall l, target ∉ List.concat (map ids l) ->
      map_state (fun c => append_group_child c target) l (next + 1) = (l, next + 1)).
    { clear. assert (Hone : forall r n, target ∉ ids r -> append_group_child r target n = (r, n)).
      { induction r as [|id op cs IH] using EditorNode_rect'; intros n; [done|]. simpl.
        rewrite not_elem_of_cons. intros [Hn Hc]. rewrite (proj2 (seqb_neq id target)) by done.
        assert (map_state (fun c => append_group_child c target) cs n = (cs, n)) as ->; [|done].
        revert n. induction IH as [|c cs Hcc _ IHc]; intros n; simpl in *; [done|].
        rewrite not_elem_of_app in Hc. destruct Hc. rewrite Hcc, IHc; done. }
      induction l as [|c l IHl]; simpl; [done|]. rewrite not_elem_of_app. intros [? ?].
      by rewrite Hone, IHl. }
    assert (H : let '(cs, next') := map_state (fun c => append_group_child c target) children next in
      next <= next' /\
      ((List.concat (map ids cs) = List.concat (map ids children) /\ next' = next) \/
       (target ∈ List.concat (map ids children) /\ next' = next + 1 /\
        List.concat (map ids cs) ≡ₚ (u "fe-" ++ num_to_string (next + 1)) :: List.concat (map ids children)))).
    { clear Hni. induction IH as [|c children Hc _ IHc]; simpl in *; [split; [lia|by left]|].
      apply NoDup_app in Hnd as (Hndc & Hdis & Hnd). specialize (Hc Hndc). specialize (IHc Hnd).
      destruct (append_group_child c target next) as [c' n1].
      destruct Hc as (Hle & [[Hc ->]|(Hin & -> & Hc)]).
      - destruct (map_state _ children next) as [cs n2]. destruct IHc as (Hle2 & [[Hcs ->]|(Hin & -> & Hcs)]).
        + split; [lia|]. left. simpl. by rewrite Hc, Hcs.
        + split; [lia|]. right. simpl. split; [apply elem_of_app; by right|]. split; [done|].
          rewrite Hc, Hcs. symmetry. apply Permutation_middle.
      - rewrite Hsame by by apply Hdis. split; [lia|]. right. simpl.
        split; [apply elem_of_app; by left|]. split; [done|]. by rewrite Hc. }
    destruct (map_state _ children next) as [cs n2]. destruct H as (Hle & [[Hcs ->]|(Hin & -> & Hcs)]).
    + split; [done|]. left. simpl. by rewrite Hcs.
    + split; [done|]. right. split; [by right|]. split; [done|]. simpl. rewrite Hcs. constructor.
Qed.

(** What an operator change puts in place of a node: the same ids, or new ones. *)
Lemma operator_change_ids node op next : 1 <= next ->
  let '(n, next') := apply_operator_change node op next in
  next <= next' /\ (ids n = ids node \/ fresh_between next next' (ids n)).
Proof.
  intros Hn. unfold apply_operator_change.
  destruct (as_logical op) as [lop|]; destruct node as [id a o v|id lo [|c cs]]; simpl;
    try (split; [lia|by left]).
  split; [lia|]. right. apply (fresh_between_app _ (next + 1) _ [_] [_]).
  - by apply fresh_between_new.
  - apply (fresh_between_new (next + 1)). lia.
Qed.

(** ** Committing and loading *)

(** A value that a condition may carry. *)
Definition has_value (v : jsval) : bool :=
  match v with VUndef | VStr [] => false | _ => true end.

(** A predicate that says something: no empty group, no negation, and every
    condition with its field, its operator and the value that the operator
    needs. *)
Fixpoint complete (p : SearchPredicate) : bool :=
  match p with
  | Pred op a v ps None =>
      match as_logical op with
      | Some _ =>
          match a, v, ps with
          | None, None, Some ((_ :: _) as l) => forallb complete l
          | _, _, _ => false
          end
      | None =>
          nonempty a && nonempty (Some op) && negb (seqb op "not") &&
          match ps with
          | Some _ => false
          | None =>
              if op_requires_value (Some op)
              then match v with Some w => has_value w | None => false end
              else match v with None => true | Some _ => false end
          end
      end
  | Pred _ _ _ _ (Some _) => false
  end.

Lemma as_logical_name op : as_logical (logical_name op) = Some op.
Proof. destruct op; reflexivity. Qed.

Lemma as_logical_Some op lop : as_logical op = Some lop -> op = logical_name lop.
Proof.
  unfold as_logical. destruct (seqb op "and") eqn:Ha; [intros [= <-]; by apply seqb_eq|].
  destruct (seqb op "or") eqn:Ho; [intros [= <-]; by apply seqb_eq|done].
Qed.

Lemma as_logical_None op : as_logical op = None <-> seqb op "and" || seqb op "or" = false.
Proof. unfold as_logical. by destruct (seqb op "and"), (seqb op "or"). Qed.

Lemma commit_leaf id a op v p : commit_node (EditorLeaf id a op v) = Val p -> complete p = true.
Proof.
  simpl. destruct (nonempty a) eqn:Ha; simpl; [|done]. destruct (nonempty op) eqn:Ho; simpl; [|done].
  destruct a as [a|]; [|done]. destruct op as [o|]; [|done].
  destruct (seqb o "and" || seqb o "or" || seqb o "not") eqn:Hl; [done|].
  apply orb_false_iff in Hl as [Hl Hnot]. apply as_logical_None in Hl.
  destruct (op_requires_value (Some o)) eqn:Hreq; simpl negb; cbv iota.
  - assert (Hc : has_value v = true -> complete (comparison o a v) = true).
    { intros Hv. unfold comparison. simpl. by rewrite Hl, Ha, Ho, Hnot, Hreq, Hv. }
    destruct v as [| | | |[|c s]| |]; intros [= <-]; by apply Hc.
  - intros [= <-]. simpl. by rewrite Hl, Ha, Ho, Hnot, Hreq.
Qed.

Lemma commit_complete n p : commit_node n = Val p -> complete p = true.
Proof.
  revert p. induction n as [id a op v|id op children IH] using EditorNode_rect'; intros p;
    [apply commit_leaf|].
  cbn [commit_node]. destruct children as [|c children]; [done|].
  destruct (traverse commit_node (c :: children)) as [ps|] eqn:Ht; [|done]. intros [= <-].
  assert (H : forall l ps, Forall (fun n => forall p, commit_node n = Val p -> complete p = true) l ->
    traverse commit_node l = Val ps -> forallb complete ps = true /\ length ps = length l).
  { clear. induction l as [|n l IHl]; intros ps Hl; simpl; [by intros [= <-]|].
    apply Forall_cons in Hl as [Hn Hl]. destruct (commit_node n) as [p|] eqn:Hp; [|done].
    destruct (traverse commit_node l) as [qs|]; [|done]. intros [= <-].
    destruct (IHl qs Hl eq_refl) as [H1 H2]. simpl. by rewrite (Hn p), H1, H2. }
  destruct (H _ _ IH Ht) as [Hc Hlen]. unfold logical. cbn [complete]. rewrite as_logical_name.
  destruct ps as [|q ps]; [done|]. exact Hc.
Qed.

Lemma complete_no_not p : complete p = true -> predicate_contains_not p = false.
Proof.
  induction p as [op a v ps c IH _] using SearchPredicate_rect'. simpl. destruct c as [c|]; [done|].
  destruct (as_logical op) as [lop|] eqn:Hl.
  - apply as_logical_Some in Hl as ->. destruct a, v; try done. destruct ps as [l|]; [|done].
    destruct l as [|q l]; [done|]. intros Hall.
    replace (seqb (logical_name lop) "not") with false by by destruct lop.
    simpl in IH. clear -IH Hall. induction IH as [|x xs Hx _ IHxs]; [done|]. simpl in *.
    apply andb_true_iff in Hall as [H1 H2]. by rewrite Hx, IHxs.
  - intros H. rewrite !andb_true_iff, negb_true_iff in H. destruct H as [[_ ->] H].
    destruct ps; [done|]. done.
Qed.

Lemma commit_loaded_children qs next : Forall (fun p => forall next, complete p = true ->
    commit_node (fst (predicate_to_editor_node p next)) = Val p) qs -> forallb complete qs = true ->
  traverse commit_node (fst (map_state predicate_to_editor_node qs next)) = Val qs.
Proof.
  revert next. induction qs as [|x xs IHx]; intros next Hf Hall; simpl; [done|].
  apply Forall_cons in Hf as [Hx Hf]. simpl in Hall. apply andb_true_iff in Hall as [H1 H2].
  specialize (Hx next H1). destruct (predicate_to_editor_node x next) as [n m]. simpl in Hx.
  specialize (IHx m Hf H2). destruct (map_state predicate_to_editor_node xs m) as [ns m'].
  simpl in *. by rewrite Hx, IHx.
Qed.

Lemma commit_loaded p next : complete p = true ->
  commit_node (fst (predicate_to_editor_node p next)) = Val p.
Proof.
  revert next. induction p as [op a v ps c IH _] using SearchPredicate_rect'. intros next. simpl.
  destruct c as [c|]; [done|]. destruct (as_logical op) as [lop|] eqn:Hl.
  - apply as_logical_Some in Hl as ->. destruct a, v; try done. destruct ps as [l|]; [|done].
    destruct l as [|q l]; [done|]. simpl from_option in IH. intros Hall.
    pose proof (commit_loaded_children (q :: l) next IH Hall) as H.
    destruct (map_state _ (q :: l) next) as [ns m] eqn:Hm. cbn [fst] in H. simpl.
    destruct ns as [|n ns]; [done|]. cbn [commit_node]. by rewrite H.
  - intros H. rewrite !andb_true_iff, negb_true_iff in H. destruct H as [[[Ha Ho] Hnot] H].
    destruct ps; [done|]. simpl. rewrite Ha, Ho. simpl. destruct a as [a|]; [|done].
    pose proof (proj1 (as_logical_None op) Hl) as Hl'. rewrite Hl', Hnot. simpl.
    destruct (op_requires_value (Some op)); simpl; [|by destruct v].
    destruct v as [v|]; [|done]. destruct v as [| | | |[|? ?]| |]; done.
Qed.

Lemma commit_root_complete root p : commit_editor_root root = inl (Some p) -> complete p = true.
Proof.
  destruct root as [r|]; [|done]. simpl.
  destruct (commit_node r) as [q|e] eqn:Hr; [|by destruct e]. intros [= ->]. by apply commit_complete in Hr.
Qed.

(** Property C28. The editor shows a complete filter without losing anything of it: executed
    unchanged, it is the same filter again.  Whatever draft is executed, the
    filter is complete and can be opened in the editor again. *)
Theorem editor_roundtrip (root : option EditorNode) p next :
  (complete p = true -> exists n,
     load_editor_from_predicate (Some p) next = (Some (Some n), snd (load_editor_from_predicate (Some p) next)) /\
     commit_editor_root (Some n) = inl (Some p)) /\
  (commit_editor_root root = inl (Some p) -> complete p = true /\ predicate_contains_not p = false).
Proof.
  split.
  - intros Hc. unfold load_editor_from_predicate. rewrite complete_no_not by done.
    pose proof (commit_loaded p next Hc) as H. destruct (predicate_to_editor_node p next) as [n m].
    exists n. split; [done|]. simpl in *. by rewrite H.
  - intros Hr%commit_root_complete. split; [done|]. by apply complete_no_not.
Qed.

(** ** The panel *)

Lemma edit_row_ok cmp filterable root target e next : draft_ok next (Some root) ->
  let '(root', next') := edit_row cmp filterable root target e next in draft_ok next' root'.
Proof.
  intros (Hn & Hnd & Hiss). unfold edit_row.
  destruct (find_node root target) as [node|] eqn:Hf; [|done].
  assert (Hsame : forall n, ids n = ids node -> draft_ok next (Some (update_editor_node root target (fun _ => n)))).
  { intros n Hids. destruct (update_replaces root target node n Hnd Hf) as (rest & H1 & H2).
    split; [done|]. rewrite H2, Hids, <- H1. done. }
  destruct e as [|op| |name|v].
  - pose proof (remove_ids root target) as Hs. destruct (remove_node root target) as [r|]; [|done].
    split; [done|]. split; [by eapply sublist_NoDup|].
    rewrite Forall_forall in *. intros id Hid. apply Hiss. by eapply elem_of_sublist.
  - case_bool_decide; [done|]. pose proof (operator_change_ids node op next Hn) as Ho.
    destruct (apply_operator_change node op next) as [n next'].
    destruct Ho as (Hle & [Hids|(Hle' & Hfn & Hff)]).
    + destruct (Hsame n Hids) as (_ & ? & ?). split; [lia|]. split; [done|]. by apply issued_all_mono with next.
    + destruct (update_replaces root target node n Hnd Hf) as (rest & H1 & H2).
      rewrite H1 in Hnd, Hiss. apply NoDup_app in Hnd as (_ & _ & Hrest).
      apply Forall_app in Hiss as [_ Hiss]. split; [lia|]. rewrite H2. split.
      * apply NoDup_app. split; [done|]. split; [|done]. intros id Hi Hr.
        rewrite Forall_forall in Hff, Hiss. destruct (Hff id Hi) as [_ Hni]. auto.
      * apply Forall_app. split; [eapply Forall_impl; [exact Hff|]; by intros ? [? _]|].
        by apply issued_all_mono with next.
  - destruct node; [done|]. pose proof (append_ids root target next Hn Hnd) as Ha.
    destruct (append_group_child root target next) as [r next'].
    destruct Ha as (Hle & [[Hids ->]|(_ & -> & Hids)]); unfold draft_ok; rewrite Hids; [done|].
    split; [lia|]. split.
    + constructor; [|done]. intros Hin. rewrite Forall_forall in Hiss. apply Hiss in Hin.
      revert Hin. apply fresh_not_issued. lia.
    + constructor; [by apply fresh_issued|]. apply issued_all_mono with next; [lia|done].
  - destruct node; [|done]. by apply Hsame.
  - destruct node; [|done]. by apply Hsame.
Qed.

Definition panel_ok (p : panel) : Prop := draft_ok (panel_next_id p) (panel_draft p).

Lemma sync_draft_ok p effective : panel_ok p -> panel_ok (sync_draft_from_effective p effective).
Proof.
  intros [Hn _]. unfold sync_draft_from_effective, load_editor_from_predicate, panel_ok.
  destruct effective as [q|]; [|by split]. destruct (predicate_contains_not q); [by split|].
  pose proof (predicate_to_editor_ids q (panel_next_id p) Hn) as H.
  destruct (predicate_to_editor_node q (panel_next_id p)) as [n m]. simpl. by eapply fresh_draft_ok.
Qed.

(** A filter that the service may be asked to run. *)
Definition search_ok (s : option SearchPredicate) : Prop :=
  match s with None => True | Some q => complete q = true end.

Definition effect_ok (e : panel_effect) : Prop := match submits e with None => True | Some q => search_ok q end.

Lemma on_execute_ok p : panel_ok p -> panel_ok (on_execute_click p).1 /\ effect_ok (on_execute_click p).2.
Proof.
  intros Hp. unfold on_execute_click. destruct (panel_blocked_not p); [done|].
  destruct (commit_editor_root (panel_draft p)) as [q|m] eqn:Hc; split; try done.
  destruct q as [q|]; [|done]. by apply commit_root_complete in Hc.
Qed.

Lemma on_add_root_ok p : panel_ok p -> panel_ok (on_add_root p).
Proof.
  intros Hp. unfold on_add_root. destruct (panel_draft p) eqn:Hd; [done|]. destruct (panel_blocked_not p); [done|].
  destruct Hp as [Hn _]. unfold empty_leaf, new_editor_id, panel_ok, draft_ok. simpl.
  split; [lia|]. split; [apply NoDup_singleton|]. constructor; [by apply fresh_issued|constructor].
Qed.

Lemma panel_step_ok cmp filterable busy effective p a : panel_ok p ->
  let '(p', e) := panel_step cmp filterable busy effective p a in panel_ok p' /\ effect_ok e.
Proof.
  intros Hp. unfold panel_step. destruct a as [| | | | |id e|w|effective'];
    try (destruct (_ || negb (panel_open p)); [by split|]).
  - split; [|done]. unfold on_toggle, sync_if_open. destruct (panel_open p); [done|]. by apply sync_draft_ok.
  - by split.
  - split; [by apply sync_draft_ok|done].
  - split; [by apply on_add_root_ok|done].
  - destruct (on_execute_ok p Hp) as [H1 H2]. by destruct (on_execute_click p).
  - destruct (panel_draft p) as [root|] eqn:Hd; [|by split].
    pose proof (edit_row_ok cmp filterable root id e (panel_next_id p)) as H.
    unfold panel_ok in Hp. rewrite Hd in Hp. specialize (H Hp).
    destruct (edit_row cmp filterable root id e (panel_next_id p)). by split.
  - by split.
  - split; [|done]. unfold sync_if_open. destruct (panel_open p); [by apply sync_draft_ok|done].
Qed.

(** The panel through a sequence of actions, each with whether a search is
    running and the filter then in effect, and the searches submitted. *)
Fixpoint panel_run (cmp : jstr -> jstr -> Z) (filterable : list AttributeFieldMeta)
    (actions : list (bool * option SearchPredicate * panel_action)) (p : panel)
  : panel * list (option SearchPredicate) :=
  match actions with
  | [] => (p, [])
  | (busy, effective, a) :: rest =>
      let '(p, e) := panel_step cmp filterable busy effective p a in
      let '(p, searches) := panel_run cmp filterable rest p in
      (p, option_to_list (submits e) ++ searches)
  end.

(** However the reader edits, the rows of the editor have distinct ids (by
    which the edits find their row), and every filter submitted is complete:
    no empty group, no condition without its field, operator or value. *)
Theorem panel_run_ok cmp filterable actions :
  let '(p, searches) := panel_run cmp filterable actions initial_panel in
  match panel_draft p with Some root => NoDup (ids root) | None => True end /\
  Forall search_ok searches.
Proof.
  assert (H : forall actions p, panel_ok p ->
    let '(p', searches) := panel_run cmp filterable actions p in panel_ok p' /\ Forall search_ok searches).
  { clear. induction actions as [|[[busy effective] a] rest IH]; intros p Hp; simpl; [by split|].
    pose proof (panel_step_ok cmp filterable busy effective p a Hp) as Hs.
    destruct (panel_step cmp filterable busy effective p a) as [p1 e]. destruct Hs as [Hp1 Hs].
    specialize (IH p1 Hp1). destruct (panel_run cmp filterable rest p1) as [p2 ss]. destruct IH as [Hp2 Hss].
    split; [done|]. unfold effect_ok in Hs. destruct (submits e) as [q|]; simpl; [by constructor|done]. }
  specialize (H actions initial_panel). destruct (panel_run cmp filterable actions initial_panel) as [p ss].
  destruct H as [[_ Hp] Hss]; [by split|]. split; [|done]. by destruct (panel_draft p) as [r|]; [destruct Hp|].
Qed.

(** A group under an And group that has conditions may be switched to And:
    the list of its operators does not look at the group around it. *)
Example group_row_offers_parent_op :
  let code_units a b := if str_leb a b then if str_leb b a then 0 else -1 else 1 in
  eligible_ops_for_row code_units
    (EditorGroup (u "c") or_op [EditorLeaf (u "l") None None VUndef]) (Some and_op) None = [u "and"; u "or"] /\
  in_set (u "and") (eligible_ops_for_row code_units (EditorLeaf (u "l") None None VUndef) (Some and_op) None) = false.
Proof. split; vm_compute; reflexivity. Qed.
