(* ===== verification/PredicateText.v ===== *)
(** list/predicate_text.ts: the filter in effect as a line of text. *)
From S2P Require Import Prelude JsString JsValue JsText JsArray LocalTime ListColumns QuickFilter FilterEditor.

(** [raw.replace(/\\/g, "\\\\").replace(/"/g, '\\"')] between quotes. *)
Definition quote_string (raw : jstr) : jstr :=
  [34] ++ List.concat (map (fun c => if (c =? 92) || (c =? 34) then [92; c] else [c]) raw) ++ [34].

(** [/^\d{4}-\d{2}-\d{2}T\d{2}:\d{2}/] or the same with a space. *)
Definition looks_like_datetime (raw : jstr) : bool :=
  match take_number 4 raw with
  | Some (_, 45 :: r) =>
      match take_number 2 r with
      | Some (_, 45 :: r) =>
          match take_number 2 r with
          | Some (_, sep :: r) =>
              ((sep =? 84) || (sep =? 32)) &&
              match take_number 2 r with
              | Some (_, 58 :: r) => match take_number 2 r with Some _ => true | None => false end
              | _ => false
              end
          | _ => false
          end
      | _ => false
      end
  | _ => false
  end.

Record AttrRenderCtx : Type := {
  ctx_labels : gmap jstr jstr;
  ctx_types : gmap jstr jstr;
}.

Definition attribute_render_context (attributes : list AttributeFieldMeta) : AttrRenderCtx := {|
  ctx_labels := fold_left (fun m a => <[attr_name_snake a := attribute_display_label (attr_name_snake a)]> m)
                  attributes ∅;
  ctx_types := fold_left (fun m a => <[attr_name_snake a := attr_type_name a]> m) attributes ∅;
|}.

Definition attr_name (attribute : option jstr) (ctx : AttrRenderCtx) : jstr :=
  match attribute with
  | None => []
  | Some a =>
      if bool_decide (a = []) then []
      else match ctx_labels ctx !! a with
           | Some label => label
           | None => attribute_display_label a
           end
  end.

Section Zone.
Context (wall_of utc_of_wall : Z -> Z) (other_dates : jstr -> option Z).

Definition format_datetime_text (raw : jstr) : option jstr :=
  format_datetime_local wall_of utc_of_wall other_dates raw.

Definition format_predicate_value (value : jsval) (type_name : option jstr) : jstr :=
  match value with
  | VBool b => if b then u "true" else u "false"
  | VStr s =>
      if bool_decide (type_name = Some (u "datetime")) || looks_like_datetime s then
        match format_datetime_text s with Some human => human | None => quote_string s end
      else quote_string s
  | VUndef | VNull => u "null"
  | VNum n =>
      if is_finite n then num_text n
      else quote_string (match json_stringify value with Some t => t | None => [] end)
  | _ => quote_string (match json_stringify value with Some t => t | None => [] end)
  end.

Definition render_comparison (symbol : jstr) (attribute : option jstr) (value : option jsval)
    (ctx : AttrRenderCtx) : jstr :=
  let name := attr_name attribute ctx in
  match value with
  | None => []
  | Some v =>
      if bool_decide (name = []) then []
      else
        let type_name := match attribute with Some a => ctx_types ctx !! a | None => None end in
        name ++ u " " ++ symbol ++ u " " ++ format_predicate_value v type_name
  end.

Definition render_text_pattern (word : jstr) (attribute : option jstr) (value : option jsval)
    (ctx : AttrRenderCtx) : jstr :=
  let name := attr_name attribute ctx in
  match value with
  | Some (VStr s) => if bool_decide (name = []) then [] else name ++ u " " ++ word ++ u " " ++ quote_string s
  | _ => []
  end.

Definition render_regexp (attribute : option jstr) (value : option jsval) (ctx : AttrRenderCtx) : jstr :=
  let name := attr_name attribute ctx in
  match value with
  | Some (VStr s) => if bool_decide (name = []) then [] else name ++ u " matches /" ++ s ++ u "/"
  | _ => []
  end.

(** The texts of the children, the empty ones left out. *)
Definition render_logical (joiner : jstr) (parts : list jstr) : jstr :=
  match List.filter (fun part => negb (bool_decide (part = []))) parts with
  | [] => []
  | parts => u "( " ++ join (u " " ++ joiner ++ u " ") parts ++ u " )"
  end.

Definition render_not (inner : jstr) : jstr :=
  if bool_decide (inner = []) then [] else u "!( " ++ inner ++ u " )".

Fixpoint render_node (node : SearchPredicate) (ctx : AttrRenderCtx) : jstr :=
  match node with
  | Pred op attribute value predicates predicate =>
      let parts := match predicates with Some ps => map (fun c => render_node c ctx) ps | None => [] end in
      if seqb op "and" then render_logical (u "&") parts
      else if seqb op "or" then render_logical (u "|") parts
      else if seqb op "not" then
        match predicate with Some c => render_not (render_node c ctx) | None => [] end
      else if seqb op "eq" then render_comparison (u "=") attribute value ctx
      else if seqb op "ne" then render_comparison (u "!=") attribute value ctx
      else if seqb op "gt" then render_comparison (u ">") attribute value ctx
      else if seqb op "gte" then render_comparison (u ">=") attribute value ctx
      else if seqb op "lt" then render_comparison (u "<") attribute value ctx
      else if seqb op "lte" then render_comparison (u "<=") attribute value ctx
      else if seqb op "regexp" then render_regexp attribute value ctx
      else if seqb op "contains" then render_text_pattern (u "contains") attribute value ctx
      else if seqb op "ends_with" then render_text_pattern (u "ends_with") attribute value ctx
      else if seqb op "starts_with" then render_text_pattern (u "starts_with") attribute value ctx
      else if seqb op "empty" then attr_name attribute ctx ++ u " is empty"
      else if seqb op "not_empty" then attr_name attribute ctx ++ u " is not empty"
      else []
  end.

Definition render_predicate_text (predicate : option SearchPredicate) (attributes : list AttributeFieldMeta)
  : jstr :=
  match predicate with
  | None => []
  | Some p => render_node p (attribute_render_context attributes)
  end.
End Zone.

Example render_example :
  render_predicate_text (fun t => t) (fun t => t) (fun _ => None)
    (Some (logical (u "and")
       [comparison (u "eq") (u "status") (VStr (u "open")); comparison (u "gte") (u "cost") (VNum (NFrac 3 2));
        comparison (u "lt") (u "created_at") (VStr (u "2026-07-14T05:02:34Z"));
        logical (u "or") []])) []
  = u "( Status = " ++ [34] ++ u "open" ++ [34] ++ u " & Cost >= 1.5 & Created At < 2026-07-14 05:02:34 )".
Proof. vm_compute. reflexivity. Qed.

(** ** Quoting *)

(** The text between the quotes, and what follows them. *)
Fixpoint unquote (s : jstr) : option (jstr * jstr) :=
  match s with
  | [] => None
  | c :: s' =>
      if c =? 34 then Some ([], s')
      else if c =? 92 then
        match s' with
        | d :: s'' => match unquote s'' with Some (t, r) => Some (d :: t, r) | None => None end
        | [] => None
        end
      else match unquote s' with Some (t, r) => Some (c :: t, r) | None => None end
  end.

(** A quoted value can be told from what follows it, whatever it holds. *)
Lemma unquote_quote_string s r : match quote_string s ++ r with
  | _ :: body => unquote body = Some (s, r)
  | [] => False
  end.
Proof.
  unfold quote_string. simpl. rewrite <- app_assoc. simpl.
  induction s as [|c s IH]; simpl; [done|].
  destruct (Z.eqb_spec c 92) as [->|H92]; simpl; [by rewrite IH|].
  destruct (Z.eqb_spec c 34) as [->|H34]; simpl; [by rewrite IH|].
  rewrite (proj2 (Z.eqb_neq c 34)), (proj2 (Z.eqb_neq c 92)), IH by done. done.
Qed.
