(* ===== verification/DestinationList.v ===== *)
(** routes/destination_list.tsx: the page of a record list.  The state of the
    component (what it renders), its refs, and the searches that are under way;
    every handler, the answers of the searches in whatever order they come, and
    the effects that run after a render. *)
From S2P Require Import Prelude JsString JsValue JsArray ListColumns Pagination QuickFilter.

(** The page only passes predicates and rows on, and compares predicates by
    reference: [P] and [Row] are those references. *)
Section Page.
Context {P Row : Type} `{!EqDecision P}.

(** ** Data *)

Record payload : Type := {
  rows : list Row;
  total : Z;
  limit : Z;
  offset : Z;
  effective_predicate : option P;
}.

Record ListLoaderData : Type := {
  class_name : jstr;
  path : jstr;
  columns : list ListColumn;
  attributes : list AttributeFieldMeta;
  baseline_predicate : option P;
  loaded_search : payload;
}.

(** A search under way: what was sent, and the generation it was sent in. *)
Record request : Type := {
  rq_gen : Z;
  rq_class_name : jstr;
  rq_attributes : list jstr;
  rq_predicate : option P;
  rq_sort : list ListSortSpec;
  rq_limit : Z;
  rq_offset : Z;
}.

(** How a search ends: with a result, with a failure that the API reports, or
    with an exception (no connection, a body that is not the expected one). *)
Inductive search_answer : Type :=
| SearchOk (items : list Row) (total_ limit_ offset_ : Z)
| SearchFailed (detail : jstr)
| SearchThrew.

(** The component's state, and its refs. *)
Record view : Type := {
  v_search : payload;
  v_selected_name : jstr;
  v_values : QuickFilterValues;
  v_warning : option jstr;
  v_search_failed : bool;
  v_layout_notice : option jstr;
  v_sort : list ListSortSpec;
  v_column_layout : ColumnLayoutSession;
  v_column_signature : jstr;
  v_search_busy : bool;
}.

Record refs : Type := {
  r_search_gen : Z;
  r_seeded_signature : jstr;
  r_seeded_path : jstr;
  r_effective : option P;
  r_sort : list ListSortSpec;
  r_paging : Z * Z;
  r_clamp_inflight : bool;
}.

Record page : Type := {
  p_loaded : ListLoaderData;
  p_view : view;
  p_refs : refs;
  p_pending : list request;
}.

Definition set_v_search x (s : view) : view := {|
  v_search := x; v_selected_name := v_selected_name s; v_values := v_values s; v_warning := v_warning s; v_search_failed := v_search_failed s; v_layout_notice := v_layout_notice s; v_sort := v_sort s; v_column_layout := v_column_layout s; v_column_signature := v_column_signature s; v_search_busy := v_search_busy s |}.

Definition set_v_selected_name x (s : view) : view := {|
  v_search := v_search s; v_selected_name := x; v_values := v_values s; v_warning := v_warning s; v_search_failed := v_search_failed s; v_layout_notice := v_layout_notice s; v_sort := v_sort s; v_column_layout := v_column_layout s; v_column_signature := v_column_signature s; v_search_busy := v_search_busy s |}.

Definition set_v_values x (s : view) : view := {|
  v_search := v_search s; v_selected_name := v_selected_name s; v_values := x; v_warning := v_warning s; v_search_failed := v_search_failed s; v_layout_notice := v_layout_notice s; v_sort := v_sort s; v_column_layout := v_column_layout s; v_column_signature := v_column_signature s; v_search_busy := v_search_busy s |}.

Definition set_v_warning x (s : view) : view := {|
  v_search := v_search s; v_selected_name := v_selected_name s; v_values := v_values s; v_warning := x; v_search_failed := v_search_failed s; v_layout_notice := v_layout_notice s; v_sort := v_sort s; v_column_layout := v_column_layout s; v_column_signature := v_column_signature s; v_search_busy := v_search_busy s |}.

Definition set_v_search_failed x (s : view) : view := {|
  v_search := v_search s; v_selected_name := v_selected_name s; v_values := v_values s; v_warning := v_warning s; v_search_failed := x; v_layout_notice := v_layout_notice s; v_sort := v_sort s; v_column_layout := v_column_layout s; v_column_signature := v_column_signature s; v_search_busy := v_search_busy s |}.

Definition set_v_layout_notice x (s : view) : view := {|
  v_search := v_search s; v_selected_name := v_selected_name s; v_values := v_values s; v_warning := v_warning s; v_search_failed := v_search_failed s; v_layout_notice := x; v_sort := v_sort s; v_column_layout := v_column_layout s; v_column_signature := v_column_signature s; v_search_busy := v_search_busy s |}.

Definition set_v_sort x (s : view) : view := {|
  v_search := v_search s; v_selected_name := v_selected_name s; v_values := v_values s; v_warning := v_warning s; v_search_failed := v_search_failed s; v_layout_notice := v_layout_notice s; v_sort := x; v_column_layout := v_column_layout s; v_column_signature := v_column_signature s; v_search_busy := v_search_busy s |}.

Definition set_v_column_layout x (s : view) : view := {|
  v_search := v_search s; v_selected_name := v_selected_name s; v_values := v_values s; v_warning := v_warning s; v_search_failed := v_search_failed s; v_layout_notice := v_layout_notice s; v_sort := v_sort s; v_column_layout := x; v_column_signature := v_column_signature s; v_search_busy := v_search_busy s |}.

Definition set_v_column_signature x (s : view) : view := {|
  v_search := v_search s; v_selected_name := v_selected_name s; v_values := v_values s; v_warning := v_warning s; v_search_failed := v_search_failed s; v_layout_notice := v_layout_notice s; v_sort := v_sort s; v_column_layout := v_column_layout s; v_column_signature := x; v_search_busy := v_search_busy s |}.

Definition set_v_search_busy x (s : view) : view := {|
  v_search := v_search s; v_selected_name := v_selected_name s; v_values := v_values s; v_warning := v_warning s; v_search_failed := v_search_failed s; v_layout_notice := v_layout_notice s; v_sort := v_sort s; v_column_layout := v_column_layout s; v_column_signature := v_column_signature s; v_search_busy := x |}.

Definition set_r_search_gen x (s : refs) : refs := {|
  r_search_gen := x; r_seeded_signature := r_seeded_signature s; r_seeded_path := r_seeded_path s; r_effective := r_effective s; r_sort := r_sort s; r_paging := r_paging s; r_clamp_inflight := r_clamp_inflight s |}.

Definition set_r_seeded_signature x (s : refs) : refs := {|
  r_search_gen := r_search_gen s; r_seeded_signature := x; r_seeded_path := r_seeded_path s; r_effective := r_effective s; r_sort := r_sort s; r_paging := r_paging s; r_clamp_inflight := r_clamp_inflight s |}.

Definition set_r_seeded_path x (s : refs) : refs := {|
  r_search_gen := r_search_gen s; r_seeded_signature := r_seeded_signature s; r_seeded_path := x; r_effective := r_effective s; r_sort := r_sort s; r_paging := r_paging s; r_clamp_inflight := r_clamp_inflight s |}.

Definition set_r_effective x (s : refs) : refs := {|
  r_search_gen := r_search_gen s; r_seeded_signature := r_seeded_signature s; r_seeded_path := r_seeded_path s; r_effective := x; r_sort := r_sort s; r_paging := r_paging s; r_clamp_inflight := r_clamp_inflight s |}.

Definition set_r_sort x (s : refs) : refs := {|
  r_search_gen := r_search_gen s; r_seeded_signature := r_seeded_signature s; r_seeded_path := r_seeded_path s; r_effective := r_effective s; r_sort := x; r_paging := r_paging s; r_clamp_inflight := r_clamp_inflight s |}.

Definition set_r_paging x (s : refs) : refs := {|
  r_search_gen := r_search_gen s; r_seeded_signature := r_seeded_signature s; r_seeded_path := r_seeded_path s; r_effective := r_effective s; r_sort := r_sort s; r_paging := x; r_clamp_inflight := r_clamp_inflight s |}.

Definition set_r_clamp_inflight x (s : refs) : refs := {|
  r_search_gen := r_search_gen s; r_seeded_signature := r_seeded_signature s; r_seeded_path := r_seeded_path s; r_effective := r_effective s; r_sort := r_sort s; r_paging := r_paging s; r_clamp_inflight := x |}.

Definition with_view (f : view -> view) (s : page) : page := {|
  p_loaded := p_loaded s; p_view := f (p_view s); p_refs := p_refs s; p_pending := p_pending s |}.

Definition with_refs (f : refs -> refs) (s : page) : page := {|
  p_loaded := p_loaded s; p_view := p_view s; p_refs := f (p_refs s); p_pending := p_pending s |}.

Definition with_pending (f : list request -> list request) (s : page) : page := {|
  p_loaded := p_loaded s; p_view := p_view s; p_refs := p_refs s; p_pending := f (p_pending s) |}.

Definition with_loaded (l : ListLoaderData) (s : page) : page := {|
  p_loaded := l; p_view := p_view s; p_refs := p_refs s; p_pending := p_pending s |}.

(** ** Searching *)

(** [submit_search]; an absent argument keeps the current value. *)
Definition submit_search (class_name : jstr) (attributes : list jstr) (predicate : option P)
    (sort : option (list ListSortSpec)) (limit offset : option Z) (reset_start : bool) (s : page) : page :=
  let r := p_refs s in
  let sort := match sort with Some l => l | None => r_sort r end in
  let limit := match limit with Some n => n | None => fst (r_paging r) end in
  let offset := match offset with Some n => n | None => snd (r_paging r) end in
  let offset := if reset_start then 0 else offset in
  with_refs (set_r_paging (limit, offset))
    (with_view (set_v_search_busy true)
      (with_pending (fun pending => pending ++
         [{| rq_gen := r_search_gen r; rq_class_name := class_name; rq_attributes := attributes;
             rq_predicate := predicate; rq_sort := sort; rq_limit := limit; rq_offset := offset |}]) s)).

(** The same called by a handler of the current render. *)
Definition submit_current (predicate : option P) (sort : option (list ListSortSpec)) (limit offset : option Z)
    (reset_start : bool) (s : page) : page :=
  submit_search (class_name (p_loaded s)) (column_names (columns (p_loaded s))) predicate sort limit offset
    reset_start s.

(** The rest of the async function, when the search that was the [i]-th under
    way ends. *)
Definition on_answer (q : request) (a : search_answer) (s : page) : page :=
  if negb (rq_gen q =? r_search_gen (p_refs s)) then s
  else match a with
  | SearchThrew => s
  | SearchFailed detail =>
      with_refs (fun r => set_r_paging (fst (r_paging r), 0) (set_r_clamp_inflight false r))
        (with_view (fun v => set_v_search
             {| rows := []; total := 0; limit := limit (v_search v); offset := 0;
                effective_predicate := effective_predicate (v_search v) |}
             (set_v_search_failed true (set_v_warning (Some detail) (set_v_search_busy false v)))) s)
  | SearchOk items total_ limit_ offset_ =>
      if start_past_last_page offset_ total_ limit_ && negb (r_clamp_inflight (p_refs s)) then
        submit_search (rq_class_name q) (rq_attributes q) (rq_predicate q) None (Some limit_)
          (Some (clamped_offset_for_total total_ limit_)) false
          (with_refs (fun r => set_r_effective (rq_predicate q) (set_r_clamp_inflight true r)) s)
      else
        with_refs (fun r => set_r_paging (limit_, offset_)
                     (set_r_effective (rq_predicate q) (set_r_clamp_inflight false r)))
          (with_view (fun v => set_v_search
               {| rows := items; total := total_; limit := limit_; offset := offset_;
                  effective_predicate := rq_predicate q |}
               (set_v_search_failed false (set_v_search_busy false v))) s)
  end.

(** ** Effects *)

(** [search.effective_predicate ?? loaded.baseline_predicate] *)
Definition current_effective (search : payload) (l : ListLoaderData) : option P :=
  match effective_predicate search with Some p => Some p | None => baseline_predicate l end.

(** The effect on [loaded.path]. *)
Definition path_effect (s : page) : outcome page :=
  let l := p_loaded s in
  match quick_filter_destination_reset (attributes l), seed_column_layout (columns l) with
  | Val quick_filter, Val seeded =>
      let signature := column_set_signature (columns l) in
      Val {| p_loaded := l;
             p_view := {|
               v_search := loaded_search l;
               v_selected_name := reset_selected_name quick_filter;
               v_values := reset_values quick_filter;
               v_warning := reset_warning quick_filter;
               v_search_failed := false;
               v_layout_notice := None;
               v_sort := [];
               v_column_layout := seeded;
               v_column_signature := signature;
               v_search_busy := false |};
             p_refs := {|
               r_search_gen := r_search_gen (p_refs s) + 1;
               r_seeded_signature := signature;
               r_seeded_path := path l;
               r_effective := current_effective (loaded_search l) l;
               r_sort := r_sort (p_refs s);
               r_paging := (limit (loaded_search l), offset (loaded_search l));
               r_clamp_inflight := false |};
             p_pending := p_pending s |}
  | Exc e, _ | _, Exc e => Exc e
  end.

Definition layout_reset_notice : jstr :=
  u "List columns changed " ++ [8212] ++
  u " layout reset to schema defaults. Reload if this persists.".

(** The effect on the column set; [layout] and [signature] are those of the
    render it belongs to. *)
Definition column_effect (layout : ColumnLayoutSession) (signature : jstr) (s : page) : outcome page :=
  let l := p_loaded s in
  if negb (seqb (r_seeded_path (p_refs s)) (path l)) then Val s
  else if seqb (column_set_signature (columns l)) (r_seeded_signature (p_refs s)) then Val s
  else match reconcile_column_layout (columns l) (Some layout) (Some signature) with
       | Exc e => Exc e
       | Val reconciled =>
           let s := with_refs (set_r_seeded_signature (rec_signature reconciled)) s in
           let s := with_view (set_v_sort []) s in
           Val (if rec_reset reconciled then
                  with_view (fun v => set_v_layout_notice (Some layout_reset_notice)
                    (set_v_column_signature (rec_signature reconciled)
                      (set_v_column_layout (rec_layout reconciled) v))) s
                else with_view (set_v_column_signature (rec_signature reconciled)) s)
       end.

Definition outcome_bind {A B : Type} (o : outcome A) (f : A -> outcome B) : outcome B :=
  match o with Val a => f a | Exc e => Exc e end.

(** The effects whose dependencies differ between two renders, in the order of
    the component. *)
Definition effects (old new : page) : outcome page :=
  let vo := p_view old in
  let vn := p_view new in
  let lo := p_loaded old in
  let ln := p_loaded new in
  let s := if bool_decide (v_sort vo = v_sort vn) then new
           else with_refs (set_r_sort (v_sort vn)) new in
  let s := if (limit (v_search vo) =? limit (v_search vn)) && (offset (v_search vo) =? offset (v_search vn))
           then s
           else with_refs (set_r_paging (limit (v_search vn), offset (v_search vn))) s in
  outcome_bind (if seqb (path lo) (path ln) then Val s else path_effect s) (fun s =>
  outcome_bind
    (if seqb (column_set_signature (columns lo)) (column_set_signature (columns ln))
        && seqb (path lo) (path ln)
     then Val s else column_effect (v_column_layout vn) (v_column_signature vn) s) (fun s =>
  Val (if bool_decide (effective_predicate (v_search vo) = effective_predicate (v_search vn))
          && bool_decide (baseline_predicate lo = baseline_predicate ln)
       then s
       else with_refs (set_r_effective (current_effective (v_search vn) ln)) s))).

(** A handler's changes are rendered and their effects run; what these change
    is rendered again. *)
Definition commit (old new : page) : outcome page :=
  outcome_bind (effects old new) (fun s => effects new s).

(** ** The component *)

(** The first render, and its effects. *)
Definition mount (l : ListLoaderData) : outcome page :=
  match quick_filter_destination_reset (attributes l), seed_column_layout (columns l) with
  | Val quick_filter, Val seeded =>
      path_effect
        {| p_loaded := l;
           p_view := {|
             v_search := loaded_search l;
             v_selected_name := reset_selected_name quick_filter;
             v_values := reset_values quick_filter;
             v_warning := reset_warning quick_filter;
             v_search_failed := false;
             v_layout_notice := None;
             v_sort := [];
             v_column_layout := seeded;
             v_column_signature := column_set_signature (columns l);
             v_search_busy := false |};
           p_refs := {|
             r_search_gen := 0;
             r_seeded_signature := column_set_signature (columns l);
             r_seeded_path := path l;
             r_effective := current_effective (loaded_search l) l;
             r_sort := [];
             r_paging := (limit (loaded_search l), offset (loaded_search l));
             r_clamp_inflight := false |};
           p_pending := [] |}
  | Exc e, _ | _, Exc e => Exc e
  end.

(** What the page reacts to. *)
Inductive page_event : Type :=
| SelectedNameChange (name : jstr)
| ValuesChange (values : QuickFilterValues)
| WarningChange (warning : option jstr)
| FilterSubmit (predicate : option P) (reset_start : bool)  (* filter editor, quick filter *)
| Refresh
| PagingChange (next : paging_change)
| SortClick (attribute : jstr)
| Reorder (from_index to_index : Z)
| ResizeCommit (attribute : jstr) (width_px : num)
| Answer (i : nat) (a : search_answer)
| Load (l : ListLoaderData).

Definition on_selected_name_change (name : jstr) (s : page) : page :=
  with_view (fun v => set_v_warning None (set_v_values no_values (set_v_selected_name name v))) s.

Definition on_paging_change (next : paging_change) (s : page) : page :=
  let s := with_refs (set_r_paging (next_limit next, next_offset next)) s in
  if negb (next_search next) then
    with_view (fun v => set_v_search
      {| rows := rows (v_search v); total := total (v_search v); limit := next_limit next;
         offset := next_offset next; effective_predicate := effective_predicate (v_search v) |} v) s
  else submit_current (r_effective (p_refs s)) None (Some (next_limit next)) (Some (next_offset next)) false s.

Definition on_sort_click (attribute : jstr) (s : page) : page :=
  let next := apply_sort_click (r_sort (p_refs s)) attribute in
  submit_current (r_effective (p_refs s)) (Some next) None None false
    (with_view (fun v => set_v_layout_notice None (set_v_sort next v)) (with_refs (set_r_sort next) s)).

Definition on_reorder (from_index to_index : Z) (s : page) : page :=
  with_view (fun v => set_v_column_layout
    {| layout_order := move_column_order (layout_order (v_column_layout v)) from_index to_index;
       layout_widths := layout_widths (v_column_layout v) |} v) s.

Definition on_resize_commit (attribute : jstr) (width_px : num) (s : page) : page :=
  with_view (fun v => set_v_column_layout
    {| layout_order := layout_order (v_column_layout v);
       layout_widths := <[attribute := NInt (clamp_column_width width_px)]> (layout_widths (v_column_layout v)) |} v) s.

Definition handle (e : page_event) (s : page) : page :=
  match e with
  | SelectedNameChange name => on_selected_name_change name s
  | ValuesChange values => with_view (set_v_values values) s
  | WarningChange warning => with_view (set_v_warning warning) s
  | FilterSubmit predicate reset_start => submit_current predicate None None None reset_start s
  | Refresh => submit_current (r_effective (p_refs s)) None None None false s
  | PagingChange next => on_paging_change next s
  | SortClick attribute => on_sort_click attribute s
  | Reorder from_index to_index => on_reorder from_index to_index s
  | ResizeCommit attribute width_px => on_resize_commit attribute width_px s
  | Answer i a =>
      match p_pending s !! i with
      | None => s
      | Some q => on_answer q a (with_pending (delete i) s)
      end
  | Load l => with_loaded l s
  end.

Definition page_step (e : page_event) (s : page) : outcome page := commit s (handle e s).

Fixpoint page_run (events : list page_event) (s : page) : outcome page :=
  match events with
  | [] => Val s
  | e :: rest => outcome_bind (page_step e s) (page_run rest)
  end.

(** The columns that the list shows, and whether the session's order failed. *)
Definition display_columns (s : page) : list ListColumn * bool :=
  match apply_column_order (columns (p_loaded s)) (layout_order (v_column_layout (p_view s))) with
  | Val resolved => (resolved, false)
  | Exc _ => (columns (p_loaded s), true)
  end.
End Page.

Arguments submit_search : simpl never.
Arguments commit : simpl never.
Arguments path_effect : simpl never.
Arguments column_effect : simpl never.

Section Proofs.
Context {P Row : Type} `{!EqDecision P}.

(** ** What the effects leave alone *)

(** Two states that differ in the refs for the sort, the paging and the filter
    at most. *)
Definition same_core (s s' : page (P:=P) (Row:=Row)) : Prop :=
  p_loaded s' = p_loaded s /\ p_view s' = p_view s /\ p_pending s' = p_pending s /\
  r_search_gen (p_refs s') = r_search_gen (p_refs s) /\
  r_clamp_inflight (p_refs s') = r_clamp_inflight (p_refs s) /\
  r_seeded_signature (p_refs s') = r_seeded_signature (p_refs s) /\
  r_seeded_path (p_refs s') = r_seeded_path (p_refs s).

Lemma same_core_trans s1 s2 s3 : same_core s1 s2 -> same_core s2 s3 -> same_core s1 s3.
Proof. unfold same_core. intuition congruence. Qed.

(** The effects of a render with the same data. *)
Lemma effects_same_loaded old new : p_loaded old = p_loaded new ->
  exists s, effects old new = Val s /\ same_core new s.
Proof.
  intros Hl. unfold effects. rewrite Hl, !seqb_refl. simpl.
  eexists. split; [reflexivity|]. unfold same_core.
  repeat case_match; repeat split.
Qed.

Lemma commit_same_loaded old new : p_loaded old = p_loaded new ->
  exists s, commit old new = Val s /\ same_core new s.
Proof.
  intros Hl. unfold commit. destruct (effects_same_loaded old new Hl) as (s1 & -> & H1). simpl.
  destruct (effects_same_loaded new s1) as (s2 & -> & H2); [symmetry; apply H1|].
  exists s2. split; [done|]. by apply same_core_trans with s1.
Qed.

(** ** Searches end *)

(** A search under way may be repeated once, at the last page; [potential]
    counts the answers that can still come. *)
Definition potential (s : page (P:=P) (Row:=Row)) : nat :=
  2 * length (p_pending s) + (if r_clamp_inflight (p_refs s) then 0 else 1).

Lemma on_answer_potential q a (s : page (P:=P) (Row:=Row)) :
  (potential (on_answer q a s) <= potential s + 1)%nat.
Proof.
  unfold on_answer, potential. destruct (negb _); [simpl; lia|]. destruct a as [items t l o|d|].
  - destruct (r_clamp_inflight (p_refs s)) eqn:Hc; rewrite ?andb_false_r, ?andb_true_r.
    + simpl. lia.
    + destruct (start_past_last_page o t l); simpl; [rewrite length_app; simpl; lia|]. lia.
  - simpl. destruct (r_clamp_inflight (p_refs s)); lia.
  - lia.
Qed.

Lemma on_answer_loaded q a (s : page (P:=P) (Row:=Row)) : p_loaded (on_answer q a s) = p_loaded s.
Proof. unfold on_answer. destruct (negb _), a; simpl; try done. by destruct (_ && _). Qed.

Lemma handle_loaded e (s : page (P:=P) (Row:=Row)) :
  match e with Load _ => True | _ => p_loaded (handle e s) = p_loaded s end.
Proof.
  destruct e as [| | | | |c| | | |i a|]; simpl; try done.
  - unfold on_paging_change. by destruct (negb _).
  - destruct (p_pending s !! i) as [q|]; [|done]. by rewrite on_answer_loaded.
Qed.

Lemma answer_potential i a (s s' : page (P:=P) (Row:=Row)) :
  (i < length (p_pending s))%nat -> page_step (Answer i a) s = Val s' -> (potential s' < potential s)%nat.
Proof.
  intros Hi. unfold page_step.
  destruct (commit_same_loaded s (handle (Answer i a) s)) as (s1 & -> & Hcore);
    [symmetry; exact (handle_loaded (Answer i a) s)|].
  intros [= <-]. destruct Hcore as (_ & _ & Hp & _ & Hc & _).
  assert (Hpot : potential s1 = potential (handle (Answer i a) s)) by (unfold potential; by rewrite Hp, Hc).
  rewrite Hpot. simpl. destruct (lookup_lt_is_Some_2 _ _ Hi) as [q Hq]. rewrite Hq.
  pose proof (on_answer_potential q a (with_pending (delete i) s)) as H.
  assert (Hlen : length (delete i (p_pending s)) = (length (p_pending s) - 1)%nat)
    by (apply length_delete; eauto).
  unfold potential in *. simpl in *. rewrite Hlen in H. lia.
Qed.

(** Answers one after the other, each to a search under way. *)
Inductive answered : page (P:=P) (Row:=Row) -> list (nat * search_answer) -> page -> Prop :=
| answered_nil s : answered s [] s
| answered_cons s i a s1 rest s' :
    (i < length (p_pending s))%nat -> page_step (Answer i a) s = Val s1 -> answered s1 rest s' ->
    answered s ((i, a) :: rest) s'.

Lemma answered_potential s answers s' : answered s answers s' ->
  (length answers + potential s' <= potential s)%nat.
Proof.
  induction 1 as [|s i a s1 rest s' Hi Hs _ IH]; simpl; [lia|].
  pose proof (answer_potential i a s s1 Hi Hs). lia.
Qed.

(** ** The busy flag *)

Definition search_threw (e : page_event (P:=P) (Row:=Row)) : bool :=
  match e with Answer _ SearchThrew => true | _ => false end.

(** While the page is busy, a search of the current list is under way. *)
Definition busy_ok (s : page (P:=P) (Row:=Row)) : Prop :=
  v_search_busy (p_view s) = true ->
  exists q, q ∈ p_pending s /\ rq_gen q = r_search_gen (p_refs s).

Lemma busy_ok_core s s' : same_core s s' -> busy_ok s -> busy_ok s'.
Proof. intros (_ & Hv & Hp & Hg & _). unfold busy_ok. by rewrite Hv, Hp, Hg. Qed.

Lemma busy_ok_submit c at_ p so l o b (s : page (P:=P) (Row:=Row)) : busy_ok (submit_search c at_ p so l o b s).
Proof.
  intros _. unfold submit_search. simpl. eexists. split; [apply elem_of_app; right; left|]. done.
Qed.

Lemma busy_ok_answer i a (s : page (P:=P) (Row:=Row)) : search_threw (Answer i a) = false -> busy_ok s ->
  busy_ok (handle (Answer i a) s).
Proof.
  intros Ht Hb. simpl. destruct (p_pending s !! i) as [q|] eqn:Hq; [|done].
  unfold on_answer. simpl. destruct (Z.eqb_spec (rq_gen q) (r_search_gen (p_refs s))) as [Hg|Hg]; simpl.
  - destruct a as [items t l o|d|]; [| |done].
    + destruct (_ && _); [apply busy_ok_submit|]. intros Hbusy. simpl in Hbusy. discriminate.
    + intros Hbusy. simpl in Hbusy. discriminate.
  - intros Hbusy. destruct (Hb Hbusy) as (q' & Hin & Hg'). exists q'. split; [|done].
    rewrite (delete_Permutation _ _ _ Hq) in Hin. apply elem_of_cons in Hin as [->|Hin]; done.
Qed.

Lemma busy_ok_handle e (s : page (P:=P) (Row:=Row)) : search_threw e = false -> busy_ok s -> busy_ok (handle e s).
Proof.
  intros Ht Hb. destruct e as [| | |p r| |c|at_| | |i a|l]; try exact Hb; try apply busy_ok_submit.
  - simpl. unfold on_paging_change. destruct (negb _); [exact Hb|apply busy_ok_submit].
  - by apply busy_ok_answer.
Qed.
(** ** Loads *)

(** Data that the loader can give: the display columns of a class with its
    attributes, on a path that belongs to the class. *)
Definition loader_ok (class_of_path : jstr -> jstr) (l : ListLoaderData (P:=P) (Row:=Row)) : Prop :=
  well_formed_columns (columns l) /\
  (exists r, quick_filter_destination_reset (attributes l) = Val r) /\
  class_name l = class_of_path (path l).

(** The loader's columns and attributes come from one class's metadata. *)
Lemma loader_ok_of_meta class_of_path meta (l : ListLoaderData (P:=P) (Row:=Row)) :
  NoDup (map attr_name_snake (meta_attributes meta)) ->
  Forall plain_name (map attr_name_snake (meta_attributes meta)) ->
  list_display_columns meta = Val (columns l) -> attributes l = meta_attributes meta ->
  class_name l = class_of_path (path l) -> loader_ok class_of_path l.
Proof.
  intros Hnd Hpl Hc Ha Hcl. split; [by eapply list_display_columns_well_formed|]. split; [|done].
  rewrite Ha. unfold list_display_columns in Hc.
  unfold quick_filter_destination_reset, quick_filter_ui_defaults, quick_filterable_attributes.
  destruct (attributes_in_declaration_order (meta_attributes meta)); [eauto|done].
Qed.

(** The session's order is an order of the columns shown, the seeds are those
    of the current list, and every search of the current generation was sent
    for its class. *)
Record page_ok (class_of_path : jstr -> jstr) (s : page (P:=P) (Row:=Row)) : Prop := {
  ok_loaded : loader_ok class_of_path (p_loaded s);
  ok_layout : layout_order (v_column_layout (p_view s)) ≡ₚ column_names (columns (p_loaded s));
  ok_seeded_path : r_seeded_path (p_refs s) = path (p_loaded s);
  ok_seeded_signature : r_seeded_signature (p_refs s) = column_set_signature (columns (p_loaded s));
  ok_pending : forall q, q ∈ p_pending s -> rq_gen q <= r_search_gen (p_refs s) /\
    (rq_gen q = r_search_gen (p_refs s) -> rq_class_name q = class_of_path (path (p_loaded s)));
}.

Section Invariant.
Context (class_of_path : jstr -> jstr).

Lemma page_ok_core s s' : same_core s s' -> page_ok class_of_path s -> page_ok class_of_path s'.
Proof.
  intros (Hl & Hv & Hp & Hg & _ & Hs & Hsp) [H1 H2 H3 H4 H5].
  constructor; rewrite ?Hl, ?Hv, ?Hp, ?Hg, ?Hs, ?Hsp; auto.
Qed.

Lemma page_ok_submit p so li o b s : page_ok class_of_path s ->
  page_ok class_of_path (submit_current p so li o b s).
Proof.
  intros [H1 H2 H3 H4 H5]. constructor; auto. unfold submit_current, submit_search. simpl.
  intros q [Hq|Hq]%elem_of_app; [auto|]. apply list_elem_of_singleton in Hq as ->. simpl.
  split; [lia|]. intros _. apply H1.
Qed.

Lemma page_ok_view f s : (forall v, layout_order (v_column_layout (f v)) ≡ₚ layout_order (v_column_layout v)) ->
  page_ok class_of_path s -> page_ok class_of_path (with_view f s).
Proof. intros Hf [H1 H2 H3 H4 H5]. constructor; auto. simpl. by rewrite Hf. Qed.

(** Refs other than the generation and the seeds. *)
Lemma page_ok_refs f s :
  (forall r, r_search_gen (f r) = r_search_gen r /\ r_seeded_signature (f r) = r_seeded_signature r /\
     r_seeded_path (f r) = r_seeded_path r) ->
  page_ok class_of_path s -> page_ok class_of_path (with_refs f s).
Proof.
  intros Hf [H1 H2 H3 H4 H5]. destruct (Hf (p_refs s)) as (Hg & Hs & Hp).
  constructor; simpl; rewrite ?Hg, ?Hs, ?Hp; auto.
Qed.

Lemma page_ok_answer i a s : page_ok class_of_path s -> page_ok class_of_path (handle (Answer i a) s).
Proof.
  intros Hok. simpl. destruct (p_pending s !! i) as [q|] eqn:Hq; [|done].
  assert (Hdel : page_ok class_of_path (with_pending (delete i) s)).
  { destruct Hok as [H1 H2 H3 H4 H5]. constructor; auto. simpl. intros q' Hin. apply H5.
    by apply list_elem_of_delete_inv in Hin. }
  assert (Hin : q ∈ p_pending s) by (by eapply list_elem_of_lookup_2).
  unfold on_answer. destruct (Z.eqb_spec (rq_gen q) (r_search_gen (p_refs (with_pending (delete i) s)))) as [Hg|Hg];
    simpl negb; cbv iota; [|done].
  destruct a as [items t l o|d|]; [| |done].
  - destruct (_ && _).
    + assert (Hr : page_ok class_of_path (with_refs (fun r => set_r_effective (rq_predicate q)
        (set_r_clamp_inflight true r)) (with_pending (delete i) s))) by (by apply page_ok_refs).
      destruct Hr as [H1 H2 H3 H4 H5]. constructor; auto. unfold submit_search. simpl in *.
      intros q' [Hq'|Hq']%elem_of_app; [by apply H5|]. apply list_elem_of_singleton in Hq' as ->. simpl.
      split; [lia|]. intros _. destruct Hok as [_ _ _ _ Hpend]. by apply Hpend.
    + apply page_ok_refs; [done|]. by apply page_ok_view.
  - apply page_ok_refs; [done|]. by apply page_ok_view.
Qed.

Lemma page_ok_handle e s : match e with Load _ => False | _ => True end ->
  page_ok class_of_path s -> page_ok class_of_path (handle e s).
Proof.
  intros He Hok. destruct e as [name|v|w|p r| |c|at_|f t|at_ w|i a|l]; try done; simpl.
  - by apply page_ok_view.
  - by apply page_ok_view.
  - by apply page_ok_view.
  - by apply page_ok_submit.
  - by apply page_ok_submit.
  - unfold on_paging_change. destruct (negb _).
    + apply page_ok_view; [done|]. by apply page_ok_refs.
    + apply page_ok_submit. by apply page_ok_refs.
  - apply page_ok_submit. apply page_ok_view; [done|]. by apply page_ok_refs.
  - apply page_ok_view; [|done]. intros v. simpl. apply move_column_order_perm.
  - by apply page_ok_view.
  - by apply page_ok_answer.
Qed.

Lemma path_effect_ok s : loader_ok class_of_path (p_loaded s) ->
  (forall q, q ∈ p_pending s -> rq_gen q <= r_search_gen (p_refs s)) ->
  exists s', path_effect s = Val s' /\ page_ok class_of_path s' /\ p_loaded s' = p_loaded s /\
    v_search_busy (p_view s') = false /\ p_pending s' = p_pending s /\
    r_search_gen (p_refs s') = r_search_gen (p_refs s) + 1.
Proof.
  intros Hl Hp. pose proof Hl as (Hw & (r & Hr) & _). unfold path_effect. rewrite Hr.
  destruct (seed_column_layout_ok _ Hw) as (lay & Hlay & Ho). rewrite Hlay.
  eexists. split; [reflexivity|]. split; [|done].
  constructor; simpl; try done; [by rewrite Ho|]. intros q Hq. specialize (Hp q Hq). lia.
Qed.

Lemma column_effect_ok old_columns layout signature s :
  loader_ok class_of_path (p_loaded s) -> well_formed_columns old_columns ->
  layout = v_column_layout (p_view s) ->
  layout_order layout ≡ₚ column_names old_columns ->
  r_seeded_path (p_refs s) = path (p_loaded s) ->
  r_seeded_signature (p_refs s) = column_set_signature old_columns ->
  (forall q, q ∈ p_pending s -> rq_gen q <= r_search_gen (p_refs s) /\
    (rq_gen q = r_search_gen (p_refs s) -> rq_class_name q = class_of_path (path (p_loaded s)))) ->
  exists s', column_effect layout signature s = Val s' /\ page_ok class_of_path s' /\
    p_loaded s' = p_loaded s /\ v_search_busy (p_view s') = v_search_busy (p_view s) /\
    p_pending s' = p_pending s /\ r_search_gen (p_refs s') = r_search_gen (p_refs s).
Proof.
  intros Hl Hold Hlay Hperm Hpath Hsig Hpend. unfold column_effect. rewrite Hpath, seqb_refl. cbn [negb].
  destruct (seqb _ _) eqn:Heq.
  - apply seqb_eq in Heq. exists s. split; [done|]. split; [|done].
    assert (Hsig' : r_seeded_signature (p_refs s) = column_set_signature (columns (p_loaded s))) by done.
    constructor; try done. rewrite <- Hlay, Hperm. apply signature_eq; [apply Hold|apply Hl|congruence].
  - destruct (reconcile_ok (columns (p_loaded s)) (Some layout) (Some signature) (proj1 Hl))
      as (r & Hr & Ho & Hs & Hkeep).
    rewrite Hr. destruct (rec_reset r) eqn:Hreset.
    + eexists. split; [reflexivity|]. split; [|done]. constructor; simpl; done.
    + destruct (Hkeep eq_refl) as [|[= Hk]]; [done|]. eexists. split; [reflexivity|]. split; [|done].
      constructor; simpl; try done. by rewrite <- Hlay, Hk.
Qed.
Lemma column_effect_noop layout signature s : page_ok class_of_path s -> column_effect layout signature s = Val s.
Proof.
  intros [H1 H2 H3 H4 H5]. unfold column_effect. rewrite H3, H4, !seqb_refl. done.
Qed.

Lemma load_effects_ok s l : page_ok class_of_path s -> loader_ok class_of_path l ->
  exists s1, effects s (with_loaded l s) = Val s1 /\ page_ok class_of_path s1 /\ p_loaded s1 = l /\
    (busy_ok s -> busy_ok s1).
Proof.
  intros Hok Hl. unfold effects. cbn [with_loaded p_view p_loaded p_refs].
  rewrite bool_decide_eq_true_2, !Z.eqb_refl by done. cbn [andb].
  assert (Hlast : forall s1, page_ok class_of_path s1 -> p_loaded s1 = l -> (busy_ok s -> busy_ok s1) ->
    exists s2, Val (if bool_decide (effective_predicate (v_search (p_view s)) = effective_predicate (v_search (p_view s)))
          && bool_decide (baseline_predicate (p_loaded s) = baseline_predicate l)
       then s1 else with_refs (set_r_effective (current_effective (v_search (p_view s)) l)) s1) = Val s2 /\
      page_ok class_of_path s2 /\ p_loaded s2 = l /\ (busy_ok s -> busy_ok s2)).
  { intros s1 H1 H2 H3. eexists. split; [reflexivity|]. destruct (_ && _); [done|].
    split; [by apply page_ok_refs|]. split; [done|]. intros Hb. by apply H3 in Hb. }
  destruct Hok as [H1 H2 H3 H4 H5]. destruct (seqb (path (p_loaded s)) (path l)) eqn:Hpath; cbn [outcome_bind].
  - apply seqb_eq in Hpath.
    destruct (column_effect_ok (columns (p_loaded s)) (v_column_layout (p_view s)) (v_column_signature (p_view s))
      (with_loaded l s)) as (s1 & He & Hs1 & Hld & Hbusy & Hpend & Hgen); try done.
    { by apply H1. } { simpl. congruence. } { simpl. rewrite <- Hpath. done. }
    assert (Hb1 : busy_ok s -> busy_ok s1).
    { unfold busy_ok. rewrite Hbusy, Hpend, Hgen. auto. }
    destruct (seqb (column_set_signature (columns (p_loaded s))) (column_set_signature (columns l))) eqn:Hsig;
      cbn [andb outcome_bind].
    + apply Hlast; [|done|auto]. unfold column_effect in He. cbn [with_loaded p_loaded p_refs] in He.
      apply seqb_eq in Hsig. rewrite H3, H4, Hpath, Hsig, !seqb_refl in He. cbn [negb] in He.
      injection He as <-. done.
    + rewrite He. cbn [outcome_bind]. by apply Hlast.
  - destruct (path_effect_ok (with_loaded l s)) as (s1 & He & Hs1 & Hld & Hbusy & _); [done|naive_solver|].
    rewrite He. cbn [outcome_bind]. rewrite andb_false_r, column_effect_noop by done. cbn [outcome_bind].
    apply Hlast; [done|done|]. intros _ Hb. rewrite Hbusy in Hb. done.
Qed.

(** The events of a page: loads come from the loader. *)
Definition event_ok (e : page_event (P:=P) (Row:=Row)) : Prop :=
  match e with Load l => loader_ok class_of_path l | _ => True end.

Lemma page_step_ok e s : event_ok e -> page_ok class_of_path s ->
  exists s', page_step e s = Val s' /\ page_ok class_of_path s' /\
    (search_threw e = false -> busy_ok s -> busy_ok s').
Proof.
  intros He Hok. unfold page_step.
  destruct (match e with Load _ => true | _ => false end) eqn:Hload.
  - destruct e as [| | | | | | | | | |l]; try done. simpl. unfold commit.
    destruct (load_effects_ok s l Hok He) as (s1 & H1 & Hok1 & Hl1 & Hb1). rewrite H1. cbn [outcome_bind].
    destruct (effects_same_loaded (with_loaded l s) s1) as (s2 & -> & Hcore); [by rewrite Hl1|].
    exists s2. split; [done|]. split; [by apply page_ok_core with s1|].
    intros _ Hb. apply (busy_ok_core s1); auto.
  - pose proof (handle_loaded e s) as Hld.
    destruct (commit_same_loaded s (handle e s)) as (s1 & -> & Hcore); [destruct e; done|].
    exists s1. split; [done|]. split.
    + apply page_ok_core with (handle e s); [done|]. apply page_ok_handle; [by destruct e|done].
    + intros Ht Hb. apply (busy_ok_core (handle e s)); [done|]. by apply busy_ok_handle.
Qed.

Lemma page_run_ok events s : Forall event_ok events -> page_ok class_of_path s ->
  exists s', page_run events s = Val s' /\ page_ok class_of_path s' /\
    (Forall (fun e => search_threw e = false) events -> busy_ok s -> busy_ok s').
Proof.
  intros He. revert s. induction He as [|e events He Hes IH]; intros s Hok; simpl; [eauto|].
  destruct (page_step_ok e s He Hok) as (s1 & -> & Hok1 & Hb1). simpl.
  destruct (IH s1 Hok1) as (s2 & -> & Hok2 & Hb2). exists s2. split; [done|]. split; [done|].
  intros [Ht Hts]%Forall_cons Hb. auto.
Qed.

Lemma mount_ok l : loader_ok class_of_path l ->
  exists s, mount l = Val s /\ page_ok class_of_path s /\ busy_ok s.
Proof.
  intros Hl. pose proof Hl as (Hw & (r & Hr) & _). unfold mount. rewrite Hr.
  destruct (seed_column_layout_ok _ Hw) as (lay & Hlay & Ho). rewrite Hlay.
  edestruct path_effect_ok as (s1 & He & Hs1 & _ & Hbusy & _); [| |exists s1; split; [exact He|]].
  - exact Hl.
  - simpl. intros q Hq. by apply not_elem_of_nil in Hq.
  - split; [done|]. intros Hb. congruence.
Qed.

Lemma page_reached l events : loader_ok class_of_path l -> Forall event_ok events ->
  exists s0 s, mount l = Val s0 /\ page_run events s0 = Val s /\ page_ok class_of_path s /\
    (Forall (fun e => search_threw e = false) events -> busy_ok s).
Proof.
  intros Hl He. destruct (mount_ok l Hl) as (s0 & Hm & Hok & Hb).
  destruct (page_run_ok events s0 He Hok) as (s & Hr & Hok' & Hb'). exists s0, s. auto.
Qed.

(** Whatever columns are moved and resized, whatever searches are answered and
    however the data is loaded again, the page never throws and never falls
    back to the default order: it shows every column of its list once, in the
    order of the session. *)
Theorem page_shows_its_columns l events : loader_ok class_of_path l -> Forall event_ok events ->
  exists s0 s, mount l = Val s0 /\ page_run events s0 = Val s /\
    let '(shown, fell_back) := display_columns s in
    fell_back = false /\ shown ≡ₚ columns (p_loaded s) /\
    column_names shown = layout_order (v_column_layout (p_view s)).
Proof.
  intros Hl He. destruct (page_reached l events Hl He) as (s0 & s & Hm & Hr & [H1 H2 H3 H4 H5] & _).
  exists s0, s. split; [done|]. split; [done|]. unfold display_columns.
  pose proof (proj1 H1) as (Hnd & _).
  destruct (session_order_resolves (columns (p_loaded s)) (layout_order (v_column_layout (p_view s))))
    as (shown & Ha & Hs & Hn); [done|done|]. by rewrite Ha.
Qed.


End Invariant.
End Proofs.

(** ** Examples *)

Definition sample_attribute (name type_name : jstr) (order : Z) : AttributeFieldMeta := {|
  attr_name_snake := name; attr_type_name := type_name; attr_required := false; attr_references := None;
  attr_order := NInt order; attr_create_default := None; attr_min_value := None; attr_max_value := None |}.

Definition sample_meta : ClassFieldMeta := {|
  meta_name_snake := u "ticket"; meta_display_name := u "Ticket";
  meta_attributes := [sample_attribute (u "title") (u "text") 0; sample_attribute (u "number") (u "friendly_id") 1;
                      sample_attribute (u "cost") (u "decimal") 2];
  meta_friendly_id_attr := Some (u "number"); meta_display_attribute := None; meta_public := false;
  meta_permissions := [] |}.

Definition sample_columns : list ListColumn :=
  match list_display_columns sample_meta with Val cs => cs | Exc _ => [] end.

(** A list with the baseline filter 7, whose rows are numbers. *)
Definition sample_list : ListLoaderData (P:=Z) (Row:=Z) := {|
  class_name := u "ticket"; path := u "/lists/ticket/open"; columns := sample_columns;
  attributes := meta_attributes sample_meta; baseline_predicate := Some 7;
  loaded_search := {| rows := [1; 2]; total := 45; limit := 20; offset := 0; effective_predicate := Some 7 |} |}.

Definition sample_path_class (_ : jstr) : jstr := u "ticket".

Lemma sample_list_ok : loader_ok sample_path_class sample_list.
Proof.
  apply (loader_ok_of_meta _ sample_meta); try done.
  - refine (bool_decide_eq_true_1 _ _). vm_compute. reflexivity.
  - repeat constructor; try discriminate; refine (bool_decide_eq_true_1 _ _); vm_compute; reflexivity.
Qed.

(** The state after the events, or an exception. *)
Definition sample_run (events : list (page_event (P:=Z) (Row:=Z))) : outcome (page (P:=Z) (Row:=Z)) :=
  outcome_bind (mount sample_list) (page_run events).

Lemma page_shows_its_columns_witness :
  (match sample_run [Reorder 0 3; ResizeCommit (u "cost") (NInt 10); SortClick (u "title")] with
   | Val s => column_names (fst (display_columns s))
   | Exc _ => []
   end) = [u "title"; u "cost"; u "number"] /\
  exists s0 s, mount sample_list = Val s0 /\
    page_run [Reorder 0 3; ResizeCommit (u "cost") (NInt 10); SortClick (u "title")] s0 = Val s /\
    let '(shown, fell_back) := display_columns s in
    fell_back = false /\ shown ≡ₚ columns (p_loaded s) /\
    column_names shown = layout_order (v_column_layout (p_view s)).
Proof.
  split; [vm_compute; reflexivity|].
  apply (page_shows_its_columns sample_path_class sample_list); [apply sample_list_ok|].
  repeat constructor.
Defined.



(** Two sorts in a row whose answers come in the other order: the header says
    descending, the rows are those of the ascending search. *)
Example late_answer_overwrites :
  (match sample_run [SortClick (u "title"); SortClick (u "title");
                     Answer 1 (SearchOk [9; 8] 2 20 0); Answer 0 (SearchOk [8; 9] 2 20 0)] with
   | Val s => Some (map sort_dir (v_sort (p_view s)), rows (v_search (p_view s)), length (p_pending s))
   | Exc _ => None
   end) = Some ([desc], [8; 9], 0%nat).
Proof. vm_compute. reflexivity. Qed.

(** The filter is cleared on a list that has a baseline filter: the page shows
    no filter, and the next search is for the baseline again. *)
Example cleared_filter_comes_back :
  (match sample_run [FilterSubmit None true; Answer 0 (SearchOk [1; 2; 3] 60 20 0); SortClick (u "title")] with
   | Val s => Some (effective_predicate (v_search (p_view s)), map rq_predicate (p_pending s))
   | Exc _ => None
   end) = Some (None, [Some 7]).
Proof. vm_compute. reflexivity. Qed.

(** A search that ends with an exception leaves the page busy for good. *)
Example exception_leaves_busy :
  (match sample_run [Refresh; Answer 0 SearchThrew] with
   | Val s => Some (v_search_busy (p_view s), length (p_pending s))
   | Exc _ => None
   end) = Some (true, 0%nat).
Proof. vm_compute. reflexivity. Qed.
