(* ===== verification/Nav.v ===== *)
(** shell/nav_schema.ts, nav_paths.ts, nav_filter.ts, nav_landing.ts,
    nav_prefs.ts, nav_config.server.ts and well_known_substitute.ts, with
    records/record_paths.ts: the navigation that a reader is offered, the paths
    of its entries and the preferences of the rail. *)
From S2P Require Import Prelude JsString JsValue JsText JsDate JsArray RedisRateLimit ListColumns QuickFilter.

(** ** nav_schema.ts *)

(** The options of a class section; the predicate of a list is passed on. *)
Inductive NavOptionView : Type :=
| NewOption (display_name : jstr)
| ListOption (display_name : jstr) (predicate : option SearchPredicate).

Definition option_display_name (o : NavOptionView) : jstr :=
  match o with NewOption n | ListOption n _ => n end.

Definition is_list_option (o : NavOptionView) : bool := match o with ListOption _ _ => true | NewOption _ => false end.

Record NavClassSectionView : Type := {
  section_display_name : jstr;
  section_class_name : jstr;
  section_options : list NavOptionView;
}.

Record NavObjectSectionView : Type := {
  object_display_name : jstr;
  object_class_name : jstr;
  object_id : jstr;
}.

Inductive NavSectionView : Type :=
| ClassSection (s : NavClassSectionView)
| ObjectSection (s : NavObjectSectionView).

(** A section as the YAML document has it, [class] and [object]. *)
Inductive NavSection : Type :=
| YamlClass (display_name class : jstr) (options : list NavOptionView)
| YamlObject (display_name class id : jstr).

Definition to_nav_bar_view (sections : list NavSection) : list NavSectionView :=
  map (fun section =>
    match section with
    | YamlObject display_name class id =>
        ObjectSection {| object_display_name := display_name; object_class_name := class; object_id := id |}
    | YamlClass display_name class options =>
        ClassSection {| section_display_name := display_name; section_class_name := class;
                        section_options := options |}
    end) sections.

(** ** well_known_substitute.ts *)

(** [[a-z][a-z0-9]*(?:_[a-z0-9]+)*] *)
Definition snake_unit (c : Z) : bool := is_lower c || is_digit c || (c =? 95).

Definition snake_name (name : jstr) : bool :=
  match name with
  | c :: _ => is_lower c && forallb (fun part => negb (bool_decide (part = []))) (split_on 95 name)
  | [] => false
  end.

(** A token at the front: its name and what follows it. *)
Definition token_at (s : jstr) : option (jstr * jstr) :=
  match s with
  | 36 :: 123 :: r =>
      let name := take_while snake_unit r in
      match drop_while snake_unit r with
      | 125 :: rest => if snake_name name then Some (name, rest) else None
      | _ => None
      end
  | _ => None
  end.

(** The text cut at its tokens: [inl] a unit, [inr] a name. *)
Fixpoint tokens (fuel : nat) (s : jstr) : list (Z + jstr) :=
  match fuel with
  | O => []
  | S fuel =>
      match s with
      | [] => []
      | c :: s' =>
          match token_at s with
          | Some (name, rest) => inr name :: tokens fuel rest
          | None => inl c :: tokens fuel s'
          end
      end
  end.

Definition text_tokens (s : jstr) : list (Z + jstr) := tokens (length s) s.

Definition has_substitution_token (text : jstr) : bool :=
  existsb (fun t => match t with inr _ => true | inl _ => false end) (text_tokens text).

(** The generated catalog: the names of each context, and their values. *)
Record Catalog : Type := {
  substitution_contexts : gmap jstr (list jstr);
  well_known : gmap jstr jstr;
}.

Section Substitution.
Context (catalog : Catalog).

Definition substitution_error (message : jstr) : exn := Error_ (u "SubstitutionError: " ++ message).

Fixpoint substitute_tokens (names : list jstr) (values : gmap jstr jstr) (context : jstr) (ts : list (Z + jstr))
  : outcome jstr :=
  match ts with
  | [] => Val []
  | inl c :: ts' =>
      match substitute_tokens names values context ts' with Val r => Val (c :: r) | Exc e => Exc e end
  | inr name :: ts' =>
      if negb (in_set name names) then
        Exc (substitution_error (u "substitution '${" ++ name ++ u "}' is not available in context "
                                 ++ json_string context))
      else match values !! name with
           | None =>
               Exc (substitution_error (u "undefined substitution '${" ++ name ++ u "}' in context "
                                        ++ json_string context))
           | Some v =>
               match substitute_tokens names values context ts' with Val r => Val (v ++ r) | Exc e => Exc e end
           end
  end.

(** [env] overrides the catalog. *)
Definition substitute (text context : jstr) (env : gmap jstr jstr) : outcome jstr :=
  match substitution_contexts catalog !! context with
  | None => Exc (substitution_error (u "unknown substitution context: " ++ json_string context))
  | Some names => substitute_tokens names (env ∪ well_known catalog) context (text_tokens text)
  end.

(** ** nav_config.server.ts *)

Definition resolve_section (section : NavSection) : outcome NavSection :=
  match section with
  | YamlClass display_name _ _ =>
      if has_substitution_token display_name then
        Exc (substitution_error (u "unsubstituted token in class section display_name "
                                 ++ json_string display_name))
      else Val section
  | YamlObject display_name class id =>
      match substitute id (u "nav_bar") ∅ with
      | Exc e => Exc e
      | Val id =>
          if has_substitution_token display_name then
            Exc (substitution_error (u "unsubstituted token in object section display_name "
                                     ++ json_string display_name))
          else if has_substitution_token id then
            Exc (substitution_error (u "unsubstituted token remaining in object id " ++ json_string id))
          else Val (YamlObject display_name class id)
      end
  end.

Fixpoint resolve_nav_bar_substitutions (sections : list NavSection) : outcome (list NavSection) :=
  match sections with
  | [] => Val []
  | s :: rest =>
      match resolve_section s with
      | Exc e => Exc e
      | Val s' => match resolve_nav_bar_substitutions rest with Exc e => Exc e | Val r => Val (s' :: r) end
      end
  end.

(** The memoised view; [document] is the YAML file parsed and validated. *)
Definition load_default_nav (document : outcome (list NavSection)) (cached : option (list NavSectionView))
  : outcome (list NavSectionView) * option (list NavSectionView) :=
  match cached with
  | Some nav => (Val nav, cached)
  | None =>
      match document with
      | Exc e => (Exc e, None)
      | Val sections =>
          match resolve_nav_bar_substitutions sections with
          | Exc e => (Exc e, None)
          | Val resolved => let nav := to_nav_bar_view resolved in (Val nav, Some nav)
          end
      end
  end.
End Substitution.

Definition SECONDS_PER_DAY : Z := 86400.

(** [.000Z] replaced by [Z]. *)
Definition format_utc_iso_z (value : Z) : jstr :=
  let s := to_iso_string (utc_seconds value) in
  take (length s - 5) s ++ u "Z".

Definition clock_env (now : Z) : gmap jstr jstr :=
  <[u "now" := format_utc_iso_z now]>
    (<[u "tomorrow" := format_utc_iso_z (utc_seconds now + SECONDS_PER_DAY * 1000)]> ∅).

(** ** nav_paths.ts *)

Definition slug_unit (c : Z) : bool := is_lower c || is_digit c.

(** [.replace(/[^a-z0-9]+/g, "-")]; [in_run]: the last unit was replaced. *)
Fixpoint dash_runs (in_run : bool) (s : jstr) : jstr :=
  match s with
  | [] => []
  | c :: s' =>
      if slug_unit c then c :: dash_runs false s'
      else if in_run then dash_runs true s' else 45 :: dash_runs true s'
  end.

Definition strip_dashes (s : jstr) : jstr :=
  rev (drop_while (Z.eqb 45) (rev (drop_while (Z.eqb 45) s))).

Definition display_name_to_slug (display_name : jstr) : jstr :=
  strip_dashes (dash_runs false (to_lower (trim display_name))).

(** record_paths.ts; a lone surrogate throws. *)
Definition record_detail_path (class_name locator : jstr) : outcome jstr :=
  match or_uri_error (encodeURIComponent locator) with
  | Exc e => Exc e
  | Val encoded => Val (u "/" ++ class_name ++ u "/" ++ encoded)
  end.

Record NavMatch : Type := {
  match_section : NavClassSectionView;
  match_option : NavOptionView;
  match_path : jstr;
}.

Section Paths.
(** The generated metadata, by class name. *)
Context (class_field_meta : jstr -> option ClassFieldMeta).

Definition is_known_class (class_name : jstr) : bool :=
  match class_field_meta class_name with Some _ => true | None => false end.

Definition option_path (section : NavClassSectionView) (o : NavOptionView) : option jstr :=
  if negb (is_known_class (section_class_name section)) then None
  else match o with
       | NewOption _ => Some (u "/" ++ section_class_name section ++ u "/new")
       | ListOption display_name _ =>
           let slug := display_name_to_slug display_name in
           if bool_decide (slug = []) then None
           else Some (u "/" ++ section_class_name section ++ u "/lists/" ++ slug)
       end.

Definition object_section_path (section : NavObjectSectionView) : outcome (option jstr) :=
  if negb (is_known_class (object_class_name section)) then Val None
  else match record_detail_path (object_class_name section) (object_id section) with
       | Exc e => Exc e
       | Val p => Val (Some p)
       end.

(** The first option of a section whose path is the one asked for. *)
Definition match_in_section (section : NavClassSectionView) (pathname : jstr) : option NavMatch :=
  match find (fun o => bool_decide (option_path section o = Some pathname)) (section_options section) with
  | Some o => Some {| match_section := section; match_option := o; match_path := pathname |}
  | None => None
  end.

Fixpoint find_match_for_path (nav : list NavSectionView) (pathname : jstr) : option NavMatch :=
  match nav with
  | [] => None
  | ObjectSection _ :: rest => find_match_for_path rest pathname
  | ClassSection s :: rest =>
      match match_in_section s pathname with
      | Some m => Some m
      | None => find_match_for_path rest pathname
      end
  end.

Definition is_section_of (class_name : jstr) (s : NavSectionView) : bool :=
  match s with ClassSection c => seqb (section_class_name c) class_name | ObjectSection _ => false end.

Definition open_class_for_path (nav : list NavSectionView) (pathname : jstr) : option jstr :=
  match find_match_for_path nav pathname with
  | Some m => Some (section_class_name (match_section m))
  | None =>
      match List.filter (fun s => negb (bool_decide (s = []))) (split_on 47 pathname) with
      | [class_name; _] =>
          if negb (is_known_class class_name) then None
          else if existsb (is_section_of class_name) nav then Some class_name else None
      | _ => None
      end
  end.

(** The first class section of the class. *)
Definition class_section (nav : list NavSectionView) (class_name : jstr) : option NavClassSectionView :=
  match find (is_section_of class_name) nav with
  | Some (ClassSection s) => Some s
  | _ => None
  end.

Definition find_list_option (nav : list NavSectionView) (class_name list_id : jstr) : option NavMatch :=
  if negb (is_known_class class_name) then None
  else match class_section nav class_name with
       | None => None
       | Some section =>
           match find (fun o => is_list_option o && seqb (display_name_to_slug (option_display_name o)) list_id)
                   (section_options section) with
           | None => None
           | Some o =>
               match option_path section o with
               | None => None
               | Some path => Some {| match_section := section; match_option := o; match_path := path |}
               end
           end
       end.

Definition find_new_option (nav : list NavSectionView) (class_name : jstr) : option NavMatch :=
  if negb (is_known_class class_name) then None
  else match class_section nav class_name with
       | None => None
       | Some section =>
           match find (fun o => negb (is_list_option o)) (section_options section) with
           | None => None
           | Some o =>
               match option_path section o with
               | None => None
               | Some path => Some {| match_section := section; match_option := o; match_path := path |}
               end
           end
       end.

Fixpoint find_object_section_for_path (nav : list NavSectionView) (pathname : jstr)
  : outcome (option NavObjectSectionView) :=
  match nav with
  | [] => Val None
  | ClassSection _ :: rest => find_object_section_for_path rest pathname
  | ObjectSection s :: rest =>
      match object_section_path s with
      | Exc e => Exc e
      | Val p =>
          if bool_decide (p = Some pathname) then Val (Some s)
          else find_object_section_for_path rest pathname
      end
  end.

Definition is_class_section (s : NavSectionView) : bool :=
  match s with ClassSection _ => true | ObjectSection _ => false end.

(** ** nav_filter.ts *)

Definition has_admin (permissions : list jstr) : bool := in_set (u "admin") permissions.

Definition has_class_permission (permissions : list jstr) (class_name : jstr) : bool :=
  has_admin permissions || existsb (starts_with (class_name ++ u ":")) permissions.

Definition can_read_class (permissions : list jstr) (class_name : jstr) : bool :=
  match class_field_meta class_name with
  | Some meta => meta_public meta
  | None => false
  end || (has_admin permissions || in_set (class_name ++ u ":read") permissions).

Definition has_class_access (permissions : list jstr) (class_name : jstr) : bool :=
  has_class_permission permissions class_name || can_read_class permissions class_name.

Definition can_create_class (permissions : list jstr) (class_name : jstr) : bool :=
  has_admin permissions || in_set (class_name ++ u ":create") permissions.

Definition can_update_class (permissions : list jstr) (class_name : jstr) : bool :=
  has_admin permissions || in_set (class_name ++ u ":update") permissions.

Definition option_permitted (permissions : list jstr) (class_name : jstr) (o : NavOptionView) : bool :=
  if is_list_option o then can_read_class permissions class_name else can_create_class permissions class_name.

Definition filter_section (permissions : list jstr) (section : NavSectionView) : option NavSectionView :=
  match section with
  | ObjectSection s => if can_read_class permissions (object_class_name s) then Some section else None
  | ClassSection s =>
      if negb (has_class_access permissions (section_class_name s)) then None
      else match List.filter (option_permitted permissions (section_class_name s)) (section_options s) with
           | [] => None
           | options => Some (ClassSection {| section_display_name := section_display_name s;
                                              section_class_name := section_class_name s;
                                              section_options := options |})
           end
  end.

Definition filter_nav_by_permissions (nav : list NavSectionView) (permissions : list jstr) : list NavSectionView :=
  omap (filter_section permissions) nav.

(** ** nav_landing.ts *)

Definition PREFERRED_CLASS : jstr := u "change_request".

Definition PREFERRED_LIST_SLUG : jstr := u "all".

(** The first path of the options of a section that satisfies [f]. *)
Fixpoint first_path (section : NavClassSectionView) (f : NavOptionView -> jstr -> bool) (options : list NavOptionView)
  : option jstr :=
  match options with
  | [] => None
  | o :: rest =>
      match option_path section o with
      | Some path => if f o path then Some path else first_path section f rest
      | None => first_path section f rest
      end
  end.

Fixpoint first_landing (nav : list NavSectionView) (g : NavClassSectionView -> bool) (f : NavOptionView -> jstr -> bool)
  : option jstr :=
  match nav with
  | [] => None
  | ObjectSection _ :: rest => first_landing rest g f
  | ClassSection s :: rest =>
      if g s then
        match first_path s f (section_options s) with
        | Some path => Some path
        | None => first_landing rest g f
        end
      else first_landing rest g f
  end.

Definition default_landing_path (nav : list NavSectionView) (permissions : list jstr) : option jstr :=
  let visible := filter_nav_by_permissions nav permissions in
  match first_landing visible (fun s => seqb (section_class_name s) PREFERRED_CLASS)
          (fun o path => is_list_option o && ends_with (u "/lists/" ++ PREFERRED_LIST_SLUG) path) with
  | Some path => Some path
  | None => first_landing visible (fun _ => true) (fun _ _ => true)
  end.
End Paths.

(** ** nav_prefs.ts *)

Definition NAV_WIDTH_MIN_PX : Z := 100.
Definition NAV_WIDTH_MAX_PX : Z := 400.
Definition NAV_COLLAPSED_WIDTH_PX : Z := 40.
Definition NAV_DEFAULT_WIDTH_PX : Z := 240.
Definition NAV_NARROW_BREAKPOINT_PX : Z := 1024.

Record NavPrefs : Type := {
  collapsed : bool;
  last_expanded_width : num;
}.

Definition clamp_nav_width (width : num) : Z :=
  if negb (is_finite width) then NAV_DEFAULT_WIDTH_PX
  else Z.min NAV_WIDTH_MAX_PX (Z.max NAV_WIDTH_MIN_PX (math_round width)).

Definition default_nav_prefs (viewport_width : num) : NavPrefs := {|
  collapsed := num_ltb viewport_width (NInt NAV_NARROW_BREAKPOINT_PX);
  last_expanded_width := NInt NAV_DEFAULT_WIDTH_PX |}.

Definition parse_nav_prefs (raw : option jstr) : option NavPrefs :=
  match raw with
  | None => None
  | Some text =>
      if bool_decide (text = []) then None
      else match json_parse text with
           | Some v =>
               match vget v (u "collapsed"), vget v (u "last_expanded_width") with
               | VBool c, VNum w => Some {| collapsed := c; last_expanded_width := NInt (clamp_nav_width w) |}
               | _, _ => None
               end
           | None => None
           end
  end.

Definition prefs_json (prefs : NavPrefs) : jsval :=
  VObj [(u "collapsed", VBool (collapsed prefs));
        (u "last_expanded_width", VNum (NInt (clamp_nav_width (last_expanded_width prefs))))].

Definition serialize_nav_prefs (prefs : NavPrefs) : jstr :=
  match json_stringify (prefs_json prefs) with Some t => t | None => [] end.

(** [stored] is [storage.getItem(NAV_PREFS_STORAGE_KEY)]. *)
Definition read_nav_prefs (stored : option jstr) (viewport_width : num) : NavPrefs :=
  match parse_nav_prefs stored with Some prefs => prefs | None => default_nav_prefs viewport_width end.

Definition effective_nav_width (prefs : NavPrefs) : Z :=
  if collapsed prefs then NAV_COLLAPSED_WIDTH_PX else clamp_nav_width (last_expanded_width prefs).

Example slug_example : display_name_to_slug (u "  In Progress / Q&A! ") = u "in-progress-q-a".
Proof. vm_compute. reflexivity. Qed.

Example substitute_example :
  substitute {| substitution_contexts := {[u "nav_bar" := [u "main_id"]]}; well_known := {[u "main_id" := u "42"]} |}
    (u "x-${main_id}-${Main}") (u "nav_bar") ∅ = Val (u "x-42-${Main}").
Proof. vm_compute. reflexivity. Qed.

(** ** What is offered *)

Section Offered.
Context (class_field_meta : jstr -> option ClassFieldMeta).

(** The option [o] stands in a section of the class. *)
Definition offers (nav : list NavSectionView) (class_name : jstr) (o : NavOptionView) : Prop :=
  exists s, ClassSection s ∈ nav /\ section_class_name s = class_name /\ In o (section_options s).

Lemma starts_with_prefix p q s : starts_with (p ++ q) s = true -> starts_with p s = true.
Proof. rewrite !starts_with_spec. intros [r ->]. exists (q ++ r). by rewrite app_assoc. Qed.

Lemma in_set_In s l : in_set s l = true <-> In s l.
Proof.
  unfold in_set. rewrite existsb_exists. split; [intros (x & Hx & ->%seqb_eq); done|].
  intros Hs. exists s. by rewrite seqb_refl.
Qed.

(** A permission for an operation on the class gives access to its section. *)
Lemma permitted_access permissions class_name o :
  option_permitted class_field_meta permissions class_name o = true ->
  has_class_access class_field_meta permissions class_name = true.
Proof.
  unfold option_permitted, has_class_access, has_class_permission. destruct (is_list_option o).
  - intros ->. by rewrite orb_true_r.
  - unfold can_create_class. destruct (has_admin permissions); simpl; [done|]. intros Hc%in_set_In.
    apply orb_true_iff. left. apply existsb_exists. exists (class_name ++ u ":create"). split; [done|].
    apply starts_with_spec. exists (u "create"). by rewrite <- app_assoc.
Qed.

(** The filtered navigation has exactly the permitted options of the whole. *)
Lemma nav_filter_exact nav permissions class_name o :
  offers (filter_nav_by_permissions class_field_meta nav permissions) class_name o <->
  offers nav class_name o /\ option_permitted class_field_meta permissions class_name o = true.
Proof.
  unfold offers, filter_nav_by_permissions. split.
  - intros (s' & Hs' & <- & Ho). apply list_elem_of_omap in Hs' as (s & Hs & Hf).
    destruct s as [s|s]; simpl in Hf; [|by destruct (can_read_class _ _ _)].
    destruct (has_class_access _ _ _); simpl in Hf; [|done].
    destruct (List.filter _ (section_options s)) as [|x xs] eqn:Hfil; [done|]. injection Hf as <-.
    cbn [section_options section_class_name] in *. rewrite <- Hfil in Ho. apply filter_In in Ho as [Ho Hp].
    split; [|done]. by exists s.
  - intros [(s & Hs & <- & Ho) Hp]. pose proof (permitted_access _ _ _ Hp) as Hacc.
    assert (Hin : In o (List.filter (option_permitted class_field_meta permissions (section_class_name s))
                         (section_options s))) by by apply filter_In.
    destruct (List.filter _ (section_options s)) as [|x xs] eqn:Hfil; [done|].
    exists {| section_display_name := section_display_name s; section_class_name := section_class_name s;
              section_options := x :: xs |}. split; [|done].
    apply list_elem_of_omap. exists (ClassSection s). split; [done|]. simpl. by rewrite Hacc, Hfil.
Qed.

Lemma first_path_spec s f options :
  match first_path class_field_meta s f options with
  | Some path => exists o, In o options /\ option_path class_field_meta s o = Some path /\ f o path = true
  | None => forall o path, In o options -> option_path class_field_meta s o = Some path -> f o path = false
  end.
Proof.
  induction options as [|o rest IH]; simpl; [done|].
  destruct (option_path class_field_meta s o) as [path|] eqn:Hp.
  - destruct (f o path) eqn:Hf; [by exists o; auto|].
    destruct (first_path class_field_meta s f rest) as [path'|].
    + destruct IH as (o' & ? & ?). exists o'. auto.
    + intros o' path' [<-|Ho'] Hp'; [congruence|]. by apply (IH o').
  - destruct (first_path class_field_meta s f rest) as [path'|].
    + destruct IH as (o' & ? & ?). exists o'. auto.
    + intros o' path' [<-|Ho'] Hp'; [congruence|]. by apply (IH o').
Qed.

Lemma option_path_class s s' o : section_class_name s = section_class_name s' ->
  option_path class_field_meta s o = option_path class_field_meta s' o.
Proof. unfold option_path. by intros ->. Qed.

Lemma first_landing_spec nav g f :
  match first_landing class_field_meta nav g f with
  | Some path => exists s o, ClassSection s ∈ nav /\ In o (section_options s) /\
      option_path class_field_meta s o = Some path /\ g s = true /\ f o path = true
  | None => forall s o path, ClassSection s ∈ nav -> In o (section_options s) ->
      option_path class_field_meta s o = Some path -> g s && f o path = false
  end.
Proof.
  induction nav as [|[s|s] rest IH]; simpl.
  - intros s o path Hs. by apply not_elem_of_nil in Hs.
  - pose proof (first_path_spec s f (section_options s)) as Hfp.
    assert (Hrest : (forall o path, In o (section_options s) ->
        option_path class_field_meta s o = Some path -> g s && f o path = false) ->
      match first_landing class_field_meta rest g f with
      | Some path => exists s' o, ClassSection s' ∈ ClassSection s :: rest /\ In o (section_options s') /\
          option_path class_field_meta s' o = Some path /\ g s' = true /\ f o path = true
      | None => forall s' o path, ClassSection s' ∈ ClassSection s :: rest -> In o (section_options s') ->
          option_path class_field_meta s' o = Some path -> g s' && f o path = false
      end).
    { intros Hs. destruct (first_landing class_field_meta rest g f) as [path|].
      - destruct IH as (s' & o & Hin & ?). exists s', o. split; [by right|done].
      - intros s' o path [[= ->]|Hin]%elem_of_cons; [by apply Hs|by apply IH]. }
    destruct (g s) eqn:Hg.
    + destruct (first_path class_field_meta s f (section_options s)) as [path|].
      * destruct Hfp as (o & ? & ? & ?). exists s, o. split; [left|done].
      * apply Hrest. intros o path Ho Hp. by rewrite (Hfp o path).
    + apply Hrest. done.
  - destruct (first_landing class_field_meta rest g f) as [path|].
    + destruct IH as (s' & o & Hin & ?). exists s', o. split; [by right|done].
    + intros s' o path [?|Hin]%elem_of_cons; [done|by apply IH].
Qed.

(** An option that the reader may use and that has a path. *)
Definition may_land (nav : list NavSectionView) (permissions : list jstr) (path : jstr) : Prop :=
  exists s o, ClassSection s ∈ nav /\ In o (section_options s) /\
    option_permitted class_field_meta permissions (section_class_name s) o = true /\
    option_path class_field_meta s o = Some path.

Lemma visible_may_land nav permissions path :
  (exists s o, ClassSection s ∈ filter_nav_by_permissions class_field_meta nav permissions /\
     In o (section_options s) /\ option_path class_field_meta s o = Some path) <->
  may_land nav permissions path.
Proof.
  split.
  - intros (s & o & Hs & Ho & Hp).
    destruct (proj1 (nav_filter_exact nav permissions (section_class_name s) o)) as [(s' & Hs' & Hc & Ho') Hperm];
      [by exists s|].
    exists s', o. rewrite Hc. split; [done|]. split; [done|]. split; [done|].
    by rewrite (option_path_class s' s).
  - intros (s & o & Hs & Ho & Hperm & Hp).
    destruct (proj2 (nav_filter_exact nav permissions (section_class_name s) o)) as (s' & Hs' & Hc & Ho');
      [split; [by exists s|done]|].
    exists s', o. split; [done|]. split; [done|]. by rewrite (option_path_class s' s).
Qed.

(** The page that a reader lands on is one of the navigation's lists or create
    forms that the reader's permissions open, and there is none only if they
    open none. *)
Theorem default_landing_permitted nav permissions :
  match default_landing_path class_field_meta nav permissions with
  | Some path => may_land nav permissions path
  | None => forall path, ~ may_land nav permissions path
  end.
Proof.
  unfold default_landing_path. set (visible := filter_nav_by_permissions class_field_meta nav permissions).
  pose proof (first_landing_spec visible (fun s => seqb (section_class_name s) PREFERRED_CLASS)
    (fun o path => is_list_option o && ends_with (u "/lists/" ++ PREFERRED_LIST_SLUG) path)) as H1.
  destruct (first_landing _ visible _ _) as [path|].
  { destruct H1 as (s & o & ? & ? & ? & _). apply visible_may_land. by exists s, o. }
  clear H1. pose proof (first_landing_spec visible (fun _ => true) (fun _ _ => true)) as H2.
  destruct (first_landing _ visible _ _) as [path|].
  - destruct H2 as (s & o & ? & ? & ? & _). apply visible_may_land. by exists s, o.
  - intros path (s & o & Hs & Ho & Hp)%visible_may_land. specialize (H2 s o path Hs Ho Hp). done.
Qed.

(** ** Paths *)

(** The slugs of the lists of a section. *)
Definition list_slugs (s : NavClassSectionView) : list jstr :=
  map (fun o => display_name_to_slug (option_display_name o)) (List.filter is_list_option (section_options s)).

Definition class_names (nav : list NavSectionView) : list jstr :=
  omap (fun s => match s with ClassSection c => Some (section_class_name c) | ObjectSection _ => None end) nav.

Lemma class_section_found nav s : NoDup (class_names nav) -> ClassSection s ∈ nav ->
  class_section nav (section_class_name s) = Some s.
Proof.
  unfold class_section, class_names. induction nav as [|[c|c] rest IH]; intros Hnd Hs; simpl in *.
  - by apply not_elem_of_nil in Hs.
  - apply NoDup_cons in Hnd as [Hni Hnd]. apply elem_of_cons in Hs as [[= <-]|Hs].
    + by rewrite seqb_refl.
    + rewrite (proj2 (seqb_neq _ _)); [by apply IH|]. intros Heq. apply Hni. rewrite Heq.
      apply list_elem_of_omap. by exists (ClassSection s).
  - apply elem_of_cons in Hs as [?|Hs]; [done|by apply IH].
Qed.

Lemma find_list_slug (options : list NavOptionView) o :
  NoDup (map (fun o => display_name_to_slug (option_display_name o)) (List.filter is_list_option options)) ->
  In o options -> is_list_option o = true ->
  find (fun o' => is_list_option o' && seqb (display_name_to_slug (option_display_name o'))
                                          (display_name_to_slug (option_display_name o))) options = Some o.
Proof.
  induction options as [|x options IH]; intros Hnd Ho Hl; simpl in *; [done|].
  destruct Ho as [->|Ho].
  - by rewrite Hl, seqb_refl.
  - destruct (is_list_option x) eqn:Hx; simpl in *; [|by apply IH].
    apply NoDup_cons in Hnd as [Hni Hnd].
    rewrite (proj2 (seqb_neq _ _)); [by apply IH|]. intros Heq. apply Hni. rewrite Heq.
    apply list_elem_of_In, in_map_iff. exists o. split; [done|]. by apply filter_In.
Qed.

(** The path of a list leads back to it: in a navigation whose class sections
    are of different classes and whose lists have different slugs, the loader
    of the path finds that section, that option and that path. *)
Theorem list_path_roundtrip nav s o path :
  NoDup (class_names nav) -> ClassSection s ∈ nav -> NoDup (list_slugs s) ->
  In o (section_options s) -> is_list_option o = true -> option_path class_field_meta s o = Some path ->
  let slug := display_name_to_slug (option_display_name o) in
  path = u "/" ++ section_class_name s ++ u "/lists/" ++ slug /\
  find_list_option class_field_meta nav (section_class_name s) slug =
    Some {| match_section := s; match_option := o; match_path := path |}.
Proof.
  intros Hnd Hs Hslugs Ho Hl Hp slug. split.
  - unfold option_path in Hp. destruct (is_known_class _ _); [|done]. destruct o as [|n p]; [done|].
    simpl in Hp, slug. case_bool_decide; [done|]. by injection Hp as <-.
  - unfold find_list_option. rewrite class_section_found by done.
    unfold slug. rewrite find_list_slug by done. rewrite Hp.
    unfold option_path in Hp. by destruct (is_known_class _ _).
Qed.
End Offered.

(** ** Preferences *)

Lemma clamp_nav_width_bounds w : NAV_WIDTH_MIN_PX <= clamp_nav_width w <= NAV_WIDTH_MAX_PX.
Proof.
  unfold clamp_nav_width, NAV_DEFAULT_WIDTH_PX, NAV_WIDTH_MIN_PX, NAV_WIDTH_MAX_PX. destruct (negb _); lia.
Qed.

(** Stored preferences are read back, with the width in its bounds. *)
Lemma nav_prefs_roundtrip prefs viewport :
  read_nav_prefs (Some (serialize_nav_prefs prefs)) viewport =
    {| collapsed := collapsed prefs; last_expanded_width := NInt (clamp_nav_width (last_expanded_width prefs)) |}.
Proof.
  pose proof (clamp_nav_width_bounds (last_expanded_width prefs)) as Hb.
  unfold NAV_WIDTH_MIN_PX, NAV_WIDTH_MAX_PX in Hb.
  assert (Hok : json_ok (prefs_json prefs) = true).
  { unfold prefs_json. simpl. rewrite (proj2 (Z.leb_le _ _)) by lia. reflexivity. }
  unfold read_nav_prefs, serialize_nav_prefs. rewrite json_stringify_ok by done.
  unfold parse_nav_prefs. rewrite json_parse_text by done. rewrite bool_decide_eq_false_2 by discriminate.
  change (vget (prefs_json prefs) (u "collapsed")) with (VBool (collapsed prefs)).
  change (vget (prefs_json prefs) (u "last_expanded_width"))
    with (VNum (NInt (clamp_nav_width (last_expanded_width prefs)))).
  cbv iota. f_equal. f_equal. revert Hb. generalize (clamp_nav_width (last_expanded_width prefs)). intros w Hb.
  unfold clamp_nav_width. simpl. unfold NAV_WIDTH_MIN_PX, NAV_WIDTH_MAX_PX. lia.
Qed.

(** A navigation that loads has no token left in what it shows or links to. *)
Lemma resolved_no_tokens catalog sections resolved :
  resolve_nav_bar_substitutions catalog sections = Val resolved ->
  Forall (fun s => match s with
    | YamlClass display_name _ _ => has_substitution_token display_name = false
    | YamlObject display_name _ id => has_substitution_token display_name = false /\
                                      has_substitution_token id = false
    end) resolved.
Proof.
  revert resolved. induction sections as [|s rest IH]; intros resolved; simpl; [by intros [= <-]|].
  destruct (resolve_section catalog s) as [s'|] eqn:Hs; [|done].
  destruct (resolve_nav_bar_substitutions catalog rest) as [r|]; [|done]. intros [= <-].
  constructor; [|by apply IH]. destruct s as [n c o|n c id]; simpl in Hs.
  - destruct (has_substitution_token n) eqn:Hn; [done|]. by injection Hs as <-.
  - destruct (substitute _ _ _ _) as [id'|]; [|done].
    destruct (has_substitution_token n) eqn:Hn; [done|].
    destruct (has_substitution_token id') eqn:Hid; [done|]. by injection Hs as <-.
Qed.

(** ** Example *)

Definition sample_class_meta (class_name : jstr) : option ClassFieldMeta :=
  if seqb class_name "change_request" then
    Some {| meta_name_snake := class_name; meta_display_name := u "Change Request"; meta_attributes := [];
            meta_friendly_id_attr := None; meta_display_attribute := None; meta_public := false;
            meta_permissions := [] |}
  else None.

Definition sample_section : NavClassSectionView := {|
  section_display_name := u "Change Requests"; section_class_name := u "change_request";
  section_options := [NewOption (u "New"); ListOption (u "All") None; ListOption (u "In Progress") None] |}.

Example landing_example :
  default_landing_path sample_class_meta [ClassSection sample_section] [u "change_request:read"]
    = Some (u "/change_request/lists/all") /\
  default_landing_path sample_class_meta [ClassSection sample_section] [u "change_request:create"]
    = Some (u "/change_request/new") /\
  default_landing_path sample_class_meta [ClassSection sample_section] [u "user:read"] = None.
Proof. vm_compute. auto. Qed.

Lemma list_path_roundtrip_witness :
  find_list_option sample_class_meta [ClassSection sample_section] (u "change_request") (u "in-progress") =
    Some {| match_section := sample_section; match_option := ListOption (u "In Progress") None;
            match_path := u "/change_request/lists/in-progress" |}.
Proof.
  apply (list_path_roundtrip sample_class_meta [ClassSection sample_section] sample_section
    (ListOption (u "In Progress") None) (u "/change_request/lists/in-progress")).
  - apply NoDup_singleton.
  - left.
  - refine (bool_decide_eq_true_1 _ _). vm_compute. reflexivity.
  - right. right. left. reflexivity.
  - reflexivity.
  - vm_compute. reflexivity.
Defined.
