(* ===== verification/Detail.v ===== *)
(** detail/detail_editor.ts, detail/default_layout.ts, detail/create_defaults.ts,
    detail/fk_open_related.ts, records/fk_identity.ts, records/enriched_record.ts,
    records/mutation_body.ts, records/zod_http_status.ts, the schema registries
    and the value coercions of detail/detail_form.tsx: a record on its page, the
    edits of its fields and the bodies that are saved.  A record is the list of
    its fields in order. *)
From S2P Require Import Prelude JsString JsValue JsText JsArray RedisRateLimit LocalTime ListColumns QuickFilter Nav.

Definition fields : Type := list (jstr * jsval).

(** [Object.prototype.hasOwnProperty.call(o, k)] *)
Definition has_field (k : jstr) (o : fields) : bool := existsb (fun kv => seqb kv.1 k) o.

(** [o[k] ?? null] *)
Definition or_null (v : jsval) : jsval := match v with VUndef => VNull | _ => v end.

(** ** default_layout.ts *)

Inductive slot_kind : Type := author | friendly_id | audit.

Record DetailFieldSlot : Type := {
  slot_name : jstr;
  slot_type : jstr;
  slot_label : jstr;
  slot_references : option jstr;
  slot_kind_of : slot_kind;
}.

Record DetailLayout : Type := {
  compact : list DetailFieldSlot;
  text : list DetailFieldSlot;
  compact_left : list DetailFieldSlot;
  compact_right : list DetailFieldSlot;
}.

Definition TEXT_SECTION_TYPES : list jstr := [u "text"; u "multiline_text"].

Definition is_text_section_type (type_name : jstr) : bool := in_set type_name TEXT_SECTION_TYPES.

Definition audit_slot (name type_name : jstr) (references : option jstr) : DetailFieldSlot := {|
  slot_name := name; slot_type := type_name; slot_label := attribute_display_label name;
  slot_references := references; slot_kind_of := audit |}.

Definition DETAIL_AUDIT_FIELDS : list DetailFieldSlot :=
  [audit_slot (u "created_at") (u "datetime") None; audit_slot (u "created_by") (u "uuid") (Some (u "user"));
   audit_slot (u "updated_at") (u "datetime") None; audit_slot (u "updated_by") (u "uuid") (Some (u "user"))].

Definition attribute_to_slot (kind : slot_kind) (attr : AttributeFieldMeta) : DetailFieldSlot := {|
  slot_name := attr_name_snake attr; slot_type := attr_type_name attr;
  slot_label := attribute_display_label (attr_name_snake attr);
  slot_references := attr_references attr; slot_kind_of := kind |}.

Definition is_friendly (meta : ClassFieldMeta) (attr : AttributeFieldMeta) : bool :=
  seqb (attr_type_name attr) "friendly_id" ||
  match meta_friendly_id_attr meta with Some f => seqb (attr_name_snake attr) f | None => false end.

(** The loop over the attributes: the text slots, the compact ones, and the
    friendly id, of which the last one stays. *)
Fixpoint partition_slots (meta : ClassFieldMeta) (attrs : list AttributeFieldMeta)
    (friendly : option DetailFieldSlot) : list DetailFieldSlot * list DetailFieldSlot * option DetailFieldSlot :=
  match attrs with
  | [] => ([], [], friendly)
  | attr :: rest =>
      if seqb (attr_name_snake attr) "id" then partition_slots meta rest friendly
      else if is_text_section_type (attr_type_name attr) then
        let '(t, c, f) := partition_slots meta rest friendly in (attribute_to_slot author attr :: t, c, f)
      else if is_friendly meta attr then
        partition_slots meta rest (Some (attribute_to_slot friendly_id attr))
      else
        let '(t, c, f) := partition_slots meta rest friendly in (t, attribute_to_slot author attr :: c, f)
  end.

Definition split_compact_columns (slots : list DetailFieldSlot) : list DetailFieldSlot * list DetailFieldSlot :=
  let rows := ((length slots + 1) / 2)%nat in (take rows slots, drop rows slots).

Definition partition_detail_layout (meta : ClassFieldMeta) : outcome DetailLayout :=
  match attributes_in_declaration_order (meta_attributes meta) with
  | Exc e => Exc e
  | Val ordered =>
      let '(text, compact_author, friendly) := partition_slots meta ordered None in
      let compact := option_to_list friendly ++ compact_author ++ DETAIL_AUDIT_FIELDS in
      let '(left_, right_) := split_compact_columns compact in
      Val {| compact := compact; text := text; compact_left := left_; compact_right := right_ |}
  end.

(** ** detail_editor.ts *)

Definition is_slot_editable (slot : DetailFieldSlot) : bool :=
  match slot_kind_of slot with
  | author => match slot_references slot with None => true | Some _ => false end
  | _ => false
  end.

Definition editable_field_names (layout : DetailLayout) : list jstr :=
  map slot_name (List.filter is_slot_editable (compact_left layout ++ compact_right layout ++ text layout)).

Definition seed_draft_from_record (record : fields) (editable : list jstr) : fields :=
  fold_left (fun draft name => fields_set name (or_null (fields_get name record)) draft) editable [].

(** Equality of numbers, with NaN equal to itself. *)
Definition num_eqb (a b : num) : bool :=
  match a, b with
  | NNaN, NNaN => true
  | NNaN, _ | _, NNaN => false
  | _, _ => negb (num_ltb a b) && negb (num_ltb b a)
  end.

(** Objects and arrays are no values of editable fields: two of them count as
    the same reference when they are the same value. *)
Fixpoint values_equal (a b : jsval) : bool :=
  match a, b with
  | (VUndef | VNull), (VUndef | VNull) => true
  | VBool x, VBool y => Bool.eqb x y
  | VNum x, VNum y => num_eqb x y
  | VStr x, VStr y => seqb x y
  | VArr x, VArr y =>
      (fix go (x y : list jsval) : bool :=
         match x, y with
         | [], [] => true
         | v :: x', w :: y' => values_equal v w && go x' y'
         | _, _ => false
         end) x y
  | VObj x, VObj y =>
      (fix go (x y : list (jstr * jsval)) : bool :=
         match x, y with
         | [], [] => true
         | (k, v) :: x', (l, w) :: y' => seqb k l && values_equal v w && go x' y'
         | _, _ => false
         end) x y
  | _, _ => false
  end.

Definition field_changed (baseline draft : fields) (name : jstr) : bool :=
  negb (values_equal (or_null (fields_get name baseline)) (or_null (fields_get name draft))).

Definition is_dirty (baseline draft : fields) (editable : list jstr) : bool :=
  existsb (field_changed baseline draft) editable.

Definition compute_changed_fields (baseline draft : fields) (editable : list jstr) : fields :=
  fold_left (fun changed name =>
    if field_changed baseline draft name then fields_set name (or_null (fields_get name draft)) changed
    else changed) editable [].

Record UndoChunk : Type := {
  chunk_before : fields;
  chunk_fields : list jstr;
}.

Record EditorSnapshot : Type := {
  baseline : fields;
  draft : fields;
  undo_stack : list UndoChunk;      (* the oldest first *)
  active_field : option jstr;
}.

Definition create_editor_snapshot (record : fields) (editable : list jstr) : EditorSnapshot :=
  let draft := seed_draft_from_record record editable in
  {| baseline := draft; draft := draft; undo_stack := []; active_field := None |}.

Definition reset_editor_from_record := create_editor_snapshot.

Definition apply_field_edit (snapshot : EditorSnapshot) (field : jstr) (value : jsval) : EditorSnapshot :=
  let prev_value := fields_get field (draft snapshot) in
  if values_equal (or_null prev_value) (or_null value) then snapshot
  else
    let draft' := fields_set field value (draft snapshot) in
    if bool_decide (active_field snapshot = Some field) && negb (length (undo_stack snapshot) =? 0)%nat then
      {| baseline := baseline snapshot; draft := draft'; undo_stack := undo_stack snapshot;
         active_field := active_field snapshot |}
    else
      {| baseline := baseline snapshot; draft := draft';
         undo_stack := undo_stack snapshot ++
           [{| chunk_before := [(field, or_null prev_value)]; chunk_fields := [field] |}];
         active_field := Some field |}.

Definition close_active_chunk (snapshot : EditorSnapshot) : EditorSnapshot :=
  {| baseline := baseline snapshot; draft := draft snapshot; undo_stack := undo_stack snapshot;
     active_field := None |}.

(** The fields of a chunk, set back. *)
Definition restore_chunk (chunk : UndoChunk) (draft : fields) : fields :=
  fold_left (fun d field => fields_set field (or_null (fields_get field (chunk_before chunk))) d)
    (chunk_fields chunk) draft.

Definition undo_last_chunk (snapshot : EditorSnapshot) : EditorSnapshot :=
  match last (undo_stack snapshot) with
  | None => close_active_chunk snapshot
  | Some chunk =>
      {| baseline := baseline snapshot; draft := restore_chunk chunk (draft snapshot);
         undo_stack := removelast (undo_stack snapshot); active_field := None |}
  end.

(** ** detail_form.tsx *)

Definition coerce_text_value (raw : jstr) : jsval := if bool_decide (raw = []) then VNull else VStr raw.

Definition coerce_value (type_name raw : jstr) : jsval :=
  if bool_decide (raw = []) then VNull
  else
    let n := to_double (js_number raw) in
    if seqb type_name "integer" then if is_finite n && is_integer n then VNum n else VStr raw
    else if seqb type_name "float" then if is_finite n then VNum n else VStr raw
    else VStr raw.

(** The value of a slot: the draft's where it can be edited. *)
Definition slot_value (can_update : bool) (record draft : fields) (slot : DetailFieldSlot) : jsval :=
  if can_update && is_slot_editable slot then or_null (fields_get (slot_name slot) draft)
  else fields_get (slot_name slot) record.

(** ** create_defaults.ts *)

Section Create.
Context (catalog : Catalog).

Definition SYSTEM_STRIP : list jstr := u "id" :: map slot_name DETAIL_AUDIT_FIELDS.

(** [create_default] when it is declared, with the tokens of a text replaced. *)
Definition resolve_create_default (value : jsval) (env : option (gmap jstr jstr)) : outcome jsval :=
  match value, env with
  | VStr s, Some env =>
      if includes (u "${") s then
        match substitute catalog s (u "create_default") env with
        | Val t => Val (VStr t)
        | Exc e => Exc e
        end
      else Val value
  | _, _ => Val value
  end.

Fixpoint default_fields (attrs : list AttributeFieldMeta) (env : option (gmap jstr jstr)) (record : fields)
  : outcome fields :=
  match attrs with
  | [] => Val record
  | attr :: rest =>
      let name := attr_name_snake attr in
      if seqb name "id" || seqb (attr_type_name attr) "friendly_id"
      then default_fields rest env (fields_set name VNull record)
      else match attr_create_default attr with
           | None => default_fields rest env (fields_set name VNull record)
           | Some d =>
               match resolve_create_default d env with
               | Exc e => Exc e
               | Val v => default_fields rest env (fields_set name v record)
               end
           end
  end.

Definition record_from_create_defaults (meta : ClassFieldMeta) (env : option (gmap jstr jstr)) : outcome fields :=
  match attributes_in_declaration_order (meta_attributes meta) with
  | Exc e => Exc e
  | Val ordered =>
      match default_fields ordered env [] with
      | Exc e => Exc e
      | Val record => Val (fold_left (fun r a => fields_set (slot_name a) VNull r) DETAIL_AUDIT_FIELDS record)
      end
  end.

(** Fields that only the server sets. *)
Definition server_field (meta : ClassFieldMeta) (attr : AttributeFieldMeta) : bool :=
  in_set (attr_name_snake attr) SYSTEM_STRIP || seqb (attr_type_name attr) "friendly_id" ||
  match meta_friendly_id_attr meta with Some f => seqb (attr_name_snake attr) f | None => false end.

(** What the body has for an attribute; [None] leaves it out. *)
Definition create_field (meta : ClassFieldMeta) (client_body : fields) (env : option (gmap jstr jstr))
    (attr : AttributeFieldMeta) : outcome (option jsval) :=
  let default :=
    match attr_create_default attr with
    | None => Val None
    | Some d => match resolve_create_default d env with Exc e => Exc e | Val v => Val (Some v) end
    end in
  if server_field meta attr then Val None
  else match attr_references attr with
       | Some _ => default
       | None =>
           if has_field (attr_name_snake attr) client_body
           then Val (Some (fields_get (attr_name_snake attr) client_body))
           else default
       end.

Fixpoint merge_fields (meta : ClassFieldMeta) (client_body : fields) (env : option (gmap jstr jstr))
    (attrs : list AttributeFieldMeta) (body : fields) : outcome fields :=
  match attrs with
  | [] => Val body
  | attr :: rest =>
      match create_field meta client_body env attr with
      | Exc e => Exc e
      | Val None => merge_fields meta client_body env rest body
      | Val (Some v) => merge_fields meta client_body env rest (fields_set (attr_name_snake attr) v body)
      end
  end.

Definition merge_create_body (meta : ClassFieldMeta) (client_body : fields) (env : option (gmap jstr jstr))
  : outcome fields :=
  match attributes_in_declaration_order (meta_attributes meta) with
  | Exc e => Exc e
  | Val ordered => merge_fields meta client_body env ordered []
  end.

(** A property that is a non-empty string. *)
Definition text_field (name : jstr) (record : fields) : option jstr :=
  match fields_get name record with
  | VStr s => if bool_decide (s = []) then None else Some s
  | _ => None
  end.

Definition preferred_create_locator (meta : ClassFieldMeta) (record : fields) : option jstr :=
  match match meta_friendly_id_attr meta with Some f => text_field f record | None => None end with
  | Some v => Some v
  | None => text_field (u "id") record
  end.

Definition new_save_enabled (can_create dirty create_valid schema_available : bool) : bool :=
  if negb can_create then false else if negb schema_available then true else dirty || create_valid.

(** ** zod_http_status.ts *)

Record ZodIssue : Type := {
  issue_code : jstr;
  issue_path : list jstr;      (* its segments as text *)
  issue_message : jstr;
}.

Definition issue_is_structural (issue : ZodIssue) : bool :=
  seqb (issue_code issue) "unrecognized_keys" ||
  (seqb (issue_code issue) "invalid_type" && (length (issue_path issue) =? 0)%nat).

Definition zod_error_http_status (issues : list ZodIssue) : Z :=
  if existsb issue_is_structural issues then 400 else 422.

Definition format_issue (issue : ZodIssue) : jstr :=
  let path := join (u ".") (List.filter (fun s => negb (bool_decide (s = []))) (issue_path issue)) in
  if bool_decide (path = []) then issue_message issue else path ++ u ": " ++ issue_message issue.

Definition zod_error_detail (issues : list ZodIssue) : jstr :=
  let detail := join (u "; ") (map format_issue issues) in
  if bool_decide (detail = []) then u "Validation failed" else detail.

(** ** The registries and mutation_body.ts *)

(** A generated schema: its keys, and its issues with a body ([] is success). *)
Record ZodSchema : Type := {
  schema_shape : option (list jstr);
  schema_issues : fields -> list ZodIssue;
}.

Definition schema_keys (schema : ZodSchema) : list jstr :=
  match schema_shape schema with Some keys => keys | None => [] end.

Definition CREATE_SCHEMA_CLASSES : list jstr :=
  [u "authz_version"; u "change_request"; u "demo_item"; u "demo_link"; u "incident"; u "permission";
   u "role_child"; u "role_permission"; u "role"; u "used_refresh_token"; u "user_role"; u "user_session"; u "user"].

Definition UPDATE_SCHEMA_CLASSES : list jstr :=
  [u "authz_version"; u "change_request"; u "demo_item"; u "demo_link"; u "incident"; u "permission";
   u "role_child"; u "role_permission"; u "role"; u "system_config"; u "used_refresh_token"; u "user_role";
   u "user_session"; u "user"].

(** The generated schemas, by class name. *)
Context (generated_create generated_update : jstr -> ZodSchema)
        (class_field_meta : jstr -> option ClassFieldMeta).

Definition create_schema_for_class (class_name : jstr) : option ZodSchema :=
  if in_set class_name CREATE_SCHEMA_CLASSES then Some (generated_create class_name) else None.

Definition update_schema_for_class (class_name : jstr) : option ZodSchema :=
  if in_set class_name UPDATE_SCHEMA_CLASSES then Some (generated_update class_name) else None.

Inductive PreparedBody : Type :=
| Prepared (body : fields)
| Refused (status : Z) (detail : jstr).

(** The checks of a body against a schema. *)
Definition check_body (schema : option ZodSchema) (body : fields) : PreparedBody :=
  match schema with
  | None => Prepared body
  | Some schema =>
      match List.filter (fun k => negb (in_set k (schema_keys schema))) (map fst body) with
      | (_ :: _) as unknown_keys => Refused 400 (u "Unrecognized attributes: " ++ join (u ", ") unknown_keys)
      | [] =>
          match schema_issues schema body with
          | [] => Prepared body
          | issues => Refused (zod_error_http_status issues) (zod_error_detail issues)
          end
      end
  end.

Definition prepare_create_body (class_name : jstr) (client_body : fields) (env : option (gmap jstr jstr))
  : outcome PreparedBody :=
  match class_field_meta class_name with
  | None => Val (Refused 404 (u "Not Found"))
  | Some meta =>
      match merge_create_body meta client_body env with
      | Exc e => Exc e
      | Val merged => Val (check_body (create_schema_for_class class_name) merged)
      end
  end.

Definition prepare_update_body (class_name : jstr) (patch_body : fields) : PreparedBody :=
  match class_field_meta class_name with
  | None => Refused 404 (u "Not Found")
  | Some _ => check_body (update_schema_for_class class_name) patch_body
  end.
End Create.

(** ** fk_identity.ts, fk_open_related.ts, enriched_record.ts *)

Section ForeignKeys.
(** [fk_identity_schema.safeParse(v).success] and the two parsers that throw. *)
Context (is_fk_identity : jsval -> bool) (record_schema : jsval -> outcome fields)
        (fk_identity_parse : jsval -> outcome unit) (class_field_meta : jstr -> option ClassFieldMeta).

(** A text that is not blank, trimmed. *)
Definition trimmed_text (v : jsval) : option jstr :=
  match v with
  | VStr s => if bool_decide (trim s = []) then None else Some (trim s)
  | _ => None
  end.

Definition identity_id (v : jsval) : option jstr := as_string (vget v (u "id")).

Definition fk_display_label (value : jsval) : option jstr :=
  match value with
  | VUndef | VNull => None
  | VStr _ => trimmed_text value
  | _ =>
      if negb (is_fk_identity value) then None
      else match trimmed_text (vget value (u "display_name")) with
           | Some t => Some t
           | None =>
               match trimmed_text (vget value (u "friendly_id")) with
               | Some t => Some t
               | None => identity_id value
               end
           end
  end.

Definition fk_link_locator (value : jsval) : option jstr :=
  match value with
  | VUndef | VNull => None
  | VStr _ => trimmed_text value
  | _ =>
      if negb (is_fk_identity value) then None
      else match trimmed_text (vget value (u "friendly_id")) with
           | Some t => Some t
           | None => identity_id value
           end
  end.

Record FkOpenRelated : Type := {
  navigable : bool;
  href : option jstr;
  tooltip : jstr;
}.

Definition fk_open_related (references : option jstr) (value : jsval) : outcome FkOpenRelated :=
  match fk_link_locator value with
  | None => Val {| navigable := false; href := None; tooltip := u "Open related record" |}
  | Some locator =>
      let label := match fk_display_label value with Some l => l | None => locator end in
      let tooltip := u "Open " ++ label in
      let closed := Val {| navigable := false; href := None; tooltip := tooltip |} in
      match references with
      | None => closed
      | Some class_name =>
          if bool_decide (class_name = []) then closed
          else match class_field_meta class_name with
               | None => closed
               | Some _ =>
                   match record_detail_path class_name locator with
                   | Exc e => Exc e
                   | Val path => Val {| navigable := true; href := Some path; tooltip := tooltip |}
                   end
               end
      end
  end.

Definition AUDIT_FK_FIELDS : list jstr := [u "created_by"; u "updated_by"].

Fixpoint check_fk_fields (fk_fields : list jstr) (entries : fields) : outcome unit :=
  match entries with
  | [] => Val tt
  | (key, value) :: rest =>
      if negb (in_set key fk_fields) then check_fk_fields fk_fields rest
      else match value with
           | VUndef | VNull => check_fk_fields fk_fields rest
           | _ => match fk_identity_parse value with
                  | Exc e => Exc e
                  | Val _ => check_fk_fields fk_fields rest
                  end
           end
  end.

Definition parse_enriched_record (payload : jsval) (class_name : jstr) : outcome fields :=
  match record_schema payload with
  | Exc e => Exc e
  | Val record =>
      match class_field_meta class_name with
      | None => Exc (Error_ (u "Unknown class for enriched record validation: " ++ class_name))
      | Some meta =>
          let fk_fields := AUDIT_FK_FIELDS ++
            map attr_name_snake (List.filter (fun a => match attr_references a with Some _ => true | None => false end)
                                   (meta_attributes meta)) in
          match check_fk_fields fk_fields record with
          | Exc e => Exc e
          | Val _ => Val record
          end
      end
  end.
End ForeignKeys.

(** ** Fields *)

Lemma fields_get_cons k n v (o : fields) : fields_get k ((n, v) :: o) = if seqb n k then v else fields_get k o.
Proof. unfold fields_get. simpl. by destruct (seqb n k). Qed.

Lemma fields_get_set k k' v (o : fields) :
  fields_get k (fields_set k' v o) = if seqb k' k then v else fields_get k o.
Proof.
  destruct (seqb k' k) eqn:Hk; [apply seqb_eq in Hk as ->; apply fields_get_set_eq|].
  apply seqb_neq in Hk. unfold fields_set. destruct (existsb _ o).
  - induction o as [|[n w] o IH]; [done|]. cbn [map fst snd]. rewrite !fields_get_cons.
    destruct (seqb n k') eqn:Hn.
    + apply seqb_eq in Hn as ->. rewrite fields_get_cons. rewrite !(proj2 (seqb_neq k' k)) by done. exact IH.
    + rewrite fields_get_cons. by rewrite IH.
  - induction o as [|[n w] o IH]; simpl; [|rewrite !fields_get_cons; by rewrite IH].
    rewrite fields_get_cons, (proj2 (seqb_neq k' k)) by done. done.
Qed.

Lemma num_ltb_irrefl n : n <> NNaN -> num_ltb n n = false.
Proof. destruct n as [z|a d|[]|]; simpl; intros; try done; apply Z.ltb_irrefl. Qed.

Lemma values_equal_refl v : values_equal v v = true.
Proof.
  induction v as [| | |n| |l IH|o IH] using jsval_rect'; simpl; try done.
  - by destruct b.
  - destruct n; simpl; rewrite ?Z.ltb_irrefl; try done. by destruct negative.
  - apply seqb_refl.
  - induction IH as [|v l Hv _ IHl]; [done|]. by rewrite Hv, IHl.
  - induction IH as [|[k v] o Hv _ IHl]; [done|]. simpl in Hv. by rewrite seqb_refl, Hv, IHl.
Qed.

(** ** Undo *)

(** Edits of a session. *)
Inductive editor_action : Type :=
| EditField (field : jstr) (value : jsval)
| CloseChunk
| UndoChunkAction.

Definition editor_act (a : editor_action) (s : EditorSnapshot) : EditorSnapshot :=
  match a with
  | EditField field value => apply_field_edit s field value
  | CloseChunk => close_active_chunk s
  | UndoChunkAction => undo_last_chunk s
  end.

Definition editor_run (actions : list editor_action) (s : EditorSnapshot) : EditorSnapshot :=
  fold_left (fun s a => editor_act a s) actions s.

(** The draft with every chunk undone. *)
Definition rewind (stack : list UndoChunk) (draft : fields) : fields := foldr (fun c d => restore_chunk c d) draft stack.
(** Two drafts show the same values. *)
Definition same_values (d d' : fields) : Prop := forall n, or_null (fields_get n d) = or_null (fields_get n d').

Lemma or_null_idemp v : or_null (or_null v) = or_null v.
Proof. by destruct v. Qed.

Lemma restore_chunk_ext c d d' : same_values d d' -> same_values (restore_chunk c d) (restore_chunk c d').
Proof.
  unfold restore_chunk. revert d d'. induction (chunk_fields c) as [|f fs IH]; intros d d' H; simpl; [done|].
  apply IH. intros n. rewrite !fields_get_set. destruct (seqb f n); [done|apply H].
Qed.

Lemma rewind_ext stack d d' : same_values d d' -> same_values (rewind stack d) (rewind stack d').
Proof. intros H. induction stack as [|c stack IH]; [exact H|]. by apply restore_chunk_ext. Qed.

Lemma rewind_app s1 s2 d : rewind (s1 ++ s2) d = rewind s1 (rewind s2 d).
Proof. apply foldr_app. Qed.

(** Undoing every chunk gives the baseline back, and the open chunk is that of
    the active field. *)
Definition undo_ok (s : EditorSnapshot) : Prop :=
  same_values (rewind (undo_stack s) (draft s)) (baseline s) /\
  (forall f, active_field s = Some f -> forall c, last (undo_stack s) = Some c -> chunk_fields c = [f]).

Lemma undo_ok_edit s f v : undo_ok s -> undo_ok (apply_field_edit s f v).
Proof.
  intros [Hr Ha]. unfold apply_field_edit. destruct (values_equal _ _); [by split|].
  destruct (bool_decide (active_field s = Some f)) eqn:Hact; simpl.
  - apply bool_decide_eq_true in Hact. destruct (undo_stack s) as [|c0 st] eqn:Hst; simpl.
    + split; simpl.
      * intros n. rewrite <- Hr. simpl. unfold restore_chunk. simpl.
        rewrite !fields_get_set, fields_get_cons, seqb_refl.
        destruct (seqb f n) eqn:Hfn; [|done]. apply seqb_eq in Hfn as ->. by rewrite !or_null_idemp.
      * intros f' [= <-] c [= <-]. done.
    + assert (Hlast : exists c st', c0 :: st = st' ++ [c]).
      { destruct (exists_last (l := c0 :: st)) as (st' & c & ->); [done|]. eauto. }
      destruct Hlast as (c & st' & Heq). rewrite Heq in *. simpl. split; simpl.
      * intros n. rewrite <- Hr, !rewind_app. revert n. apply rewind_ext. intros n. simpl.
        unfold restore_chunk. rewrite (Ha f Hact c (last_snoc _ _)). simpl.
        rewrite !fields_get_set. by destruct (seqb f n).
      * intros f' Hf' c' Hc'. by apply Ha.
  - split; simpl.
    + intros n. rewrite <- Hr, rewind_app. revert n. apply rewind_ext. intros n. simpl. unfold restore_chunk. simpl.
      rewrite !fields_get_set, fields_get_cons, seqb_refl.
      destruct (seqb f n) eqn:Hfn; [|done]. apply seqb_eq in Hfn as ->. by rewrite !or_null_idemp.
    + intros f' [= <-] c. rewrite last_snoc. by intros [= <-].
Qed.

Lemma undo_last_chunk_ok s : undo_ok s -> undo_ok (undo_last_chunk s) /\
  length (undo_stack (undo_last_chunk s)) = pred (length (undo_stack s)) /\
  baseline (undo_last_chunk s) = baseline s.
Proof.
  intros [Hr Ha]. unfold undo_last_chunk. destruct (last (undo_stack s)) as [c|] eqn:Hl.
  - apply last_Some in Hl as [st Hst]. rewrite Hst in *. simpl. rewrite removelast_last.
    split; [|split; [rewrite length_app; simpl; lia|done]]. split; [|done]. simpl.
    by rewrite rewind_app in Hr.
  - apply last_None in Hl. rewrite Hl in *. simpl. rewrite Hl. split; [|done]. split; simpl; [by rewrite Hl|done].
Qed.

Lemma undo_ok_run actions s : undo_ok s ->
  undo_ok (editor_run actions s) /\ baseline (editor_run actions s) = baseline s.
Proof.
  unfold editor_run. revert s. induction actions as [|a actions IH]; intros s Hs; simpl; [done|].
  assert (H : undo_ok (editor_act a s) /\ baseline (editor_act a s) = baseline s).
  { destruct a as [f v| |]; simpl.
    - split; [by apply undo_ok_edit|]. unfold apply_field_edit. destruct (values_equal _ _); [done|].
      by destruct (_ && _).
    - split; [|done]. destruct Hs as [Hr Ha]. by split.
    - destruct (undo_last_chunk_ok s Hs) as (? & _ & ?). done. }
  destruct H as [Hok Hb]. destruct (IH _ Hok) as [? ->]. done.
Qed.

Lemma undo_all n s : undo_ok s -> length (undo_stack s) = n ->
  let s' := Nat.iter n undo_last_chunk s in
  undo_stack s' = [] /\ baseline s' = baseline s /\ same_values (draft s') (baseline s).
Proof.
  revert s. induction n as [|n IH]; intros s Hok Hlen; cbv zeta.
  - apply nil_length_inv in Hlen. destruct Hok as [Hr _]. rewrite Hlen in Hr. done.
  - rewrite Nat.iter_succ_r. destruct (undo_last_chunk_ok s Hok) as (Hok' & Hlen' & Hb).
    rewrite <- Hb. apply IH; [done|]. by rewrite Hlen', Hlen.
Qed.

(** Property C23. Undo loses nothing: whatever was edited, by however many keystrokes and in
    whatever fields, undoing the chunks of the session one by one brings every
    field back to its value when the record was opened, and the record is then
    not dirty. *)
Theorem undo_restores_baseline record editable actions :
  let s := editor_run actions (create_editor_snapshot record editable) in
  let s' := Nat.iter (length (undo_stack s)) undo_last_chunk s in
  undo_stack s' = [] /\ same_values (draft s') (seed_draft_from_record record editable) /\
  forall names, is_dirty (baseline s') (draft s') names = false.
Proof.
  intros s s'. assert (H0 : undo_ok (create_editor_snapshot record editable)) by by split.
  destruct (undo_ok_run actions _ H0) as [Hok Hb]. fold s in Hok, Hb.
  destruct (undo_all _ s Hok eq_refl) as (Hst & Hbs & Hd). fold s' in Hst, Hbs, Hd.
  split; [done|]. rewrite Hb in Hd. split; [exact Hd|]. intros names. rewrite Hbs, Hb.
  apply not_true_is_false. intros (n & _ & Hn)%existsb_exists. unfold field_changed in Hn.
  by rewrite <- Hd, values_equal_refl in Hn.
Qed.

(** ** Patches *)

Lemma has_field_set k k' v (o : fields) : has_field k (fields_set k' v o) = seqb k' k || has_field k o.
Proof.
  unfold has_field, fields_set. destruct (existsb (fun kv => seqb kv.1 k') o) eqn:Hex.
  - induction o as [|[n w] o IH]; [done|]. simpl in *. destruct (seqb n k') eqn:Hn; simpl.
    + apply seqb_eq in Hn as ->. destruct (seqb k' k) eqn:Hk; [done|]. simpl.
      clear -Hk. induction o as [|[m x] o IH]; [done|]. simpl. destruct (seqb m k') eqn:Hm; simpl.
      * apply seqb_eq in Hm as ->. by rewrite Hk, IH.
      * by rewrite IH.
    + rewrite IH by done. by destruct (seqb n k), (seqb k' k).
  - rewrite existsb_app. simpl. rewrite orb_false_r. apply orb_comm.
Qed.

Lemma changed_fields_spec baseline draft editable acc n :
  (fields_get n (fold_left (fun changed name => if field_changed baseline draft name
     then fields_set name (or_null (fields_get name draft)) changed else changed) editable acc)
   = if in_set n editable && field_changed baseline draft n then or_null (fields_get n draft)
     else fields_get n acc) /\
  has_field n (fold_left (fun changed name => if field_changed baseline draft name
     then fields_set name (or_null (fields_get name draft)) changed else changed) editable acc)
   = (in_set n editable && field_changed baseline draft n) || has_field n acc.
Proof.
  revert acc. induction editable as [|m editable IH]; intros acc; [done|]. simpl.
  destruct (IH (if field_changed baseline draft m
    then fields_set m (or_null (fields_get m draft)) acc else acc)) as [-> ->].
  destruct (seqb n m) eqn:Hnm.
  - apply seqb_eq in Hnm as ->. simpl. destruct (field_changed baseline draft m) eqn:Hc.
    + rewrite fields_get_set, has_field_set, seqb_refl. by destruct (in_set m editable).
    + by rewrite andb_false_r.
  - simpl. destruct (field_changed baseline draft m); [|done].
    rewrite fields_get_set, has_field_set. apply seqb_neq in Hnm.
    by rewrite (proj2 (seqb_neq m n)) by congruence.
Qed.

(** What is saved is what was changed: the patch has exactly the editable
    fields whose value differs from the baseline, each with the draft's value,
    and there is something to save exactly when the record is dirty. *)
Theorem patch_is_exact baseline draft editable :
  let patch := compute_changed_fields baseline draft editable in
  (forall n, has_field n patch = in_set n editable && field_changed baseline draft n) /\
  (forall n, has_field n patch = true -> fields_get n patch = or_null (fields_get n draft)) /\
  (is_dirty baseline draft editable = true <-> patch <> []).
Proof.
  intros patch.
  assert (Hspec : forall n, fields_get n patch = (if in_set n editable && field_changed baseline draft n
     then or_null (fields_get n draft) else VUndef) /\
     has_field n patch = in_set n editable && field_changed baseline draft n).
  { intros n. destruct (changed_fields_spec baseline draft editable [] n) as [H1 H2].
    split; [exact H1|]. unfold patch, compute_changed_fields. rewrite H2. apply orb_false_r. }
  split; [intros n; apply Hspec|]. split.
  - intros n. destruct (Hspec n) as [-> ->]. by intros ->.
  - split.
    + intros (n & Hn & Hc)%existsb_exists Hnil. destruct (Hspec n) as [_ H2].
      rewrite Hnil, Hc, andb_true_r in H2. apply in_set_In in Hn. rewrite Hn in H2. done.
    + intros Hne. destruct patch as [|[n v] rest]; [done|]. destruct (Hspec n) as [_ H2].
      simpl in H2. rewrite seqb_refl in H2. simpl in H2. symmetry in H2.
      apply andb_true_iff in H2 as [Hn%in_set_In Hc]. apply existsb_exists. eauto.
Qed.

(** ** The body of a new record *)

Section CreateProofs.
Context (catalog : Catalog).

Definition field_default (env : option (gmap jstr jstr)) (attr : AttributeFieldMeta) : outcome (option jsval) :=
  match attr_create_default attr with
  | None => Val None
  | Some d => match resolve_create_default catalog d env with Exc e => Exc e | Val v => Val (Some v) end
  end.

(** The body that the attributes after some have built. *)
Lemma merge_fields_spec meta client_body env attrs acc body :
  NoDup (map attr_name_snake attrs) ->
  merge_fields catalog meta client_body env attrs acc = Val body ->
  (forall n, n ∉ map attr_name_snake attrs ->
     has_field n body = has_field n acc /\ fields_get n body = fields_get n acc) /\
  (forall attr, attr ∈ attrs -> exists r, create_field catalog meta client_body env attr = Val r /\
     match r with
     | Some v => has_field (attr_name_snake attr) body = true /\ fields_get (attr_name_snake attr) body = v
     | None => has_field (attr_name_snake attr) body = has_field (attr_name_snake attr) acc
     end).
Proof.
  revert acc. induction attrs as [|a attrs IH]; intros acc Hnd Hm.
  - injection Hm as <-. split; [done|]. intros attr Ha. by apply elem_of_nil in Ha.
  - apply NoDup_cons in Hnd as [Ha Hnd]. cbn [merge_fields] in Hm.
    destruct (create_field catalog meta client_body env a) as [r|e] eqn:Hc; [|done].
    set (acc' := match r with Some v => fields_set (attr_name_snake a) v acc | None => acc end).
    assert (Hm' : merge_fields catalog meta client_body env attrs acc' = Val body) by by destruct r.
    destruct (IH acc' Hnd Hm') as [Hout Hin].
    assert (Hacc : forall n, n <> attr_name_snake a ->
              has_field n acc' = has_field n acc /\ fields_get n acc' = fields_get n acc).
    { intros n Hn. unfold acc'. destruct r as [v|]; [|done].
      rewrite has_field_set, fields_get_set. by rewrite (proj2 (seqb_neq _ _)) by congruence. }
    split.
    + intros n [Hn Hn']%not_elem_of_cons. destruct (Hout n Hn') as [-> ->]. by apply Hacc.
    + intros attr [->|Hat]%elem_of_cons.
      * exists r. split; [done|]. destruct (Hout _ Ha) as [-> ->]. unfold acc'. destruct r as [v|]; [|done].
        by rewrite has_field_set, fields_get_set, seqb_refl.
      * destruct (Hin attr Hat) as (r' & Hr' & Hb). exists r'. split; [done|]. destruct r'; [done|].
        rewrite Hb. apply Hacc. intros Heq. apply Ha. rewrite <- Heq. by apply list_elem_of_fmap_2.
Qed.

(** What a body has for the attributes of its class. *)
Definition safe_body (meta : ClassFieldMeta) (client_body : fields) (env : option (gmap jstr jstr)) (body : fields)
  : Prop :=
  (forall n, has_field n body = true -> n ∈ map attr_name_snake (meta_attributes meta)) /\
  forall attr, attr ∈ meta_attributes meta ->
    let name := attr_name_snake attr in
    if server_field meta attr then has_field name body = false
    else if bool_decide (attr_references attr = None) && has_field name client_body
    then has_field name body = true /\ fields_get name body = fields_get name client_body
    else match field_default env attr with
         | Val (Some v) => has_field name body = true /\ fields_get name body = v
         | Val None => has_field name body = false
         | Exc _ => False
         end.

Lemma create_body_spec meta client_body env body :
  NoDup (map attr_name_snake (meta_attributes meta)) ->
  merge_create_body catalog meta client_body env = Val body ->
  safe_body meta client_body env body.
Proof.
  intros Hnd. unfold merge_create_body.
  destruct (attributes_in_declaration_order (meta_attributes meta)) as [ordered|e] eqn:Ho; [|done].
  apply declaration_order_spec in Ho as [Hp _]. intros Hm.
  assert (Hnames : map attr_name_snake ordered ≡ₚ map attr_name_snake (meta_attributes meta))
    by by apply Permutation_map.
  destruct (merge_fields_spec meta client_body env ordered [] body) as [Hout Hin]; [by rewrite Hnames|done|].
  split.
  - intros n Hn. destruct (decide (n ∈ map attr_name_snake ordered)) as [Hd|Hd]; [by rewrite <- Hnames|].
    destruct (Hout n Hd) as [Hf _]. by rewrite Hf in Hn.
  - intros attr Hattr. cbv zeta. rewrite <- Hp in Hattr. destruct (Hin attr Hattr) as (r & Hr & Hb).
    unfold create_field in Hr. fold (field_default env attr) in Hr. cbv zeta in Hr.
    destruct (server_field meta attr); [by injection Hr as <-|].
    destruct (attr_references attr) eqn:Href.
    + rewrite bool_decide_false by done. simpl. rewrite Hr. by destruct r.
    + rewrite bool_decide_true by done. simpl. destruct (has_field _ client_body).
      * by injection Hr as <-.
      * rewrite Hr. by destruct r.
Qed.

(** Property C22. A new record has no field that is the server's own.  Whatever the client
    sent, the body has only attributes of the class; none of the id, the audit
    fields and the friendly id; a reference to another record is the declared
    default and never the client's; the other fields are the client's where it
    gave one, and the declared default otherwise. *)
Theorem create_body_is_safe meta client_body env body :
  NoDup (map attr_name_snake (meta_attributes meta)) ->
  merge_create_body catalog meta client_body env = Val body ->
  (forall n, has_field n body = true -> n ∈ map attr_name_snake (meta_attributes meta)) /\
  forall attr, attr ∈ meta_attributes meta ->
    let name := attr_name_snake attr in
    if server_field meta attr then has_field name body = false
    else if bool_decide (attr_references attr = None) && has_field name client_body
    then has_field name body = true /\ fields_get name body = fields_get name client_body
    else match field_default env attr with
         | Val (Some v) => has_field name body = true /\ fields_get name body = v
         | Val None => has_field name body = false
         | Exc _ => False
         end.
Proof. intros Hnd Hm. exact (create_body_spec meta client_body env body Hnd Hm). Qed.
End CreateProofs.

(** A class with a server field, an editable one and a reference. *)
Definition sample_attributes : ClassFieldMeta :=
  let attr name type references order default :=
    {| attr_name_snake := u name; attr_type_name := u type; attr_required := false; attr_references := references;
       attr_order := NInt order; attr_create_default := default; attr_min_value := None; attr_max_value := None |} in
  {| meta_name_snake := u "incident"; meta_display_name := u "Incident";
     meta_attributes := [attr "number" "friendly_id" None 0 None; attr "title" "string" None 1 None;
                         attr "owner" "uuid" (Some (u "user")) 2 (Some (VStr (u "nobody")))];
     meta_friendly_id_attr := Some (u "number"); meta_display_attribute := None; meta_public := false;
     meta_permissions := [] |}.

Lemma create_body_is_safe_witness :
  let catalog := {| substitution_contexts := ∅; well_known := ∅ |} in
  let client := [(u "title", VStr (u "t")); (u "owner", VStr (u "me")); (u "number", VStr (u "X1"))] in
  let body := [(u "title", VStr (u "t")); (u "owner", VStr (u "nobody"))] in
  merge_create_body catalog sample_attributes client None = Val body /\
  forall n, has_field n body = true -> n ∈ map attr_name_snake (meta_attributes sample_attributes).
Proof.
  intros catalog client body.
  assert (Hm : merge_create_body catalog sample_attributes client None = Val body) by (vm_compute; reflexivity).
  split; [exact Hm|].
  assert (Hnd : NoDup (map attr_name_snake (meta_attributes sample_attributes)))
    by (apply (bool_decide_eq_true_1 _); vm_compute; reflexivity).
  exact (proj1 (create_body_is_safe catalog sample_attributes client None body Hnd Hm)).
Defined.
