(* ===== verification/RefreshFetch.v ===== *)
(** auth/refresh_fetch.ts, auth/csrf_browser.ts, auth/next_path.ts and
    auth/refresh_bootstrap.tsx of the frontend, with records/browser_api.ts: the
    requests of the browser, which renew an expired session once and try again.

    A request goes through the calls of [BrowserE]; a [fetch] may reject.  A body
    is what [json()] gives of it, [None] when it is no JSON or cannot be read. *)
From S2P Require Import Prelude JsString JsValue JsText JsArray RedisRateLimit Cookies.

(** ** Requests and responses *)

Record Response : Type := {
  status : Z;
  body_json : option jsval;
}.

(** [response.ok] *)
Definition ok (r : Response) : bool := (200 <=? status r) && (status r <=? 299).

(** [RequestInit]; header names are in lower case. *)
Record RequestInit : Type := {
  init_method : option jstr;
  credentials : option jstr;
  headers : jsmap;
  body : option jstr;
}.

Inductive RequestInfo : Type :=
| InString (href : jstr)
| InUrl (href : jstr)
| InRequest (url method : jstr).

(** The calls: [document.cookie] and the path and query of [window.location]
    ([None] where there is no document or window), [fetch], the two ways to
    leave the page, and whether the component was unmounted. *)
Inductive BrowserE : Type -> Type :=
| DocumentCookie : BrowserE (option jstr)
| WindowLocation : BrowserE (option (jstr * jstr))
| Fetch (input : RequestInfo) (init : RequestInit) : BrowserE (outcome Response)
| LocationAssign (url : jstr) : BrowserE unit
| LocationReplace (url : jstr) : BrowserE unit
| Cancelled : BrowserE bool.

Notation B := (IO BrowserE).

Definition no_init : RequestInit := {| init_method := None; credentials := None; headers := []; body := None |}.

(** ** next_path.ts, csrf_browser.ts *)

Definition safe_next_path (raw : option jstr) (fallback : jstr) : jstr :=
  match raw with
  | None | Some [] => fallback
  | Some raw =>
      if negb (starts_with (u "/") raw) || starts_with (u "//") raw || includes (u "://") raw
      then fallback else raw
  end.

(** One part of the header; the last match stays. *)
Definition csrf_part (found part : jstr) : jstr :=
  match index_of 61 part with
  | None | Some O => found
  | Some cut =>
      if seqb (trim (slice part 0 (Z.of_nat cut))) CSRF_COOKIE_NAME
      then trim (slice_from part (Z.of_nat cut + 1)) else found
  end.

Definition csrf_token_from_cookie_header (header : jstr) : jstr := fold_left csrf_part (split_on 59 header) [].

Definition csrf_token_from_document_cookie : B jstr :=
  let* cookie := perform DocumentCookie in
  ret match cookie with None => [] | Some header => csrf_token_from_cookie_header header end.

(** ** refresh_fetch.ts *)

Definition DEFAULT_SESSION_MAX_REFRESH_RETRIES : Z := 5.

Definition CSRF_PATH : jstr := u "/api/v2/auth/csrf".
Definition LOGIN_PATH : jstr := u "/api/v2/auth/login".
Definition REFRESH_PATH : jstr := u "/api/v2/auth/refresh".

Inductive RefreshAttemptResult : Type := refresh_ok | hard_fail.

Definition session_max_refresh_retries_from_config (value : jsval) : Z :=
  match value with
  | VNum (NInt z) => if (1 <=? z) && (z <=? 10) then z else DEFAULT_SESSION_MAX_REFRESH_RETRIES
  | _ => DEFAULT_SESSION_MAX_REFRESH_RETRIES
  end.

Definition body_allows_refresh (body : option jsval) : bool :=
  match body with Some v => is_true (vget v (u "retry")) | None => false end.

Definition request_href (input : RequestInfo) : jstr :=
  match input with InString href | InUrl href | InRequest href _ => href end.

Definition to_upper (s : jstr) : jstr := List.concat (map upper_unit s).

Definition resolved_method (input : RequestInfo) (init : RequestInit) : jstr :=
  match init_method init with
  | Some ((_ :: _) as m) => to_upper m
  | _ => match input with InRequest _ m => to_upper m | _ => u "GET" end
  end.

Definition csrf_required (method : jstr) : bool := negb (seqb method "GET") && negb (seqb method "OPTIONS").

(** The string literal of a body that the expression matches after its opening
    quote: the rest behind the closing quote. *)
Fixpoint json_literal_rest (s : jstr) : option jstr :=
  match s with
  | [] => None
  | 34 :: r => Some r
  | 92 :: c :: r =>
      if (c =? 10) || (c =? 13) || (c =? 8232) || (c =? 8233) then None else json_literal_rest r
  | 92 :: [] => None
  | _ :: r => json_literal_rest r
  end.

(** [JSON_CSRF_TOKEN_FIELD] at the start of a text: its prefix and the rest
    behind the match. *)
Definition csrf_field_at (s : jstr) : option (jstr * jstr) :=
  let name := [34] ++ u "csrf_token" ++ [34] in
  if starts_with name s then
    let r1 := drop_while is_space (skipn (length name) s) in
    match r1 with
    | 58 :: r2 =>
        match drop_while is_space r2 with
        | 34 :: r3 =>
            match json_literal_rest r3 with
            | Some rest => Some (take (length s - S (length r3)) s, rest)
            | None => None
            end
        | _ => None
        end
    | _ => None
    end
  else None.

(** [body.replace(JSON_CSRF_TOKEN_FIELD, ...)]: the first match, if any. *)
Fixpoint replace_csrf_field (s replacement : jstr) : jstr :=
  match csrf_field_at s with
  | Some (prefix, rest) => prefix ++ replacement ++ rest
  | None => match s with [] => [] | c :: r => c :: replace_csrf_field r replacement end
  end.

Definition rewrite_json_csrf_token_field (body : option jstr) (token : jstr) : option jstr :=
  match body with
  | None => None
  | Some text =>
      match json_parse text with
      | Some (VObj _ as parsed) =>
          match vget parsed (u "csrf_token") with
          | VStr current =>
              if seqb current token then body else Some (replace_csrf_field text (json_string token))
          | _ => body
          end
      | _ => body
      end
  end.

Definition csrf_token (force_fetch : bool) : B jstr :=
  let* from_cookie := if force_fetch then ret [] else csrf_token_from_document_cookie in
  if negb (bool_decide (from_cookie = [])) then ret from_cookie
  else
    let* response := call (Fetch (InString CSRF_PATH)
      {| init_method := None; credentials := Some (u "include"); headers := []; body := None |}) in
    if negb (ok response) then ret []
    else ret match body_json response with
             | Some v => match vget v (u "csrf_token") with VStr t => t | _ => [] end
             | None => []
             end.

Definition with_header (name value : jstr) (h : jsmap) : jsmap := map_set name value h.

Definition init_with_csrf (input : RequestInfo) (init : RequestInit) : B RequestInit :=
  let cred := Some (match credentials init with Some c => c | None => u "include" end) in
  let next := {| init_method := init_method init; credentials := cred; headers := headers init;
                 body := body init |} in
  if negb (csrf_required (resolved_method input init)) then ret next
  else
    let* token := csrf_token false in
    if bool_decide (token = []) then ret next
    else ret {| init_method := init_method init; credentials := cred;
                headers := with_header (u "x-csrf-token") token (headers init);
                body := rewrite_json_csrf_token_field (body init) token |}.

(** encodeURIComponent throws on a lone surrogate. *)
Definition assign_login : B unit :=
  let* location := perform WindowLocation in
  match location with
  | None => ret tt
  | Some (pathname, search) =>
      let dest := safe_next_path (Some (pathname ++ search)) (u "/") in
      if seqb dest "/" then perform (LocationAssign (u "/login"))
      else match or_uri_error (encodeURIComponent dest) with
           | Exc e => throw e
           | Val next => perform (LocationAssign (u "/login?next=" ++ next))
           end
  end.

Definition response_allows_refresh (r : Response) : bool :=
  (status r =? 401) && body_allows_refresh (body_json r).

(** The bound that a refusal carries. *)
Definition told_bound (r : Response) : Z :=
  session_max_refresh_retries_from_config
    match body_json r with Some v => vget v (u "max_retries") | None => VUndef end.

Definition post_refresh (force_csrf_fetch : bool) : B Response :=
  let* token := csrf_token force_csrf_fetch in
  let h := [(u "accept", u "application/json")] in
  call (Fetch (InString REFRESH_PATH)
    {| init_method := Some (u "POST"); credentials := Some (u "include");
       headers := if bool_decide (token = []) then h else with_header (u "x-csrf-token") token h;
       body := None |}).

(** The loop after [attempts] requests; [None]: not done after [fuel] more. *)
Fixpoint refresh_loop (fuel : nat) (attempts : Z) : B (option RefreshAttemptResult) :=
  match fuel with
  | O => ret None
  | S fuel =>
      let attempts := attempts + 1 in
      let* refreshed := post_refresh (attempts =? 1) in
      if status refreshed =? 200 then ret (Some refresh_ok)
      else if response_allows_refresh refreshed then
        if attempts <? told_bound refreshed then refresh_loop fuel attempts else ret (Some hard_fail)
      else ret (Some hard_fail)
  end.

Definition run_refresh_attempts : B (option RefreshAttemptResult) := refresh_loop 10 0.

Section Fetches.
(** [new URL(href, "http://localhost").pathname]; [None] when it throws. *)
Context (url_pathname : jstr -> option jstr).

Definition is_refresh_bootstrap (href : jstr) : bool :=
  match url_pathname href with
  | Some path => seqb path CSRF_PATH || seqb path LOGIN_PATH || seqb path REFRESH_PATH
  | None => false
  end.

(** [None]: the refresh attempts do not end. *)
Definition authenticated_fetch (input : RequestInfo) (init : RequestInit) : B (option Response) :=
  let skip_refresh := is_refresh_bootstrap (request_href input) in
  let* request_init := init_with_csrf input init in
  let* original := call (Fetch input request_init) in
  if skip_refresh || (status original =? 403) then ret (Some original)
  else if negb (status original =? 401) then ret (Some original)
  else if negb (response_allows_refresh original) then
    let* _ := assign_login in ret (Some original)
  else
    let* refreshed := run_refresh_attempts in
    match refreshed with
    | None => ret None
    | Some refresh_ok =>
        let* retry_init := init_with_csrf input init in
        let* response := call (Fetch input retry_init) in
        ret (Some response)
    | Some hard_fail =>
        let* _ := assign_login in ret (Some original)
    end.

(** ** refresh_bootstrap.tsx *)

Definition replace_current_url : B unit :=
  let* location := perform WindowLocation in
  match location with
  | None => ret tt
  | Some (pathname, search) =>
      perform (LocationReplace (safe_next_path (Some (pathname ++ search)) (u "/")))
  end.

(** The effect of the component. *)
Definition RefreshBootstrap : B unit :=
  let* result := run_refresh_attempts in
  let* cancelled := perform Cancelled in
  if (cancelled : bool) then ret tt
  else match result with
       | Some refresh_ok => replace_current_url
       | Some hard_fail => assign_login
       | None => ret tt
       end.
End Fetches.

(** ** What a run did *)

Definition fetched (e : event BrowserE) : option (RequestInfo * RequestInit * outcome Response) :=
  match e with
  | Ev c x =>
      match c in BrowserE X return X -> option (RequestInfo * RequestInit * outcome Response) with
      | Fetch input init => fun r => Some (input, init, r)
      | _ => fun _ => None
      end x
  end.

Definition assigned (e : event BrowserE) : option jstr :=
  match e with Ev c _ => match c with LocationAssign url => Some url | _ => None end end.

Definition fetches (tr : list (event BrowserE)) := omap fetched tr.

#[export] Instance RequestInfo_eq_dec : EqDecision RequestInfo.
Proof. solve_decision. Defined.

(** The answers to the requests made with an input. *)
Definition sent (input : RequestInfo) (tr : list (event BrowserE)) : list (outcome Response) :=
  map snd (filter (fun f => f.1.1 = input) (fetches tr)).

(** The answers to the refresh requests. *)
Definition refreshes (tr : list (event BrowserE)) : list (outcome Response) :=
  map snd (filter (fun f => f.1.1 = InString REFRESH_PATH /\ init_method f.1.2 = Some (u "POST")) (fetches tr)).

(** The ways to the login page that were taken. *)
Definition logins (tr : list (event BrowserE)) : list jstr := omap assigned tr.

(** A [fetch] rejected. *)
Definition rejected (tr : list (event BrowserE)) : Prop := exists f, f ∈ fetches tr /\ exists e, f.2 = Exc e.

Lemma fetches_app t1 t2 : fetches (t1 ++ t2) = fetches t1 ++ fetches t2.
Proof. apply omap_app. Qed.

Lemma sent_app input t1 t2 : sent input (t1 ++ t2) = sent input t1 ++ sent input t2.
Proof. unfold sent. by rewrite fetches_app, filter_app, map_app. Qed.

Lemma refreshes_app t1 t2 : refreshes (t1 ++ t2) = refreshes t1 ++ refreshes t2.
Proof. unfold refreshes. by rewrite fetches_app, filter_app, map_app. Qed.

Lemma logins_app t1 t2 : logins (t1 ++ t2) = logins t1 ++ logins t2.
Proof. apply omap_app. Qed.

Lemma rejected_app t1 t2 : rejected (t1 ++ t2) <-> rejected t1 \/ rejected t2.
Proof.
  unfold rejected. rewrite fetches_app. split.
  - intros (f & [Hf|Hf]%elem_of_app & He); eauto.
  - intros [(f & Hf & He)|(f & Hf & He)]; exists f; rewrite elem_of_app; eauto.
Qed.

(** Nothing but the request of a CSRF token. *)
Definition only_csrf (tr : list (event BrowserE)) : Prop :=
  logins tr = [] /\ Forall (fun f => f.1.1 = InString CSRF_PATH /\ init_method f.1.2 = None) (fetches tr).

Lemma only_csrf_refreshes tr : only_csrf tr -> refreshes tr = [].
Proof.
  intros [_ H]. unfold refreshes. induction H as [|f l [Hi _] _ IH]; [done|].
  rewrite filter_cons. rewrite decide_False; [exact IH|]. rewrite Hi. by intros [? _].
Qed.

Lemma only_csrf_sent input tr : only_csrf tr -> input <> InString CSRF_PATH -> sent input tr = [].
Proof.
  intros [_ H] Hne. unfold sent. induction H as [|f l [Hi _] _ IH]; [done|].
  rewrite filter_cons. rewrite decide_False; [exact IH|]. by rewrite Hi.
Qed.

(** The last request of the run was rejected. *)
Lemma rejected_last tr input init e : rejected (tr ++ [Ev (Fetch input init) (Exc e)]).
Proof. apply rejected_app. right. eexists. split; [apply list_elem_of_here|by eexists]. Qed.

Lemma csrf_token_spec force :
  wp (csrf_token force) (fun tr r => only_csrf tr /\ (forall e, r = Exc e -> rejected tr)).
Proof.
  assert (Hf : forall tr : list (event BrowserE), only_csrf tr ->
    wp (let* response := call (Fetch (InString CSRF_PATH)
          {| init_method := None; credentials := Some (u "include"); headers := []; body := None |}) in
        if negb (ok response) then ret []
        else ret match body_json response with
                 | Some v => match vget v (u "csrf_token") with VStr t => t | _ => [] end
                 | None => []
                 end) (fun tr' r => only_csrf (tr ++ tr') /\ (forall e, r = Exc e -> rejected (tr ++ tr')))).
  { intros tr [Hl Htr]. io_unfold. simpl. intros r.
    assert (Hc : only_csrf (tr ++ [Ev (Fetch (InString CSRF_PATH)
       {| init_method := None; credentials := Some (u "include"); headers := []; body := None |}) r])).
    { split; [by rewrite logins_app, Hl|]. rewrite fetches_app. apply Forall_app. by repeat constructor. }
    destruct r as [r|e]; simpl; [destruct (negb (ok r)); simpl; by split|].
    split; [done|]. intros e' _. apply rejected_last. }
  unfold csrf_token. destruct force; [apply (Hf []); by split|].
  unfold csrf_token_from_document_cookie. cbn [then_ perform bind wp]. intros c.
  cbn [bind ret wp]. destruct (negb (bool_decide _)); [by split; [split|]|].
  apply (Hf [Ev DocumentCookie c]). by split.
Qed.

Lemma init_with_csrf_spec input init :
  wp (init_with_csrf input init) (fun tr r => only_csrf tr /\ (forall e, r = Exc e -> rejected tr)).
Proof.
  unfold init_with_csrf. destruct (negb (csrf_required _)); [by split; [split|]|].
  eapply wp_then; [apply (csrf_token_spec false)| |].
  - intros tr t [Htr Hr]. destruct (bool_decide (t = [])); simpl; rewrite app_nil_r; by split.
  - intros tr e [Htr Hr]. split; [done|]. intros e' He'. by eapply Hr.
Qed.

Lemma post_refresh_spec force :
  wp (post_refresh force) (fun tr r => logins tr = [] /\
    match r with
    | Val resp => refreshes tr = [Val resp]
    | Exc e => (length (refreshes tr) <= 1)%nat /\ rejected tr
    end).
Proof.
  unfold post_refresh. eapply wp_then; [apply csrf_token_spec| |].
  - intros tr t [Htr _]. io_unfold. simpl. intros r. rewrite logins_app, refreshes_app.
    rewrite (only_csrf_refreshes tr Htr). destruct Htr as [-> _]. split; [done|].
    destruct r as [resp|e]; [done|]. split; [simpl; lia|]. apply rejected_last.
  - intros tr e [Htr Hr]. rewrite (only_csrf_refreshes tr Htr). destruct Htr as [-> _].
    split; [done|]. split; [simpl; lia|eauto].
Qed.

Lemma told_bound_range r : 1 <= told_bound r <= 10.
Proof.
  unfold told_bound, session_max_refresh_retries_from_config, DEFAULT_SESSION_MAX_REFRESH_RETRIES.
  generalize (match body_json r with Some v => vget v (u "max_retries") | None => VUndef end).
  intros [| | |[z| | |]| | |]; try lia. destruct (Z.leb_spec 1 z), (Z.leb_spec z 10); simpl; lia.
Qed.

(** What a run of the loop after [attempts] requests did. *)
Definition attempts_made (attempts : Z) (tr : list (event BrowserE))
    (r : outcome (option RefreshAttemptResult)) : Prop :=
  let posts := refreshes tr in
  logins tr = [] /\
  attempts + Z.of_nat (length posts) <= 10 /\
  (forall i resp, posts !! i = Some (Val resp) -> (S i < length posts)%nat ->
     response_allows_refresh resp = true /\ attempts + Z.of_nat i + 1 < told_bound resp) /\
  match r with
  | Val (Some refresh_ok) => exists resp, last posts = Some (Val resp) /\ status resp = 200
  | Val (Some hard_fail) => exists resp, last posts = Some (Val resp) /\ status resp <> 200 /\
      (response_allows_refresh resp = true -> told_bound resp <= attempts + Z.of_nat (length posts))
  | Val None => False
  | Exc _ => rejected tr
  end.

Lemma refresh_loop_ends fuel attempts : 0 <= attempts < 10 -> attempts + Z.of_nat fuel = 10 ->
  wp (refresh_loop fuel attempts) (attempts_made attempts).
Proof.
  revert attempts. induction fuel as [|fuel IH]; intros attempts Ha Hf; [simpl in Hf; lia|].
  cbn [refresh_loop]. eapply wp_then; [apply post_refresh_spec| |].
  - intros tr resp [Hl Hp]. pose proof (told_bound_range resp) as Hb.
    assert (Hone : forall i x, [Val resp] !! i = Some (Val x) -> (S i < 1)%nat -> False) by (intros; lia).
    destruct (Z.eqb_spec (status resp) 200) as [Hs|Hs]; [|destruct (response_allows_refresh resp) eqn:Hr;
      [destruct (Z.ltb_spec (attempts + 1) (told_bound resp))|]].
    + simpl. rewrite app_nil_r. unfold attempts_made. rewrite Hp, Hl. simpl. split_and!; [done|lia| |by exists resp].
      intros i x Hx Hi. by destruct (Hone i x Hx Hi).
    + eapply wp_mono; [|apply IH; lia]. intros tr' r (Hl' & Hlen & Hall & Hres).
      unfold attempts_made. rewrite logins_app, refreshes_app, Hl, Hp, Hl'. cbn [app length].
      split_and!; [done|lia| |].
      * intros [|i] x Hx Hi; simpl in Hx.
        -- injection Hx as <-. split; [done|lia].
        -- destruct (Hall i x Hx) as [? ?]; [lia|]. split; [done|lia].
      * assert (Hlast : forall x, last (refreshes tr') = Some x -> last (Val resp :: refreshes tr') = Some x).
        { intros x Hx. destruct (refreshes tr'); [done|exact Hx]. }
        destruct r as [[[]|]|e]; [| |done|by apply rejected_app; right].
        -- destruct Hres as (x & Hx & Hst). eauto.
        -- destruct Hres as (x & Hx & Hst & Hbd). exists x. split_and!; [by apply Hlast|done|].
           intros H'. specialize (Hbd H'). lia.
    + simpl. rewrite app_nil_r. unfold attempts_made. rewrite Hp, Hl. simpl. split_and!; [done|lia| |].
      * intros i x Hx Hi. by destruct (Hone i x Hx Hi).
      * exists resp. split_and!; [done|done|lia].
    + simpl. rewrite app_nil_r. unfold attempts_made. rewrite Hp, Hl. simpl. split_and!; [done|lia| |].
      * intros i x Hx Hi. by destruct (Hone i x Hx Hi).
      * exists resp. split_and!; [done|done|by rewrite Hr].
  - intros tr e [Hl [Hp Hrej]]. unfold attempts_made. split_and!; [done|lia| |done].
    intros i x Hx Hi. lia.
Qed.

Lemma attempts_end : wp run_refresh_attempts (attempts_made 0).
Proof. apply refresh_loop_ends; lia. Qed.

(** Property C15. Renewing a session ends: after at most ten refresh requests there is an
    answer.  Each request but the last was refused with the permission to try
    again and a bound that the next one keeps; the last one succeeded when the
    answer is a success, and otherwise gave no permission or reached its
    bound. *)
Theorem run_refresh_attempts_end :
  wp run_refresh_attempts (fun tr r =>
    let posts := refreshes tr in
    (length posts <= 10)%nat /\
    (forall i resp, posts !! i = Some (Val resp) -> (S i < length posts)%nat ->
       response_allows_refresh resp = true /\ Z.of_nat (S i) < told_bound resp) /\
    match r with
    | Val (Some refresh_ok) => exists resp, last posts = Some (Val resp) /\ status resp = 200
    | Val (Some hard_fail) => exists resp, last posts = Some (Val resp) /\ status resp <> 200 /\
        (response_allows_refresh resp = true -> told_bound resp <= Z.of_nat (length posts))
    | Val None => False
    | Exc _ => rejected tr
    end).
Proof.
  eapply wp_mono; [|exact attempts_end]. intros tr r (_ & Hlen & Hall & Hr). cbv zeta.
  split_and!; [lia| |].
  - intros i resp Hi Hl. destruct (Hall i resp Hi Hl) as [? ?]. split; [done|lia].
  - by destruct r as [[[]|]|e].
Qed.

(** ** The request itself *)

(** Requests of a token or of a refresh only. *)
Definition auxiliary (tr : list (event BrowserE)) : Prop :=
  Forall (fun f => f.1.1 = InString CSRF_PATH \/ f.1.1 = InString REFRESH_PATH) (fetches tr).

Lemma auxiliary_app t1 t2 : auxiliary t1 -> auxiliary t2 -> auxiliary (t1 ++ t2).
Proof. unfold auxiliary. rewrite fetches_app. intros. by apply Forall_app. Qed.

Lemma only_csrf_auxiliary tr : only_csrf tr -> auxiliary tr.
Proof. intros [_ H]. eapply Forall_impl; [exact H|]. intros f [? _]. by left. Qed.

Lemma auxiliary_sent input tr : auxiliary tr ->
  input <> InString CSRF_PATH -> input <> InString REFRESH_PATH -> sent input tr = [].
Proof.
  intros H H1 H2. unfold sent. induction H as [|f l Hf _ IH]; [done|].
  rewrite filter_cons, decide_False; [exact IH|]. intros Heq. rewrite Heq in Hf. by destruct Hf.
Qed.

Lemma post_refresh_auxiliary force : wp (post_refresh force) (fun tr _ => auxiliary tr).
Proof.
  unfold post_refresh. eapply wp_then; [apply csrf_token_spec| |].
  - intros tr t [Htr _]. io_unfold. simpl. intros r. apply auxiliary_app; [by apply only_csrf_auxiliary|].
    repeat constructor; by right.
  - intros tr e [Htr _]. by apply only_csrf_auxiliary.
Qed.

Lemma refresh_loop_auxiliary fuel attempts : wp (refresh_loop fuel attempts) (fun tr _ => auxiliary tr).
Proof.
  revert attempts. induction fuel as [|fuel IH]; intros attempts; [constructor|].
  cbn [refresh_loop]. eapply wp_then; [apply post_refresh_auxiliary| |done].
  intros tr resp Htr. simpl in Htr.
  assert (Hret : forall x : option RefreshAttemptResult, wp (ret x) (fun tr' (_ : outcome (option RefreshAttemptResult)) =>
     auxiliary (tr ++ tr'))).
  { intros x. simpl. by rewrite app_nil_r. }
  destruct (status resp =? 200); [apply Hret|]. destruct (response_allows_refresh resp); [|apply Hret].
  destruct (_ <? _); [|apply Hret]. eapply wp_mono; [|apply IH]. intros. by apply auxiliary_app.
Qed.

Lemma assign_login_spec :
  wp assign_login (fun tr r => fetches tr = [] /\ forall e, r = Exc e -> e = uri_error).
Proof.
  unfold assign_login. io_unfold. simpl. intros [[p s]|]; [|by split].
  cbv zeta. destruct (seqb _ _); simpl; [by intros []|].
  unfold or_uri_error. destruct (encodeURIComponent _); simpl; [by intros []|]. split; [done|]. by intros e [= <-].
Qed.

Lemma fetches_nil_readers input tr : fetches tr = [] -> sent input tr = [] /\ refreshes tr = [] /\ ~ rejected tr.
Proof.
  intros H. unfold sent, refreshes, rejected. rewrite H. split; [done|]. split; [done|].
  intros (f & Hf & _). by apply elem_of_nil in Hf.
Qed.

Section Once.
Context (url_pathname : jstr -> option jstr).
(** The path of a path is the path. *)
Hypothesis csrf_pathname : url_pathname CSRF_PATH = Some CSRF_PATH.
Hypothesis refresh_pathname : url_pathname REFRESH_PATH = Some REFRESH_PATH.

Lemma not_bootstrap_input input : is_refresh_bootstrap url_pathname (request_href input) = false ->
  input <> InString CSRF_PATH /\ input <> InString REFRESH_PATH.
Proof.
  unfold is_refresh_bootstrap. intros H.
  split; intros ->; simpl in H; [rewrite csrf_pathname in H|rewrite refresh_pathname in H]; vm_compute in H; done.
Qed.

Definition renewed (tr : list (event BrowserE)) : Prop :=
  exists resp, last (refreshes tr) = Some (Val resp) /\ status resp = 200.

(** What follows the first answer. *)
Definition after_answer (input : RequestInfo) (original : Response) (t : list (event BrowserE))
    (r : outcome (option Response)) : Prop :=
  (length (sent input t) <= 1)%nat /\
  (refreshes t <> [] -> response_allows_refresh original = true) /\
  (length (sent input t) = 1%nat -> renewed t) /\
  (logins t <> [] -> sent input t = [] /\ status original = 401 /\ ~ renewed t) /\
  match r with
  | Val (Some resp) => last (Val original :: sent input t) = Some (Val resp)
  | Val None => False
  | Exc e => rejected t \/ e = uri_error
  end.

(** Going to the login page after [tr], of which no request was the page's. *)
Lemma login_after input original tr :
  sent input tr = [] -> status original = 401 -> ~ renewed tr ->
  (refreshes tr <> [] -> response_allows_refresh original = true) ->
  wp (let* _ := assign_login in ret (Some original))
    (fun t r => after_answer input original (tr ++ t) r).
Proof.
  intros Hs Hst Hn Hre.
  assert (Hgo : forall t r, fetches t = [] ->
    match r with Val x => x = Some original | Exc e => e = uri_error end ->
    after_answer input original (tr ++ t) r).
  { intros t r Hf Hr. destruct (fetches_nil_readers input t Hf) as (Hs' & Hr' & _).
    unfold after_answer, renewed. rewrite sent_app, refreshes_app, Hs, Hs', Hr', !app_nil_r. simpl.
    split; [lia|]. split; [exact Hre|]. split; [done|]. split; [by intros _|].
    destruct r as [x|e]; [by subst|by right]. }
  eapply wp_then; [apply assign_login_spec| |].
  - intros t x [Hf _]. simpl. rewrite app_nil_r. by apply Hgo.
  - intros t e [Hf He]. apply Hgo; [done|]. by apply He.
Qed.

(** The second request after a refresh. *)
Lemma retry_after input init original tr :
  input <> InString CSRF_PATH -> input <> InString REFRESH_PATH ->
  sent input tr = [] -> logins tr = [] -> renewed tr -> response_allows_refresh original = true ->
  wp (let* retry_init := init_with_csrf input init in
      let* response := call (Fetch input retry_init) in
      ret (Some response))
    (fun t r => after_answer input original (tr ++ t) r).
Proof.
  intros Hc Hr Hs Hl Hn Hal. eapply wp_then; [apply init_with_csrf_spec| |].
  - intros t ri [Ht _]. cbn [then_ call bind wp]. intros answer.
    assert (Hgo : forall r, match r with Val x => Val <$> x = Some answer | Exc e => answer = Exc e end ->
      after_answer input original (tr ++ t ++ [Ev (Fetch input ri) answer]) r).
    { intros r Hres. unfold after_answer, renewed. rewrite !sent_app, !refreshes_app, !logins_app, Hs, Hl.
      rewrite (only_csrf_sent input t Ht Hc), (only_csrf_refreshes t Ht). destruct Ht as [-> _].
      assert (Hone : sent input [Ev (Fetch input ri) answer] = [answer]).
      { unfold sent. simpl. by rewrite filter_cons_True. }
      assert (Hnone : refreshes [Ev (Fetch input ri) answer] = []).
      { unfold refreshes. simpl. rewrite filter_cons_False; [done|]. intros [? _]. done. }
      rewrite Hone, Hnone, app_nil_r. simpl. split_and!; try done.
      destruct r as [x|e].
      - destruct x as [x|]; [|done]. by injection Hres as <-.
      - left. subst answer. rewrite app_assoc. apply rejected_last. }
    destruct answer as [resp|e]; cbn [bind ret wp]; by apply Hgo.
  - intros t e [Ht He]. unfold after_answer, renewed. rewrite sent_app, refreshes_app, logins_app, Hs, Hl.
    rewrite (only_csrf_sent input t Ht Hc), (only_csrf_refreshes t Ht), app_nil_r. destruct Ht as [-> _].
    simpl. split_and!; try done; [lia|]. left. apply rejected_app. right. by eapply He.
Qed.

(** The first request of the page. *)
Lemma first_request input ri answer tr1 :
  input <> InString CSRF_PATH -> input <> InString REFRESH_PATH -> only_csrf tr1 ->
  let ev := Ev (Fetch input ri) answer in
  (forall t, sent input (tr1 ++ ev :: t) = answer :: sent input t) /\
  (forall t, refreshes (tr1 ++ ev :: t) = refreshes t) /\
  (forall t, logins (tr1 ++ ev :: t) = logins t) /\
  (forall t, rejected t -> rejected (tr1 ++ ev :: t)).
Proof.
  intros Hc Hr Htr ev. assert (Hcons : forall t, tr1 ++ ev :: t = (tr1 ++ [ev]) ++ t) by (intros t; by rewrite <- app_assoc).
  split_and!; intros t; rewrite Hcons.
  - rewrite !sent_app, (only_csrf_sent input tr1 Htr Hc). unfold sent at 1. simpl. by rewrite filter_cons_True.
  - rewrite !refreshes_app, (only_csrf_refreshes tr1 Htr). unfold refreshes at 1. simpl.
    rewrite filter_cons_False; [done|]. intros [? _]. done.
  - rewrite !logins_app. by destruct Htr as [-> _].
  - intros Ht. rewrite rejected_app. by right.
Qed.

(** What a run of a request of the page did. *)
Definition fetched_once (input : RequestInfo) (tr : list (event BrowserE)) (r : outcome (option Response)) : Prop :=
  let answers := sent input tr in
  (length answers <= 2)%nat /\
  (refreshes tr <> [] -> exists first rest, answers = Val first :: rest /\ response_allows_refresh first = true) /\
  (length answers = 2%nat -> renewed tr) /\
  (logins tr <> [] -> exists first, answers = [Val first] /\ status first = 401 /\ ~ renewed tr) /\
  match r with
  | Val (Some resp) => last answers = Some (Val resp)
  | Val None => False
  | Exc e => rejected tr \/ e = uri_error
  end.

Lemma authenticated_fetch_spec input init :
  is_refresh_bootstrap url_pathname (request_href input) = false ->
  wp (authenticated_fetch url_pathname input init) (fetched_once input).
Proof.
  intros Hboot. destruct (not_bootstrap_input input Hboot) as [Hc Hr]. unfold authenticated_fetch. rewrite Hboot.
  eapply wp_then; [apply init_with_csrf_spec| |].
  2: { intros tr e [Htr He]. unfold fetched_once, renewed; cbv zeta. rewrite (only_csrf_sent input tr Htr Hc), (only_csrf_refreshes tr Htr).
       destruct Htr as [-> _]. split_and!; try done; [simpl; lia|]. left. by eapply He. }
  intros tr1 ri [Htr1 _]. cbn [then_ call bind wp]. intros answer.
  destruct (first_request input ri answer tr1 Hc Hr Htr1) as (Hs1 & Hr1 & Hl1 & Hrej).
  destruct answer as [original|e]; cbn [bind ret wp].
  2: { unfold fetched_once, renewed; cbv zeta. rewrite Hs1, Hr1, Hl1. split_and!; try done; [simpl; lia|]. left. apply rejected_last. }
  eapply wp_mono with (Q := after_answer input original).
  { intros t r (H1 & H2 & H3 & H4 & H5). unfold fetched_once, renewed; cbv zeta. rewrite Hs1, Hr1, Hl1. unfold renewed in *. split_and!.
    - simpl. lia.
    - intros Hne. eauto.
    - intros Hlen. apply H3. simpl in Hlen. lia.
    - intros Hne. destruct (H4 Hne) as (-> & ? & ?). eauto.
    - destruct r as [[resp|]|e]; try done. destruct H5; auto. }
  assert (Hplain : after_answer input original [] (Val (Some original))).
  { unfold after_answer. simpl. split_and!; try done; lia. }
  cbn [orb]. destruct (Z.eqb_spec (status original) 403); [exact Hplain|].
  destruct (Z.eqb_spec (status original) 401) as [H401|]; [|exact Hplain]. cbn [negb].
  destruct (response_allows_refresh original) eqn:Hal; cbn [negb].
  2: { apply (login_after input original []); try done. intros (? & ? & _). done. }
  eapply (wp_bind_rule run_refresh_attempts).
  { apply wp_and; [exact attempts_end|apply refresh_loop_auxiliary]. }
  intros tr2 r2 [(Hl2 & _ & _ & Hr2) Haux]. pose proof (auxiliary_sent input tr2 Haux Hc Hr) as Hs2.
  destruct r2 as [[[]|]|e]; [| |done|].
  - by apply retry_after.
  - apply login_after; try done. intros (x & Hx & Hsx). destruct Hr2 as (y & Hy & Hsy & _). congruence.
  - unfold after_answer. simpl. rewrite app_nil_r, Hs2, Hl2. split_and!; try done; [simpl; lia|by left].
Qed.

(** Property C14. A request of the page is sent once, and a second time only after the first
    answer was a 401 that allows a refresh and a refresh then succeeded; what
    is returned is the answer to the last one.  A 403 and every other answer
    starts no refresh.  The reader is sent to the login page only when the one
    answer was a 401 and no refresh succeeded. *)
Theorem authenticated_fetch_once input init :
  is_refresh_bootstrap url_pathname (request_href input) = false ->
  wp (authenticated_fetch url_pathname input init) (fun tr r =>
    let answers := sent input tr in
    let renewed := exists resp, last (refreshes tr) = Some (Val resp) /\ status resp = 200 in
    (length answers <= 2)%nat /\
    (refreshes tr <> [] -> exists first rest, answers = Val first :: rest /\ response_allows_refresh first = true) /\
    (length answers = 2%nat -> renewed) /\
    (logins tr <> [] -> exists first, answers = [Val first] /\ status first = 401 /\ ~ renewed) /\
    match r with
    | Val (Some resp) => last answers = Some (Val resp)
    | Val None => False
    | Exc e => rejected tr \/ e = uri_error
    end).
Proof. intros Hboot. exact (authenticated_fetch_spec input init Hboot). Qed.
End Once.

(** ** An example *)

(** The first answer is a 401 that allows a refresh, the refresh succeeds. *)
Definition sample_answers : handler BrowserE nat := fun X (e : BrowserE X) n =>
  match e in BrowserE X return X * nat with
  | DocumentCookie => (Some (u "__untangled_csrf=c"), n)
  | WindowLocation => (Some (u "/user/lists/all", []), n)
  | Fetch (InString p) _ =>
      if seqb p REFRESH_PATH then (Val {| status := 200; body_json := None |}, n)
      else if seqb p CSRF_PATH then
        (Val {| status := 200; body_json := Some (VObj [(u "csrf_token", VStr (u "c"))]) |}, n)
      else match n with
           | O => (Val {| status := 401; body_json := Some (VObj [(u "retry", VBool true)]) |}, 1%nat)
           | S _ => (Val {| status := 200; body_json := None |}, n)
           end
  | Fetch _ _ => (Exc (Error_ (u "offline")), n)
  | LocationAssign _ => (tt, n)
  | LocationReplace _ => (tt, n)
  | Cancelled => (false, n)
  end.

Definition sample_request : RequestInfo := InString (u "/api/v2/user/search").

Lemma authenticated_fetch_once_witness :
  let p := authenticated_fetch Some sample_request no_init in
  let tr := trace_of sample_answers p 0%nat in
  is_refresh_bootstrap Some (request_href sample_request) = false /\
  sent sample_request tr = [Val {| status := 401; body_json := Some (VObj [(u "retry", VBool true)]) |};
                            Val {| status := 200; body_json := None |}] /\
  (length (sent sample_request tr) <= 2)%nat /\
  exists resp, last (refreshes tr) = Some (Val resp) /\ status resp = 200.
Proof.
  intros p tr. assert (Hb : is_refresh_bootstrap Some (request_href sample_request) = false) by (vm_compute; reflexivity).
  split; [exact Hb|]. assert (Hs : sent sample_request tr = [Val {| status := 401; body_json := Some (VObj [(u "retry", VBool true)]) |};
                            Val {| status := 200; body_json := None |}]) by (vm_compute; reflexivity).
  split; [exact Hs|].
  pose proof (wp_interp sample_answers p 0%nat _
    (authenticated_fetch_once Some eq_refl eq_refl sample_request no_init Hb)) as (H1 & _ & H3 & _).
  split; [exact H1|]. apply H3. fold tr. rewrite Hs. reflexivity.
Defined.

(** A body whose token field is not at the top is rewritten inside: the first
    text that looks like the field is replaced. *)
Example nested_token_rewritten :
  rewrite_json_csrf_token_field (Some (quoted (u "{'a':{'csrf_token':'x'},'csrf_token':'old'}"))) (u "new")
  = Some (quoted (u "{'a':{'csrf_token':'new'},'csrf_token':'old'}")).
Proof. vm_compute. reflexivity. Qed.
