(* ===== verification/BrowserService.v ===== *)
(** The browser and the auth service together: the requests of
    auth/refresh_fetch.ts served by the handlers of http.ts.  [collect] turns
    the writes of a handler to its response into a reply, and [connect] lets
    the service answer each [fetch] of a browser program, with the cookies kept
    by the browser in between.  The cookie store of the browser is a parameter
    with the documented behaviour as laws. *)
From S2P Require Import Prelude JsString JsValue JsText JsUtf8 JsDate Settings Effects Tokens Base64.
From S2P Require Import RefreshFetch Jwt Login Refresh Cookies ChangePassword Http.

(** ** The reply of a handler *)

Record Reply := {
  reply_status : Z;
  reply_cookies : list jstr;        (* the values of Set-Cookie *)
  reply_bytes : list Z;
  reply_sent : bool }.

Definition no_reply : Reply :=
  {| reply_status := 200; reply_cookies := []; reply_bytes := []; reply_sent := false |}.

(** What a call to the response answers and leaves, or [None] for another
    call. *)
Definition respond {X} (e : AuthE X) (r : Reply) : option (X * Reply) :=
  match e in AuthE X return option (X * Reply) with
  | RespStatus s => Some (tt, {| reply_status := s; reply_cookies := reply_cookies r;
                                 reply_bytes := reply_bytes r; reply_sent := reply_sent r |})
  | RespHeader name values =>
      Some (tt, if seqb name (u "Set-Cookie")
                then {| reply_status := reply_status r; reply_cookies := values;
                        reply_bytes := reply_bytes r; reply_sent := reply_sent r |}
                else r)
  | RespEnd bytes => Some (tt, {| reply_status := reply_status r; reply_cookies := reply_cookies r;
                                  reply_bytes := bytes; reply_sent := true |})
  | RespHeadersSent => Some (reply_sent r, r)
  | _ => None
  end.

Fixpoint collect {A} (p : prog AuthE A) (r : Reply) : prog AuthE (A * Reply) :=
  match p with
  | Ret a => Ret (a, r)
  | Vis e k =>
      match respond e r with
      | Some (x, r') => collect (k x) r'
      | None => Vis e (fun x => collect (k x) r)
      end
  end.


Lemma wp_collect_bind {A B} (p : prog AuthE A) (f : A -> prog AuthE B) r
    (Q : list (event AuthE) -> B * Reply -> Prop) :
  wp (collect p r) (fun t ar => wp (collect (f ar.1) ar.2) (fun t' br => Q (t ++ t') br)) ->
  wp (collect (bind p f) r) Q.
Proof.
  revert r Q. induction p as [a|X e k IH]; intros r Q; simpl; [done|].
  destruct (respond e r) as [[x r']|]; [by apply IH|]. simpl. intros H x.
  apply (IH x r (fun t br => Q (Ev e x :: t) br)). apply H.
Qed.

Lemma respond_quiet {X} (e : AuthE X) x r : is_response (Ev e x) = false -> respond e r = None.
Proof. by destruct e. Qed.

(** A part that leaves the response alone keeps the reply, and its runs are
    the runs it has alone. *)
Lemma wp_collect_quiet {A} (p : prog AuthE A) r (Q : list (event AuthE) -> A * Reply -> Prop) :
  wp p (fun t _ => response_quiet t = true) -> (forall t a, runs p t a -> Q t (a, r)) ->
  wp (collect p r) Q.
Proof.
  revert r Q. induction p as [a|X e k IH]; intros r Q Hq HQ; simpl in *; [by apply HQ|].
  pose proof (wp_interp (answers sample_calls) _ tt _ (Hq (sample_calls X e))) as Hx. simpl in Hx.
  apply andb_true_iff in Hx as [Hx%negb_true_iff _].
  rewrite (respond_quiet e (sample_calls X e) r Hx). simpl.
  intros x. apply IH.
  - eapply wp_mono; [|apply (Hq x)]. intros t a H. simpl in H. by apply andb_true_iff in H as [_ ?].
  - intros t a Ht. apply HQ. eauto.
Qed.

(** ** The cookies of the browser *)

(** What a browser documents of its cookies, for the origin of the page:
    [store_cookie] takes the value of a Set-Cookie header, [cookies_at] gives
    the cookies that a request to a path carries and [script_cookies] those
    that [document.cookie] shows to the page.  A cookie set without an age or with a positive one is
    carried by the requests to a path at or below its own, the others stay;
    [Secure] cookies need a secure page.  The texts of the attributes have no
    semicolon, which would begin another attribute. *)
Definition attrs_clean (attrs : CookieAttrs) : bool :=
  negb (existsb (Z.eqb 59) (path attrs)) && negb (existsb (Z.eqb 59) (same_site attrs)).

Class CookieStore := {
  Jar : Type;
  jar_ok : Jar -> Prop;
  secure_page : bool;
  store_cookie : Jar -> jstr -> Jar;
  cookies_at : jstr -> Jar -> jsmap;
  script_cookies : Jar -> jsmap;
  script_ok : forall jar, jar_ok jar ->
    Forall (fun kv => cookie_name_ok kv.1 /\ cookie_value_ok kv.2) (script_cookies jar) /\
    NoDup (map fst (script_cookies jar));
  script_found : forall jar name value attrs, jar_ok jar -> cookie_name_ok name -> cookie_value_ok value ->
    path attrs = ACCESS_COOKIE_PATH -> http_only attrs = false -> attrs_clean attrs = true ->
    match max_age attrs with Some age => 0 < age | None => True end -> (secure attrs = true -> secure_page = true) ->
    map_get name (script_cookies (store_cookie jar (serialize_cookie name value attrs))) = Some value;
  script_others : forall jar name value attrs other, jar_ok jar -> cookie_name_ok name -> cookie_value_ok value ->
    other <> name ->
    map_get other (script_cookies (store_cookie jar (serialize_cookie name value attrs))) =
    map_get other (script_cookies jar);
  cookies_ok : forall href jar, jar_ok jar ->
    Forall (fun kv => cookie_name_ok kv.1 /\ cookie_value_ok kv.2) (cookies_at href jar) /\
    NoDup (map fst (cookies_at href jar));
  store_ok : forall jar name value attrs, jar_ok jar -> cookie_name_ok name -> cookie_value_ok value ->
    jar_ok (store_cookie jar (serialize_cookie name value attrs));
  store_found : forall jar name value attrs href, jar_ok jar -> cookie_name_ok name -> cookie_value_ok value ->
    starts_with (path attrs) href = true -> attrs_clean attrs = true -> match max_age attrs with Some age => 0 < age | None => True end ->
    (secure attrs = true -> secure_page = true) ->
    map_get name (cookies_at href (store_cookie jar (serialize_cookie name value attrs))) = Some value;
  store_others : forall jar name value attrs href other, jar_ok jar -> cookie_name_ok name ->
    cookie_value_ok value -> other <> name ->
    map_get other (cookies_at href (store_cookie jar (serialize_cookie name value attrs))) =
    map_get other (cookies_at href jar) }.

Lemma url_text_clean s : url_text s = true -> cookie_value_ok s /\ units_ok s = true.
Proof.
  unfold url_text. intros H. rewrite forallb_forall in H.
  assert (Hc : forall c, In c s -> is_space c = false /\ c <> 59 /\ 0 <= c < 65536).
  { intros c Hin. specialize (H c Hin). unfold is_upper, is_lower, is_digit in H.
    rewrite !orb_true_iff, !andb_true_iff, !Z.leb_le, !Z.eqb_eq in H. unfold is_space.
    rewrite !orb_false_iff, !andb_false_iff, !Z.leb_gt, !Z.eqb_neq. lia. }
  split; [split|].
  - intros Hin. apply list_elem_of_In in Hin. by destruct (Hc _ Hin) as (_ & ? & _).
  - apply trim_nospace, forallb_forall. intros c Hin. by destruct (Hc c Hin) as [-> _].
  - unfold units_ok. apply forallb_forall. intros c Hin. destruct (Hc c Hin) as (_ & _ & ?).
    rewrite andb_true_iff, Z.leb_le, Z.ltb_lt. lia.
Qed.

Lemma names_ok name : name ∈ [CSRF_COOKIE_NAME; ACCESS_COOKIE_NAME; REFRESH_COOKIE_NAME] -> cookie_name_ok name.
Proof.
  intros Hin. assert (Hb : forallb (fun name => negb (seqb name []) &&
    forallb (fun c => negb (is_space c) && negb (c =? 61) && negb (c =? 59)) name)
    [CSRF_COOKIE_NAME; ACCESS_COOKIE_NAME; REFRESH_COOKIE_NAME] = true) by reflexivity.
  rewrite forallb_forall in Hb. apply list_elem_of_In in Hin. specialize (Hb name Hin).
  apply andb_true_iff in Hb as [Hn Hc]. split; [by apply negb_true_iff, seqb_neq in Hn|].
  rewrite forallb_forall in Hc. apply Forall_forall. intros c Hcin%list_elem_of_In. specialize (Hc c Hcin).
  rewrite !andb_true_iff, !negb_true_iff, !Z.eqb_neq in Hc. tauto.
Qed.

(** ** The connection *)

Section Connection.
Context `{CS : CookieStore} `{J : Jose} `{HM : Hmac} `{ZX : Zxcvbn} `{UP : UrlParser} `{PA : UrlPath} `{ZO : Zod}.

(** What the page and the way to the service contribute: the origin of the
    page, its path and query, the headers that the browser and the proxy add,
    and the address that the service sees. *)
Variable page_origin : jstr.
Variable page_location : jstr * jstr.
Variable added_headers : list (jstr * HeaderValue).
Variable peer : option jstr.

Definition request_of (jar : Jar) (input : RequestInfo) (init : RequestInit) : Request :=
  let href := request_href input in
  let method := resolved_method input init in
  {| req_method := Some method;
     req_url := Some href;
     req_headers :=
       match cookies_at href jar with
       | [] => []
       | cs => [(u "cookie", HOne (cookie_header cs))]
       end ++
       (if seqb method (u "GET") then [] else [(u "origin", HOne page_origin)]) ++
       map (fun kv => (kv.1, HOne kv.2)) (RefreshFetch.headers init) ++ added_headers;
     req_remote := peer;
     req_body := match RefreshFetch.body init with Some text => [utf8_bytes text] | None => [] end;
     req_body_error := None |}.

Definition response_of (r : Reply) : Response :=
  {| status := reply_status r; body_json := json_parse (utf8_decode (reply_bytes r)) |}.

(** The answer to a call of the browser program. *)
Definition answer {X} (config : AuthConfig) (e : BrowserE X) (jar : Jar) : prog AuthE (X * Jar) :=
  match e in BrowserE X return prog AuthE (X * Jar) with
  | DocumentCookie => Ret (Some (cookie_header (script_cookies jar)), jar)
  | WindowLocation => Ret (Some page_location, jar)
  | Fetch input init =>
      bind (collect (serve config (request_of jar input init)) no_reply) (fun served =>
        Ret (Val (response_of served.2), fold_left store_cookie (reply_cookies served.2) jar))
  | LocationAssign _ | LocationReplace _ => Ret (tt, jar)
  | Cancelled => Ret (false, jar)
  end.

Fixpoint connect {A} (config : AuthConfig) (p : prog BrowserE A) (jar : Jar) : prog AuthE (A * Jar) :=
  match p with
  | Ret a => Ret (a, jar)
  | Vis e k => bind (answer config e jar) (fun answered => connect config (k answered.1) answered.2)
  end.

(** The random bytes are as many as asked for and jose signs to a compact
    serialization, which is fit for a cookie. *)
Definition platform_ok (e : event AuthE) : Prop :=
  match e with
  | @Ev _ X c x =>
      match c in AuthE X return X -> Prop with
      | RandomBytes n => fun bs => Forall is_byte bs /\ Z.of_nat (length bs) = n
      | SignJwt _ _ _ _ => fun o => forall token, o = Val token -> cookie_value_ok token
      | _ => fun _ => True
      end x
  end.

(** ** Lemmas *)

Lemma wp_connect_bind {A B} config (p : prog BrowserE A) (f : A -> prog BrowserE B) jar
    (Q : list (event AuthE) -> B * Jar -> Prop) :
  wp (connect config p jar) (fun t aj => wp (connect config (f aj.1) aj.2) (fun t' bj => Q (t ++ t') bj)) ->
  wp (connect config (bind p f) jar) Q.
Proof.
  revert jar Q. induction p as [a|X e k IH]; intros jar Q H; simpl; [done|].
  simpl in H. apply wp_bind. apply (proj1 (wp_bind _ _ _)) in H. eapply wp_mono; [|exact H]. intros t [x jar'] H'. simpl in *.
  apply IH. eapply wp_mono; [|exact H']. intros t' aj H''. eapply wp_mono; [|exact H'']. intros t'' bj.
  by rewrite app_assoc.
Qed.

(** A text whose bytes are those of a JSON object is read as the object. *)
Lemma response_of_json r payload : json_ok (VObj payload) = true ->
  reply_bytes r = utf8_bytes (or_empty (json_stringify (VObj payload))) ->
  body_json (response_of r) = Some (VObj payload).
Proof.
  intros Hj Hb. unfold response_of. cbn [body_json]. rewrite Hb, json_stringify_ok by done.
  by apply json_bytes_roundtrip.
Qed.

(** What [json] writes to the response. *)
Lemma collect_json status payload r :
  collect (json status payload) r =
  Ret (Val tt, {| reply_status := status; reply_cookies := reply_cookies r;
                  reply_bytes := utf8_bytes (or_empty (json_stringify (VObj payload))); reply_sent := true |}).
Proof. reflexivity. Qed.

Lemma collect_set_cookies cookies (p : M unit) r :
  collect (then_ (set_cookies cookies) (fun _ => p)) r =
  collect p {| reply_status := reply_status r; reply_cookies := cookies;
               reply_bytes := reply_bytes r; reply_sent := reply_sent r |}.
Proof. reflexivity. Qed.

Definition token_of (bs : list Z) : jstr := b64_encode Base64Url bs.

Definition csrf_request : RequestInit :=
  {| init_method := None; credentials := Some (u "include"); RefreshFetch.headers := []; RefreshFetch.body := None |}.

Lemma csrf_served config jar : url_pathname Http.CSRF_PATH = Some Http.CSRF_PATH ->
  collect (serve config (request_of jar (InString RefreshFetch.CSRF_PATH) csrf_request)) no_reply =
  Vis (RandomBytes 32) (fun bs => Ret (Val tt,
    {| reply_status := 200; reply_cookies := [csrf_cookie (token_of bs) (cookie_secure config)];
       reply_bytes := utf8_bytes (or_empty (json_stringify (VObj [(u "csrf_token", VStr (token_of bs))])));
       reply_sent := true |})).
Proof.
  intros Hp. unfold serve, handle_request, request_of. cbn [req_url request_href].
  change RefreshFetch.CSRF_PATH with Http.CSRF_PATH. rewrite Hp. reflexivity.
Qed.

(** What holds of the page and of the way to the service. *)
Record connected (config : AuthConfig) : Prop := {
  same_origin : page_origin = public_origin config;
  origin_given : page_origin <> [];
  secure_ok : cookie_secure config = true -> secure_page = true;
  csrf_url : url_pathname Http.CSRF_PATH = Some Http.CSRF_PATH;
  refresh_url : url_pathname Http.REFRESH_PATH = Some Http.REFRESH_PATH;
  no_content_type : find (fun kv => seqb kv.1 (u "content-type")) added_headers = None }.

(** The jar after the answer to the request of a CSRF token. *)
Definition csrf_jar (config : AuthConfig) (token : jstr) (jar : Jar) : Jar :=
  store_cookie jar (csrf_cookie token (cookie_secure config)).

Lemma csrf_token_connected config jar : connected config ->
  wp (connect config (csrf_token true) jar) (fun tr oj => exists bs,
    tr = [Ev (RandomBytes 32) bs] /\
    (Forall is_byte bs -> oj = (Val (token_of bs), csrf_jar config (token_of bs) jar))).
Proof.
  intros HC. unfold csrf_token. change (ret []) with (Ret (E := BrowserE) (Val ([] : jstr))).
  cbn [then_ bind negb bool_decide decide_rel]. rewrite bool_decide_true by done. cbn [negb].
  unfold then_, call, perform. cbn [bind connect answer]. fold csrf_request.
  rewrite (csrf_served config jar (csrf_url _ HC)). cbn [bind wp fst snd]. intros bs.
  set (r := response_of _). assert (Hok : RefreshFetch.ok r = true) by reflexivity. rewrite Hok. cbn [negb].
  change (RefreshFetch.CSRF_PATH) with Http.CSRF_PATH.
  exists bs. split; [done|]. intros Hb.
  destruct (url_text_clean _ (b64_url_text bs Hb)) as [_ Hu].
  assert (Hr : body_json r = Some (VObj [(u "csrf_token", VStr (token_of bs))])).
  { apply response_of_json; [|done]. cbn [json_ok forallb fst snd]. unfold token_of. rewrite Hu. reflexivity. }
  rewrite Hr. reflexivity.
Qed.

(** What a successful refresh gives out is fit for the cookies. *)
Lemma refresh_gives_cookies settings secret ctx :
  wp (run_refresh_pipeline settings secret ctx) (fun tr o =>
    forall new_refresh access refresh_age access_age,
    o = Val (RefreshSuccess new_refresh access refresh_age access_age) -> Forall platform_ok tr ->
    cookie_value_ok new_refresh /\ 0 < refresh_age /\ 0 < access_age /\
    forall token, access = Some token -> cookie_value_ok token).
Proof.
  refresh_cases. wp_run; try discriminate; match goal with H : Val _ = Val _ |- _ => injection H as <- <- <- <- end;
    repeat match goal with H : Forall platform_ok (_ :: _) |- _ => apply Forall_cons in H as [? H] end;
    cbn [platform_ok] in *;
    (split_and!; [apply url_text_clean, b64_url_text; tauto | lia | lia | intros ? ?; simplify_eq; auto]).
Qed.

Definition refresh_request (token : jstr) : RequestInit :=
  {| init_method := Some (u "POST"); credentials := Some (u "include");
     RefreshFetch.headers := [(u "accept", u "application/json"); (u "x-csrf-token", token)];
     RefreshFetch.body := None |}.

Definition refresh_post (jar : Jar) (token : jstr) : Request :=
  request_of jar (InString RefreshFetch.REFRESH_PATH) (refresh_request token).

Lemma find_app_other {A} (f : A -> bool) l1 l2 : find f l1 = None -> find f (l1 ++ l2) = find f l2.
Proof. induction l1 as [|x l1 IH]; simpl; [done|]. by destruct (f x). Qed.

(** What the service reads of the request. *)
Lemma refresh_post_read config jar token : connected config -> jar_ok jar ->
  map_get CSRF_COOKIE_NAME (cookies_at Http.REFRESH_PATH jar) = Some token ->
  let req := refresh_post jar token in
  parse_cookie_header (header req "cookie") = cookies_at Http.REFRESH_PATH jar /\
  header req "origin" = Some (public_origin config) /\ header req "x-csrf-token" = Some token /\
  header req "content-type" = None /\ read_body req = Val [].
Proof.
  intros HC Hj Ht req. destruct (cookies_ok Http.REFRESH_PATH jar Hj) as [Hok Hnd].
  assert (Hne : cookies_at Http.REFRESH_PATH jar <> []) by (intros E; by rewrite E in Ht).
  assert (Hh : req_headers req =
    ([(u "cookie", HOne (cookie_header (cookies_at Http.REFRESH_PATH jar)))] ++
     [(u "origin", HOne page_origin); (u "accept", HOne (u "application/json"));
      (u "x-csrf-token", HOne token)]) ++ added_headers).
  { unfold req, refresh_post, request_of. cbn [req_headers request_href].
    change RefreshFetch.REFRESH_PATH with Http.REFRESH_PATH. destruct (cookies_at _ jar); done. }
  split_and!.
  - change (header req "cookie") with (header_value (match find (fun kv => seqb kv.1 (u "cookie")) (req_headers req) with
      | Some (_, v) => Some v | None => None end)).
    rewrite Hh. cbn [find app fst]. rewrite seqb_refl. cbn [header_value].
    by apply (cookie_roundtrip _ Hne Hok).
  - unfold header. rewrite Hh. simpl. by rewrite (same_origin _ HC).
  - unfold header. by rewrite Hh.
  - unfold header. rewrite Hh, find_app_other by reflexivity. by rewrite (no_content_type _ HC).
  - reflexivity.
Qed.

Definition json_reply (status : Z) (cookies : list jstr) (payload : list (jstr * jsval)) : Reply :=
  {| reply_status := status; reply_cookies := cookies;
     reply_bytes := utf8_bytes (or_empty (json_stringify (VObj payload))); reply_sent := true |}.

(** The reply to a refresh of a result. *)
Definition refresh_reply (config : AuthConfig) (settings : AuthRuntimeSettings) (token : jstr)
    (r : RefreshPipelineResult) : Reply :=
  match r with
  | RefreshInternalError => json_reply 500 [] (Http.detail (u "Internal error"))
  | RefreshUnavailable => json_reply 503 [] (Http.detail SERVICE_UNAVAILABLE)
  | RefreshSoft => json_reply 401 [] (Http.detail ACCESS_DENIED ++ [(u "retry", VBool true);
      (u "max_retries", VNum (NInt (session_max_refresh_retries_for_client
                                      (VNum (NInt (session_max_refresh_retries settings))))))])
  | RefreshHard => json_reply 401 [] (Http.detail ACCESS_DENIED)
  | RefreshSuccess new_refresh access refresh_age access_age =>
      json_reply 200
        ([csrf_cookie token (cookie_secure config); refresh_cookie new_refresh (cookie_secure config) refresh_age] ++
         match access with Some t => [access_cookie t (cookie_secure config) access_age] | None => [] end)
        [(u "ok", VBool true)]
  end.

(** The refresh context that a request gives. *)
Definition context_of (config : AuthConfig) (req : Request) (cookies : jsmap) : RefreshRequestContext :=
  let identity := identity_of config req in
  {| access_token := nonempty (map_get ACCESS_COOKIE_NAME cookies);
     refresh_token := nonempty (map_get REFRESH_COOKIE_NAME cookies);
     refresh_source_ip := source_ip identity; refresh_protocol := protocol identity;
     refresh_host := identity_host identity; refresh_context_path := Http.REFRESH_PATH;
     refresh_user_agent := header req "user-agent" |}.

(** The answer to the result of the pipeline. *)
Definition refresh_answer (config : AuthConfig) (settings : AuthRuntimeSettings) (token : jstr)
    (r : RefreshPipelineResult) : M unit :=
  match r with
  | RefreshInternalError => json 500 (Http.detail (u "Internal error"))
  | RefreshUnavailable => json 503 (Http.detail SERVICE_UNAVAILABLE)
  | RefreshSoft => json 401 (Http.detail ACCESS_DENIED ++ [(u "retry", VBool true);
      (u "max_retries", VNum (NInt (session_max_refresh_retries_for_client
                                      (VNum (NInt (session_max_refresh_retries settings))))))])
  | RefreshHard => json 401 (Http.detail ACCESS_DENIED)
  | RefreshSuccess new_refresh access refresh_age access_age =>
      let* _ := set_cookies
        ([csrf_cookie token (cookie_secure config); refresh_cookie new_refresh (cookie_secure config) refresh_age] ++
         match access with Some t => [access_cookie t (cookie_secure config) access_age] | None => [] end) in
      json 200 [(u "ok", VBool true)]
  end.

(** A request that passes the guard goes on to the settings and the pipeline. *)
Lemma refresh_guard_passed config jar token : connected config -> jar_ok jar -> token <> [] ->
  map_get CSRF_COOKIE_NAME (cookies_at Http.REFRESH_PATH jar) = Some token ->
  handle_request config (refresh_post jar token) =
  (let* settings := attempt (call GetSettings) in
   match settings with
   | Exc _ => json 500 (Http.detail (u "Internal error"))
   | Val settings =>
       let* result := run_refresh_pipeline settings (refresh_hmac_secret config)
                        (context_of config (refresh_post jar token) (cookies_at Http.REFRESH_PATH jar)) in
       refresh_answer config settings token result
   end).
Proof.
  intros HC Hj Htok Ht.
  destruct (refresh_post_read config jar token HC Hj Ht) as (Hc & Ho & Hx & Hct & Hb).
  unfold handle_request. change (req_url (refresh_post jar token)) with (Some Http.REFRESH_PATH). cbn beta iota.
  rewrite (refresh_url _ HC).
  assert (method_is (refresh_post jar token) (u "GET") = false) as -> by reflexivity.
  assert (method_is (refresh_post jar token) (u "POST") = true) as -> by reflexivity.
  cbn [andb negb]. assert (seqb Http.REFRESH_PATH Http.LOGIN_PATH = false) as -> by reflexivity.
  rewrite seqb_refl. cbn [andb].
  unfold handle_refresh. rewrite Hb, (proj2 (origin_exact_spec _ _)); cbn [negb].
  2: { split; [done|]. rewrite <- (same_origin _ HC). apply (origin_given _ HC). }
  assert (parse_refresh_body (refresh_post jar token) [] = Some []) as ->
    by (unfold parse_refresh_body, parse_body; by rewrite Hct).
  assert (csrf_cookie_of (refresh_post jar token) = token) as -> by (unfold csrf_cookie_of; by rewrite Hc, Ht).
  assert (submitted_csrf_token (refresh_post jar token) [] = token) as ->.
  { unfold submitted_csrf_token. rewrite Hx. by rewrite (proj2 (seqb_neq _ _) Htok). }
  rewrite (proj2 (csrf_ok_spec _ _)) by done. cbn [negb]. rewrite Hc. reflexivity.
Qed.

Lemma collect_answer config settings token r :
  collect (refresh_answer config settings token r) no_reply =
  Ret (Val tt, refresh_reply config settings token r).
Proof. by destruct r as [nr [access|] ra aa| | | | ]. Qed.

Lemma collect_settings (f : outcome AuthRuntimeSettings -> M unit) r :
  collect (then_ (attempt (call GetSettings)) f) r = Vis GetSettings (fun o => collect (f o) r).
Proof. reflexivity. Qed.

Lemma refresh_served config jar token : connected config -> jar_ok jar -> token <> [] ->
  map_get CSRF_COOKIE_NAME (cookies_at Http.REFRESH_PATH jar) = Some token ->
  wp (collect (serve config (refresh_post jar token)) no_reply) (fun tr served =>
    (exists e, tr = [Ev GetSettings (Exc e)] /\
       served.2 = json_reply 500 [] (Http.detail (u "Internal error"))) \/
    exists settings tr' r, tr = Ev GetSettings (Val settings) :: tr' /\
      runs (run_refresh_pipeline settings (refresh_hmac_secret config)
              (context_of config (refresh_post jar token) (cookies_at Http.REFRESH_PATH jar))) tr' (Val r) /\
      served.2 = refresh_reply config settings token r).
Proof.
  intros HC Hj Htok Ht. unfold serve, try_catch. apply wp_collect_bind.
  rewrite refresh_guard_passed by done. rewrite collect_settings. cbn [wp]. intros [settings|e].
  2: { left. by exists e. }
  generalize (context_of config (refresh_post jar token) (cookies_at Http.REFRESH_PATH jar)). intros ctx.
  unfold then_. apply wp_collect_bind, wp_collect_quiet.
  - eapply wp_mono; [|apply refresh_frame]. by intros ? ? (_ & _ & ?).
  - intros tr o Hr. destruct (proj1 (wp_runs _ _) (refresh_frame _ _ _) _ _ Hr) as [[r ->] _].
    cbn [fst snd]. rewrite collect_answer. cbn [wp fst snd collect]. right. exists settings, tr, r.
    by rewrite !app_nil_r.
Qed.

(** ** The jar *)

Definition jar_value (name : jstr) (jar : Jar) : option jstr := map_get name (cookies_at Http.REFRESH_PATH jar).

(** The access cookie of a request to a path. *)
Definition access_at (href : jstr) (jar : Jar) : option jstr := map_get ACCESS_COOKIE_NAME (cookies_at href jar).

(** The CSRF cookie that the page reads. *)
Definition script_token (jar : Jar) : option jstr := map_get CSRF_COOKIE_NAME (script_cookies jar).

(** A cookie of the service as the store takes it. *)
Definition service_cookie (config : AuthConfig) (text name value : jstr) (attrs : CookieAttrs) : Prop :=
  cookie_name_ok name /\ cookie_value_ok value /\ text = serialize_cookie name value attrs /\
  attrs_clean attrs = true /\ match max_age attrs with Some age => 0 < age | None => True end /\
  secure attrs = cookie_secure config.

Lemma csrf_service_cookie config value : cookie_value_ok value -> exists attrs,
  service_cookie config (csrf_cookie value (cookie_secure config)) CSRF_COOKIE_NAME value attrs /\
  path attrs = ACCESS_COOKIE_PATH /\ http_only attrs = false.
Proof. intros. eexists. split; [split_and!; [apply names_ok; set_solver|done|reflexivity|..]; done|done]. Qed.

Lemma access_service_cookie config value age : cookie_value_ok value -> 0 < age -> exists attrs,
  service_cookie config (access_cookie value (cookie_secure config) age) ACCESS_COOKIE_NAME value attrs /\
  path attrs = ACCESS_COOKIE_PATH.
Proof. intros. eexists. split; [split_and!; [apply names_ok; set_solver|done|reflexivity|..]; done|done]. Qed.

Lemma refresh_service_cookie config value age : cookie_value_ok value -> 0 < age -> exists attrs,
  service_cookie config (refresh_cookie value (cookie_secure config) age) REFRESH_COOKIE_NAME value attrs /\
  path attrs = REFRESH_COOKIE_PATH.
Proof. intros. eexists. split; [split_and!; [apply names_ok; set_solver|done|reflexivity|..]; done|done]. Qed.

Lemma stored config jar text name value attrs : connected config -> jar_ok jar ->
  service_cookie config text name value attrs ->
  jar_ok (store_cookie jar text) /\
  (forall href, starts_with (path attrs) href = true -> map_get name (cookies_at href (store_cookie jar text)) = Some value) /\
  (forall href other, other <> name ->
     map_get other (cookies_at href (store_cookie jar text)) = map_get other (cookies_at href jar)) /\
  (path attrs = ACCESS_COOKIE_PATH -> http_only attrs = false ->
     map_get name (script_cookies (store_cookie jar text)) = Some value) /\
  (forall other, other <> name -> map_get other (script_cookies (store_cookie jar text)) = map_get other (script_cookies jar)).
Proof.
  intros HC Hj (Hn & Hv & -> & Hc & Ha & Hs).
  assert (Hsec : secure attrs = true -> secure_page = true) by (rewrite Hs; apply (secure_ok _ HC)).
  split_and!; intros; [by apply store_ok|by apply store_found|by apply store_others|by apply script_found|by apply script_others].
Qed.

(** The jar with a new CSRF token. *)
Lemma csrf_stored config token jar : connected config -> jar_ok jar -> cookie_value_ok token ->
  let jar' := csrf_jar config token jar in
  jar_ok jar' /\ jar_value CSRF_COOKIE_NAME jar' = Some token /\ script_token jar' = Some token /\
  forall href other, other <> CSRF_COOKIE_NAME -> map_get other (cookies_at href jar') = map_get other (cookies_at href jar).
Proof.
  intros HC Hj Hv. destruct (csrf_service_cookie config token Hv) as (attrs & Hk & Hp & Hh).
  destruct (stored config jar _ _ _ attrs HC Hj Hk) as (H1 & H2 & H3 & H4 & H5). cbv zeta. unfold csrf_jar.
  split_and!; [done|apply H2; by rewrite Hp|by apply H4|done].
Qed.

Definition is_success (r : RefreshPipelineResult) : bool :=
  match r with RefreshSuccess _ _ _ _ => true | _ => false end.

(** The cookies after the reply to a refresh. *)
Lemma refreshed_jar config settings token r jar : connected config -> jar_ok jar -> cookie_value_ok token ->
  jar_value CSRF_COOKIE_NAME jar = Some token -> script_token jar = Some token ->
  (forall nr access ra aa, r = RefreshSuccess nr access ra aa ->
     cookie_value_ok nr /\ 0 < ra /\ 0 < aa /\ forall t, access = Some t -> cookie_value_ok t) ->
  let jar' := fold_left store_cookie (reply_cookies (refresh_reply config settings token r)) jar in
  jar_ok jar' /\ jar_value CSRF_COOKIE_NAME jar' = Some token /\ script_token jar' = Some token /\
  jar_value REFRESH_COOKIE_NAME jar' =
    match r with RefreshSuccess nr _ _ _ => Some nr | _ => jar_value REFRESH_COOKIE_NAME jar end /\
  forall href, starts_with (u "/") href = true -> access_at href jar' =
    match r with RefreshSuccess _ (Some t) _ _ => Some t | _ => access_at href jar end.
Proof.
  intros HC Hj Ht Hc Hst Hr. destruct r as [nr access ra aa| | | | ]; try done.
  destruct (Hr _ _ _ _ eq_refl) as (Hnr & Hra & Haa & Hacc). cbn [reply_cookies refresh_reply json_reply app fold_left].
  destruct (csrf_stored config token jar HC Hj Ht) as (Hj1 & H1 & H2 & H3). fold (csrf_jar config token jar).
  destruct (refresh_service_cookie config nr ra Hnr Hra) as (ar & Hkr & Hpr).
  destruct (stored config _ _ _ _ ar HC Hj1 Hkr) as (Hj2 & H4 & H5 & _ & H6).
  destruct access as [t|]; cbn [fold_left].
  - destruct (access_service_cookie config t aa (Hacc t eq_refl) Haa) as (aa' & Hka & Hpa).
    destruct (stored config _ _ _ _ aa' HC Hj2 Hka) as (Hj3 & H7 & H8 & _ & H9).
    unfold jar_value, script_token, access_at. split_and!; [done|by rewrite H8, H5|by rewrite H9, H6| |].
    + rewrite H8 by done. apply H4. by rewrite Hpr.
    + intros href Hh. apply H7. by rewrite Hpa.
  - unfold jar_value, script_token, access_at. split_and!; [done|by rewrite H5|by rewrite H6|apply H4; by rewrite Hpr|].
    intros href _. by rewrite H5, H3.
Qed.

Lemma retries_for_client_range v : 1 <= session_max_refresh_retries_for_client v <= 10.
Proof.
  unfold session_max_refresh_retries_for_client. repeat case_match; try (cbv; split; discriminate).
  rewrite andb_true_iff, !Z.leb_le in *. unfold SESSION_MAX_REFRESH_RETRIES_MIN, SESSION_MAX_REFRESH_RETRIES_MAX in *. lia.
Qed.

(** The bound that the service tells is one that the browser takes. *)
Lemma soft_reply_read n : 1 <= n <= 10 ->
  let response := response_of (json_reply 401 [] (Http.detail ACCESS_DENIED ++
    [(u "retry", VBool true); (u "max_retries", VNum (NInt n))])) in
  response_allows_refresh response = true /\ told_bound response = n.
Proof.
  intros Hn response.
  assert (Hb : body_json response = Some (VObj (Http.detail ACCESS_DENIED ++
    [(u "retry", VBool true); (u "max_retries", VNum (NInt n))]))).
  { apply response_of_json; [|done]. cbn [json_ok Http.detail app forallb fst snd].
    rewrite (proj2 (Z.leb_le (Z.abs n) (2 ^ 53 - 1))) by lia. reflexivity. }
  unfold response_allows_refresh, told_bound. rewrite Hb. split; [reflexivity|].
  change (vget _ (u "max_retries")) with (VNum (NInt n)). cbn [session_max_refresh_retries_from_config].
  by rewrite (proj2 (Z.leb_le 1 n)), (proj2 (Z.leb_le n 10)) by lia.
Qed.

(** How the browser reads the reply. *)
Lemma refresh_reply_read config settings token r :
  let response := response_of (refresh_reply config settings token r) in
  (status response =? 200) = is_success r /\
  response_allows_refresh response = match r with RefreshSoft => true | _ => false end /\
  (r = RefreshSoft -> told_bound response =
     session_max_refresh_retries_for_client (VNum (NInt (session_max_refresh_retries settings)))).
Proof.
  destruct (soft_reply_read _ (retries_for_client_range (VNum (NInt (session_max_refresh_retries settings))))) as [Ha Ht].
  destruct r as [nr access ra aa| | | | ]; cbv zeta; (split; [reflexivity|]).
  2: { split; [exact Ha|]. intros _. exact Ht. }
  all: (split; [|discriminate]); unfold response_allows_refresh; cbn [refresh_reply json_reply response_of status reply_status].
  2: by vm_compute.
  all: reflexivity.
Qed.

(** What the browser has of a refresh: the cookies [jar] go out with [token],
    the calls are [tr], and [response] and [jar'] come back.  Either the
    settings cannot be read, or the pipeline runs on the tokens of the jar and
    the response says how it ended. *)
Definition refresh_exchanged (config : AuthConfig) (jar : Jar) (token : jstr) (tr : trace)
    (response : Response) (jar' : Jar) : Prop :=
  jar_ok jar' /\ jar_value CSRF_COOKIE_NAME jar' = Some token /\ script_token jar' = Some token /\
  ((exists e, tr = [Ev GetSettings (Exc e)] /\ status response = 500 /\
      jar_value REFRESH_COOKIE_NAME jar' = jar_value REFRESH_COOKIE_NAME jar /\
      forall href, starts_with (u "/") href = true -> access_at href jar' = access_at href jar) \/
   exists settings tr' ctx r, tr = Ev GetSettings (Val settings) :: tr' /\
     runs (run_refresh_pipeline settings (refresh_hmac_secret config) ctx) tr' (Val r) /\
     access_token ctx = nonempty (jar_value ACCESS_COOKIE_NAME jar) /\
     refresh_token ctx = nonempty (jar_value REFRESH_COOKIE_NAME jar) /\
     (status response =? 200) = is_success r /\
     response_allows_refresh response = match r with RefreshSoft => true | _ => false end /\
     (r = RefreshSoft -> told_bound response =
        session_max_refresh_retries_for_client (VNum (NInt (session_max_refresh_retries settings)))) /\
     jar_value REFRESH_COOKIE_NAME jar' =
       match r with RefreshSuccess nr _ _ _ => Some nr | _ => jar_value REFRESH_COOKIE_NAME jar end /\
     forall href, starts_with (u "/") href = true -> access_at href jar' =
       match r with RefreshSuccess _ (Some t) _ _ => Some t | _ => access_at href jar end).

(** The second request of [post_refresh]. *)
Lemma refresh_post_connected config jar token : connected config -> jar_ok jar -> token <> [] ->
  jar_value CSRF_COOKIE_NAME jar = Some token -> script_token jar = Some token -> cookie_value_ok token ->
  wp (connect config (call (Fetch (InString RefreshFetch.REFRESH_PATH) (refresh_request token))) jar)
    (fun tr oj => Forall platform_ok tr -> exists response,
       oj.1 = Val response /\ refresh_exchanged config jar token tr response oj.2).
Proof.
  intros HC Hj Htok Hc Hst Hv. unfold call. cbn [connect answer]. apply wp_bind, wp_bind.
  fold (refresh_post jar token). eapply wp_mono; [|by apply refresh_served].
  intros tr [o reply] [(e & -> & Hrep)|(settings & tr' & r & -> & Hr & Hrep)]; cbn [fst snd] in *; subst reply;
    cbn [wp connect fst snd app]; rewrite ?app_nil_r; intros Hp; eexists; (split; [reflexivity|]).
  - split_and!; [done|done|done|]. left. exists e. by split_and!.
  - apply Forall_cons in Hp as [_ Hp].
    assert (Hg : forall nr access ra aa, r = RefreshSuccess nr access ra aa ->
      cookie_value_ok nr /\ 0 < ra /\ 0 < aa /\ forall t, access = Some t -> cookie_value_ok t).
    { intros nr access ra aa ->. by apply (proj1 (wp_runs _ _) (refresh_gives_cookies _ _ _) _ _ Hr nr access). }
    destruct (refreshed_jar config settings token r jar HC Hj Hv Hc Hst Hg) as (? & ? & ? & ? & ?).
    destruct (refresh_reply_read config settings token r) as (? & ? & ?).
    split_and!; [done|done|done|]. right. by eexists settings, tr', _, r; split_and!.
Qed.
(** ** The token that the page reads *)

Lemma parse_part_cases out part : parse_cookie_part out part =
  match parse_cookie_part [] part with (n, v) :: _ => map_set n v out | [] => out end.
Proof.
  unfold parse_cookie_part. destruct (index_of 61 part) as [[|cut]|]; try done. cbv zeta.
  destruct (seqb (trim _) []); [done|]. reflexivity.
Qed.

Lemma csrf_part_cases found part : csrf_part found part =
  match parse_cookie_part [] part with (n, v) :: _ => if seqb n CSRF_COOKIE_NAME then v else found | [] => found end.
Proof.
  unfold csrf_part, parse_cookie_part. destruct (index_of 61 part) as [[|cut]|]; try done. cbv zeta.
  destruct (seqb (trim _) []) eqn:E; [|reflexivity]. apply seqb_eq in E. by rewrite E.
Qed.

(** The page and the service read the same token from a cookie header. *)
Lemma csrf_read_as_cookie header :
  csrf_token_from_cookie_header header = or_empty (map_get CSRF_COOKIE_NAME (parse_cookie_header (Some header))).
Proof.
  assert (H : forall parts found out, found = or_empty (map_get CSRF_COOKIE_NAME out) ->
    fold_left csrf_part parts found = or_empty (map_get CSRF_COOKIE_NAME (fold_left parse_cookie_part parts out))).
  { induction parts as [|part parts IH]; intros found out Hf; [done|]. cbn [fold_left]. apply IH.
    rewrite csrf_part_cases, (parse_part_cases out part). destruct (parse_cookie_part [] part) as [|[n v] rest]; [done|].
    rewrite map_get_set. by destruct (seqb n CSRF_COOKIE_NAME). }
  unfold csrf_token_from_cookie_header, parse_cookie_header. destruct (seqb header []) eqn:E.
  - apply seqb_eq in E as ->. reflexivity.
  - by apply H.
Qed.

Lemma document_token jar : jar_ok jar ->
  csrf_token_from_cookie_header (cookie_header (script_cookies jar)) = or_empty (script_token jar).
Proof.
  intros Hj. rewrite csrf_read_as_cookie. destruct (script_ok jar Hj) as [Hok Hnd]. unfold script_token.
  destruct (script_cookies jar) as [|kv cs]; [done|].
  by rewrite (proj2 (cookie_roundtrip (kv :: cs) ltac:(done) Hok) Hnd).
Qed.

(** The token of a request for a renewal: that of the cookie, or a new one. *)
Lemma renewal_token_connected config jar force : connected config -> jar_ok jar ->
  (force = false -> script_token jar = jar_value CSRF_COOKIE_NAME jar) ->
  wp (connect config (csrf_token force) jar) (fun tr oj => Forall platform_ok tr -> exists token jar1,
    oj = (Val token, jar1) /\ Forall (fun e => exists bs, e = Ev (RandomBytes 32) bs) tr /\
    token <> [] /\ cookie_value_ok token /\ jar_ok jar1 /\
    jar_value CSRF_COOKIE_NAME jar1 = Some token /\ script_token jar1 = Some token /\
    forall href other, other <> CSRF_COOKIE_NAME -> map_get other (cookies_at href jar1) = map_get other (cookies_at href jar)).
Proof.
  intros HC Hj Hf.
  assert (Hfetch : wp (connect config (csrf_token true) jar) (fun tr oj => Forall platform_ok tr -> exists token jar1,
    oj = (Val token, jar1) /\ Forall (fun e => exists bs, e = Ev (RandomBytes 32) bs) tr /\
    token <> [] /\ cookie_value_ok token /\ jar_ok jar1 /\
    jar_value CSRF_COOKIE_NAME jar1 = Some token /\ script_token jar1 = Some token /\
    forall href other, other <> CSRF_COOKIE_NAME -> map_get other (cookies_at href jar1) = map_get other (cookies_at href jar))).
  { eapply wp_mono; [|by apply csrf_token_connected]. intros tr oj (bs & -> & Hoj) Hp.
    apply Forall_cons in Hp as [[Hb Hl] _]. destruct (url_text_clean _ (b64_url_text bs Hb)) as [Hv _].
    destruct (csrf_stored config (token_of bs) jar HC Hj Hv) as (H1 & H2 & H3 & H4).
    exists (token_of bs), (csrf_jar config (token_of bs) jar). split_and!; try done; [by apply Hoj|..].
    - constructor; [by eexists|constructor].
    - apply b64_url_nonempty. intros ->. discriminate. }
  destruct force; [exact Hfetch|]. unfold csrf_token in *. unfold csrf_token_from_document_cookie.
  cbn [then_ bind perform connect answer wp fst snd]. rewrite document_token by done.
  destruct (script_token jar) as [[|c t]|] eqn:Hs; cbn [or_empty]; rewrite ?bool_decide_true, ?bool_decide_false by done;
    cbn [negb]; [exact Hfetch| |exact Hfetch].
  cbn [connect ret wp bind]. intros _. exists (c :: t), jar. split_and!; try done.
  - unfold script_token in Hs. destruct (script_ok jar Hj) as [Hok _]. rewrite Forall_forall in Hok.
    unfold map_get in Hs. destruct (find _ _) as [[k v]|] eqn:E; [|done]. injection Hs as ->.
    apply find_some in E as [Hin _]. apply list_elem_of_In in Hin. apply (Hok _ Hin).
  - by rewrite <- Hf.
Qed.

(** A request for a renewal with the service: it passes the guard and reaches
    the pipeline with the tokens of the cookies. *)
Lemma renewal_post_connected config jar force : connected config -> jar_ok jar ->
  (force = false -> script_token jar = jar_value CSRF_COOKIE_NAME jar) ->
  wp (connect config (post_refresh force) jar) (fun tr oj => Forall platform_ok tr ->
    exists token drawn tr' response, tr = drawn ++ tr' /\
      Forall (fun e => exists bs, e = Ev (RandomBytes 32) bs) drawn /\ oj.1 = Val response /\
      refresh_exchanged config jar token tr' response oj.2).
Proof.
  intros HC Hj Hf. unfold post_refresh, then_ at 1. apply wp_connect_bind.
  eapply wp_mono; [|by apply renewal_token_connected]. intros drawn oj H.
  apply wp_runs. intros tr oj' Hr Hp. apply Forall_app in Hp as [Hp1 Hp2].
  destruct (H Hp1) as (token & jar1 & -> & Hd & Hne & Hv & Hj1 & Hc & Hs & Hrest). cbn [fst snd] in Hr.
  rewrite bool_decide_false in Hr by done.
  destruct (proj1 (wp_runs _ _) (refresh_post_connected config jar1 token HC Hj1 Hne Hc Hs Hv) _ _ Hr Hp2)
    as (response & Ho & Hx).
  exists token, drawn, tr, response. split_and!; try done.
  assert (Ha : forall href, map_get ACCESS_COOKIE_NAME (cookies_at href jar1) = map_get ACCESS_COOKIE_NAME (cookies_at href jar))
    by (intros; by apply Hrest).
  assert (Hf' : forall href, map_get REFRESH_COOKIE_NAME (cookies_at href jar1) = map_get REFRESH_COOKIE_NAME (cookies_at href jar))
    by (intros; by apply Hrest).
  destruct Hx as (H1 & H2 & H3 & Hx). split_and!; [done..|].
  destruct Hx as [(e & He & Hst & Hre & Hac)|(settings & tr' & ctx & r & Ht & Hrun & Hca & Hcr & Hst & Hal & Hto & Hre & Hac)].
  - left. exists e. split_and!; [done|done|by rewrite Hre; apply Hf'|].
    intros href Hh. rewrite Hac by done. apply Ha.
  - right. exists settings, tr', ctx, r. unfold jar_value in *. rewrite Ha in Hca. rewrite Hf' in Hcr, Hre.
    split_and!; try done. intros href Hh. rewrite Hac by done. unfold access_at. by rewrite Ha.
Qed.
End Connection.

(** ** A browser to run on: the cookies in a map, a page over https *)

(** The entries that a part of a cookie names go with an age of zero. *)
Definition map_store (jar : jsmap) (text : jstr) : jsmap :=
  match split_on 59 text with
  | part :: attributes =>
      if existsb (fun a => seqb a (u " Max-Age=0")) attributes
      then List.filter (fun kv => negb (existsb (fun named => seqb kv.1 named.1) (parse_cookie_part [] part))) jar
      else parse_cookie_part jar part
  | [] => jar
  end.

Lemma cookie_parts_split parts : Forall (fun p => 59 ∉ p) parts ->
  split_on 59 (join "; " parts) = match parts with [] => [[]] | p :: ps => p :: map (cons 32) ps end.
Proof.
  induction 1 as [|p ps Hp H IH]; [done|]. destruct ps as [|p' ps]; [by rewrite split_on_none|].
  assert (Hj : forall x, u "; " ++ x = 59 :: 32 :: x) by reflexivity.
  rewrite join_cons, Hj, split_on_app by done. f_equal.
  assert (Hs : forall s, split_on 59 (32 :: s) =
    match split_on 59 s with x :: xs => (32 :: x) :: xs | [] => [[32]] end) by reflexivity.
  by rewrite Hs, IH.
Qed.

Lemma map_store_text jar name value ps : cookie_name_ok name -> cookie_value_ok value ->
  Forall (fun p => 59 ∉ p) ps ->
  map_store jar (join "; " ((name ++ u "=" ++ value) :: ps)) =
  (if existsb (fun a => seqb a (u "Max-Age=0")) ps
   then List.filter (fun kv => negb (seqb kv.1 name)) jar else map_set name value jar).
Proof.
  intros Hn Hv Hps. unfold map_store. rewrite cookie_parts_split by (constructor; [by apply cookie_text_clean|done]).
  assert (existsb (fun a => seqb a (u " Max-Age=0")) (map (cons 32) ps) = existsb (fun a => seqb a (u "Max-Age=0")) ps) as ->
    by (clear Hps; induction ps as [|p ps IH]; [reflexivity|]; cbn [map existsb]; rewrite IH; f_equal;
        apply eq_bool_prop_intro; rewrite !Is_true_true, !seqb_eq; split; [by intros [= ->]|by intros ->]).
  pose proof (part_parsed [] name value [] Hn Hv (or_introl eq_refl)) as H0.
  pose proof (part_parsed [] name value jar Hn Hv (or_introl eq_refl)) as H1. cbn [app] in H0, H1. rewrite H0, H1.
  case_match; [|done]. apply filter_ext. intros kv. cbn. by rewrite orb_false_r.
Qed.

Definition map_jar_ok (jar : jsmap) : Prop :=
  Forall (fun kv => cookie_name_ok kv.1 /\ cookie_value_ok kv.2) jar /\ NoDup (map fst jar).

Lemma map_set_keys name value (jar : jsmap) : NoDup (map fst jar) -> NoDup (map fst (map_set name value jar)).
Proof.
  intros Hnd. unfold map_set. destruct (existsb _ jar) eqn:Hex.
  - assert (map fst (map (fun kv => if seqb kv.1 name then (name, value) else kv) jar) = map fst jar) as ->; [|done].
    rewrite map_map. apply map_ext. intros [n v]. simpl. by destruct (seqb n name) eqn:E; [apply seqb_eq in E as ->|].
  - rewrite map_app. apply NoDup_app. split_and!; [done| |by apply NoDup_singleton].
    intros n Hin ->%list_elem_of_singleton. apply list_elem_of_In, in_map_iff in Hin as ([n v] & Hn & Hin).
    simpl in Hn. subst n. assert (Ht : existsb (fun kv => seqb kv.1 name) jar = true).
    { apply existsb_exists. exists (name, v). by rewrite seqb_refl. }
    by rewrite Ht in Hex.
Qed.

Lemma map_set_ok name value jar : map_jar_ok jar -> cookie_name_ok name -> cookie_value_ok value ->
  map_jar_ok (map_set name value jar).
Proof.
  intros [Hok Hnd] Hn Hv. split; [|by apply map_set_keys]. unfold map_set. destruct (existsb _ jar).
  - apply Forall_map. eapply Forall_impl; [exact Hok|]. intros [n v] H. simpl. by destruct (seqb n name).
  - apply Forall_app. split; [done|]. by constructor.
Qed.

Lemma num_to_string_clean z : 59 ∉ num_to_string z.
Proof.
  assert (Hd : forall n, 0 <= n -> 59 ∉ digits n).
  { intros n Hn Hin%list_elem_of_In. pose proof (digits_forallb n Hn) as H. rewrite forallb_forall in H.
    by specialize (H 59 Hin). }
  unfold num_to_string. destruct (Z.ltb_spec z 0); [|by apply Hd].
  intros [?|Hin]%elem_of_cons; [done|]. by apply (Hd (- z)) in Hin; [|lia].
Qed.

Lemma attrs_clean_parts attrs : attrs_clean attrs = true -> 59 ∉ path attrs /\ 59 ∉ same_site attrs.
Proof.
  unfold attrs_clean. rewrite andb_true_iff, !negb_true_iff. intros [Hp Hs].
  split; intros Hin%list_elem_of_In; [rewrite <- not_true_iff_false in Hp; apply Hp|
    rewrite <- not_true_iff_false in Hs; apply Hs]; apply existsb_exists; by exists 59.
Qed.

(** A cookie that is set without an age or with a positive one is kept. *)
Lemma map_store_serialized jar name value attrs : cookie_name_ok name -> cookie_value_ok value ->
  attrs_clean attrs = true -> match max_age attrs with Some age => 0 < age | None => True end ->
  map_store jar (serialize_cookie name value attrs) = map_set name value jar.
Proof.
  intros Hn Hv [Hp Hs]%attrs_clean_parts Ha. unfold serialize_cookie. cbn [app].
  rewrite map_store_text; [|done|done|].
  - replace (existsb _ _) with false; [done|]. symmetry.
    assert (He : forall age, 0 < age -> seqb (u "Max-Age=" ++ num_to_string age) (u "Max-Age=0") = false).
    { intros age Hage. apply seqb_neq. intros E. apply (app_inv_head (u "Max-Age=")) in E.
      apply (inj num_to_string age 0) in E. lia. }
    cbn [existsb app]. destruct (http_only attrs), (secure attrs), (max_age attrs) as [age|]; cbn [existsb app];
      rewrite ?He by done; reflexivity.
  - destruct (http_only attrs), (secure attrs), (max_age attrs) as [age|]; cbn [app];
      repeat (apply List.Forall_cons || apply List.Forall_nil);
      first [ intros [Hin|?]%elem_of_app; [by vm_compute in Hin; set_solver|first [done | by apply (num_to_string_clean age)]]
            | intros Hin; vm_compute in Hin; set_solver ].
Qed.

(** Whatever the attributes are, the cookie is kept or goes. *)
Lemma map_store_either jar name value text : cookie_name_ok name -> cookie_value_ok value ->
  (exists p ps, text = join "; " ((name ++ u "=" ++ value) :: p :: ps)) ->
  map_store jar text = map_set name value jar \/
  map_store jar text = List.filter (fun kv => negb (seqb kv.1 name)) jar.
Proof.
  intros Hn Hv (p & ps & ->). unfold map_store. rewrite join_cons by done.
  assert (Hj : forall x, u "; " ++ x = 59 :: 32 :: x) by reflexivity.
  rewrite Hj, split_on_app by by apply cookie_text_clean.
  pose proof (part_parsed [] name value [] Hn Hv (or_introl eq_refl)) as H0.
  pose proof (part_parsed [] name value jar Hn Hv (or_introl eq_refl)) as H1. cbn [app] in H0, H1. rewrite H0, H1.
  case_match; [right|by left]. apply filter_ext. intros kv. cbn. by rewrite orb_false_r.
Qed.

Lemma map_get_without name other (jar : jsmap) : other <> name ->
  map_get other (List.filter (fun kv => negb (seqb kv.1 name)) jar) = map_get other jar.
Proof.
  intros Hne. unfold map_get. induction jar as [|[n v] jar IH]; [done|]. cbn [List.filter find fst].
  destruct (seqb n name) eqn:E; cbn [negb find fst].
  - apply seqb_eq in E as ->. rewrite IH. by rewrite (proj2 (seqb_neq name other)) by congruence.
  - destruct (seqb n other); [done|apply IH].
Qed.

Lemma map_without_ok name jar : map_jar_ok jar -> map_jar_ok (List.filter (fun kv => negb (seqb kv.1 name)) jar).
Proof.
  intros [Hok Hnd]. split.
  - apply Forall_forall. intros kv Hin%list_elem_of_In%filter_In. rewrite Forall_forall in Hok.
    apply Hok. apply list_elem_of_In. exact (proj1 Hin).
  - clear Hok. induction jar as [|[n v] jar IH]; [constructor|]. cbn [map fst] in Hnd. apply NoDup_cons in Hnd as [Hn Hnd].
    cbn [List.filter]. destruct (negb _); [|by apply IH]. cbn [map fst]. apply NoDup_cons. split; [|by apply IH].
    intros Hin. apply Hn. apply list_elem_of_In, in_map_iff in Hin as (kv & He & Hin). apply filter_In in Hin as [Hin _].
    apply list_elem_of_In, in_map_iff. eauto.
Qed.

Lemma map_store_others jar name value attrs other : cookie_name_ok name -> cookie_value_ok value -> other <> name ->
  map_get other (map_store jar (serialize_cookie name value attrs)) = map_get other jar.
Proof.
  intros Hn Hv Hne. destruct (map_store_either jar name value (serialize_cookie name value attrs) Hn Hv
    ltac:(by eexists _, _)) as [->| ->]; [|by apply map_get_without].
  rewrite map_get_set. by rewrite (proj2 (seqb_neq name _)) by congruence.
Qed.

#[local, program] Instance map_store_instance : CookieStore := {|
  Jar := jsmap; jar_ok := map_jar_ok; secure_page := true; store_cookie := map_store;
  cookies_at := fun _ jar => jar; script_cookies := fun jar => jar |}.
Next Obligation. intros ? H. exact H. Qed.
Next Obligation. intros. rewrite map_store_serialized, map_get_set by done. by rewrite seqb_refl. Qed.
Next Obligation. intros. by apply map_store_others. Qed.
Next Obligation. intros ? ? H. exact H. Qed.
Next Obligation.
  intros jar name value attrs Hj Hn Hv. destruct (map_store_either jar name value (serialize_cookie name value attrs) Hn Hv
    ltac:(by eexists _, _)) as [->| ->]; [by apply map_set_ok|by apply map_without_ok].
Qed.
Next Obligation. intros. rewrite map_store_serialized, map_get_set by done. by rewrite seqb_refl. Qed.
Next Obligation. intros. by apply map_store_others. Qed.

Definition sample_config : AuthConfig :=
  {| public_origin := u "https://app.example"; cookie_secure := true; refresh_hmac_secret := repeat 1 32;
     dummy_hash := u "h" |}.
