(* ===== verification/Shell.v ===== *)
(** shell/nav_rail.tsx, header.tsx, shell_context_bar.tsx and shell_layout.tsx
    with auth/logout_form.tsx: the chrome around the pages.  The rail keeps its
    preferences in the local storage of the browser; positions of the pointer are
    exact coordinates. *)
From Stdlib Require Import QArith.
From S2P Require Import Prelude JsString JsValue JsText JsArray RedisRateLimit ListColumns QuickFilter Nav RefreshFetch.
#[local] Open Scope Z_scope.

(** ** nav_rail.tsx *)

(** The state of the rail, with the path shown and what the local storage has. *)
Record rail : Type := {
  rail_path : jstr;
  rail_prefs : NavPrefs;
  rail_hydrated : bool;
  rail_user_open : option jstr;
  rail_drag_x : option Q;
  rail_drag_width : num;
  rail_stored : option jstr;
}.

Definition rail_initial (path : jstr) (stored : option jstr) : rail := {|
  rail_path := path;
  rail_prefs := {| collapsed := false; last_expanded_width := NInt NAV_DEFAULT_WIDTH_PX |};
  rail_hydrated := false; rail_user_open := None; rail_drag_x := None;
  rail_drag_width := NInt NAV_DEFAULT_WIDTH_PX; rail_stored := stored |}.

(** The effect on [prefs] and [hydrated]. *)
Definition store_prefs (r : rail) : rail := {|
  rail_path := rail_path r; rail_prefs := rail_prefs r; rail_hydrated := rail_hydrated r;
  rail_user_open := rail_user_open r; rail_drag_x := rail_drag_x r; rail_drag_width := rail_drag_width r;
  rail_stored := if rail_hydrated r then Some (serialize_nav_prefs (rail_prefs r)) else rail_stored r |}.

Definition set_prefs (prefs : NavPrefs) (r : rail) : rail := store_prefs {|
  rail_path := rail_path r; rail_prefs := prefs; rail_hydrated := rail_hydrated r;
  rail_user_open := rail_user_open r; rail_drag_x := rail_drag_x r; rail_drag_width := rail_drag_width r;
  rail_stored := rail_stored r |}.

Definition set_width (width : Z) (r : rail) : rail :=
  set_prefs {| collapsed := collapsed (rail_prefs r); last_expanded_width := NInt width |} r.

Definition set_rail_drag (x : option Q) (width : num) (r : rail) : rail := {|
  rail_path := rail_path r; rail_prefs := rail_prefs r; rail_hydrated := rail_hydrated r;
  rail_user_open := rail_user_open r; rail_drag_x := x; rail_drag_width := width; rail_stored := rail_stored r |}.

Definition set_user_open (c : option jstr) (r : rail) : rail := {|
  rail_path := rail_path r; rail_prefs := rail_prefs r; rail_hydrated := rail_hydrated r;
  rail_user_open := c; rail_drag_x := rail_drag_x r; rail_drag_width := rail_drag_width r;
  rail_stored := rail_stored r |}.

(** The effect that runs once, with the width of the window. *)
Definition rail_hydrate (inner_width : num) (r : rail) : rail :=
  let next := read_nav_prefs (rail_stored r) inner_width in
  store_prefs {|
    rail_path := rail_path r; rail_prefs := next; rail_hydrated := true;
    rail_user_open := rail_user_open r; rail_drag_x := rail_drag_x r; rail_drag_width := rail_drag_width r;
    rail_stored := rail_stored r |}.

(** Another path: the effect on it forgets the section the reader opened. *)
Definition rail_navigate (path : jstr) (r : rail) : rail :=
  set_user_open None {|
    rail_path := path; rail_prefs := rail_prefs r; rail_hydrated := rail_hydrated r;
    rail_user_open := rail_user_open r; rail_drag_x := rail_drag_x r; rail_drag_width := rail_drag_width r;
    rail_stored := rail_stored r |}.

(** [drag_start_width + delta] *)
Definition dragged_width (start : num) (delta : Q) : num :=
  match start with
  | NInt w => num_of_fraction (Qnum (inject_Z w + delta)) (Qden (inject_Z w + delta))
  | NFrac n d => num_of_fraction (Qnum ((n # d) + delta)) (Qden ((n # d) + delta))
  | w => w
  end.

Definition on_pointer_move (client_x : Q) (r : rail) : rail :=
  match rail_drag_x r with
  | None => r
  | Some start =>
      if collapsed (rail_prefs r) then r
      else set_width (clamp_nav_width (dragged_width (rail_drag_width r) (client_x - start))) r
  end.

Definition on_pointer_up (r : rail) : rail := set_rail_drag None (rail_drag_width r) r.

Definition toggle_collapsed (r : rail) : rail :=
  set_prefs {| collapsed := negb (collapsed (rail_prefs r));
               last_expanded_width := last_expanded_width (rail_prefs r) |} r.

(** The separator is there when the rail is not collapsed. *)
Definition on_separator_down (client_x : Q) (r : rail) : rail :=
  if collapsed (rail_prefs r) then r
  else set_rail_drag (Some client_x) (last_expanded_width (rail_prefs r)) r.

Definition on_separator_key (key : jstr) (r : rail) : rail :=
  if collapsed (rail_prefs r) then r
  else if seqb key "ArrowLeft" then
    set_width (clamp_nav_width (num_add (last_expanded_width (rail_prefs r)) (-10))) r
  else if seqb key "ArrowRight" then
    set_width (clamp_nav_width (num_add (last_expanded_width (rail_prefs r)) 10)) r
  else r.

Inductive rail_event : Type :=
| Hydrate (inner_width : num)
| Navigate (path : jstr)
| PointerMove (client_x : Q)
| PointerUp
| Toggle
| SeparatorDown (client_x : Q)
| SeparatorKey (key : jstr)
| OpenClass (class_name : jstr).

Definition rail_step (e : rail_event) (r : rail) : rail :=
  match e with
  | Hydrate w => rail_hydrate w r
  | Navigate path => rail_navigate path r
  | PointerMove x => on_pointer_move x r
  | PointerUp => on_pointer_up r
  | Toggle => toggle_collapsed r
  | SeparatorDown x => on_separator_down x r
  | SeparatorKey key => on_separator_key key r
  | OpenClass class_name => set_user_open (Some class_name) r
  end.

Definition rail_run (es : list rail_event) (r : rail) : rail := fold_left (fun r e => rail_step e r) es r.

(** *** What the rail shows *)

(** A link, or a section with a button that opens it. *)
Inductive rail_entry : Type :=
| RailLink (to text : jstr)
| RailSection (class_name text : jstr) (expanded : bool) (links : list (jstr * jstr)).

Record rail_view : Type := {
  view_width : Z;
  view_toggle_label : jstr;
  view_body_hidden : bool;
  view_entries : list rail_entry;    (* none: the note that there are no options *)
  view_separator : bool;
}.

Section Rail.
(** The generated metadata, by class name. *)
Context (class_field_meta : jstr -> option ClassFieldMeta).

Definition rail_open_class (nav : list NavSectionView) (r : rail) : option jstr :=
  match rail_user_open r with
  | Some c => Some c
  | None => open_class_for_path class_field_meta nav (rail_path r)
  end.

Definition section_links (section : NavClassSectionView) : list (jstr * jstr) :=
  omap (fun o => match option_path class_field_meta section o with
                 | Some path => Some (path, option_display_name o)
                 | None => None
                 end) (section_options section).

Fixpoint rail_entries (nav : list NavSectionView) (open_class : option jstr) : outcome (list rail_entry) :=
  match nav with
  | [] => Val []
  | ObjectSection section :: rest =>
      match object_section_path class_field_meta section with
      | Exc e => Exc e
      | Val path =>
          match rail_entries rest open_class with
          | Exc e => Exc e
          | Val entries =>
              Val (match path with
                   | None => entries
                   | Some path => RailLink path (object_display_name section) :: entries
                   end)
          end
      end
  | ClassSection section :: rest =>
      match rail_entries rest open_class with
      | Exc e => Exc e
      | Val entries =>
          Val (RailSection (section_class_name section) (section_display_name section)
                 (bool_decide (open_class = Some (section_class_name section))) (section_links section) :: entries)
      end
  end.

Definition ShellNavRail (nav : list NavSectionView) (r : rail) : outcome rail_view :=
  match rail_entries nav (rail_open_class nav r) with
  | Exc e => Exc e
  | Val entries => Val {|
      view_width := effective_nav_width (rail_prefs r);
      view_toggle_label := if collapsed (rail_prefs r) then u "Expand navigation" else u "Collapse navigation";
      view_body_hidden := collapsed (rail_prefs r);
      view_entries := entries;
      view_separator := negb (collapsed (rail_prefs r)) |}
  end.

(** The sections that are open. *)
Definition expanded_of (entry : rail_entry) : option (jstr * list (jstr * jstr)) :=
  match entry with RailSection c _ true links => Some (c, links) | _ => None end.

(** ** header.tsx and logout_form.tsx *)

Record header_state : Type := { search_open : bool; identity_open : bool }.

Inductive header_event : Type :=
| IdentityClick
| MouseDown (inside : bool)          (* inside the root of the identity menu *)
| DocumentKey (key : jstr)
| ChangePasswordClick
| SearchClick
| SearchKey (key : jstr).            (* in the search input; the key then reaches the document *)

Definition document_key (key : jstr) (h : header_state) : header_state :=
  if identity_open h && seqb key "Escape" then {| search_open := search_open h; identity_open := false |} else h.

Definition header_step (e : header_event) (h : header_state) : header_state :=
  match e with
  | IdentityClick => {| search_open := search_open h; identity_open := negb (identity_open h) |}
  | MouseDown inside =>
      if identity_open h && negb inside then {| search_open := search_open h; identity_open := false |} else h
  | DocumentKey key => document_key key h
  | ChangePasswordClick => {| search_open := search_open h; identity_open := false |}
  | SearchClick => {| search_open := negb (search_open h); identity_open := identity_open h |}
  | SearchKey key =>
      document_key key
        (if seqb key "Escape" then {| search_open := false; identity_open := identity_open h |} else h)
  end.

(** The token that the form posts: that of the cookie at the time, or the one
    that the page was rendered with. *)
Definition logout_submit (rendered_token : jstr) : B jstr :=
  let* current := csrf_token_from_document_cookie in
  ret (if seqb current [] then rendered_token else current).
End Rail.

(** ** shell_context_bar.tsx and shell_layout.tsx *)

Definition SHELL_CONTEXT_BAR_DUAL_OCCUPANT_ERROR : jstr :=
  u "ShellContextBar: only one portal occupant is allowed at a time".

Definition claim_shell_context_bar_occupant (current : Z) : outcome Z :=
  if 0 <? current then Exc (Error_ SHELL_CONTEXT_BAR_DUAL_OCCUPANT_ERROR) else Val (current + 1).

Definition release_shell_context_bar_occupant (current : Z) : Z := Z.max 0 (current - 1).

(** The counter of the provider and the state [occupied] of the layout. *)
Record context_bar : Type := { occupant_count : Z; occupied : bool }.

Definition bar_initial : context_bar := {| occupant_count := 0; occupied := false |}.

Definition claim_occupant (b : context_bar) : outcome context_bar :=
  match claim_shell_context_bar_occupant (occupant_count b) with
  | Exc e => Exc e
  | Val n => Val {| occupant_count := n; occupied := true |}
  end.

Definition release_occupant (b : context_bar) : context_bar :=
  let n := release_shell_context_bar_occupant (occupant_count b) in
  {| occupant_count := n; occupied := 0 <? n |}.

Fixpoint claim_all (n : nat) (b : context_bar) : outcome context_bar :=
  match n with
  | O => Val b
  | S n => match claim_occupant b with Exc e => Exc e | Val b => claim_all n b end
  end.

(** A commit of React: the layout effects of the bars that go are cleaned up,
    then those of the bars that come run. *)
Definition commit (gone came : nat) (b : context_bar) : outcome context_bar :=
  claim_all came (Nat.iter gone release_occupant b).

(** The commits after [mounted] bars, each with the bars that go and come; the
    first that throws ends the tree. *)
Fixpoint commits (cs : list (nat * nat)) (b : context_bar) : outcome context_bar :=
  match cs with
  | [] => Val b
  | (gone, came) :: cs => match commit gone came b with Exc e => Exc e | Val b => commits cs b end
  end.

(** The strip of the layout: hidden from assistive technology or a toolbar. *)
Record strip_view : Type := { aria_hidden : bool; role : option jstr; aria_label : option jstr }.

Definition ContextBarHost (b : context_bar) : strip_view := {|
  aria_hidden := negb (occupied b);
  role := if occupied b then Some (u "toolbar") else None;
  aria_label := if occupied b then Some (u "Context bar") else None |}.

(** ** The rail's widths and preferences *)

Definition width_ok (w : num) : Prop := exists z, w = NInt z /\ NAV_WIDTH_MIN_PX <= z <= NAV_WIDTH_MAX_PX.

Lemma clamp_width_ok w : width_ok (NInt (clamp_nav_width w)).
Proof. eexists. split; [done|]. apply clamp_nav_width_bounds. Qed.

Lemma clamp_width_id w : width_ok w -> NInt (clamp_nav_width w) = w.
Proof.
  intros (z & -> & Hz). unfold clamp_nav_width. simpl. f_equal.
  unfold NAV_WIDTH_MIN_PX, NAV_WIDTH_MAX_PX in *. lia.
Qed.

Lemma read_prefs_ok stored viewport : width_ok (last_expanded_width (read_nav_prefs stored viewport)).
Proof.
  unfold read_nav_prefs, parse_nav_prefs.
  repeat (case_match; simplify_eq/=); try apply clamp_width_ok;
    (eexists; split; [reflexivity|]; unfold NAV_DEFAULT_WIDTH_PX, NAV_WIDTH_MIN_PX, NAV_WIDTH_MAX_PX; lia).
Qed.

(** The widths are whole pixels in their bounds, and what is stored is what is
    shown. *)
Record rail_ok (r : rail) : Prop := {
  prefs_width : width_ok (last_expanded_width (rail_prefs r));
  drag_width : width_ok (rail_drag_width r);
  prefs_stored : rail_hydrated r = true -> rail_stored r = Some (serialize_nav_prefs (rail_prefs r)) }.

Lemma set_width_ok w r : rail_ok r -> rail_ok (set_width (clamp_nav_width w) r).
Proof. intros [Hp Hd Hs]. split; [apply clamp_width_ok|done|]. simpl. by intros ->. Qed.

Lemma rail_step_ok e r : rail_ok r -> rail_ok (rail_step e r).
Proof.
  intros Hr. destruct e; simpl;
    unfold on_pointer_move, on_separator_down, on_separator_key; repeat case_match;
    try (by apply set_width_ok); try done; destruct Hr as [Hp Hd Hs]; split; try done.
  - apply read_prefs_ok.
  - simpl. by intros ->.
Qed.

Lemma rail_run_ok es r : rail_ok r -> rail_ok (rail_run es r).
Proof.
  unfold rail_run. revert r. induction es as [|e es IH]; intros r Hr; simpl; [done|].
  apply IH. by apply rail_step_ok.
Qed.

Lemma rail_initial_ok path stored : rail_ok (rail_initial path stored).
Proof.
  split; [| |done]; (eexists; split; [reflexivity|];
    unfold NAV_DEFAULT_WIDTH_PX, NAV_WIDTH_MIN_PX, NAV_WIDTH_MAX_PX; lia).
Qed.

Lemma hydrated_kept es r : rail_hydrated r = true -> rail_hydrated (rail_run es r) = true.
Proof.
  unfold rail_run. revert r. induction es as [|e es IH]; intros r Hr; simpl; [done|]. apply IH.
  destruct e; simpl; unfold on_pointer_move, on_separator_down, on_separator_key; repeat case_match; done.
Qed.

(** Property C29. However the reader drags, keys, folds and moves about, from
    whatever the storage holds: the rail is painted 40 pixels wide when folded
    and a whole number of pixels from 100 to 400 otherwise, and from the first
    effect on the storage holds the preferences in effect, so that the rail of
    the next page load, in a window of any width, is the one that was left. *)
Theorem rail_remembered path stored inner_width es viewport path' :
  let r := rail_run es (rail_hydrate inner_width (rail_initial path stored)) in
  let next := rail_hydrate viewport (rail_initial path' (rail_stored r)) in
  (if collapsed (rail_prefs r) then effective_nav_width (rail_prefs r) = NAV_COLLAPSED_WIDTH_PX
   else last_expanded_width (rail_prefs r) = NInt (effective_nav_width (rail_prefs r)) /\
        NAV_WIDTH_MIN_PX <= effective_nav_width (rail_prefs r) <= NAV_WIDTH_MAX_PX) /\
  rail_prefs next = rail_prefs r /\ rail_stored next = rail_stored r.
Proof.
  intros r next.
  assert (Hok : rail_ok r) by (apply rail_run_ok, (rail_step_ok (Hydrate inner_width)), rail_initial_ok).
  assert (Hh : rail_hydrated r = true) by (by apply hydrated_kept).
  destruct Hok as [Hp _ Hs]. specialize (Hs Hh).
  assert (Hn : rail_prefs next = rail_prefs r).
  { unfold next, rail_hydrate. simpl. rewrite Hs, nav_prefs_roundtrip, clamp_width_id by done.
    by destruct (rail_prefs r). }
  split_and!; [|done|].
  - unfold effective_nav_width. destruct (collapsed (rail_prefs r)); [done|].
    split; [by rewrite clamp_width_id|apply clamp_nav_width_bounds].
  - rewrite Hs, <- Hn. reflexivity.
Qed.

(** ** Where the reader is *)

Lemma option_path_segments class_field_meta s o path : option_path class_field_meta s o = Some path ->
  exists rest, path = u "/" ++ section_class_name s ++ 47 :: rest.
Proof.
  unfold option_path. destruct (negb _); [done|]. destruct o as [n|n p]; cbv zeta.
  - intros [= <-]. by exists (u "new").
  - case_bool_decide; [done|]. intros [= <-]. by exists (u "lists/" ++ display_name_to_slug n).
Qed.

Lemma option_path_names class_field_meta s s' o o' path :
  47 ∉ section_class_name s -> 47 ∉ section_class_name s' ->
  option_path class_field_meta s o = Some path -> option_path class_field_meta s' o' = Some path ->
  section_class_name s = section_class_name s'.
Proof.
  intros Hs Hs' (rest & ->)%option_path_segments (rest' & Heq)%option_path_segments.
  apply app_inv_head in Heq. apply (f_equal (fun p => head (split_on 47 p))) in Heq.
  rewrite !split_on_app in Heq by done. by injection Heq.
Qed.

(** The path of an option opens the section of the option. *)
Lemma open_class_of_option class_field_meta nav s o path :
  (forall s', ClassSection s' ∈ nav -> 47 ∉ section_class_name s') ->
  ClassSection s ∈ nav -> In o (section_options s) -> option_path class_field_meta s o = Some path ->
  open_class_for_path class_field_meta nav path = Some (section_class_name s).
Proof.
  intros Hslash Hs Ho Hp. unfold open_class_for_path.
  assert (Hm : match find_match_for_path class_field_meta nav path with
               | Some m => ClassSection (match_section m) ∈ nav /\
                   exists o', option_path class_field_meta (match_section m) o' = Some path
               | None => False end).
  { clear Hslash. induction nav as [|[c|c] rest IH]; simpl; [by apply not_elem_of_nil in Hs| |].
    - unfold match_in_section. destruct (find _ (section_options c)) as [o'|] eqn:Hf; simpl.
      + apply find_some in Hf as [_ Hf%bool_decide_eq_true]. split; [apply list_elem_of_here|by exists o'].
      + apply elem_of_cons in Hs as [[= <-]|Hs].
        * pose proof (find_none _ _ Hf o Ho) as Hn. simpl in Hn. by rewrite bool_decide_true in Hn.
        * specialize (IH Hs). destruct (find_match_for_path _ rest path) as [m|]; [|done].
          destruct IH. split; [by apply list_elem_of_further|done].
    - apply elem_of_cons in Hs as [?|Hs]; [done|]. specialize (IH Hs).
      destruct (find_match_for_path _ rest path) as [m|]; [|done]. destruct IH. split; [by apply list_elem_of_further|done]. }
  destruct (find_match_for_path class_field_meta nav path) as [m|]; [|done]. destruct Hm as (Hin & o' & Ho').
  f_equal. eapply option_path_names; eauto.
Qed.

Lemma rail_entries_closed class_field_meta nav c entries : c ∉ class_names nav ->
  rail_entries class_field_meta nav (Some c) = Val entries -> omap expanded_of entries = [].
Proof.
  revert entries. induction nav as [|[s|s] rest IH]; intros entries Hc He; simpl in He.
  - by injection He as <-.
  - unfold class_names in Hc. simpl in Hc. apply not_elem_of_cons in Hc as [Hne Hc].
    destruct (rail_entries _ rest _) as [es|e]; [|done]. injection He as <-. simpl.
    rewrite bool_decide_false by congruence. by apply IH.
  - destruct (object_section_path _ s) as [p|e]; [|done]. destruct (rail_entries _ rest _) as [es|e]; [|done].
    injection He as <-. destruct p; simpl; by apply IH.
Qed.

Lemma rail_entries_open class_field_meta nav s entries : NoDup (class_names nav) -> ClassSection s ∈ nav ->
  rail_entries class_field_meta nav (Some (section_class_name s)) = Val entries ->
  omap expanded_of entries = [(section_class_name s, section_links class_field_meta s)].
Proof.
  revert entries. induction nav as [|[c|c] rest IH]; intros entries Hnd Hs He; simpl in He.
  - by apply not_elem_of_nil in Hs.
  - unfold class_names in Hnd. simpl in Hnd. apply NoDup_cons in Hnd as [Hni Hnd].
    destruct (rail_entries _ rest _) as [es|e] eqn:Hr; [|done]. injection He as <-. simpl.
    apply elem_of_cons in Hs as [[= <-]|Hs].
    + rewrite bool_decide_true by done. f_equal. by eapply rail_entries_closed.
    + rewrite bool_decide_false; [by apply IH|]. intros [= Heq]. apply Hni. rewrite <- Heq.
      apply list_elem_of_omap. by exists (ClassSection s).
  - apply elem_of_cons in Hs as [?|Hs]; [done|].
    destruct (object_section_path _ c) as [p|e]; [|done]. destruct (rail_entries _ rest _) as [es|e] eqn:Hr; [|done].
    injection He as <-. destruct p; simpl; by apply IH.
Qed.

(** The rail shows where the reader is: after going to the path of
    an option, whatever sections were opened before, the section of the option
    is the only one open and has the link to the page; opening another section
    closes it, until the next page. *)
Theorem rail_shows_page class_field_meta nav es r s o path entries :
  NoDup (class_names nav) -> (forall s', ClassSection s' ∈ nav -> 47 ∉ section_class_name s') ->
  ClassSection s ∈ nav -> In o (section_options s) -> option_path class_field_meta s o = Some path ->
  let here := rail_run (es ++ [Navigate path]) r in
  rail_entries class_field_meta nav (rail_open_class class_field_meta nav here) = Val entries ->
  omap expanded_of entries = [(section_class_name s, section_links class_field_meta s)] /\
  (path, option_display_name o) ∈ section_links class_field_meta s /\
  forall s' entries', ClassSection s' ∈ nav ->
    rail_entries class_field_meta nav
      (rail_open_class class_field_meta nav (rail_step (OpenClass (section_class_name s')) here)) = Val entries' ->
    omap expanded_of entries' = [(section_class_name s', section_links class_field_meta s')].
Proof.
  intros Hnd Hslash Hs Ho Hp here He. split_and!.
  - apply (rail_entries_open _ nav); [done..|]. rewrite <- He. f_equal.
    unfold here, rail_run. rewrite fold_left_app. unfold rail_open_class. simpl. symmetry.
    by eapply open_class_of_option.
  - unfold section_links. apply list_elem_of_omap. exists o. rewrite Hp. split; [by apply list_elem_of_In|done].
  - intros s' entries' Hs' He'. by apply (rail_entries_open _ nav).
Qed.

Lemma rail_shows_page_witness :
  let nav := [ClassSection sample_section;
              ClassSection {| section_display_name := u "Users"; section_class_name := u "user"; section_options := [] |}] in
  let o := ListOption (u "In Progress") None in
  exists entries,
  rail_entries sample_class_meta nav (rail_open_class sample_class_meta nav
    (rail_run ([OpenClass (u "user")] ++ [Navigate (u "/change_request/lists/in-progress")]) (rail_initial (u "/") None)))
    = Val entries /\
  omap expanded_of entries = [(u "change_request", section_links sample_class_meta sample_section)].
Proof.
  intros nav o. eexists. split; [vm_compute; reflexivity|].
  refine (proj1 (rail_shows_page sample_class_meta nav [OpenClass (u "user")] (rail_initial (u "/") None)
    sample_section o (u "/change_request/lists/in-progress") _ _ _ _ _ _ _)).
  - apply (bool_decide_eq_true_1 _). vm_compute. reflexivity.
  - intros s' [[= ->]|[[= ->]|Hs]%elem_of_cons]%elem_of_cons; [| |by apply not_elem_of_nil in Hs];
      (apply (bool_decide_eq_true_1 _); vm_compute; reflexivity).
  - apply list_elem_of_here.
  - vm_compute. tauto.
  - vm_compute. reflexivity.
  - vm_compute. reflexivity.
Defined.

(** ** One occupant of the context bar *)

(** The bars that are mounted after commits, and whether none has two. *)
Definition mounted_after (m : nat) (c : nat * nat) : nat := (m - c.1 + c.2)%nat.

Fixpoint one_at_a_time (m : nat) (cs : list (nat * nat)) : bool :=
  match cs with
  | [] => true
  | c :: cs => (mounted_after m c <=? 1)%nat && one_at_a_time (mounted_after m c) cs
  end.

(** Only mounted bars go. *)
Fixpoint goes_mounted (m : nat) (cs : list (nat * nat)) : Prop :=
  match cs with [] => True | c :: cs => (c.1 <= m)%nat /\ goes_mounted (mounted_after m c) cs end.

Definition bar_of (m : nat) : context_bar := {| occupant_count := Z.of_nat m; occupied := (0 <? m)%nat |}.

Lemma release_bar m : release_occupant (bar_of (S m)) = bar_of m.
Proof.
  unfold release_occupant, release_shell_context_bar_occupant, bar_of. cbn [occupant_count].
  replace (Z.max 0 (Z.of_nat (S m) - 1)) with (Z.of_nat m) by lia. f_equal. by destruct m.
Qed.

Lemma release_bars g m : (g <= m)%nat -> Nat.iter g release_occupant (bar_of m) = bar_of (m - g).
Proof.
  induction g as [|g IH]; intros Hg; simpl; [by rewrite Nat.sub_0_r|]. rewrite IH by lia.
  replace (m - g)%nat with (S (m - S g)) by lia. apply release_bar.
Qed.

Lemma claim_bars n m : (m <= 1)%nat ->
  claim_all n (bar_of m) =
  if (m + n <=? 1)%nat then Val (bar_of (m + n)) else Exc (Error_ SHELL_CONTEXT_BAR_DUAL_OCCUPANT_ERROR).
Proof.
  intros Hm. destruct m as [|[|m]]; [| |lia]; destruct n as [|[|n]]; reflexivity.
Qed.

Lemma commits_bars cs m : (m <= 1)%nat -> goes_mounted m cs ->
  match commits cs (bar_of m) with
  | Val b => one_at_a_time m cs = true /\ b = bar_of (fold_left mounted_after cs m) /\
      (fold_left mounted_after cs m <= 1)%nat
  | Exc e => one_at_a_time m cs = false /\ e = Error_ SHELL_CONTEXT_BAR_DUAL_OCCUPANT_ERROR
  end.
Proof.
  revert m. induction cs as [|[g c] cs IH]; intros m Hm Hg; cbn [commits one_at_a_time fold_left]; [done|].
  destruct Hg as [Hgm Hg]. unfold commit. rewrite release_bars, claim_bars by (simpl in Hgm; lia).
  change (mounted_after m (g, c)) with (m - g + c)%nat in *. destruct (Nat.leb_spec (m - g + c) 1); [|done].
  by apply IH.
Qed.

(** The strip under the header has one owner: a sequence of commits
    throws, with the message for two occupants, exactly when some commit leaves
    more than one bar mounted; a page that takes the place of another in one
    commit does not.  Until then the strip is a toolbar when a bar is mounted
    and hidden otherwise. *)
Theorem context_bar_single cs : goes_mounted 0 cs ->
  match commits cs bar_initial with
  | Val b => one_at_a_time 0 cs = true /\ b = bar_of (fold_left mounted_after cs 0%nat) /\
      (fold_left mounted_after cs 0 <= 1)%nat /\
      role (ContextBarHost b) = (if (fold_left mounted_after cs 0 =? 1)%nat then Some (u "toolbar") else None) /\
      aria_hidden (ContextBarHost b) = (fold_left mounted_after cs 0 =? 0)%nat
  | Exc e => one_at_a_time 0 cs = false /\ e = Error_ SHELL_CONTEXT_BAR_DUAL_OCCUPANT_ERROR
  end.
Proof.
  intros Hg. pose proof (commits_bars cs 0 ltac:(lia) Hg) as H.
  change (bar_of 0) with bar_initial in H. destruct (commits cs bar_initial) as [b|e]; [|done].
  destruct H as (H1 & -> & Hle). split_and!; [done|done|done|..]; revert Hle;
    (destruct (fold_left mounted_after cs 0%nat) as [|[|n]]; intros Hle; [reflexivity|reflexivity|lia]).
Qed.

(** A list gives way to a record, which shows two bars at once. *)
Lemma context_bar_single_witness :
  goes_mounted 0 [(0, 1); (1, 1); (0, 1)]%nat /\
  commits [(0, 1); (1, 1)]%nat bar_initial = Val (bar_of 1) /\
  commits [(0, 1); (1, 1); (0, 1)]%nat bar_initial = Exc (Error_ SHELL_CONTEXT_BAR_DUAL_OCCUPANT_ERROR).
Proof.
  assert (Hg : goes_mounted 0 [(0, 1); (1, 1)]%nat) by (repeat split; apply Nat.leb_le; reflexivity).
  assert (Hg' : goes_mounted 0 [(0, 1); (1, 1); (0, 1)]%nat) by (repeat split; apply Nat.leb_le; reflexivity).
  pose proof (context_bar_single _ Hg) as H. pose proof (context_bar_single _ Hg') as H'.
  split; [exact Hg'|]. split.
  - destruct (commits [(0, 1); (1, 1)]%nat bar_initial) as [b|e]; [|by destruct H]. by destruct H as (_ & -> & _).
  - destruct (commits [(0, 1); (1, 1); (0, 1)]%nat bar_initial) as [b|e]; [by destruct H'|]. by destruct H' as [_ ->].
Defined.
