(* ===== verification/BrowserApi.v ===== *)
(** records/browser_api.ts of the frontend: searching, creating and updating
    records over [authenticated_fetch], and how a search ends for the list
    page.  The schema of the search envelope (zod) and the parsers of an
    enriched record are parameters. *)
From S2P Require Import Prelude JsString JsValue JsText JsArray RedisRateLimit ListColumns Nav Detail RefreshFetch.

Section BrowserApi.
Context (url_pathname : jstr -> option jstr)
        (search_response_parse : jsval -> outcome (list jsval * Z * Z * Z))   (* items, total, limit, offset *)
        (record_schema : jsval -> outcome fields) (fk_identity_parse : jsval -> outcome unit)
        (class_field_meta : jstr -> option ClassFieldMeta).

Definition DEFAULT_LIMIT : Z := 20.
Definition DEFAULT_OFFSET : Z := 0.

Inductive BrowserApiResult (T : Type) : Type :=
| ApiOk (value : T)
| ApiFailure (failure_status : Z) (detail : jstr).
Arguments ApiOk {T} value.
Arguments ApiFailure {T} failure_status detail.

Definition search_path (class_name : jstr) : jstr := u "/api/v2/" ++ class_name ++ u "/search".

Definition collection_path (class_name : jstr) : jstr := u "/api/v2/" ++ class_name.

Definition record_path (class_name locator : jstr) : outcome jstr :=
  match or_uri_error (encodeURIComponent locator) with
  | Exc e => Exc e
  | Val encoded => Val (u "/api/v2/" ++ class_name ++ u "/" ++ encoded)
  end.

(** The messages of a list of errors. *)
Definition error_parts (detail : list jsval) : list jstr :=
  omap (fun item => as_string (vget item (u "msg"))) detail.

Definition read_error_detail (response : Response) : jstr :=
  let fallback := u "Request failed with status " ++ num_to_string (status response) in
  match body_json response with
  | None => fallback
  | Some body =>
      match vget body (u "detail") with
      | VStr detail => if bool_decide (detail = []) then fallback else detail
      | VObj _ as detail =>
          match vget detail (u "detail") with VStr inner => inner | _ => fallback end
      | VArr detail =>
          match error_parts detail with [] => fallback | parts => join (u "; ") parts end
      | _ => fallback
      end
  end.

Definition json_headers : list (jstr * jstr) :=
  [(u "accept", u "application/json"); (u "content-type", u "application/json")].

(** The body of a search on the wire. *)
Record SearchCollectionBody : Type := {
  body_predicate : jsval;
  body_attributes : list jstr;
  body_sort : option (list ListSortSpec);
  body_limit : option Z;
  body_offset : option Z;
}.

Definition sort_value (s : ListSortSpec) : jsval :=
  VObj [(u "attribute", VStr (sort_attribute s));
        (u "direction", VStr match sort_dir s with asc => u "asc" | desc => u "desc" end)].

Definition search_payload (body : SearchCollectionBody) : fields :=
  let or_default (o : option Z) (d : Z) := VNum (NInt match o with Some z => z | None => d end) in
  [(u "predicate", or_null (body_predicate body));
   (u "attributes", VArr (map VStr (body_attributes body)));
   (u "limit", or_default (body_limit body) DEFAULT_LIMIT);
   (u "offset", or_default (body_offset body) DEFAULT_OFFSET)] ++
  match body_sort body with
  | Some ((_ :: _) as sort) => [(u "sort", VArr (map sort_value sort))]
  | _ => []
  end.

Definition json_text_of (v : jsval) : option jstr := json_stringify v.

(** A body that is no JSON throws; the message is the platform's. *)
Definition response_json (response : Response) : B jsval :=
  match body_json response with
  | Some v => ret v
  | None => throw (Error_ (u "invalid JSON"))
  end.

Definition of_outcome {A} (o : outcome A) : B A := match o with Val a => ret a | Exc e => throw e end.

(** A request with a JSON body, and what is made of a successful answer. *)
Definition api_request {T} (method path : jstr) (payload : jsval) (k : jsval -> B (BrowserApiResult T))
  : B (option (BrowserApiResult T)) :=
  let* answer := authenticated_fetch url_pathname (InString path)
    {| init_method := Some method; credentials := None; headers := json_headers;
       body := json_text_of payload |} in
  match answer with
  | None => ret None
  | Some response =>
      if negb (ok response) then ret (Some (ApiFailure (status response) (read_error_detail response)))
      else let* payload := response_json response in
           let* r := k payload in ret (Some r)
  end.

Definition unknown_class {T} (class_name : jstr) : BrowserApiResult T :=
  ApiFailure 500 (u "Unknown class: " ++ class_name).

Definition enriched (class_name : jstr) (item : jsval) : outcome fields :=
  parse_enriched_record record_schema fk_identity_parse class_field_meta item class_name.

Record SearchResponse : Type := {
  found_items : list fields;
  found_total : Z;
  found_limit : Z;
  found_offset : Z;
}.

Definition search_records (class_name : jstr) (body : SearchCollectionBody)
  : B (option (BrowserApiResult SearchResponse)) :=
  api_request (u "POST") (search_path class_name) (VObj (search_payload body)) (fun response_payload =>
    let* parsed := of_outcome (search_response_parse response_payload) in
    let '(items, total, limit, offset) := parsed in
    match class_field_meta class_name with
    | None => ret (unknown_class class_name)
    | Some _ =>
        let* items := of_outcome (traverse (enriched class_name) items) in
        ret (ApiOk {| found_items := items; found_total := total; found_limit := limit;
                      found_offset := offset |})
    end).

(** The parsed record of an answer. *)
Definition record_result (class_name : jstr) (payload : jsval) : B (BrowserApiResult fields) :=
  match class_field_meta class_name with
  | None => ret (unknown_class class_name)
  | Some _ => let* record := of_outcome (enriched class_name payload) in ret (ApiOk record)
  end.

Definition create_record (class_name : jstr) (body : fields) : B (option (BrowserApiResult fields)) :=
  api_request (u "POST") (collection_path class_name) (VObj body) (record_result class_name).

Definition update_record (class_name locator : jstr) (body : fields) : B (option (BrowserApiResult fields)) :=
  let* path := of_outcome (record_path class_name locator) in
  api_request (u "PATCH") path (VObj body) (record_result class_name).

(** ** What a result says *)

(** The answers to the requests of a path. *)
Notation sent_to path tr := (sent (InString path) tr).

Hypothesis csrf_pathname : url_pathname CSRF_PATH = Some CSRF_PATH.
Hypothesis refresh_pathname : url_pathname REFRESH_PATH = Some REFRESH_PATH.

Lemma api_request_spec {T} method path payload (k : jsval -> B (BrowserApiResult T)) (P : jsval -> T -> Prop)
    (unknown : BrowserApiResult T) :
  is_refresh_bootstrap url_pathname path = false ->
  (forall v, wp (k v) (fun tr r => tr = [] /\
     match r with Val (ApiOk x) => P v x | Val f => f = unknown | Exc _ => True end)) ->
  wp (api_request method path payload k) (fun tr r =>
    (length (sent_to path tr) <= 2)%nat /\
    match r with
    | Val (Some (ApiOk x)) => exists resp v, last (sent_to path tr) = Some (Val resp) /\
        ok resp = true /\ body_json resp = Some v /\ P v x
    | Val (Some f) => f = unknown \/ exists resp, last (sent_to path tr) = Some (Val resp) /\
        ok resp = false /\ f = ApiFailure (status resp) (read_error_detail resp)
    | Val None => False
    | Exc _ => True
    end).
Proof.
  intros Hb Hk. unfold api_request.
  eapply wp_then;
    [apply (authenticated_fetch_spec url_pathname csrf_pathname refresh_pathname (InString path)); exact Hb| |].
  - intros tr [resp|] (Hlen & _ & _ & _ & Hres); [|done]. destruct (ok resp) eqn:Hok; cbn [negb].
    + unfold response_json. destruct (body_json resp) as [v|] eqn:Hv; [|simpl; by rewrite app_nil_r].
      match goal with |- wp (then_ (ret ?v) ?f) ?Q => change (wp (f v) Q); cbv beta end.
      eapply wp_then; [apply Hk| |].
      * intros tr' r [-> Hr]. simpl. rewrite app_nil_r. split; [done|].
        destruct r as [x|st d]; [by exists resp, v|by left].
      * intros tr' e [-> _]. simpl. by rewrite app_nil_r.
    + simpl. rewrite app_nil_r. split; [done|]. right. eauto.
  - intros tr e (Hlen & _). by split.
Qed.

Lemma wp_of_outcome {A C} (o : outcome A) (f : A -> B C) Q :
  (forall a, o = Val a -> wp (f a) Q) -> (forall e, Q [] (Exc e)) -> wp (then_ (of_outcome o) f) Q.
Proof. destruct o as [a|e]; intros Hv He; [by apply Hv|apply He]. Qed.

Lemma record_result_spec class_name v :
  wp (record_result class_name v) (fun tr r => tr = [] /\
    match r with Val (ApiOk x) => enriched class_name v = Val x | Val f => f = unknown_class class_name | Exc _ => True end).
Proof.
  unfold record_result. destruct (class_field_meta class_name); [|by split].
  apply wp_of_outcome; [|by split]. by intros a Ha.
Qed.

(** A saved record is what the service answered: the change is sent once, a
    second time only by the renewal of the session; success means that the last
    answer was a success whose body is a valid record of the class, and that
    record is given; a failure tells the status and the detail of the last
    answer. *)
Theorem update_record_sound class_name locator patch path :
  record_path class_name locator = Val path ->
  is_refresh_bootstrap url_pathname path = false ->
  wp (update_record class_name locator patch) (fun tr r =>
    (length (sent_to path tr) <= 2)%nat /\
    match r with
    | Val (Some (ApiOk record)) => exists resp v, last (sent_to path tr) = Some (Val resp) /\
        ok resp = true /\ body_json resp = Some v /\ enriched class_name v = Val record
    | Val (Some f) => f = unknown_class class_name \/
        exists resp, last (sent_to path tr) = Some (Val resp) /\
        ok resp = false /\ f = ApiFailure (status resp) (read_error_detail resp)
    | Val None => False
    | Exc _ => True
    end).
Proof.
  intros Hp Hb. unfold update_record. rewrite Hp. apply api_request_spec; [done|]. apply record_result_spec.
Qed.
End BrowserApi.

Arguments ApiOk {T} value.
Arguments ApiFailure {T} failure_status detail.
