(* ===== verification/RecordPage.v ===== *)
(** routes/destination_detail.tsx and routes/destination_new.tsx, with
    detail/commit_active_editor_field.ts and detail/use_record_editor_undo.ts:
    the page of one record and the page of a new one.  A page is its state and
    the saves under way; an event is what the reader does, the answer of a save
    or new data from the router, and the effects run after it.

    An event that leaves a field carries what the field commits when it loses
    the focus (a time that was typed), if anything. *)
From S2P Require Import Prelude JsString JsValue JsText JsArray RedisRateLimit LocalTime ListColumns QuickFilter Nav Detail.

(** How a save ends: with the record, with a failure that the service reports,
    or with an exception. *)
Inductive save_answer : Type :=
| SaveOk (record : fields)
| SaveFailed (detail : jstr)
| SaveThrew.

(** A field that loses the focus: its committed value, then the blur. *)
Definition blur_active (committed : option (jstr * jsval)) (s : EditorSnapshot) : EditorSnapshot :=
  close_active_chunk match committed with Some (name, value) => apply_field_edit s name value | None => s end.

(** [on_field_focus] *)
Definition focus_field (name : jstr) (s : EditorSnapshot) : EditorSnapshot :=
  match active_field s with
  | Some a => if seqb a name then s else close_active_chunk s
  | None => s
  end.

Definition detail_title_token (friendly_id_attr : option jstr) (record : fields) : jstr :=
  match match friendly_id_attr with Some f => text_field f record | None => None end with
  | Some v => v
  | None => match text_field (u "id") record with Some v => v | None => [] end
  end.

(** ** destination_detail.tsx *)

Section DetailPage.
Context (generated_update : jstr -> ZodSchema) (class_field_meta : jstr -> option ClassFieldMeta).

Record DetailLoaderData : Type := {
  dl_class_name : jstr;
  dl_locator : jstr;
  dl_record : fields;
  dl_layout : DetailLayout;
}.

Record update_request : Type := {
  up_class_name : jstr;
  up_locator : jstr;
  up_body : fields;
  up_editable : list jstr;      (* those of the render that sent it *)
}.

(** [d_idle]: [revalidator.state] is [idle]. *)
Record detail_page : Type := {
  d_loaded : DetailLoaderData;
  d_can_update : bool;
  d_editor : EditorSnapshot;
  d_display_record : fields;
  d_save_error : option jstr;
  d_save_pending : bool;
  d_pending_refresh : bool;
  d_idle : bool;
  d_updates : list update_request;
}.

Definition editable (s : detail_page) : list jstr := editable_field_names (dl_layout (d_loaded s)).

Definition detail_mount (l : DetailLoaderData) (can_update : bool) : detail_page := {|
  d_loaded := l; d_can_update := can_update;
  d_editor := create_editor_snapshot (dl_record l) (editable_field_names (dl_layout l));
  d_display_record := dl_record l; d_save_error := None; d_save_pending := false;
  d_pending_refresh := false; d_idle := true; d_updates := [] |}.

Definition set_editor (f : EditorSnapshot -> EditorSnapshot) (s : detail_page) : detail_page := {|
  d_loaded := d_loaded s; d_can_update := d_can_update s; d_editor := f (d_editor s);
  d_display_record := d_display_record s; d_save_error := d_save_error s; d_save_pending := d_save_pending s;
  d_pending_refresh := d_pending_refresh s; d_idle := d_idle s; d_updates := d_updates s |}.

Definition set_save_error (e : option jstr) (s : detail_page) : detail_page := {|
  d_loaded := d_loaded s; d_can_update := d_can_update s; d_editor := d_editor s;
  d_display_record := d_display_record s; d_save_error := e; d_save_pending := d_save_pending s;
  d_pending_refresh := d_pending_refresh s; d_idle := d_idle s; d_updates := d_updates s |}.

(** The state of a save: whether it is pending, and the requests. *)
Definition set_saving (pending : bool) (updates : list update_request) (s : detail_page) : detail_page := {|
  d_loaded := d_loaded s; d_can_update := d_can_update s; d_editor := d_editor s;
  d_display_record := d_display_record s; d_save_error := d_save_error s; d_save_pending := pending;
  d_pending_refresh := d_pending_refresh s; d_idle := d_idle s; d_updates := updates |}.

(** The record is shown and the editor starts from it. *)
Definition show_record (record : fields) (names : list jstr) (s : detail_page) : detail_page := {|
  d_loaded := d_loaded s; d_can_update := d_can_update s;
  d_editor := reset_editor_from_record record names;
  d_display_record := record; d_save_error := None; d_save_pending := d_save_pending s;
  d_pending_refresh := d_pending_refresh s; d_idle := d_idle s; d_updates := d_updates s |}.

Definition set_router (l : DetailLoaderData) (pending_refresh idle : bool) (s : detail_page) : detail_page := {|
  d_loaded := l; d_can_update := d_can_update s; d_editor := d_editor s;
  d_display_record := d_display_record s; d_save_error := d_save_error s; d_save_pending := d_save_pending s;
  d_pending_refresh := pending_refresh; d_idle := idle; d_updates := d_updates s |}.

(** The effect of an explicit refresh. *)
Definition refresh_effect (s : detail_page) : detail_page :=
  if negb (d_pending_refresh s) || negb (d_idle s) then s
  else set_router (d_loaded s) false (d_idle s) (show_record (dl_record (d_loaded s)) (editable s) s).

(** [activate_save_ref.current]; [committed] is what the active field commits. *)
Definition activate_save (committed : option (jstr * jsval)) (focused : bool) (s : detail_page) : detail_page :=
  if negb (d_can_update s) || d_save_pending s then s
  else
    let s := if focused then set_editor (blur_active committed) s else s in
    let snap := d_editor s in
    if negb (is_dirty (baseline snap) (draft snap) (editable s)) then s
    else
      match compute_changed_fields (baseline snap) (draft snap) (editable s) with
      | [] => s
      | changed =>
          match prepare_update_body generated_update class_field_meta (dl_class_name (d_loaded s)) changed with
          | Refused _ detail => set_save_error (Some detail) s
          | Prepared body =>
              set_saving true (d_updates s ++
                [{| up_class_name := dl_class_name (d_loaded s); up_locator := dl_locator (d_loaded s);
                    up_body := body; up_editable := editable s |}])
                (set_save_error None s)
          end
      end.

(** The continuation of a save. *)
Definition on_update_answer (i : nat) (a : save_answer) (s : detail_page) : detail_page :=
  match d_updates s !! i with
  | None => s
  | Some q =>
      let s := set_saving (d_save_pending s) (delete i (d_updates s)) s in
      match a with
      | SaveThrew => s
      | SaveFailed detail => set_save_error (Some detail) (set_saving false (d_updates s) s)
      | SaveOk record => show_record record (up_editable q) (set_saving false (d_updates s) s)
      end
  end.

(** [on_refresh]; [idle]: what the next render sees of the revalidation. *)
Definition on_refresh (idle : bool) (s : detail_page) : detail_page :=
  set_router (d_loaded s) true idle (show_record (dl_record (d_loaded s)) (editable s) s).

Inductive detail_event : Type :=
| FieldChange (name : jstr) (value : jsval)
| FieldFocus (name : jstr)
| FieldBlur (committed : option (jstr * jsval))
| UndoKey
| Save (focused : bool) (committed : option (jstr * jsval))
| UpdateAnswer (i : nat) (a : save_answer)
| DismissError
| Refresh (idle : bool)
| Router (l : DetailLoaderData) (idle : bool).     (* new data, or a new state of the revalidation *)

Definition detail_handle (e : detail_event) (s : detail_page) : detail_page :=
  match e with
  | FieldChange name value => set_editor (fun snap => apply_field_edit snap name value) s
  | FieldFocus name => set_editor (focus_field name) s
  | FieldBlur committed => set_editor (blur_active committed) s
  | UndoKey => if d_can_update s then set_editor undo_last_chunk s else s
  | Save focused committed => activate_save committed focused s
  | UpdateAnswer i a => on_update_answer i a s
  | DismissError => set_save_error None s
  | Refresh idle => on_refresh idle s
  | Router l idle => set_router l (d_pending_refresh s) idle s
  end.

Definition detail_step (e : detail_event) (s : detail_page) : detail_page := refresh_effect (detail_handle e s).

Definition detail_run (events : list detail_event) (s : detail_page) : detail_page :=
  fold_left (fun s e => detail_step e s) events s.

(** What the page shows of a record: the record, with an editor that starts
    from it. *)
Definition shows (record : fields) (s : detail_page) : Prop :=
  d_display_record s = record /\ d_editor s = create_editor_snapshot record (editable s) /\
  is_dirty (baseline (d_editor s)) (draft (d_editor s)) (editable s) = false.

Lemma fresh_not_dirty record names names' :
  is_dirty (baseline (create_editor_snapshot record names)) (draft (create_editor_snapshot record names)) names' = false.
Proof.
  unfold is_dirty. simpl. apply not_true_is_false. intros (n & _ & Hn)%existsb_exists.
  unfold field_changed in Hn. by rewrite values_equal_refl in Hn.
Qed.

Lemma show_record_shows record s : shows record (show_record record (editable s) s).
Proof. split_and!; [done|done|]. apply fresh_not_dirty. Qed.

(** One save at a time: a save is under way only while the page says so. *)
Definition saving_ok (s : detail_page) : Prop :=
  (length (d_updates s) <= 1)%nat /\ (d_save_pending s = false -> d_updates s = []).

Lemma refresh_effect_saving s :
  d_updates (refresh_effect s) = d_updates s /\ d_save_pending (refresh_effect s) = d_save_pending s.
Proof. unfold refresh_effect. by destruct (_ || _). Qed.

Lemma activate_save_cases committed focused s :
  let s' := activate_save committed focused s in
  (d_updates s' = d_updates s /\ d_save_pending s' = d_save_pending s) \/
  (d_can_update s = true /\ d_save_pending s = false /\ d_save_pending s' = true /\
   let snap := d_editor s' in
   snap = (if focused then blur_active committed (d_editor s) else d_editor s) /\
   let changed := compute_changed_fields (baseline snap) (draft snap) (editable s) in
   changed <> [] /\
   d_updates s' = d_updates s ++ [{| up_class_name := dl_class_name (d_loaded s);
                                     up_locator := dl_locator (d_loaded s); up_body := changed;
                                     up_editable := editable s |}]).
Proof.
  cbv zeta. unfold activate_save. destruct (d_can_update s) eqn:Hc; [|by left].
  destruct (d_save_pending s) eqn:Hp; [by left|]. cbn [negb orb].
  set (s1 := if focused then set_editor (blur_active committed) s else s).
  assert (H1 : d_loaded s1 = d_loaded s /\ d_updates s1 = d_updates s /\ d_save_pending s1 = false /\
    d_editor s1 = (if focused then blur_active committed (d_editor s) else d_editor s)) by by destruct focused.
  destruct H1 as (Hl & Hu & Hpe & He). unfold editable. rewrite Hl.
  destruct (negb (is_dirty _ _ _)); [by left|].
  destruct (compute_changed_fields _ _ _) as [|kv rest] eqn:Hch; [by left|].
  destruct (prepare_update_body _ _ _ (kv :: rest)) as [body|st d] eqn:Hprep; [|by left].
  right. assert (body = kv :: rest) as ->.
  { unfold prepare_update_body, check_body in Hprep. repeat case_match; simplify_eq; done. }
  simpl. rewrite <- He, Hu. rewrite Hch. by split_and!.
Qed.

Lemma saving_ok_step e s : saving_ok s -> saving_ok (detail_step e s).
Proof.
  intros [Hlen Hp]. unfold detail_step, saving_ok. destruct (refresh_effect_saving (detail_handle e s)) as [-> ->].
  destruct e as [name value|name|committed| |focused committed|i a| |idle|l idle]; simpl; try done.
  - by destruct (d_can_update s).
  - destruct (activate_save_cases committed focused s) as [[-> ->]|(_ & Hpe & -> & _ & _ & ->)]; [done|].
    rewrite (Hp Hpe). split; [simpl; lia|done].
  - unfold on_update_answer. destruct (d_updates s !! i) eqn:Hi; [|done].
    apply lookup_lt_Some in Hi as Hlt. destruct (d_updates s) as [|x [|]]; simpl in *; try lia.
    assert (i = 0%nat) as -> by lia. destruct a; simpl; split; done || lia.
Qed.

(** No explicit refresh waits while the router is idle. *)
Definition settled (s : detail_page) : Prop := d_pending_refresh s && d_idle s = false.

Lemma refresh_effect_settled s : settled (refresh_effect s).
Proof. unfold refresh_effect, settled. by destruct (d_pending_refresh s) eqn:Hp, (d_idle s) eqn:Hi; simpl; rewrite ?Hp, ?Hi. Qed.

Lemma settled_run l can_update events : settled (detail_run events (detail_mount l can_update)).
Proof.
  assert (H : forall s, settled s -> settled (detail_run events s)).
  { unfold detail_run. induction events as [|e events IH]; intros s Hs; [done|]. apply IH, refresh_effect_settled. }
  by apply H.
Qed.

Lemma settled_effect s s' : settled s -> d_pending_refresh s' = d_pending_refresh s -> d_idle s' = d_idle s ->
  refresh_effect s' = s'.
Proof. unfold settled, refresh_effect. intros Hs -> ->. by destruct (d_pending_refresh s), (d_idle s). Qed.

Lemma activate_save_router committed focused s :
  d_pending_refresh (activate_save committed focused s) = d_pending_refresh s /\
  d_idle (activate_save committed focused s) = d_idle s.
Proof.
  unfold activate_save. destruct (_ || _); [done|]. cbv zeta. destruct focused; simpl;
    (destruct (negb _); [done|]); (destruct (compute_changed_fields _ _ _); [done|]);
    by destruct (prepare_update_body _ _ _ _).
Qed.

Lemma saving_ok_run l can_update events : saving_ok (detail_run events (detail_mount l can_update)).
Proof.
  assert (H : forall s, saving_ok s -> saving_ok (detail_run events s)).
  { unfold detail_run. induction events as [|e events IH]; intros s Hs; [done|]. by apply IH, saving_ok_step. }
  apply H. split; [simpl; lia|done].
Qed.

(** An explicit refresh drops the edits at once and again when the new data has
    come, whatever was edited, answered or left in between. *)
Definition no_idle (e : detail_event) : bool :=
  match e with Refresh true | Router _ true => false | _ => true end.

Lemma refresh_waits events s : d_pending_refresh s = true -> d_idle s = false ->
  forallb no_idle events = true ->
  d_pending_refresh (detail_run events s) = true.
Proof.
  unfold detail_run. revert s. induction events as [|e events IH]; intros s Hp Hi He; [done|].
  simpl in He. apply andb_true_iff in He as [He Hes]. simpl.
  assert (Hstep : d_pending_refresh (detail_handle e s) = true /\ d_idle (detail_handle e s) = false).
  { destruct e as [name value|name|committed| |focused committed|i a| |[]|r []]; simpl; try done.
    - by destruct (d_can_update s).
    - destruct (activate_save_router committed focused s) as [-> ->]. done.
    - unfold on_update_answer. destruct (d_updates s !! i); [|done]. by destruct a. }
  destruct Hstep as [Hp' Hi'].
  assert (Heff : detail_step e s = detail_handle e s).
  { unfold detail_step, refresh_effect. by rewrite Hp', Hi'. }
  rewrite Heff. by apply IH.
Qed.

Lemma refresh_shows_new_data s events l :
  shows (dl_record (d_loaded s)) (detail_step (Refresh false) s) /\
  (forallb no_idle events = true ->
   shows (dl_record l) (detail_step (Router l true) (detail_run events (detail_step (Refresh false) s)))).
Proof.
  split; [apply show_record_shows|]. intros He.
  assert (Hp : d_pending_refresh (detail_run events (detail_step (Refresh false) s)) = true)
    by by apply refresh_waits.
  unfold detail_step at 1. simpl. unfold refresh_effect. simpl. rewrite Hp. simpl. apply show_record_shows.
Qed.
End DetailPage.

(** ** destination_new.tsx *)

Section NewPage.
Context (catalog : Catalog) (generated_create : jstr -> ZodSchema)
        (class_field_meta : jstr -> option ClassFieldMeta).

Record NewLoaderData : Type := {
  nl_class_name : jstr;
  nl_seed_record : fields;
  nl_layout : DetailLayout;
}.

Record create_request : Type := {
  cr_class_name : jstr;
  cr_body : fields;
}.

(** [n_thrown]: an exception of a handler; [n_navigated]: where the page went. *)
Record new_page : Type := {
  n_loaded : NewLoaderData;
  n_can_create : bool;
  n_editor : EditorSnapshot;
  n_display_record : fields;
  n_save_error : option jstr;
  n_save_pending : bool;
  n_creates : list create_request;
  n_navigated : list jstr;
  n_thrown : option exn;
}.

Definition new_editable (s : new_page) : list jstr := editable_field_names (nl_layout (n_loaded s)).

Definition new_mount (l : NewLoaderData) (can_create : bool) : new_page := {|
  n_loaded := l; n_can_create := can_create;
  n_editor := create_editor_snapshot (nl_seed_record l) (editable_field_names (nl_layout l));
  n_display_record := nl_seed_record l; n_save_error := None; n_save_pending := false; n_creates := [];
  n_navigated := []; n_thrown := None |}.

Definition set_new_editor (f : EditorSnapshot -> EditorSnapshot) (s : new_page) : new_page := {|
  n_loaded := n_loaded s; n_can_create := n_can_create s; n_editor := f (n_editor s);
  n_display_record := n_display_record s; n_save_error := n_save_error s; n_save_pending := n_save_pending s;
  n_creates := n_creates s; n_navigated := n_navigated s; n_thrown := n_thrown s |}.

Definition set_new_error (e : option jstr) (s : new_page) : new_page := {|
  n_loaded := n_loaded s; n_can_create := n_can_create s; n_editor := n_editor s;
  n_display_record := n_display_record s; n_save_error := e; n_save_pending := n_save_pending s;
  n_creates := n_creates s; n_navigated := n_navigated s; n_thrown := n_thrown s |}.

Definition set_creating (pending : bool) (creates : list create_request) (s : new_page) : new_page := {|
  n_loaded := n_loaded s; n_can_create := n_can_create s; n_editor := n_editor s;
  n_display_record := n_display_record s; n_save_error := n_save_error s; n_save_pending := pending;
  n_creates := creates; n_navigated := n_navigated s; n_thrown := n_thrown s |}.

Definition new_throw (e : exn) (s : new_page) : new_page := {|
  n_loaded := n_loaded s; n_can_create := n_can_create s; n_editor := n_editor s;
  n_display_record := n_display_record s; n_save_error := n_save_error s; n_save_pending := n_save_pending s;
  n_creates := n_creates s; n_navigated := n_navigated s; n_thrown := Some e |}.

Definition navigate (path : jstr) (s : new_page) : new_page := {|
  n_loaded := n_loaded s; n_can_create := n_can_create s; n_editor := n_editor s;
  n_display_record := n_display_record s; n_save_error := n_save_error s; n_save_pending := n_save_pending s;
  n_creates := n_creates s; n_navigated := n_navigated s ++ [path]; n_thrown := n_thrown s |}.

(** Whether the save button is enabled. *)
Definition new_page_save_enabled (s : new_page) : outcome bool :=
  let dirty := is_dirty (baseline (n_editor s)) (draft (n_editor s)) (new_editable s) in
  let merged :=
    match class_field_meta (nl_class_name (n_loaded s)) with
    | Some meta => merge_create_body catalog meta (draft (n_editor s)) None
    | None => Val (draft (n_editor s))
    end in
  let schema :=
    match class_field_meta (nl_class_name (n_loaded s)) with
    | Some _ => create_schema_for_class generated_create (nl_class_name (n_loaded s))
    | None => None
    end in
  match merged with
  | Exc e => Exc e
  | Val body =>
      let create_valid :=
        match schema with
        | None => true
        | Some z => match schema_issues z body with [] => true | _ => false end
        end in
      Val (new_save_enabled (n_can_create s) dirty create_valid
             match schema with Some _ => true | None => false end)
  end.

(** [activate_save_ref.current] at a time. *)
Definition activate_create (now : Z) (committed : option (jstr * jsval)) (focused : bool) (s : new_page) : new_page :=
  if negb (n_can_create s) || n_save_pending s then s
  else
    let s := if focused then set_new_editor (blur_active committed) s else s in
    match prepare_create_body catalog generated_create class_field_meta (nl_class_name (n_loaded s))
            (draft (n_editor s)) (Some (clock_env now)) with
    | Exc e => new_throw e s
    | Val (Refused _ detail) => set_new_error (Some detail) s
    | Val (Prepared body) =>
        set_creating true (n_creates s ++ [{| cr_class_name := nl_class_name (n_loaded s); cr_body := body |}])
          (set_new_error None s)
    end.

Definition created_locator (class_name : jstr) (record : fields) : option jstr :=
  match class_field_meta class_name with
  | Some meta => preferred_create_locator meta record
  | None => as_string (fields_get (u "id") record)
  end.

Definition on_create_answer (i : nat) (a : save_answer) (s : new_page) : new_page :=
  match n_creates s !! i with
  | None => s
  | Some q =>
      let s := set_creating (n_save_pending s) (delete i (n_creates s)) s in
      match a with
      | SaveThrew => s
      | SaveFailed detail => set_new_error (Some detail) (set_creating false (n_creates s) s)
      | SaveOk record =>
          let s := set_creating false (n_creates s) s in
          match created_locator (cr_class_name q) record with
          | None => set_new_error (Some (u "Create succeeded but record locator is missing")) s
          | Some locator =>
              match record_detail_path (cr_class_name q) locator with
              | Exc e => new_throw e s
              | Val path => navigate path s
              end
          end
      end
  end.

Definition on_new_refresh (s : new_page) : new_page := {|
  n_loaded := n_loaded s; n_can_create := n_can_create s;
  n_editor := reset_editor_from_record (nl_seed_record (n_loaded s)) (new_editable s);
  n_display_record := nl_seed_record (n_loaded s); n_save_error := None; n_save_pending := n_save_pending s;
  n_creates := n_creates s; n_navigated := n_navigated s; n_thrown := n_thrown s |}.

Inductive new_event : Type :=
| NewFieldChange (name : jstr) (value : jsval)
| NewFieldFocus (name : jstr)
| NewFieldBlur (committed : option (jstr * jsval))
| NewUndoKey
| Create (now : Z) (focused : bool) (committed : option (jstr * jsval))
| CreateAnswer (i : nat) (a : save_answer)
| NewDismissError
| NewRefresh.

Definition new_step (e : new_event) (s : new_page) : new_page :=
  match e with
  | NewFieldChange name value => set_new_editor (fun snap => apply_field_edit snap name value) s
  | NewFieldFocus name => set_new_editor (focus_field name) s
  | NewFieldBlur committed => set_new_editor (blur_active committed) s
  | NewUndoKey => if n_can_create s then set_new_editor undo_last_chunk s else s
  | Create now focused committed => activate_create now committed focused s
  | CreateAnswer i a => on_create_answer i a s
  | NewDismissError => set_new_error None s
  | NewRefresh => on_new_refresh s
  end.

Definition new_run (events : list new_event) (s : new_page) : new_page := fold_left (fun s e => new_step e s) events s.

Definition creating_ok (s : new_page) : Prop :=
  (length (n_creates s) <= 1)%nat /\ (n_save_pending s = false -> n_creates s = []).

Lemma activate_create_cases now committed focused s :
  let s' := activate_create now committed focused s in
  (n_creates s' = n_creates s /\ n_save_pending s' = n_save_pending s) \/
  (n_can_create s = true /\ n_save_pending s = false /\ n_save_pending s' = true /\
   exists body meta, class_field_meta (nl_class_name (n_loaded s)) = Some meta /\
     merge_create_body catalog meta (draft (n_editor s')) (Some (clock_env now)) = Val body /\
     n_creates s' = n_creates s ++ [{| cr_class_name := nl_class_name (n_loaded s); cr_body := body |}]).
Proof.
  cbv zeta. unfold activate_create. destruct (n_can_create s) eqn:Hc; [|by left].
  destruct (n_save_pending s) eqn:Hp; [by left|]. cbn [negb orb].
  set (s1 := if focused then set_new_editor (blur_active committed) s else s).
  assert (H1 : n_loaded s1 = n_loaded s /\ n_creates s1 = n_creates s /\ n_save_pending s1 = false) by by destruct focused.
  destruct H1 as (Hl & Hcr & Hpe). unfold prepare_create_body. rewrite Hl.
  destruct (class_field_meta _) as [meta|] eqn:Hmeta; [|left; simpl; by rewrite Hcr, Hpe].
  destruct (merge_create_body _ _ _ _) as [body|e] eqn:Hm; [|left; simpl; by rewrite Hcr, Hpe].
  destruct (check_body _ body) as [body'|st d] eqn:Hcheck; [|left; simpl; by rewrite Hcr, Hpe].
  right. assert (body' = body) as -> by (unfold check_body in Hcheck; repeat case_match; simplify_eq; done).
  split_and!; try done. exists body, meta. simpl. by rewrite Hcr.
Qed.

Lemma on_create_answer_creates i a s :
  n_creates (on_create_answer i a s) = delete i (n_creates s) /\
  (n_save_pending (on_create_answer i a s) = n_save_pending s \/ i < length (n_creates s))%nat.
Proof.
  unfold on_create_answer. destruct (n_creates s !! i) as [q|] eqn:Hi.
  - split; [|right; by eapply lookup_lt_Some]. destruct a; try done.
    destruct (created_locator _ _); [|done]. by destruct (record_detail_path _ _).
  - split; [|by left]. apply lookup_ge_None in Hi. symmetry. by apply delete_ge.
Qed.

Lemma creating_ok_step e s : creating_ok s -> creating_ok (new_step e s).
Proof.
  intros [Hlen Hp]. unfold creating_ok.
  destruct e as [name value|name|committed| |now focused committed|i a| |]; simpl; try done.
  - by destruct (n_can_create s).
  - destruct (activate_create_cases now committed focused s) as [[-> ->]|(_ & Hpe & -> & body & meta & _ & _ & ->)];
      [done|]. rewrite (Hp Hpe). split; [simpl; lia|done].
  - destruct (on_create_answer_creates i a s) as [-> [->|Hi]].
    + split; [pose proof (sublist_length _ _ (sublist_delete (n_creates s) i)); lia|]. intros H. by rewrite (Hp H).
    + destruct (n_creates s) as [|x [|]]; simpl in *; try lia. assert (i = 0%nat) as -> by lia. split; [simpl; lia|done].
Qed.

Lemma creating_ok_run l can_create events : creating_ok (new_run events (new_mount l can_create)).
Proof.
  assert (H : forall s, creating_ok s -> creating_ok (new_run events s)).
  { unfold new_run. induction events as [|e events IH]; intros s Hs; [done|]. by apply IH, creating_ok_step. }
  apply H. split; [simpl; lia|done].
Qed.

(** A new record is sent once at a time and is safe: a request that a step adds
    comes from a save by a reader who may create, while none is under way, and
    for a class whose attributes have distinct names its body has no field that
    is the server's, no reference but the declared one, and the reader's values
    otherwise. *)
Theorem new_page_creates_safely events l can_create e :
  let s := new_run events (new_mount l can_create) in
  let s' := new_step e s in
  (length (n_creates s') <= 1)%nat /\
  forall q, q ∈ n_creates s' -> q ∈ n_creates s \/
    (n_can_create s = true /\ n_creates s = [] /\ cr_class_name q = nl_class_name (n_loaded s) /\
     exists now focused committed meta, e = Create now focused committed /\
       class_field_meta (cr_class_name q) = Some meta /\
       (NoDup (map attr_name_snake (meta_attributes meta)) ->
        safe_body catalog meta (draft (n_editor s')) (Some (clock_env now)) (cr_body q))).
Proof.
  intros s s'. pose proof (creating_ok_run l can_create events) as Hs. fold s in Hs.
  split; [apply (creating_ok_step e s Hs)|]. intros q Hq. destruct Hs as [_ Hs]. unfold s' in *.
  destruct e as [name value|name|committed| |now focused committed|i a| |]; simpl in Hq; try (by left).
  - left. by destruct (n_can_create s).
  - destruct (activate_create_cases now committed focused s)
      as [[Heq _]|(Hc & Hp & _ & body & meta & Hmeta & Hm & Heq)]; rewrite Heq in Hq; [by left|].
    apply elem_of_app in Hq as [Hq|Hq]; [by left|]. apply list_elem_of_singleton in Hq as ->. right.
    split_and!; try done; [by apply Hs|]. exists now, focused, committed, meta. split_and!; try done.
    intros Hnd. by apply (create_body_spec catalog meta _ _ body Hnd).
  - left. rewrite (proj1 (on_create_answer_creates i a s)) in Hq. by eapply list_elem_of_delete_inv.
Qed.
End NewPage.

(** ** Examples *)

Definition sample_layout : DetailLayout :=
  let name := {| slot_name := u "name"; slot_type := u "string"; slot_label := u "Name";
                 slot_references := None; slot_kind_of := author |} in
  {| compact := [name]; text := []; compact_left := [name]; compact_right := [] |}.

Definition sample_page (locator name : jstr) : DetailLoaderData := {|
  dl_class_name := u "change_request"; dl_locator := locator; dl_record := [(u "name", VStr name)];
  dl_layout := sample_layout |}.

Definition sample_schema (class_name : jstr) : ZodSchema :=
  {| schema_shape := Some [u "name"]; schema_issues := fun _ => [] |}.

Definition sample_detail_run (events : list detail_event) : detail_page :=
  detail_run sample_schema sample_class_meta events (detail_mount (sample_page (u "u1") (u "Ann")) true).

(** What is typed while a save is under way is dropped by its answer. *)
Example edit_while_saving_lost :
  let s := sample_detail_run
    [FieldChange (u "name") (VStr (u "Bob")); Save false None; FieldChange (u "name") (VStr (u "Bobby"));
     UpdateAnswer 0 (SaveOk [(u "name", VStr (u "Bob"))])] in
  draft (d_editor s) = [(u "name", VStr (u "Bob"))] /\ undo_stack (d_editor s) = [].
Proof. vm_compute. split; reflexivity. Qed.

(** After an exception the page goes on saying that it saves, and never sends
    a change again. *)
Example exception_leaves_pending :
  let s := sample_detail_run
    [FieldChange (u "name") (VStr (u "Bob")); Save false None; UpdateAnswer 0 SaveThrew; Save false None] in
  d_save_pending s = true /\ d_updates s = [].
Proof. vm_compute. split; reflexivity. Qed.

(** New data of another record, to which the router has navigated, leaves the
    old record in the editor, and a save writes its edits to the other one. *)
Example edits_follow_navigation :
  let s := sample_detail_run
    [FieldChange (u "name") (VStr (u "Bob")); Router (sample_page (u "u2") (u "Cid")) true; Save false None] in
  d_display_record s = [(u "name", VStr (u "Ann"))] /\
  map (fun q => (up_locator q, up_body q)) (d_updates s) = [(u "u2", [(u "name", VStr (u "Bob"))])].
Proof. vm_compute. split; reflexivity. Qed.
