(* ===== verification/Gate.v ===== *)
(** The server side of the frontend: auth/session.server.ts,
    auth/gate.server.ts, auth/access_jwt.ts, auth/api.server.ts,
    auth/config.server.ts (the secure flag), records/fetch.server.ts,
    records/search.server.ts, and the loaders of routes/authenticated.tsx,
    home.tsx, login.tsx, destination_list.tsx, destination_detail.tsx and
    destination_new.tsx with the action of logout.tsx.

    The cookie parser and the token verification have the text of the
    authentication service's, of [Cookies] and [Jwt].  The key, the base
    addresses and the schemas (zod) are parameters. *)
From S2P Require Import Prelude JsString JsValue JsText JsDate JsArray RedisRateLimit Jwt WebAccess Cookies ListColumns.
From S2P Require Import Pagination LocalTime QuickFilter Nav Detail RefreshFetch BrowserApi RecordPage.

(** ** Loaders

    A loader ends with a value or throws: a response, one of the errors that
    the code distinguishes, or another error. *)

Record HttpResponse : Type := {
  http_status : Z;
  location : option jstr;
  set_cookie : list jstr;
  text_body : jstr;
}.

Inductive thrown : Type :=
| ThrownResponse (r : HttpResponse)
| ApiUnauthorizedError
| ApiForbiddenError
| SearchApiError (error_status : Z) (error_detail : jstr)
| OtherError (e : exn).

Inductive loaded (A : Type) : Type :=
| Loaded (a : A)
| Thrown (t : thrown).
Arguments Loaded {A} a.
Arguments Thrown {A} t.

(** The entry of the configuration cache (system_config_cache.server.ts). *)
Record CacheEntry : Type := {
  entry_record : fields;
  expires_at_ms : num;
}.

(** The calls: [new Date()], the key of jose, [fetch], reading and writing the
    entry of the cache, and which of two rejected promises was the first. *)
Inductive ServerE : Type -> Type :=
| ServerNow : ServerE Z
| JwtPublicKey : ServerE (outcome unit)
| ServerFetch (url method : jstr) (headers : jsmap) (body : option jstr) : ServerE (outcome Response)
| ReadEntry : ServerE (option CacheEntry)
| WriteEntry (entry : CacheEntry) : ServerE unit
| FirstRejects : ServerE bool.

Definition L (A : Type) : Type := prog ServerE (loaded A).

Definition give {A} (a : A) : L A := Ret (Loaded a).

Definition raise {A} (t : thrown) : L A := Ret (Thrown t).

Definition bindL {A B} (p : L A) (f : A -> L B) : L B :=
  bind p (fun r => match r with Loaded a => f a | Thrown t => Ret (Thrown t) end).

Definition catchL {A} (p : L A) (h : thrown -> L A) : L A :=
  bind p (fun r => match r with Loaded a => Ret (Loaded a) | Thrown t => h t end).

Definition now_ : L Z := Vis ServerNow (fun t => Ret (Loaded t)).

Definition from_outcome {A} (o : outcome A) : L A :=
  match o with Val a => give a | Exc e => raise (OtherError e) end.

Definition tryL {A} (e : ServerE (outcome A)) : L A := Vis e (fun o => from_outcome o).

Notation "'let+' x := p 'in' q" := (bindL p (fun x => q))
  (at level 10, x pattern, p at level 200, q at level 200) : io_scope.

(** A document request: its method, the path and query of its URL, and its
    headers by lower-case name. *)
Record DocRequest : Type := {
  dr_method : jstr;
  dr_pathname : jstr;
  dr_search : jstr;
  dr_headers : jsmap;
}.

Definition dr_cookie (request : DocRequest) : option jstr := map_get (u "cookie") (dr_headers request).

(** ** config.server.ts, session.server.ts *)

(** [UNTANGLED_COOKIE_SECURE] *)
Definition cookie_secure_from_env (raw : option jstr) : outcome bool :=
  match raw with
  | None | Some [] => Val true
  | Some raw =>
      let normalized := to_lower (trim raw) in
      if seqb normalized "1" || seqb normalized "true" then Val true
      else if seqb normalized "0" || seqb normalized "false" then Val false
      else Exc (Error_ (u "UNTANGLED_COOKIE_SECURE must be true/false (or 1/0); got " ++ json_string raw))
  end.

(** Every attribute is given; the maximal age comes before the flags. *)
Definition serialize_cookie (name value path : jstr) (max_age : num) (http_only secure : bool) : jstr :=
  join "; "
    ([name ++ u "=" ++ value; u "Path=" ++ path; u "SameSite=Lax"; u "Max-Age=" ++ num_text max_age] ++
     (if http_only then [u "HttpOnly"] else []) ++ (if secure then [u "Secure"] else [])).

Inductive AccessClassification : Type :=
| Missing
| Invalid
| Expired (password_change_required : bool)
| Valid (token : jstr) (password_change_required : bool).

(** ** api.server.ts and the domain *)

Record UserProfile : Type := {
  username : jstr;
  display_name : jstr;
  roles : list jstr;
  permissions : list jstr;
}.

Definition DOCUMENT_BOOTSTRAP : jstr := u "bootstrap".

(** What [require_document_access] gives: a token, or the sentinel. *)
Inductive Access : Type :=
| AccessToken (token : jstr)
| Bootstrap.

Definition response (st : Z) (text : jstr) : HttpResponse :=
  {| http_status := st; location := None; set_cookie := []; text_body := text |}.

Definition redirect (to : jstr) (cookies : list jstr) : HttpResponse :=
  {| http_status := 302; location := Some to; set_cookie := cookies; text_body := [] |}.

Definition not_found : thrown := ThrownResponse (response 404 (u "Not Found")).

Definition forbidden_response : HttpResponse := response 403 (u "Forbidden").

Section Server.
Context `{Jose}.
(** The environment: the secure flag's variable and the two base addresses
    (reading an unset one throws). *)
Context (cookie_secure_env : option jstr) (api_base_url auth_base_url : outcome jstr)
        (user_profile_parse : jsval -> outcome UserProfile).

Definition classify_access_token (token : jstr) (now : Z) : AccessClassification :=
  match verify_access_jwt token now with
  | AccessInvalid => Invalid
  | AccessExpired payload => Expired (password_change_required payload)
  | AccessValid payload => Valid token (password_change_required payload)
  end.

(** The access cookie, when it is not empty. *)
Definition read_access_cookie (request : DocRequest) : option jstr :=
  match map_get ACCESS_COOKIE_NAME (parse_cookie_header (dr_cookie request)) with
  | Some ((_ :: _) as token) => Some token
  | _ => None
  end.

Definition read_csrf_cookie (request : DocRequest) : jstr :=
  match map_get CSRF_COOKIE_NAME (parse_cookie_header (dr_cookie request)) with Some v => v | None => [] end.

Definition classify_access_cookie (request : DocRequest) : L AccessClassification :=
  match read_access_cookie request with
  | None => give Missing
  | Some token =>
      let+ _ := tryL JwtPublicKey in
      let+ now := now_ in
      give (classify_access_token token now)
  end.

(** The session of a valid token: the token, and whether a change of the
    password is required. *)
Definition verified_access_session (token : jstr) : L (option (jstr * bool)) :=
  let+ now := now_ in
  give match classify_access_token token now with
       | Valid token required => Some (token, required)
       | _ => None
       end.

Definition get_access_session (request : DocRequest) : L (option (jstr * bool)) :=
  match read_access_cookie request with
  | None => give None
  | Some token =>
      let+ _ := tryL JwtPublicKey in
      verified_access_session token
  end.

Definition get_access_token (request : DocRequest) : L (option jstr) :=
  let+ session := get_access_session request in
  give (option_map fst session).

(** The cookie of a token, with the age that it has left. *)
Definition commit_access_token (access_token : jstr) : L jstr :=
  let+ secure := from_outcome (cookie_secure_from_env cookie_secure_env) in
  let+ now := now_ in
  let+ max_age := from_outcome (access_token_remaining_seconds access_token now) in
  give (serialize_cookie ACCESS_COOKIE_NAME access_token ACCESS_COOKIE_PATH max_age true secure).

(** A cookie that ends one. *)
Definition expired_cookie (name path : jstr) : outcome jstr :=
  match cookie_secure_from_env cookie_secure_env with
  | Exc e => Exc e
  | Val secure => Val (serialize_cookie name [] path (NInt 0) true secure)
  end.

Definition destroy_session : outcome jstr := expired_cookie ACCESS_COOKIE_NAME ACCESS_COOKIE_PATH.

Definition expire_refresh_cookie : outcome jstr := expired_cookie REFRESH_COOKIE_NAME REFRESH_COOKIE_PATH.

Definition expire_logout_cookies : outcome (list jstr) :=
  match destroy_session, expire_refresh_cookie with
  | Val a, Val r => Val [a; r]
  | Exc e, _ | _, Exc e => Exc e
  end.

(** ** gate.server.ts *)

Definition login_redirect_url (next : option jstr) : outcome jstr :=
  let destination := safe_next_path next (u "/") in
  if seqb destination "/" then Val (u "/login")
  else match or_uri_error (encodeURIComponent destination) with
       | Exc e => Exc e
       | Val encoded => Val (u "/login?next=" ++ encoded)
       end.

Definition request_next (request : DocRequest) : option jstr := Some (dr_pathname request ++ dr_search request).

Definition redirect_unauthenticated (request : DocRequest) : outcome HttpResponse :=
  match login_redirect_url (request_next request) with
  | Exc e => Exc e
  | Val url => Val (redirect url [])
  end.

Definition redirect_unauthorized (request : DocRequest) : outcome HttpResponse :=
  match destroy_session with
  | Exc e => Exc e
  | Val cookie =>
      match login_redirect_url (request_next request) with
      | Exc e => Exc e
      | Val url => Val (redirect url [cookie])
      end
  end.

(** [throw p]: an exception of making the response is thrown instead. *)
Definition throw_response {A} (o : outcome HttpResponse) : L A :=
  match o with Val r => raise (ThrownResponse r) | Exc e => raise (OtherError e) end.

Definition require_document_access (request : DocRequest) : L Access :=
  let+ classified := classify_access_cookie request in
  match classified with
  | Valid token required =>
      if required then raise (ThrownResponse (redirect (u "/expired-password") [])) else give (AccessToken token)
  | Expired required =>
      if negb required && seqb (dr_method request) "GET" then give Bootstrap
      else throw_response (redirect_unauthenticated request)
  | _ => throw_response (redirect_unauthenticated request)
  end.

(** ** Requests with the token *)

Definition bearer (access_token : jstr) : jstr := u "Bearer " ++ access_token.

Definition in_json (r : Response) : L jsval :=
  match body_json r with Some v => give v | None => raise (OtherError (Error_ (u "invalid JSON"))) end.

(** The statuses that every call of a service maps to errors. *)
Definition check_auth_status (r : Response) : L unit :=
  if status r =? 401 then raise ApiUnauthorizedError
  else if status r =? 403 then raise ApiForbiddenError
  else give tt.

Definition fetch_me (access_token : jstr) : L UserProfile :=
  let+ base := from_outcome auth_base_url in
  let+ r := tryL (ServerFetch (base ++ u "/api/v2/auth/me") (u "GET")
    [(u "authorization", bearer access_token); (u "accept", u "application/json")] None) in
  let+ _ := check_auth_status r in
  if negb (ok r) then
    raise (OtherError (Error_ (u "auth /me failed with status " ++ num_to_string (status r))))
  else let+ body := in_json r in from_outcome (user_profile_parse body).

(** A path of the domain; the headers besides are lower-case. *)
Definition api_fetch_with_token (access_token path method : jstr) (init_headers : jsmap) (init_body : option jstr)
  : L Response :=
  let+ url :=
    if starts_with (u "http") path then give path
    else let+ base := from_outcome api_base_url in
         give (base ++ if starts_with (u "/") path then path else u "/" ++ path) in
  let h := map_set (u "authorization") (bearer access_token) init_headers in
  let h := match map_get (u "accept") h with Some _ => h | None => map_set (u "accept") (u "application/json") h end in
  let+ r := tryL (ServerFetch url method h init_body) in
  let+ _ := check_auth_status r in
  give r.

Inductive LogoutAuthResult : Type := logout_ok | logout_forbidden | logout_unauthorized | logout_unavailable.

(** An optional header. *)
Definition add_header (name value : jstr) (h : jsmap) : jsmap :=
  if bool_decide (value = []) then h else map_set name value h.

Definition or_empty (o : option jstr) : jstr := match o with Some s => s | None => [] end.

Definition fetch_logout (access_token origin : option jstr) (csrf_cookie csrf_token : jstr) : L LogoutAuthResult :=
  let h := [(u "accept", u "application/json")] in
  let h := add_header (u "origin") (or_empty origin) h in
  let h := add_header (u "x-csrf-token") csrf_token h in
  let h := if bool_decide (csrf_cookie = []) then h
           else map_set (u "cookie") (CSRF_COOKIE_NAME ++ u "=" ++ csrf_cookie) h in
  let h := match access_token with
           | Some ((_ :: _) as t) => map_set (u "authorization") (bearer t) h
           | _ => h
           end in
  catchL
    (let+ base := from_outcome auth_base_url in
     let+ r := tryL (ServerFetch (base ++ u "/api/v2/auth/logout") (u "POST") h None) in
     give (if status r =? 200 then logout_ok
           else if status r =? 403 then logout_forbidden
           else if status r =? 401 then logout_unauthorized
           else logout_unavailable))
    (fun _ => give logout_unavailable).

Inductive SessionAction : Type := clear_session | preserve_session | session_ok.

Definition session_action_for_status (st : Z) : SessionAction :=
  if st =? 401 then clear_session else if st =? 403 then preserve_session else session_ok.

(** ** fetch.server.ts, search.server.ts *)

Context (search_response_parse : jsval -> outcome (list jsval * Z * Z * Z))
        (record_schema : jsval -> outcome fields) (fk_identity_parse : jsval -> outcome unit)
        (class_field_meta : jstr -> option ClassFieldMeta).

(** A failure of the domain as a response; other statuses become 502. *)
Definition domain_failure (st : Z) (text : jstr) : thrown :=
  ThrownResponse (response (if (400 <=? st) && (st <? 600) then st else 502) text).

Definition fetch_record (access_token class_name locator : jstr) : L fields :=
  let+ encoded := from_outcome (or_uri_error (encodeURIComponent locator)) in
  let+ r := api_fetch_with_token access_token (u "/api/v2/" ++ class_name ++ u "/" ++ encoded) (u "GET") [] None in
  if negb (ok r) then raise (domain_failure (status r) (u "Fetch failed with status " ++ num_to_string (status r)))
  else
    let+ payload := in_json r in
    match class_field_meta class_name with
    | None => raise (OtherError (Error_ (u "Unknown class for v2 fetch: " ++ class_name)))
    | Some _ => from_outcome (enriched record_schema fk_identity_parse class_field_meta class_name payload)
    end.

Definition search_error_detail (r : Response) : jstr :=
  let fallback := u "Search failed with status " ++ num_to_string (status r) in
  match body_json r with
  | None => fallback
  | Some body =>
      match vget body (u "detail") with
      | VStr detail => if bool_decide (detail = []) then fallback else detail
      | VArr detail => match error_parts detail with [] => fallback | parts => join (u "; ") parts end
      | _ => fallback
      end
  end.

Definition search_collection (access_token class_name : jstr) (body : SearchCollectionBody) : L SearchResponse :=
  let+ r := api_fetch_with_token access_token (u "/api/v2/" ++ class_name ++ u "/search") (u "POST")
    [(u "content-type", u "application/json")] (json_stringify (VObj (search_payload body))) in
  if negb (ok r) then
    let detail := search_error_detail r in
    if (status r =? 400) || (status r =? 422) then raise (SearchApiError (status r) detail)
    else raise (domain_failure (status r) detail)
  else
    let+ payload := in_json r in
    let+ parsed := from_outcome (search_response_parse payload) in
    let '(items, total, limit, offset) := parsed in
    match class_field_meta class_name with
    | None => raise (OtherError (Error_ (u "Unknown class for v2 search: " ++ class_name)))
    | Some _ =>
        let+ items := from_outcome (traverse (enriched record_schema fk_identity_parse class_field_meta class_name) items) in
        give {| found_items := items; found_total := total; found_limit := limit; found_offset := offset |}
    end.

(** ** The loaders *)

(** The [catch] that the loaders share. *)
Definition session_errors {A} (request : DocRequest) (t : thrown) : L A :=
  match t with
  | ApiUnauthorizedError => throw_response (redirect_unauthorized request)
  | ApiForbiddenError => raise (ThrownResponse forbidden_response)
  | _ => raise t
  end.

(** [load_default_nav()]; the cached view or the YAML document's. *)
Context (default_nav : outcome (list NavSectionView)).

Record AuthenticatedData : Type := {
  ad_me : UserProfile;
  ad_nav : list NavSectionView;
  ad_csrf_token : jstr;
}.

(** The loaders of the application; [None] where the page is a bootstrap. *)
Definition authenticated_loader (request : DocRequest) : L (option AuthenticatedData) :=
  let+ access := require_document_access request in
  match access with
  | Bootstrap => give None
  | AccessToken token =>
      catchL
        (let+ me := fetch_me token in
         let+ nav := from_outcome default_nav in
         give (Some {| ad_me := me; ad_nav := filter_nav_by_permissions class_field_meta nav (permissions me);
                       ad_csrf_token := read_csrf_cookie request |}))
        (session_errors request)
  end.

(** What the layout of the application shows: the page that renews the session,
    or the shell around the page, which gets the profile and the navigation. *)
Inductive LayoutView : Type :=
| RefreshBootstrapView
| ShellView (display_name username csrf_token : jstr) (nav : list NavSectionView).

Definition AuthenticatedLayout (loader_data : option AuthenticatedData) : LayoutView :=
  match loader_data with
  | None => RefreshBootstrapView
  | Some d => ShellView (display_name (ad_me d)) (username (ad_me d)) (ad_csrf_token d) (ad_nav d)
  end.

Definition home_loader (request : DocRequest) : L unit :=
  let+ access := require_document_access request in
  match access with
  | Bootstrap => give tt
  | AccessToken token =>
      catchL
        (let+ me := fetch_me token in
         let+ nav := from_outcome default_nav in
         match default_landing_path class_field_meta nav (permissions me) with
         | Some landing => raise (ThrownResponse (redirect landing []))
         | None => give tt
         end)
        (session_errors request)
  end.

(** [next] is the query's. *)
Definition login_loader (request : DocRequest) (next_param : option jstr) : L jstr :=
  let next := safe_next_path next_param (u "/") in
  let+ session := get_access_session request in
  match session with
  | Some (_, required) => raise (ThrownResponse (redirect (if (required : bool) then u "/expired-password" else next) []))
  | None => give next
  end.

Record ListPageData : Type := {
  lp_section_display_name : jstr;
  lp_option_display_name : jstr;
  lp_class_name : jstr;
  lp_class_display_name : jstr;
  lp_path : jstr;
  lp_columns : list ListColumn;
  lp_attributes : list AttributeFieldMeta;
  lp_baseline_predicate : option SearchPredicate;
  lp_result : SearchResponse;
  lp_effective_predicate : option SearchPredicate;
}.

(** A predicate as the object that is sent. *)
Context (predicate_value : SearchPredicate -> jsval).

Definition option_predicate (o : NavOptionView) : option SearchPredicate :=
  match o with ListOption _ p => p | NewOption _ => None end.

Definition run_list_search (request : DocRequest) (class_name list_id : jstr) (predicate : option SearchPredicate)
    (sort : option (list ListSortSpec)) (limit offset : Z) : L (option ListPageData) :=
  let+ nav := from_outcome default_nav in
  match find_list_option class_field_meta nav class_name list_id with
  | None => raise not_found
  | Some m =>
      let+ access := require_document_access request in
      match access with
      | Bootstrap => give None
      | AccessToken token =>
          match class_field_meta (section_class_name (match_section m)) with
          | None => raise not_found
          | Some meta =>
              let+ columns := from_outcome (list_display_columns meta) in
              catchL
                (let+ result := search_collection token class_name
                   {| body_predicate := match predicate with Some p => predicate_value p | None => VNull end;
                      body_attributes := column_names columns; body_sort := sort;
                      body_limit := Some limit; body_offset := Some offset |} in
                 give (Some {| lp_section_display_name := section_display_name (match_section m);
                               lp_option_display_name := option_display_name (match_option m);
                               lp_class_name := section_class_name (match_section m);
                               lp_class_display_name := meta_display_name meta;
                               lp_path := match_path m; lp_columns := columns;
                               lp_attributes := meta_attributes meta;
                               lp_baseline_predicate := option_predicate (match_option m);
                               lp_result := result; lp_effective_predicate := predicate |}))
                (session_errors request)
          end
      end
  end.

Definition list_loader (request : DocRequest) (class_name list_id : jstr) : L (option ListPageData) :=
  let+ nav := from_outcome default_nav in
  match find_list_option class_field_meta nav class_name list_id with
  | None => raise not_found
  | Some m =>
      catchL
        (run_list_search request class_name list_id (option_predicate (match_option m)) None
           DEFAULT_PER_PAGE DEFAULT_OFFSET)
        (fun t => match t with
                  | SearchApiError st detail => raise (ThrownResponse (response st detail))
                  | _ => raise t
                  end)
  end.

(** A parsed record with the locator its page is copied from. *)
Record DetailPageData : Type := {
  dp_class_display_name : jstr;
  dp_title_token : jstr;
  dp_copy_path : jstr;
  dp_loader : DetailLoaderData;
}.

Definition detail_loader (request : DocRequest) (class_name locator : jstr) : L (option DetailPageData) :=
  if bool_decide (locator = []) || seqb locator "new" || seqb locator "lists" then raise not_found
  else match class_field_meta class_name with
  | None => raise not_found
  | Some meta =>
      let+ access := require_document_access request in
      match access with
      | Bootstrap => give None
      | AccessToken token =>
          catchL
            (let+ record := fetch_record token class_name locator in
             let+ layout := from_outcome (partition_detail_layout meta) in
             let preferred_locator :=
               match match meta_friendly_id_attr meta with Some f => text_field f record | None => None end with
               | Some v => v
               | None => match fields_get (u "id") record with VStr id => id | _ => locator end
               end in
             let+ copy_path := from_outcome (record_detail_path class_name preferred_locator) in
             give (Some {| dp_class_display_name := meta_display_name meta;
                           dp_title_token := detail_title_token (meta_friendly_id_attr meta) record;
                           dp_copy_path := copy_path;
                           dp_loader := {| dl_class_name := class_name; dl_locator := locator;
                                           dl_record := record; dl_layout := layout |} |}))
            (session_errors request)
      end
  end.

Context (catalog : Catalog).

Definition new_loader (request : DocRequest) (class_name : jstr) : L (option NewLoaderData) :=
  match class_field_meta class_name with
  | None => raise not_found
  | Some meta =>
      let+ access := require_document_access request in
      match access with
      | Bootstrap => give None
      | AccessToken token =>
          catchL
            (let+ me := fetch_me token in
             if negb (can_create_class (permissions me) class_name)
             then raise (ThrownResponse forbidden_response)
             else
               let+ layout := from_outcome (partition_detail_layout meta) in
               let+ now := now_ in
               let+ seed := from_outcome (record_from_create_defaults catalog meta (Some (clock_env now))) in
               give (Some {| nl_class_name := class_name; nl_seed_record := seed; nl_layout := layout |}))
            (session_errors request)
      end
  end.

(** ** The action of logout.tsx *)

(** [form]: the form's [csrf_token] field. *)
Definition submitted_csrf_token (request : DocRequest) (form : form_value) : jstr :=
  let header := or_empty (map_get (u "x-csrf-token") (dr_headers request)) in
  if negb (bool_decide (header = [])) then header
  else match form with FormString t => t | _ => [] end.

Definition logout_action (request : DocRequest) (form : form_value) : L HttpResponse :=
  let denied := response 403 (quoted (u "{'detail':'Forbidden'}")) in
  if bool_decide (map_get (u "sec-fetch-site") (dr_headers request) = Some (u "cross-site")) then give denied
  else
    let+ result := fetch_logout (read_access_cookie request) (map_get (u "origin") (dr_headers request))
      (read_csrf_cookie request) (submitted_csrf_token request form) in
    match result with
    | logout_unavailable => give (response 503 (u "Sign-out is temporarily unavailable"))
    | logout_forbidden => give denied
    | _ =>
        let+ cookies := from_outcome expire_logout_cookies in
        give (redirect (u "/login") cookies)
    end.
(** The loader of logout.tsx: signing out is no page. *)
Definition logout_loader : L HttpResponse := give (response 405 (quoted (u "{'detail':'Method not allowed'}"))).
End Server.

(** The cookie that the web server writes for a token has the attributes of the
    one that the auth service sets, in another order. *)
Lemma committed_cookie token secure age : exists parts parts',
  serialize_cookie ACCESS_COOKIE_NAME token ACCESS_COOKIE_PATH (NInt age) true secure = join "; " parts /\
  access_cookie token secure age = join "; " parts' /\ parts ≡ₚ parts'.
Proof.
  eexists _, _. split; [reflexivity|]. split; [reflexivity|]. cbn [app].
  do 3 constructor. destruct secure; cbn [app Cookies.secure Cookies.http_only Cookies.max_age].
  - change (num_text (NInt age)) with (num_to_string age). solve_Permutation.
  - apply Permutation_swap.
Qed.

(** ** What a loader sends *)

(** The headers of a request. *)
Definition sent_headers (e : event ServerE) : option jsmap :=
  match e with Ev c _ => match c with ServerFetch _ _ h _ => Some h | _ => None end end.

Definition requests (tr : list (event ServerE)) : list jsmap := omap sent_headers tr.

Lemma requests_app t1 t2 : requests (t1 ++ t2) = requests t1 ++ requests t2.
Proof. apply omap_app. Qed.

(** Every request carries the token. *)
Definition sends_as {A : Type} (token : jstr) (p : L A) : Prop :=
  wp p (fun tr _ => Forall (fun h => map_get (u "authorization") h = Some (bearer token)) (requests tr)).

Lemma sends_as_give {A} token (a : A) : sends_as token (give a).
Proof. constructor. Qed.

Lemma sends_as_raise {A : Type} token t : sends_as token (@raise A t).
Proof. constructor. Qed.

Lemma sends_as_outcome {A} token (o : outcome A) : sends_as token (from_outcome o).
Proof. destruct o; constructor. Qed.

Lemma sends_as_throw {A : Type} token o : sends_as token (@throw_response A o).
Proof. destruct o; constructor. Qed.

Lemma sends_as_now token : sends_as token now_.
Proof. intros t. constructor. Qed.

Lemma sends_as_bind {A B} token (p : L A) (f : A -> L B) :
  sends_as token p -> (forall a, sends_as token (f a)) -> sends_as token (bindL p f).
Proof.
  intros Hp Hf. eapply wp_bind_rule; [exact Hp|]. intros tr [a|t] Htr; simpl in Htr.
  - eapply wp_mono; [|exact (Hf a)]. intros tr' r Htr'. rewrite requests_app. by apply Forall_app.
  - simpl. by rewrite app_nil_r.
Qed.

Lemma sends_as_catch {A} token (p : L A) (h : thrown -> L A) :
  sends_as token p -> (forall t, sends_as token (h t)) -> sends_as token (catchL p h).
Proof.
  intros Hp Hh. eapply wp_bind_rule; [exact Hp|]. intros tr [a|t] Htr; simpl in Htr.
  - simpl. by rewrite app_nil_r.
  - eapply wp_mono; [|exact (Hh t)]. intros tr' r Htr'. rewrite requests_app. by apply Forall_app.
Qed.

Lemma sends_as_fetch token url method h body :
  map_get (u "authorization") h = Some (bearer token) -> sends_as token (tryL (ServerFetch url method h body)).
Proof. intros Hh o. destruct o; repeat constructor; exact Hh. Qed.

Create HintDb sends.
#[export] Hint Resolve sends_as_give sends_as_raise sends_as_outcome sends_as_throw sends_as_now : sends.

(** Follows a program whose requests all carry the token. *)
Ltac sends :=
  repeat first
    [ progress intros
    | solve [eauto with sends]
    | apply sends_as_bind
    | apply sends_as_catch
    | progress case_match ].

(** The dependencies of the loaders are passed on. *)
Section Gated.
Context `{Jose}.

Lemma sends_as_in_json token r : sends_as token (in_json r).
Proof. unfold in_json. sends. Qed.

Lemma sends_as_check token r : sends_as token (check_auth_status r).
Proof. unfold check_auth_status. sends. Qed.

#[local] Hint Resolve sends_as_in_json sends_as_check : sends.

Lemma sends_as_fetch_me base parse token : sends_as token (fetch_me base parse token).
Proof. unfold fetch_me. sends. by apply sends_as_fetch. Qed.

Lemma sends_as_api base token path method h body : sends_as token (api_fetch_with_token base token path method h body).
Proof.
  unfold api_fetch_with_token. apply sends_as_bind; [sends|]. intros url.
  apply sends_as_bind; [|sends]. apply sends_as_fetch.
  destruct (map_get (u "accept") _); rewrite ?map_get_set; [by rewrite seqb_refl|].
  destruct (seqb (u "accept") (u "authorization")) eqn:Hn; [by vm_compute in Hn|]. by rewrite seqb_refl.
Qed.

#[local] Hint Resolve sends_as_fetch_me sends_as_api : sends.

Lemma sends_as_fetch_record base rs fk meta token c l : sends_as token (fetch_record base rs fk meta token c l).
Proof. unfold fetch_record, domain_failure. sends. Qed.

Lemma sends_as_search base sp rs fk meta token c b : sends_as token (search_collection base sp rs fk meta token c b).
Proof. unfold search_collection, domain_failure. sends. Qed.

Lemma sends_as_session_errors {A : Type} env request token t : sends_as token (@session_errors env A request t).
Proof. unfold session_errors. sends. Qed.

#[local] Hint Resolve sends_as_fetch_record sends_as_search sends_as_session_errors : sends.

(** The token of a request verified at the time read from the clock, and no
    change of the password is required. *)
Definition admitted (request : DocRequest) (tr : list (event ServerE)) (token : jstr) : Prop :=
  read_access_cookie request = Some token /\
  exists now payload, Ev ServerNow now ∈ tr /\ verify_access_jwt token now = AccessValid payload /\
    password_change_required payload = false.

(** A program that sends nothing before it has admitted the reader, and then
    always as the reader. *)
Definition gated {A : Type} (request : DocRequest) (p : L A) : Prop :=
  wp p (fun tr _ => requests tr <> [] -> exists token, admitted request tr token /\
    Forall (fun h => map_get (u "authorization") h = Some (bearer token)) (requests tr)).

Lemma require_document_access_spec request :
  wp (require_document_access request) (fun tr r => requests tr = [] /\
    match r with Loaded (AccessToken token) => admitted request tr token | _ => True end).
Proof.
  unfold require_document_access, classify_access_cookie, admitted.
  destruct (read_access_cookie request) as [token|] eqn:Hc.
  - simpl. intros [[]|e]; simpl; [|done]. intros now. simpl. unfold classify_access_token.
    destruct (verify_access_jwt token now) as [p|p|] eqn:Hv; simpl.
    + destruct (password_change_required p) eqn:Hp; [done|]. simpl. split; [done|]. split; [done|].
      exists now, p. split; [|done]. right. left.
    + destruct (negb _ && _); [done|]. unfold throw_response. by destruct (redirect_unauthenticated request).
    + unfold throw_response. by destruct (redirect_unauthenticated request).
  - simpl. unfold throw_response. by destruct (redirect_unauthenticated request).
Qed.

Lemma gated_access {A : Type} request (k : Access -> L A) :
  (forall token, sends_as token (k (AccessToken token))) -> gated request (k Bootstrap) ->
  wp (k Bootstrap) (fun tr _ => requests tr = []) ->
  gated request (bindL (require_document_access request) k).
Proof.
  intros Hk Hb Hb0. eapply wp_bind_rule; [apply require_document_access_spec|].
  intros tr [[token|]|t] [Hr Ha].
  - eapply wp_mono; [|exact (Hk token)]. intros tr' r Htr' _. exists token.
    rewrite requests_app, Hr. split; [|exact Htr']. destruct Ha as [Hc (now & p & Hin & Hv)].
    split; [done|]. exists now, p. split; [|done]. apply elem_of_app. by left.
  - eapply wp_mono; [|exact Hb0]. intros tr' r Htr'. simpl in Htr'. by rewrite requests_app, Hr, Htr'.
  - simpl. by rewrite app_nil_r, Hr.
Qed.

Lemma gated_outcome {A B : Type} request (o : outcome A) (k : A -> L B) :
  (forall a, gated request (k a)) -> gated request (bindL (from_outcome o) k).
Proof. intros Hk. destruct o as [a|e]; [apply Hk|]. by intros ?. Qed.

Lemma gated_raise {A : Type} request t : gated request (@raise A t).
Proof. by intros ?. Qed.

Lemma gated_catch {A} request (p : L A) (h : thrown -> L A) :
  gated request p -> (forall t, wp (h t) (fun tr _ => tr = [])) -> gated request (catchL p h).
Proof.
  intros Hp Hh. eapply wp_bind_rule; [exact Hp|]. intros tr [a|t] Htr; simpl in Htr.
  - simpl. by rewrite app_nil_r.
  - eapply wp_mono; [|exact (Hh t)]. intros tr' r ->. by rewrite app_nil_r.
Qed.

End Gated.

#[export] Hint Resolve sends_as_in_json sends_as_check sends_as_fetch_me sends_as_api sends_as_fetch_record
  sends_as_search sends_as_session_errors : sends.
