(* ===== verification/PasswordForms.v ===== *)
(** auth/password_strength.ts and auth/change_password_form.tsx of the frontend,
    with the form of routes/login.tsx: the checks that a form makes before it is
    sent, and the two forms as state machines with the submissions under way.

    The estimator is a parameter, as in [ChangePassword]; the client and the
    auth service each have their own version of it, and the drift factor of the
    policy says how far the two may differ. *)
From Stdlib Require Import QArith Lqa.
From S2P Require Import Prelude JsString JsValue JsText JsArray RedisRateLimit Settings Effects Login ChangePassword RefreshFetch.
#[local] Open Scope Z_scope.

(** ** password_strength.ts *)

Definition STRENGTH_WEAK_MAX : num := NFrac 1 2.
Definition STRENGTH_MODERATE_MAX : num := NInt 1.
Definition STRENGTH_ACCEPTABLE_MAX : num := NInt 5.
Definition ACCEPTABLE_RATIO_FLOOR : num := NInt 1.

Definition LITERAL_USER_INPUTS : list jstr := [u "Untangled"; u "itsm"].

Inductive StrengthClass : Type := weak | moderate | acceptable | strong.

Definition strength_name (c : StrengthClass) : jstr :=
  match c with weak => u "weak" | moderate => u "moderate" | acceptable => u "acceptable" | strong => u "strong" end.

Record PasswordPolicy : Type := {
  policy_minimum_chars : Z;
  policy_maximum_chars : Z;
  policy_acceptable_crack_time_days : Z;
  policy_guess_per_second : Z;
  policy_estimate_drift_factor : num;
}.

Definition build_user_inputs (username display_name : jstr) : list jstr :=
  let user := trim username in
  (if bool_decide (user = []) then [] else [user]) ++
  List.filter (fun segment => 3 <=? jlen segment) (words display_name) ++ LITERAL_USER_INPUTS.

Definition classify_strength (ratio : num) : StrengthClass :=
  if num_ltb ratio STRENGTH_WEAK_MAX then weak
  else if num_ltb ratio STRENGTH_MODERATE_MAX then moderate
  else if num_ltb ratio STRENGTH_ACCEPTABLE_MAX then acceptable
  else strong.

(** [ACCEPTABLE_RATIO_FLOOR * drift] is [drift]. *)
Definition strength_meets_submit_gate (ratio drift_factor : num) : bool :=
  let drift := if is_finite drift_factor && num_leb (NInt 1) drift_factor then drift_factor else NInt 1 in
  num_leb drift ratio.

Record StrengthResult : Type := {
  strength_ratio : num;
  classification : StrengthClass;
  submit_ok : bool;
}.

(** What the form holds, as the checks see it. *)
Record form_input : Type := {
  input_current : jstr;
  input_new : jstr;
  input_verify : jstr;
}.

Inductive ClientValidationResult : Type :=
| ClientOk
| ClientErrors (errors : list jstr).

Definition mismatch_error : jstr := u "New password and verification do not match.".
Definition same_error : jstr := u "New password must be different from the current password.".

Definition length_error (policy : PasswordPolicy) : jstr :=
  u "New password must be between " ++ num_to_string (policy_minimum_chars policy) ++ u " and " ++
  num_to_string (policy_maximum_chars policy) ++ u " characters.".

Definition strength_error (c : StrengthClass) : jstr :=
  u "New password strength is " ++ strength_name c ++ u "; it must be acceptable or strong.".

Section Estimate.
(** [zxcvbn.check(password, user_inputs).guesses] *)
Context (zxcvbn_check : jstr -> list jstr -> num).

Definition crack_time_ratio (password : jstr) (user_inputs : list jstr)
    (guess_per_second acceptable_crack_time_days : Z) : num :=
  if bool_decide (password = []) then NInt 0
  else
    let guesses := zxcvbn_check (slice password 0 ZXCVBN_MAX_PASSWORD_LENGTH) user_inputs in
    let guesses_per_second := Z.max guess_per_second 1 in
    let acceptable_days := Z.max acceptable_crack_time_days 1 in
    num_div (num_div (num_div guesses guesses_per_second) SECONDS_PER_DAY) acceptable_days.

Definition evaluate_new_password_strength (password username display_name : jstr) (policy : PasswordPolicy)
  : StrengthResult :=
  let ratio := crack_time_ratio password (build_user_inputs username display_name)
                 (policy_guess_per_second policy) (policy_acceptable_crack_time_days policy) in
  {| strength_ratio := ratio; classification := classify_strength ratio;
     submit_ok := strength_meets_submit_gate ratio (policy_estimate_drift_factor policy) |}.

(** The entries of [l] whose condition holds. *)
Definition when (l : list (bool * jstr)) : list jstr := map snd (List.filter fst l).

Definition validate_change_password_form (input : form_input) (username display_name : jstr) (policy : PasswordPolicy)
  : ClientValidationResult :=
  let missing := when [
    (bool_decide (input_current input = []), u "Current password is required.");
    (bool_decide (input_new input = []), u "New password is required.");
    (bool_decide (input_verify input = []), u "Verify new password is required.")] in
  match missing with
  | _ :: _ => ClientErrors missing
  | [] =>
      let strength := evaluate_new_password_strength (input_new input) username display_name policy in
      let errors := when [
        (negb (seqb (input_new input) (input_verify input)), mismatch_error);
        (seqb (input_new input) (input_current input), same_error);
        ((jlen (input_new input) <? policy_minimum_chars policy) ||
         (policy_maximum_chars policy <? jlen (input_new input)), length_error policy);
        (negb (submit_ok strength), strength_error (classification strength))] in
      match errors with [] => ClientOk | _ => ClientErrors errors end
  end.
End Estimate.

(** ** change_password_form.tsx *)

Definition no_csrf_error : jstr := u "Unable to start password change. Refresh and try again.".

Definition change_failed : jstr := u "Password change failed.".

Inductive after_success : Type := stay | home.

(** A submission under way: what it sent, and the box that its continuation
    has captured. *)
Record change_request : Type := {
  ch_csrf : jstr;
  ch_input : form_input;
  ch_invalidate : bool;
}.

(** The state of the form; [f_left] is where the page was sent, [f_requests]
    the submissions under way. *)
Record change_form : Type := {
  f_csrf : jstr;
  f_pending : bool;
  f_input : form_input;
  f_masks : bool * bool * bool;
  f_invalidate : bool;
  f_client_errors : list jstr;
  f_success : option jstr;
  f_failure : option jstr;
  f_left : option jstr;
  f_requests : list change_request;
}.

Definition no_input : form_input := {| input_current := []; input_new := []; input_verify := [] |}.

(** The form when it is mounted; [action_data]: a result the page was given. *)
Definition form_mount (action_data : option (bool * jstr)) : change_form := {|
  f_csrf := []; f_pending := false; f_input := no_input; f_masks := (true, true, true); f_invalidate := false;
  f_client_errors := [];
  f_success := match action_data with Some (true, detail) => Some detail | _ => None end;
  f_failure := match action_data with Some (false, detail) => Some detail | _ => None end;
  f_left := None; f_requests := [] |}.

Definition set_csrf (csrf : jstr) (s : change_form) : change_form := {|
  f_csrf := csrf; f_pending := f_pending s; f_input := f_input s; f_masks := f_masks s;
  f_invalidate := f_invalidate s; f_client_errors := f_client_errors s; f_success := f_success s;
  f_failure := f_failure s; f_left := f_left s; f_requests := f_requests s |}.

Definition set_input (i : form_input) (s : change_form) : change_form := {|
  f_csrf := f_csrf s; f_pending := f_pending s; f_input := i; f_masks := f_masks s;
  f_invalidate := f_invalidate s; f_client_errors := f_client_errors s; f_success := f_success s;
  f_failure := f_failure s; f_left := f_left s; f_requests := f_requests s |}.

Definition set_masks (m : bool * bool * bool) (s : change_form) : change_form := {|
  f_csrf := f_csrf s; f_pending := f_pending s; f_input := f_input s; f_masks := m;
  f_invalidate := f_invalidate s; f_client_errors := f_client_errors s; f_success := f_success s;
  f_failure := f_failure s; f_left := f_left s; f_requests := f_requests s |}.

Definition set_invalidate (b : bool) (s : change_form) : change_form := {|
  f_csrf := f_csrf s; f_pending := f_pending s; f_input := f_input s; f_masks := f_masks s;
  f_invalidate := b; f_client_errors := f_client_errors s; f_success := f_success s;
  f_failure := f_failure s; f_left := f_left s; f_requests := f_requests s |}.

(** The errors of the client, the success and the failure that are shown. *)
Definition set_messages (errors : list jstr) (success failure : option jstr) (s : change_form) : change_form := {|
  f_csrf := f_csrf s; f_pending := f_pending s; f_input := f_input s; f_masks := f_masks s;
  f_invalidate := f_invalidate s; f_client_errors := errors; f_success := success;
  f_failure := failure; f_left := f_left s; f_requests := f_requests s |}.

Definition set_failure (failure : option jstr) (s : change_form) : change_form :=
  set_messages (f_client_errors s) (f_success s) failure s.

Definition leave (url : jstr) (s : change_form) : change_form := {|
  f_csrf := f_csrf s; f_pending := f_pending s; f_input := f_input s; f_masks := f_masks s;
  f_invalidate := f_invalidate s; f_client_errors := f_client_errors s; f_success := f_success s;
  f_failure := f_failure s; f_left := Some url; f_requests := f_requests s |}.

Definition set_requests (pending : bool) (requests : list change_request) (s : change_form) : change_form := {|
  f_csrf := f_csrf s; f_pending := pending; f_input := f_input s; f_masks := f_masks s;
  f_invalidate := f_invalidate s; f_client_errors := f_client_errors s; f_success := f_success s;
  f_failure := f_failure s; f_left := f_left s; f_requests := requests |}.

(** The token of a CSRF response; [None]: the fetch, the status or the body
    fails. *)
Definition csrf_answer (answer : outcome Response) : option jstr :=
  match answer with
  | Exc _ => None
  | Val response =>
      if negb (ok response) then None
      else match body_json response with
           | None => None
           | Some body => Some match vget body (u "csrf_token") with VStr token => token | _ => [] end
           end
  end.

(** The continuation of the request that the mounted form makes. *)
Definition on_csrf (answer : outcome Response) (s : change_form) : change_form :=
  match csrf_answer answer with
  | Some token => set_csrf token s
  | None => set_failure (Some no_csrf_error) s
  end.

Definition reset_form (s : change_form) : change_form :=
  set_messages [] None None (set_invalidate false (set_masks (true, true, true) (set_input no_input s))).

(** The detail of a busy answer; the text shown otherwise. *)
Definition busy_detail (fallback : jstr) (response : Response) : jstr :=
  match body_json response with
  | Some body => match vget body (u "detail") with VStr ((_ :: _) as detail) => detail | _ => fallback end
  | None => fallback
  end.

Section ChangeForm.
Context (zxcvbn_check : jstr -> list jstr -> num).
(** [change_password_response_schema.parse(payload).detail]; [None]: it throws. *)
Context (change_password_response : jsval -> option jstr).
Context (username display_name : jstr) (policy : PasswordPolicy) (after : after_success).

(** [on_submit] up to its [await]. *)
Definition on_submit (s : change_form) : change_form :=
  match validate_change_password_form zxcvbn_check (f_input s) username display_name policy with
  | ClientErrors errors => set_messages errors None None s
  | ClientOk =>
      if bool_decide (f_csrf s = []) then set_messages [] (f_success s) (Some no_csrf_error) s
      else set_requests true (f_requests s ++ [{| ch_csrf := f_csrf s; ch_input := f_input s;
                                                 ch_invalidate := f_invalidate s |}])
             (set_messages [] (f_success s) None s)
  end.

(** The detail that a response of the service carries. *)
Definition response_detail (response : Response) : option jstr :=
  match body_json response with Some payload => change_password_response payload | None => None end.

(** The rest of [on_submit], without the [finally]. *)
Definition on_change_answer (q : change_request) (answer : outcome Response) (s : change_form) : change_form :=
  match answer with
  | Exc _ => set_failure (Some change_failed) s
  | Val response =>
      if status response =? 401 then leave (u "/login") s
      else if status response =? 403 then
        set_failure (Some (u "Password change was blocked from this origin. Use the exact site address, then refresh.")) s
      else if status response =? 422 then
        set_failure (Some match response_detail response with
                          | Some ((_ :: _) as detail) => detail
                          | _ => change_failed
                          end) s
      else if status response =? 503 then
        set_failure (Some (busy_detail (u "Password change is temporarily busy. Try again in a moment.") response)) s
      else if negb (ok response) then set_failure (Some change_failed) s
      else
        let detail := match response_detail response with Some d => d | None => u "Password change complete." end in
        if ch_invalidate q then leave (u "/login") s
        else match after with
             | home => leave (u "/") s
             | stay =>
                 let s := set_masks (true, true, true) (set_input no_input s) in
                 set_messages (f_client_errors s) (Some detail) (f_failure s) s
             end
  end.

(** What happens to the form.  The buttons are disabled while a submission is
    under way, the submit button also without a token. *)
Inductive form_event : Type :=
| CsrfAnswer (answer : outcome Response)
| TypeCurrent (v : jstr)
| TypeNew (v : jstr)
| TypeVerify (v : jstr)
| ToggleMasks (f : bool * bool * bool -> bool * bool * bool)
| CheckInvalidate (b : bool)
| SubmitForm
| ResetForm
| ChangeAnswer (i : nat) (answer : outcome Response).

Definition form_step (e : form_event) (s : change_form) : change_form :=
  let i := f_input s in
  match e with
  | CsrfAnswer answer => on_csrf answer s
  | TypeCurrent v => set_input {| input_current := v; input_new := input_new i; input_verify := input_verify i |} s
  | TypeNew v => set_input {| input_current := input_current i; input_new := v; input_verify := input_verify i |} s
  | TypeVerify v => set_input {| input_current := input_current i; input_new := input_new i; input_verify := v |} s
  | ToggleMasks f => set_masks (f (f_masks s)) s
  | CheckInvalidate b => set_invalidate b s
  | SubmitForm => if f_pending s || bool_decide (f_csrf s = []) then s else on_submit s
  | ResetForm => if f_pending s then s else reset_form s
  | ChangeAnswer n answer =>
      match f_requests s !! n with
      | None => s
      | Some q => set_requests false (delete n (f_requests s)) (on_change_answer q answer s)
      end
  end.

Definition form_run (events : list form_event) (s : change_form) : change_form :=
  fold_left (fun s e => form_step e s) events s.
End ChangeForm.

(** What a submission sends. *)
Definition change_password_init (q : change_request) : RequestInit := {|
  init_method := Some (u "POST"); credentials := Some (u "include");
  headers := [(u "content-type", u "application/json"); (u "accept", u "application/json");
              (u "x-csrf-token", ch_csrf q)];
  body := json_stringify (VObj [
    (u "csrf_token", VStr (ch_csrf q)); (u "current_password", VStr (input_current (ch_input q)));
    (u "new_password", VStr (input_new (ch_input q))); (u "verify_new_password", VStr (input_verify (ch_input q)));
    (u "invalidate_user_sessions", VBool (ch_invalidate q))]) |}.

Definition send_change (url_pathname : jstr -> option jstr) (q : change_request) : B (option Response) :=
  authenticated_fetch url_pathname (InString (u "/api/v2/auth/change-password")) (change_password_init q).

(** ** The form of login.tsx *)

Definition no_sign_in : jstr := u "Unable to start sign-in. Refresh and try again.".

Definition sign_in_failed : jstr := u "Sign-in failed. Try again.".

(** A submission: the fields of its body, in order, and its CSRF header. *)
Record login_request : Type := {
  lr_fields : list (jstr * jstr);
  lr_csrf_header : jstr;
}.

Record login_form : Type := {
  l_csrf : jstr;
  l_error : option jstr;
  l_pending : bool;
  l_left : option jstr;
  l_requests : list login_request;
}.

Definition login_mount : login_form :=
  {| l_csrf := []; l_error := None; l_pending := false; l_left := None; l_requests := [] |}.

Definition set_login_error (e : option jstr) (s : login_form) : login_form :=
  {| l_csrf := l_csrf s; l_error := e; l_pending := l_pending s; l_left := l_left s; l_requests := l_requests s |}.

Definition set_login_requests (pending : bool) (requests : list login_request) (s : login_form) : login_form :=
  {| l_csrf := l_csrf s; l_error := l_error s; l_pending := pending; l_left := l_left s; l_requests := requests |}.

Section LoginForm.
(** [next] of the loader. *)
Context (next : jstr).

Definition on_login_csrf (answer : outcome Response) (s : login_form) : login_form :=
  match csrf_answer answer with
  | Some token => {| l_csrf := token; l_error := l_error s; l_pending := l_pending s; l_left := l_left s;
                     l_requests := l_requests s |}
  | None => set_login_error (Some no_sign_in) s
  end.

(** [on_submit] with the fields of the form, up to its [await]. *)
Definition on_login_submit (username password : jstr) (s : login_form) : login_form :=
  if bool_decide (username = []) || bool_decide (password = []) then
    set_login_error (Some (u "Username and password are required.")) s
  else if bool_decide (l_csrf s = []) then set_login_error (Some no_sign_in) s
  else set_login_requests true
         (l_requests s ++ [{| lr_fields := [(u "username", username); (u "password", password); (u "next", next);
                                            (u "csrf_token", l_csrf s)];
                              lr_csrf_header := l_csrf s |}])
         (set_login_error None s).

(** The rest of [on_submit], without the [finally]. *)
Definition on_login_answer (answer : outcome Response) (s : login_form) : login_form :=
  match answer with
  | Exc _ => set_login_error (Some sign_in_failed) s
  | Val response =>
      if status response =? 401 then set_login_error (Some (u "Access denied.")) s
      else if status response =? 403 then
        set_login_error (Some (u "Sign-in was blocked from this origin. Use the exact site address (localhost and 127.0.0.1 are different), then refresh.")) s
      else if status response =? 503 then
        set_login_error (Some (busy_detail (u "Sign-in is temporarily busy. Try again in a moment.") response)) s
      else if negb (ok response) then set_login_error (Some sign_in_failed) s
      else {| l_csrf := l_csrf s; l_error := l_error s; l_pending := l_pending s; l_left := Some next;
              l_requests := l_requests s |}
  end.

Inductive login_event : Type :=
| LoginCsrf (answer : outcome Response)
| LoginSubmit (username password : jstr)
| LoginAnswer (i : nat) (answer : outcome Response).

Definition login_step (e : login_event) (s : login_form) : login_form :=
  match e with
  | LoginCsrf answer => on_login_csrf answer s
  | LoginSubmit username password =>
      if l_pending s || bool_decide (l_csrf s = []) then s else on_login_submit username password s
  | LoginAnswer n answer =>
      match l_requests s !! n with
      | None => s
      | Some _ => set_login_requests false (delete n (l_requests s)) (on_login_answer answer s)
      end
  end.

Definition login_run (events : list login_event) (s : login_form) : login_form :=
  fold_left (fun s e => login_step e s) events s.
End LoginForm.

(** ** Numbers as rationals *)

(** The value of a finite number. *)
Definition num_q (n : num) : option Q :=
  match n with NInt z => Some (z # 1) | NFrac a d => Some (a # d) | _ => None end.

Lemma num_leb_q a b x y : num_q a = Some x -> num_q b = Some y -> num_leb a b = true <-> (x <= y)%Q.
Proof.
  destruct a as [z|n d|?|], b as [z'|n' d'|?|]; simpl; try done; intros [= <-] [= <-];
    unfold Qle; simpl; rewrite negb_true_iff, Z.ltb_ge; lia.
Qed.

Lemma num_of_fraction_q n d : exists x, num_q (num_of_fraction n d) = Some x /\ (x == n # d)%Q.
Proof.
  unfold num_of_fraction. destruct (n mod Z.pos d =? 0) eqn:Hm; simpl; eexists; (split; [done|]); [|done].
  apply Z.eqb_eq in Hm. unfold Qeq. simpl. pose proof (Z.div_mod n (Z.pos d)). lia.
Qed.

Lemma num_div_q a z x : num_q a = Some x -> 0 < z ->
  exists y, num_q (num_div a z) = Some y /\ (y * inject_Z z == x)%Q.
Proof.
  intros Ha Hz. destruct z as [|p|p]; try lia.
  destruct a as [m|n d|?|]; simpl in *; try done; injection Ha as <-.
  - destruct (num_of_fraction_q m p) as (y & Hy & Heq). exists y. split; [done|]. rewrite Heq.
    unfold Qeq, inject_Z. simpl. lia.
  - destruct (num_of_fraction_q n (d * p)) as (y & Hy & Heq). exists y. split; [done|]. rewrite Heq.
    unfold Qeq, inject_Z. simpl. lia.
Qed.

(** ** The client's checks and the server's rules *)

Lemma build_user_inputs_server username display_name :
  build_user_inputs username display_name = ChangePassword.build_user_inputs username display_name.
Proof.
  unfold build_user_inputs, ChangePassword.build_user_inputs, seqb.
  by repeat case_bool_decide.
Qed.

Lemma crack_time_ratio_server check password inputs gps days :
  crack_time_ratio check password inputs gps days =
  @ChangePassword.crack_time_ratio check password inputs gps days.
Proof.
  unfold crack_time_ratio, ChangePassword.crack_time_ratio, seqb. by repeat case_bool_decide.
Qed.

Lemma crack_time_ratio_q check password inputs gps days g : password <> [] ->
  num_q (check (slice password 0 ZXCVBN_MAX_PASSWORD_LENGTH) inputs) = Some g ->
  exists r, num_q (crack_time_ratio check password inputs gps days) = Some r /\
    (r * inject_Z (Z.max days 1) * inject_Z SECONDS_PER_DAY * inject_Z (Z.max gps 1) == g)%Q.
Proof.
  intros Hpw Hg. unfold crack_time_ratio. rewrite bool_decide_false by done.
  destruct (num_div_q _ (Z.max gps 1) g Hg) as (x & Hx & Ex); [lia|].
  destruct (num_div_q _ SECONDS_PER_DAY x Hx) as (y & Hy & Ey); [done|].
  destruct (num_div_q _ (Z.max days 1) y Hy) as (r & Hr & Er); [lia|].
  exists r. split; [exact Hr|]. by rewrite Er, Ey, Ex.
Qed.

Lemma classify_strength_ok ratio r : num_q ratio = Some r ->
  (classify_strength ratio = acceptable \/ classify_strength ratio = strong) <-> (1 <= r)%Q.
Proof.
  intros Hr. pose proof (num_leb_q (NInt 1) ratio 1 r eq_refl Hr) as H1. rewrite <- H1.
  unfold classify_strength, STRENGTH_WEAK_MAX, STRENGTH_MODERATE_MAX.
  destruct ratio as [z|n d|?|]; [| |discriminate Hr|discriminate Hr]; simpl; rewrite !negb_true_iff, ?Z.mul_1_l, ?Z.ltb_ge.
  - destruct (z * 2 <? 1) eqn:Ha; destruct (z <? 1) eqn:Hb; destruct (z <? 5);
      rewrite ?Z.ltb_lt, ?Z.ltb_ge in *; split; try (intros [?|?]); intros; try done; try lia; eauto.
  - destruct (n * 2 <? Z.pos d) eqn:Ha; destruct (n <? Z.pos d) eqn:Hb; destruct (n <? 5 * Z.pos d) eqn:Hc;
      rewrite ?Z.ltb_lt, ?Z.ltb_ge in *; split; try (intros [?|?]); intros; try done; try lia; auto.
Qed.

Lemma when_nil l : when l = [] <-> Forall (fun c => c.1 = false) l.
Proof.
  unfold when. induction l as [|[b e] l IH]; simpl; [done|].
  rewrite Forall_cons. destruct b; simpl; [split; [done|by intros []]|]. rewrite IH. intuition.
Qed.

(** The form is accepted exactly when every rule holds. *)
Lemma validate_spec check i username display_name policy :
  validate_change_password_form check i username display_name policy = ClientOk <->
  input_current i <> [] /\ input_new i <> [] /\ input_verify i = input_new i /\ input_new i <> input_current i /\
  policy_minimum_chars policy <= jlen (input_new i) <= policy_maximum_chars policy /\
  submit_ok (evaluate_new_password_strength check (input_new i) username display_name policy) = true.
Proof.
  unfold validate_change_password_form.
  set (strength := evaluate_new_password_strength _ _ _ _ _). clearbody strength.
  split.
  - destruct (when [_; _; _]) as [|? ?] eqn:Hm; [|done]. destruct (when _) as [|? ?] eqn:He in |- *; [|done].
    intros _. apply when_nil in Hm, He. repeat rewrite Forall_cons in Hm. repeat rewrite Forall_cons in He.
    simpl in *.
    destruct Hm as (H1 & H2 & H3 & _). destruct He as (H4 & H5 & H6 & H7 & _).
    apply bool_decide_eq_false in H1, H2, H3. apply negb_false_iff, seqb_eq in H4.
    apply seqb_neq in H5. apply orb_false_iff in H6. apply negb_false_iff in H7.
    split_and!; try done; lia.
  - intros (H1 & H2 & H3 & H4 & H5 & H6). rewrite H3.
    rewrite (proj2 (when_nil [_; _; _])), (proj2 (when_nil _)); [done| |].
    + repeat rewrite Forall_cons. simpl. rewrite seqb_refl, H6, (proj2 (seqb_neq _ _) H4).
      split_and!; try done. apply orb_false_iff. lia.
    + repeat rewrite Forall_cons. simpl. rewrite !bool_decide_false by congruence. done.
Qed.

Section Server.
Context `{ZX : Zxcvbn} (check : jstr -> list jstr -> num).

(** The estimates of the two services: finite, and the client's at most
    [drift] times the server's. *)
Definition estimates_within (drift : Q) : Prop := forall password inputs, exists c s,
  num_q (check password inputs) = Some c /\ num_q (zxcvbn_guesses password inputs) = Some s /\ (c <= drift * s)%Q.

Lemma submit_gate_sound password username display_name policy drift :
  num_q (policy_estimate_drift_factor policy) = Some drift -> (1 <= drift)%Q -> estimates_within drift ->
  password <> [] ->
  submit_ok (evaluate_new_password_strength check password username display_name policy) = true ->
  password_strength_ok password username display_name (policy_guess_per_second policy)
    (policy_acceptable_crack_time_days policy) = true.
Proof.
  intros Hd Hd1 Hest Hpw Hok.
  unfold evaluate_new_password_strength in Hok. cbn [submit_ok] in Hok.
  unfold password_strength_ok, classify_ok. rewrite <- build_user_inputs_server.
  set (inputs := build_user_inputs username display_name) in *.
  destruct (Hest (slice password 0 ZXCVBN_MAX_PASSWORD_LENGTH) inputs) as (c & s & Hc & Hs & Hle).
  destruct (crack_time_ratio_q check password inputs (policy_guess_per_second policy)
              (policy_acceptable_crack_time_days policy) c Hpw Hc) as (rc & Hrc & Ec).
  destruct (crack_time_ratio_q zxcvbn_guesses password inputs (policy_guess_per_second policy)
              (policy_acceptable_crack_time_days policy) s Hpw Hs) as (rs & Hrs & Es).
  rewrite <- crack_time_ratio_server.
  apply (num_leb_q (NInt 1) _ 1 rs eq_refl Hrs).
  assert (Hdr : (drift <= rc)%Q).
  { unfold strength_meets_submit_gate in Hok.
    assert (Hf : is_finite (policy_estimate_drift_factor policy) = true)
      by by destruct (policy_estimate_drift_factor policy).
    rewrite Hf, (proj2 (num_leb_q (NInt 1) _ 1 drift eq_refl Hd) Hd1) in Hok. simpl in Hok.
    by apply (num_leb_q _ _ drift rc Hd Hrc). }
  set (k1 := inject_Z (Z.max _ 1)) in *. set (k3 := inject_Z (Z.max (policy_guess_per_second policy) 1)) in *.
  set (k2 := inject_Z SECONDS_PER_DAY) in *.
  assert (H1 : (0 < k1)%Q) by (unfold k1, inject_Z, Qlt; simpl; lia).
  assert (H3 : (0 < k3)%Q) by (unfold k3, inject_Z, Qlt; simpl; lia).
  assert (H2 : (0 < k2)%Q) by done.
  clearbody k1 k2 k3. set (k := (k1 * k2 * k3)%Q).
  assert (Hk : (0 < k)%Q) by (unfold k; repeat apply Qmult_lt_0_compat; done).
  assert (Ec' : (rc * k == c)%Q) by (unfold k; rewrite <- Ec; ring).
  assert (Es' : (rs * k == s)%Q) by (unfold k; rewrite <- Es; ring).
  clearbody k. rewrite <- Ec', <- Es' in Hle.
  apply (Qmult_le_r _ _ (drift * k)); [apply Qmult_lt_0_compat; [lra|done]|].
  apply Qle_trans with (rc * k)%Q; [|].
  - rewrite Qmult_1_l. apply Qmult_le_compat_r; [done|lra].
  - assert (E : (rs * (drift * k) == drift * (rs * k))%Q) by ring. by rewrite E.
Qed.

End Server.

(** ** The forms' submissions *)

Section ChangeFormProofs.
Context (zxcvbn_check : jstr -> list jstr -> num) (change_password_response : jsval -> option jstr).
Context (username display_name : jstr) (policy : PasswordPolicy) (after : after_success).
Notation step := (form_step zxcvbn_check change_password_response username display_name policy after).
Notation run := (form_run zxcvbn_check change_password_response username display_name policy after).

(** A submission under way was checked and has a token. *)
Definition sound_request (q : change_request) : Prop :=
  ch_csrf q <> [] /\ validate_change_password_form zxcvbn_check (ch_input q) username display_name policy = ClientOk.

Definition form_ok (s : change_form) : Prop :=
  (length (f_requests s) <= 1)%nat /\ (f_pending s = false -> f_requests s = []) /\
  Forall sound_request (f_requests s).

(** What the handlers of an answer leave alone. *)
Lemma on_change_answer_requests q answer s :
  f_requests (on_change_answer change_password_response after q answer s) = f_requests s.
Proof. unfold on_change_answer. repeat case_match; done. Qed.

Lemma on_csrf_requests answer s :
  f_requests (on_csrf answer s) = f_requests s /\ f_pending (on_csrf answer s) = f_pending s.
Proof. unfold on_csrf. by destruct (csrf_answer answer). Qed.

Lemma delete_single {A} (l : list A) n x : (length l <= 1)%nat -> l !! n = Some x -> delete n l = [].
Proof. destruct l as [|y [|z l]]; simpl; [done| |lia]. by destruct n. Qed.

Lemma form_ok_submit s : form_ok s -> f_pending s = false -> f_csrf s <> [] ->
  form_ok (on_submit zxcvbn_check username display_name policy s).
Proof.
  intros (Hl & Hp & Hf) Hpe Hcs. unfold on_submit.
  destruct (validate_change_password_form _ _ _ _ _) eqn:Hv; [|by split_and!].
  rewrite bool_decide_false by done. specialize (Hp Hpe). unfold form_ok. simpl. rewrite Hp. simpl.
  split_and!; [lia|done|by constructor].
Qed.

Lemma form_ok_step e s : form_ok s -> form_ok (step e s).
Proof.
  intros Hok. pose proof Hok as (Hl & Hp & Hf).
  destruct e as [answer|v|v|v|f|b| | |n answer]; simpl; try done.
  - destruct (on_csrf_requests answer s) as [Hr Hpe]. unfold form_ok. by rewrite Hr, Hpe.
  - destruct (f_pending s) eqn:Hpe; [done|]. simpl. case_bool_decide; [done|]. by apply form_ok_submit.
  - destruct (f_pending s) eqn:Hpe; [done|]. unfold form_ok. simpl. by rewrite Hpe.
  - destruct (f_requests s !! n) as [q|] eqn:Hq; [|done].
    unfold form_ok. simpl. rewrite (delete_single _ _ _ Hl Hq). split_and!; [simpl; lia|done|constructor].
Qed.

Lemma form_ok_run events s : form_ok s -> form_ok (run events s).
Proof.
  unfold form_run. revert s. induction events as [|e events IH]; intros s Hs; [done|]. by apply IH, form_ok_step.
Qed.

(** A form sends one change at a time, and only one that its checks accept,
    with the token it was given.  However the change ends, by an exception too,
    the form can be used again; after a success it no longer holds a password,
    or the reader was sent to another page. *)
Theorem change_form_safe events action_data n q answer :
  let s := run events (form_mount action_data) in
  let s' := step (ChangeAnswer n answer) s in
  form_ok s /\
  (f_requests s !! n = Some q ->
   f_pending s' = false /\ f_requests s' = [] /\
   ((exists response, answer = Val response /\ ok response = true) ->
    f_input s' = no_input \/ f_left s' <> None)).
Proof.
  intros s s'. assert (Hok : form_ok s) by (apply form_ok_run; split_and!; [simpl; lia|done|constructor]).
  split; [done|]. intros Hq. destruct Hok as (Hl & _ & _). unfold s'. simpl. rewrite Hq. simpl.
  rewrite (delete_single _ _ _ Hl Hq). split_and!; [done|done|].
  intros (response & -> & Hr). unfold on_change_answer.
  assert (Hst : 200 <= status response <= 299) by (unfold ok in Hr; lia).
  rewrite !(proj2 (Z.eqb_neq _ _)) by lia. rewrite Hr. simpl.
  destruct (ch_invalidate q); [by right|]. destruct after; [by left|by right].
Qed.
End ChangeFormProofs.

Section LoginFormProofs.
Context (next : jstr).

Definition login_ok (s : login_form) : Prop :=
  (length (l_requests s) <= 1)%nat /\ (l_pending s = false -> l_requests s = []) /\
  (l_left s <> None -> l_left s = Some next) /\
  Forall (fun q => lr_csrf_header q <> [] /\ exists username password, username <> [] /\ password <> [] /\
    lr_fields q = [(u "username", username); (u "password", password); (u "next", next);
                   (u "csrf_token", lr_csrf_header q)]) (l_requests s).

Lemma login_ok_step e s : login_ok s -> login_ok (login_step next e s).
Proof.
  intros Hok. pose proof Hok as (Hl & Hp & Hn & Hf). destruct e as [answer|username password|n answer]; simpl.
  - unfold on_login_csrf. by destruct (csrf_answer answer).
  - destruct (l_pending s) eqn:Hpe; [done|]. simpl. case_bool_decide as Hc; [done|].
    unfold on_login_submit. destruct (_ || _) eqn:Hu; [done|]. rewrite bool_decide_false by done.
    apply orb_false_iff in Hu as [Hu1%bool_decide_eq_false Hu2%bool_decide_eq_false].
    unfold login_ok. simpl. rewrite (Hp eq_refl). simpl. split_and!; [lia|done|done|].
    constructor; [|done]. split; [done|]. by exists username, password.
  - destruct (l_requests s !! n) as [q|] eqn:Hq; [|done].
    unfold login_ok. simpl. rewrite (delete_single _ _ _ Hl Hq).
    split_and!; [simpl; lia|done| |constructor].
    unfold on_login_answer. repeat case_match; simpl; done.
Qed.

(** The sign-in form sends one submission at a time, with the token that its
    page was given, and leaves only to the page that the loader has checked. *)
Lemma login_ok_run events : login_ok (login_run next events login_mount).
Proof.
  assert (H : forall s, login_ok s -> login_ok (login_run next events s)).
  { unfold login_run. induction events as [|e events IH]; intros s Hs; [done|]. by apply IH, login_ok_step. }
  apply H. split_and!; [simpl; lia|done|done|constructor].
Qed.
End LoginFormProofs.

(** ** A form in use *)

Definition sample_policy : PasswordPolicy := {|
  policy_minimum_chars := 12; policy_maximum_chars := 128; policy_acceptable_crack_time_days := 365;
  policy_guess_per_second := 1000; policy_estimate_drift_factor := NFrac 3 2 |}.

(** The client's estimator is half as generous again as the service's. *)
Definition client_check (password : jstr) (_ : list jstr) : num := NInt (15000000000 * jlen password).

Definition server_zxcvbn : Zxcvbn := fun password _ => NInt (10000000000 * jlen password).

Definition sample_form : form_input :=
  {| input_current := u "old secret"; input_new := u "a much longer one"; input_verify := u "a much longer one" |}.

Example weak_password_refused :
  validate_change_password_form (fun _ _ => NInt 1000)
    {| input_current := u "old"; input_new := u "abc"; input_verify := u "abd" |} (u "ann") (u "Ann Lee") sample_policy =
  ClientErrors [mismatch_error; u "New password must be between 12 and 128 characters.";
                u "New password strength is weak; it must be acceptable or strong."].
Proof. by vm_compute. Qed.

Lemma sample_estimates : @estimates_within server_zxcvbn client_check (3 # 2).
Proof.
  intros password inputs. do 2 eexists. split; [reflexivity|]. split; [reflexivity|].
  unfold Qle. simpl. lia.
Qed.

