(* ===== verification/SignIn.v ===== *)
(** Signing in, end to end: the page of routes/login.tsx gets its CSRF token and
    submits its form to the auth service, the browser keeps the cookies of the
    answers, and the documents that it asks for afterwards meet the gate of the
    web server.  The programs are those of [PasswordForms], [Http] and [Gate],
    connected as in [BrowserService]. *)
From S2P Require Import Prelude JsString JsValue JsText JsUtf8 JsForm JsDate Settings Effects Tokens Base64.
From S2P Require Import Sessions Jwt WebAccess Login Refresh Cookies ChangePassword.
From S2P Require Import Http RefreshFetch BrowserService Gate PasswordForms.

(** What zod documents of the schemas used: an object whose fields are as the
    schema says is parsed, and the fields of the schema keep their values. *)
Definition z_accepts (kind : ZField) (value : jsval) : Prop :=
  match kind, value with
  | ZStringMin n, VStr s => n <= jlen s
  | (ZString | ZBoolOrString), VStr _ => True
  | _, _ => False
  end.

Class ZodStrings `{ZO : Zod} : Prop :=
  zod_strings : forall schema fields,
    Forall (fun f => z_accepts f.2 (fields_get f.1 fields)) schema ->
    exists data, safeParse schema (VObj fields) = Some data /\
      forall name, name ∈ map fst schema -> fields_get name data = fields_get name fields.

Section SignIn.
Context `{CS : CookieStore} `{J : Jose} `{HM : Hmac} `{ZX : Zxcvbn} `{UP : UrlParser} `{PA : UrlPath} `{ZO : Zod}.
Variable page_origin : jstr.
Variable page_location : jstr * jstr.
Variable added_headers : list (jstr * HeaderValue).
Variable peer : option jstr.

#[local] Notation connect := (connect page_origin page_location added_headers peer).
#[local] Notation connected := (connected page_origin added_headers).
#[local] Notation request_of := (request_of page_origin added_headers peer).

(** ** The page *)

(** The submission as it is sent. *)
Definition login_init (q : login_request) : RequestInit := {|
  init_method := Some (u "POST"); credentials := Some (u "include");
  RefreshFetch.headers := [(u "content-type", u "application/x-www-form-urlencoded");
                           (u "accept", u "application/json"); (u "x-csrf-token", lr_csrf_header q)];
  RefreshFetch.body := Some (form_urlencode (lr_fields q)) |}.

(** The page from its effect on mounting to the answer of its submission. *)
Definition sign_in (next username password : jstr) : B login_form :=
  let* csrf := attempt (call (Fetch (InString RefreshFetch.CSRF_PATH) csrf_request)) in
  let s := login_step next (LoginSubmit username password) (login_step next (LoginCsrf csrf) login_mount) in
  match l_requests s with
  | [] => ret s
  | q :: _ =>
      let* answer := attempt (call (Fetch (InString RefreshFetch.LOGIN_PATH) (login_init q))) in
      ret (login_step next (LoginAnswer 0 answer) s)
  end.

(** The request of a document at a path below the root. *)
Definition document_request (jar : Jar) (pathname search : jstr) : DocRequest := {|
  dr_method := u "GET"; dr_pathname := pathname; dr_search := search;
  dr_headers := match cookies_at pathname jar with
                | [] => []
                | cs => [(u "cookie", cookie_header cs)]
                end |}.

(** ** What the outside is relied on for *)

(** As [platform_ok]; jose's tokens are not empty and are [genuine] ones with
    their claims, dates are in the range of a date, and the identifiers of
    accounts are UUIDs. *)
Definition sign_in_platform (genuine : jstr -> JWTPayload -> Prop) (e : event AuthE) : Prop :=
  match e with
  | @Ev _ X c x =>
      match c in AuthE X return X -> Prop with
      | RandomBytes n => fun bs => Forall is_byte bs /\ Z.of_nat (length bs) = n
      | SignJwt claims subject issued exp => fun o => forall token, o = Val token ->
          token <> [] /\ cookie_value_ok token /\ genuine token (signed_payload claims subject issued exp)
      | NewDate => fun t => Z.abs t <= 8640000000000000
      | LoadByUsername _ => fun o => forall user, o = Val (Some user) -> uuid_re (user_id user) = true
      | _ => fun _ => True
      end x
  end.

(** ** The document gate with the cookies of a sign-in *)

Lemma document_cookie jar pathname search token : jar_ok jar ->
  map_get ACCESS_COOKIE_NAME (cookies_at pathname jar) = Some token -> token <> [] ->
  read_access_cookie (document_request jar pathname search) = Some token.
Proof.
  intros Hj Ht Hne. unfold read_access_cookie, dr_cookie, document_request. cbn [dr_headers].
  destruct (cookies_ok pathname jar Hj) as [Hok Hnd].
  assert (Hc : cookies_at pathname jar <> []) by (intros E; by rewrite E in Ht).
  destruct (cookies_at pathname jar) as [|c cs] eqn:E; [done|].
  assert (Hh : map_get (u "cookie") [(u "cookie", cookie_header (c :: cs))] = Some (cookie_header (c :: cs))) by reflexivity.
  rewrite Hh, (proj2 (cookie_roundtrip _ Hc Hok) Hnd), Ht. by destruct token.
Qed.

Lemma document_opened genuine `{JL : !JoseLaws genuine} jar pathname search token uid sid args issued ttl now :
  jar_ok jar -> map_get ACCESS_COOKIE_NAME (cookies_at pathname jar) = Some token -> token <> [] ->
  uuid_re uid = true -> sign_sid args = Some sid -> sid <> [] ->
  genuine token (signed_payload (access_claims args) uid issued (NInt (issued + ttl))) ->
  Z.abs issued <= 8640000000000 -> issued - 60 <= now / 1000 < issued + ttl -> 1 <= ttl ->
  runs (require_document_access (document_request jar pathname search))
    [Ev JwtPublicKey (Val tt); Ev ServerNow now]
    (if bool_decide (sign_password_change_required args = Some true)
     then Thrown (ThrownResponse (Gate.redirect (u "/expired-password") []))
     else Loaded (AccessToken token)).
Proof.
  intros Hj Ht Hne Hu Hs Hsid Hg Hi Hn Hl.
  destruct (signed_token_verifies genuine uid sid args issued (NInt (issued + ttl)) token Hu Hs Hsid Hg) as (_ & Hp & Hv);
    [apply Z.ltb_lt; lia|done|].
  assert (Hc : classify_access_token token now =
    Gate.Valid token (bool_decide (sign_password_change_required args = Some true))).
  { unfold classify_access_token. rewrite verify_agrees, Hv by lia.
    rewrite num_ltb_int, (proj2 (Z.ltb_lt _ _)) by lia. by rewrite Hp. }
  unfold require_document_access, classify_access_cookie. rewrite (document_cookie jar pathname search token) by done.
  cbn -[classify_access_token]. exists (Val tt), [Ev ServerNow now]. split; [done|].
  cbn -[classify_access_token]. exists now, []. split; [done|]. rewrite Hc.
  destruct (bool_decide _); by split.
Qed.

(** ** The submission at the service *)

Lemma ascii_well_formed s : ascii_str s -> well_formed s = true.
Proof.
  induction 1 as [|c s Hc _ IH]; [done|]. cbn [well_formed]. unfold is_high_surrogate, is_low_surrogate.
  rewrite (proj2 (Z.leb_gt 55296 c)), (proj2 (Z.leb_gt 56320 c)), (proj2 (Z.leb_le 0 c)), (proj2 (Z.ltb_lt c 65536)) by lia.
  by rewrite IH.
Qed.

Definition login_fields (next username password token : jstr) : list (jstr * jstr) :=
  [(u "username", username); (u "password", password); (u "next", next); (u "csrf_token", token)].

Lemma form_ascii pairs : Forall (fun kv => well_formed kv.1 = true /\ well_formed kv.2 = true) pairs ->
  ascii_str (form_urlencode pairs).
Proof.
  intros H. unfold form_urlencode. fold pair_text.
  change (map (fun kv => form_text kv.1 ++ u "=" ++ form_text kv.2) pairs) with (map pair_text pairs).
  assert (Hp : forall kv, well_formed kv.1 = true /\ well_formed kv.2 = true -> ascii_str (pair_text kv)).
  { intros kv [H1 H2]. unfold pair_text, ascii_str. rewrite !Forall_app. split_and!.
    - apply Forall_forall. intros c Hc%(form_text_units _ _ H1). lia.
    - by repeat constructor.
    - apply Forall_forall. intros c Hc%(form_text_units _ _ H2). lia. }
  induction H as [|kv pairs Hkv H IH]; [constructor|]. cbn [map]. destruct pairs as [|kv' pairs]; [by apply Hp|].
  cbn [map] in *. rewrite join_cons by done. apply Forall_app. split; [by apply Hp|].
  apply Forall_app. split; [by repeat constructor|done].
Qed.

Lemma login_fields_formed next username password token : well_formed next = true -> well_formed username = true ->
  well_formed password = true -> well_formed token = true ->
  Forall (fun kv => well_formed kv.1 = true /\ well_formed kv.2 = true) (login_fields next username password token).
Proof. intros. by repeat (apply List.Forall_cons; [split; [reflexivity|done]|]). Qed.

(** What the service reads of the submission: the body is too long, or it is the
    form. *)
Lemma login_body_read text req : req_body req = [text] -> req_body_error req = None ->
  read_body req = (if MAX_BODY_BYTES <? Z.of_nat (length text) then Exc (Error_ "body too large")
                   else Val (utf8_decode text)).
Proof.
  intros Hb He. unfold read_body. rewrite Hb, He. cbn [read_chunks]. rewrite Z.add_0_l.
  destruct (_ <? _); [done|]. by rewrite app_nil_r.
Qed.

Definition login_post (jar : Jar) (q : login_request) : Request :=
  request_of jar (InString RefreshFetch.LOGIN_PATH) (login_init q).

Lemma login_post_read config jar q token : connected config -> jar_ok jar ->
  map_get CSRF_COOKIE_NAME (cookies_at Http.LOGIN_PATH jar) = Some token -> lr_csrf_header q = token ->
  let req := login_post jar q in
  parse_cookie_header (header req "cookie") = cookies_at Http.LOGIN_PATH jar /\
  header req "origin" = Some (public_origin config) /\ header req "x-csrf-token" = Some token /\
  header req "content-type" = Some (u "application/x-www-form-urlencoded") /\
  header req "accept" = Some (u "application/json").
Proof.
  intros HC Hj Ht Hq req. destruct (cookies_ok Http.LOGIN_PATH jar Hj) as [Hok Hnd].
  assert (Hne : cookies_at Http.LOGIN_PATH jar <> []) by (intros E; by rewrite E in Ht).
  assert (Hh : req_headers req =
    ([(u "cookie", HOne (cookie_header (cookies_at Http.LOGIN_PATH jar)))] ++
     [(u "origin", HOne page_origin); (u "content-type", HOne (u "application/x-www-form-urlencoded"));
      (u "accept", HOne (u "application/json")); (u "x-csrf-token", HOne token)]) ++ added_headers).
  { unfold req, login_post, BrowserService.request_of. cbn [req_headers request_href].
    change RefreshFetch.LOGIN_PATH with Http.LOGIN_PATH. rewrite <- Hq. destruct (cookies_at _ jar); done. }
  split_and!.
  - unfold header. rewrite Hh. cbn [find app fst]. rewrite seqb_refl. cbn [header_value].
    by apply (cookie_roundtrip _ Hne Hok).
  - unfold header. rewrite Hh. simpl. by rewrite (same_origin _ _ _ HC).
  - unfold header. by rewrite Hh.
  - unfold header. by rewrite Hh.
  - unfold header. by rewrite Hh.
Qed.

(** What the service parses of the fields. *)
Lemma login_data_parsed `{ZS : !ZodStrings} config jar q token next username password : connected config -> jar_ok jar ->
  map_get CSRF_COOKIE_NAME (cookies_at Http.LOGIN_PATH jar) = Some token -> lr_csrf_header q = token ->
  lr_fields q = login_fields next username password token -> token <> [] ->
  Forall (fun kv => well_formed kv.1 = true /\ well_formed kv.2 = true) (lr_fields q) ->
  exists data, parse_login_body (login_post jar q) (form_urlencode (lr_fields q)) = Some data /\
    field "username" data = Some username /\ field "password" data = Some password /\
    Http.submitted_csrf_token (login_post jar q) data = token.
Proof.
  intros HC Hj Ht Hq Hf Htok Hw.
  destruct (login_post_read config jar q token HC Hj Ht Hq) as (_ & _ & Hx & Hct & _).
  destruct (zod_strings login_form_schema
    [(u "username", VStr username); (u "password", VStr password); (u "next", VStr next); (u "csrf_token", VStr token)])
    as (data & Hd & Hg).
  { repeat (apply List.Forall_cons; [|]); try apply List.Forall_nil; try exact I.
    change (1 <= jlen token). destruct token; [done|]. unfold jlen. cbn [length]. lia. }
  exists data. split_and!.
  - unfold parse_login_body, parse_body. rewrite Hct, (form_roundtrip _ Hw), Hf. cbn [or_empty Http.or_empty].
    replace (includes (u "application/json") (u "application/x-www-form-urlencoded")) with false by reflexivity.
    replace (includes (u "application/x-www-form-urlencoded") (u "application/x-www-form-urlencoded")) with true
      by reflexivity.
    replace (object_from_entries (login_fields next username password token)) with
      (VObj [(u "username", VStr username); (u "password", VStr password); (u "next", VStr next);
             (u "csrf_token", VStr token)]) by reflexivity.
    by rewrite Hd.
  - unfold field. by rewrite Hg by set_solver.
  - unfold field. by rewrite Hg by set_solver.
  - unfold Http.submitted_csrf_token. rewrite Hx. by rewrite (proj2 (seqb_neq _ _) Htok).
Qed.

(** A login that the pipeline takes is that of a loaded account. *)
Lemma login_success_user settings dummy ctx :
  wp (run_login_pipeline settings dummy ctx) (fun tr o => forall uid must_change,
    o = Val (LoginSuccess uid must_change) ->
    exists name user, Ev (LoadByUsername name) (Val (Some user)) ∈ tr /\ uid = user_id user).
Proof.
  login_cases. wp_run; try discriminate; match goal with H : Val _ = Val _ |- _ => injection H as <- <- end;
    eexists _, _; (split; [|reflexivity]); rewrite ?elem_of_cons; tauto.
Qed.

(** The session that a reply opens, from the calls [tr] of its issue. *)
Record opened (genuine : jstr -> JWTPayload -> Prop) (config : AuthConfig) (settings : AuthRuntimeSettings)
    (token uid : jstr) (must_change : bool) (tr : trace) (reply : Reply) (access : jstr) (issued : Z) : Prop := {
  opened_now : exists now, Ev NewDate now ∈ tr /\ issued = now / 1000 /\ Z.abs issued <= 8640000000000;
  opened_ttl : 1 <= session_access_ttl_seconds settings;
  opened_claims : exists args sid, sign_sid args = Some sid /\ sid <> [] /\
    sign_password_change_required args = Some must_change /\
    genuine access (signed_payload (access_claims args) uid issued
                      (NInt (issued + session_access_ttl_seconds settings)));
  opened_access : access <> [] /\ cookie_value_ok access;
  opened_reply : exists age refresh, 0 < age /\
    match refresh with Some (t, a) => cookie_value_ok t /\ 0 < a | None => True end /\
    reply = json_reply 200 ([csrf_cookie token (cookie_secure config); access_cookie access (cookie_secure config) age] ++
              match refresh with Some (t, a) => [refresh_cookie t (cookie_secure config) a] | None => [] end)
              [(u "ok", VBool true)] }.

Lemma issue_session_served genuine config req settings data token uid must_change :
  header req "accept" = Some (u "application/json") ->
  wp (collect (issue_session config req settings data token uid must_change) no_reply) (fun tr served =>
    Forall (sign_in_platform genuine) tr ->
    (exists e, served = (Exc e, no_reply)) \/
    served = (Val tt, json_reply 500 [] (Http.detail (u "Internal error"))) \/
    served.1 = Val tt /\ exists access issued,
      opened genuine config settings token uid must_change tr served.2 access issued).
Proof.
  intros Ha. unfold issue_session. rewrite Ha.
  replace (includes (u "application/json") (Http.or_empty (Some (u "application/json")))) with true by reflexivity.
  unfold new_uuid7, mint_refresh_token, sign_access_token, random_token. io_unfold.
  cbn [bind collect respond wp]. intros now rand.
  destruct (_ <? 0); cbn [bind collect respond wp]; [intros _; left; by eexists|].
  assert (Hsid : forall v, Forall is_byte rand /\ Z.of_nat (length rand) = 10 -> uuid7_of v rand <> []).
  { intros v [Hb Hl]. destruct (uuid7_well_formed v rand Hb ltac:(lia)) as [Hu _]. intros E. by rewrite E in Hu. }
  assert (Hnow : Z.abs now <= 8640000000000000 -> Z.abs (now / 1000) <= 8640000000000)
    by (intros; Z.to_euclidean_division_equations; lia).
  destruct must_change; cbn [login_session_times refresh_max_age bind collect respond wp]; [|intros minted];
    (intros [[]|e]; cbn [bind collect respond wp sign_now sign_exp sign_ttl_seconds jwt_ttl_seconds];
      [|intros _; right; left; reflexivity]);
    (destruct (_ <? 1) eqn:Httl; cbn [bind collect respond wp]; [intros _; right; left; reflexivity|]);
    (intros [access|e]; cbn [bind collect respond wp]; [|intros _; right; left; reflexivity]);
    (match goal with |- wp (collect (bind (set_cookies ?cs) _) _) ?Q =>
       change (wp (Ret (E := AuthE) (Val tt, json_reply 200 cs [(u "ok", VBool true)])) Q) end);
    cbn [wp app]; intros Hp; right; right; (split; [reflexivity|]);
    apply Forall_cons in Hp as [Hp1 Hp]; apply Forall_cons in Hp as [Hp2 Hp].
  - apply Forall_cons in Hp as [_ Hp]. apply Forall_cons in Hp as [Hp3 _].
    destruct (Hp3 access eq_refl) as (Hne & Hv & Hg). exists access, (now / 1000). apply Z.ltb_ge in Httl. split.
    + exists now. split_and!; [left|reflexivity|by apply Hnow].
    + done.
    + refine (ex_intro _ _ (ex_intro _ (uuid7_of _ rand) (conj _ (conj (Hsid _ Hp2) (conj _ Hg))))); reflexivity.
    + done.
    + eexists _, None. split; [|split; [exact I|reflexivity]]. cbn [access_max_age]. lia.
  - apply Forall_cons in Hp as [Hp4 Hp]. apply Forall_cons in Hp as [_ Hp]. apply Forall_cons in Hp as [Hp3 _].
    destruct (Hp3 access eq_refl) as (Hne & Hv & Hg). exists access, (now / 1000). apply Z.ltb_ge in Httl. split.
    + exists now. split_and!; [left|reflexivity|by apply Hnow].
    + done.
    + refine (ex_intro _ _ (ex_intro _ (uuid7_of _ rand) (conj _ (conj (Hsid _ Hp2) (conj _ Hg))))); reflexivity.
    + done.
    + eexists _, (Some (_, _)). split; [|split; [|reflexivity]]; cbn [access_max_age]; [lia|].
      split; [by apply url_text_clean, b64_url_text; destruct Hp4|lia].
Qed.

(** What the pipeline is asked. *)
Definition login_context (config : AuthConfig) (req : Request) (username password : jstr) : LoginRequestContext :=
  let identity := identity_of config req in
  {| provided_username := username; login_password := password;
     login_source_ip := source_ip identity; login_protocol := protocol identity;
     login_host := identity_host identity; login_context_path := Http.LOGIN_PATH;
     login_user_agent := header req "user-agent" |}.

(** The submission passes the guard and goes on to the settings and the
    pipeline with what was typed, unless it is too long. *)
Lemma login_guard_passed `{ZS : !ZodStrings} config jar q token next username password : connected config -> jar_ok jar ->
  url_pathname Http.LOGIN_PATH = Some Http.LOGIN_PATH ->
  map_get CSRF_COOKIE_NAME (cookies_at Http.LOGIN_PATH jar) = Some token -> lr_csrf_header q = token ->
  lr_fields q = login_fields next username password token -> token <> [] ->
  Forall (fun kv => well_formed kv.1 = true /\ well_formed kv.2 = true) (lr_fields q) ->
  handle_request config (login_post jar q) = json 413 (Http.detail (u "Forbidden")) \/
  exists data, handle_request config (login_post jar q) =
  (let* settings := attempt (call GetSettings) in
   match settings with
   | Exc _ => json 500 (Http.detail (u "Internal error"))
   | Val settings =>
       let* result := run_login_pipeline (login settings) (dummy_hash config)
                        (login_context config (login_post jar q) username password) in
       match result with
       | LoginCapacity => json 503 (Http.detail LOGIN_HASH_CAPACITY)
       | LoginInternalError => json 500 (Http.detail (u "Internal error"))
       | LoginDenied => json 401 (Http.detail ACCESS_DENIED)
       | LoginSuccess uid must_change =>
           issue_session config (login_post jar q) settings data token uid must_change
       end
   end).
Proof.
  intros HC Hj Hp Ht Hq Hf Htok Hw.
  destruct (login_post_read config jar q token HC Hj Ht Hq) as (Hc & Ho & Hx & Hct & _).
  destruct (login_data_parsed config jar q token next username password HC Hj Ht Hq Hf Htok Hw) as (data & Hd & Hu & Hpw & Hs).
  assert (Hreq : handle_request config (login_post jar q) = handle_login config (login_post jar q)).
  { unfold handle_request. change (req_url (login_post jar q)) with (Some Http.LOGIN_PATH). cbn beta iota. rewrite Hp.
    reflexivity. }
  rewrite Hreq. unfold handle_login.
  assert (Hr : read_body (login_post jar q) =
    (if MAX_BODY_BYTES <? Z.of_nat (length (form_urlencode (lr_fields q))) then Exc (Error_ "body too large")
     else Val (form_urlencode (lr_fields q)))).
  { pose proof (form_ascii _ Hw) as Ha. rewrite (login_body_read (form_urlencode (lr_fields q))); [|by rewrite <- (utf8_bytes_ascii _ Ha)|done].
    rewrite <- (utf8_bytes_ascii _ Ha) at 2. by rewrite utf8_roundtrip by by apply ascii_well_formed. }
  rewrite Hr. destruct (_ <? _); [by left|]. right. exists data.
  rewrite (proj2 (origin_exact_spec _ _)); cbn [negb].
  2: { split; [done|]. rewrite <- (same_origin _ _ _ HC). apply (origin_given _ _ _ HC). }
  rewrite Hd. cbn beta iota. rewrite Hs.
  assert (csrf_cookie_of (login_post jar q) = token) as -> by (unfold csrf_cookie_of; by rewrite Hc, Ht).
  rewrite (proj2 (csrf_ok_spec _ _)) by done. cbn [negb]. rewrite Hu, Hpw. reflexivity.
Qed.

(** The reply to a submission: a refusal that sets no cookie, or the reply that
    opens a session for what the pipeline took. *)
Definition refused (reply : Reply) : Prop :=
  reply_cookies reply = [] /\ RefreshFetch.ok (response_of reply) = false.

Definition accepted (genuine : jstr -> JWTPayload -> Prop) (config : AuthConfig) (username password token : jstr)
    (tr : trace) (reply : Reply) (uid : jstr) (must_change : bool) (settings : AuthRuntimeSettings)
    (access : jstr) (issued : Z) : Prop :=
  exists ctx tr' after, tr = Ev GetSettings (Val settings) :: tr' ++ after /\
    runs (run_login_pipeline (login settings) (dummy_hash config) ctx) tr' (Val (LoginSuccess uid must_change)) /\
    provided_username ctx = username /\ login_password ctx = password /\ uuid_re uid = true /\
    opened genuine config settings token uid must_change after reply access issued.

Lemma refused_json status payload : (200 <=? status) && (status <=? 299) = false -> refused (json_reply status [] payload).
Proof. by split. Qed.

Lemma login_served `{ZS : !ZodStrings} genuine config jar q token next username password :
  connected config -> jar_ok jar -> url_pathname Http.LOGIN_PATH = Some Http.LOGIN_PATH ->
  map_get CSRF_COOKIE_NAME (cookies_at Http.LOGIN_PATH jar) = Some token -> lr_csrf_header q = token ->
  lr_fields q = login_fields next username password token -> token <> [] ->
  Forall (fun kv => well_formed kv.1 = true /\ well_formed kv.2 = true) (lr_fields q) ->
  wp (collect (serve config (login_post jar q)) no_reply) (fun tr served => Forall (sign_in_platform genuine) tr ->
    refused served.2 \/ exists uid must_change settings access issued,
      accepted genuine config username password token tr served.2 uid must_change settings access issued).
Proof.
  intros HC Hj Hp Ht Hq Hf Htok Hw. unfold serve, try_catch. apply wp_collect_bind.
  destruct (login_guard_passed config jar q token next username password HC Hj Hp Ht Hq Hf Htok Hw) as [->|[data ->]].
  { rewrite collect_json. cbn [wp fst snd collect]. intros _. left. by apply refused_json. }
  rewrite collect_settings. cbn [wp]. intros [settings|e].
  2: { rewrite collect_json. cbn [wp fst snd collect]. intros _. left. by apply refused_json. }
  set (ctx := login_context config (login_post jar q) username password).
  assert (Hctx : provided_username ctx = username /\ login_password ctx = password) by done. revert Hctx. generalize ctx.
  clear ctx. intros ctx [Hcu Hcp]. unfold then_. apply wp_collect_bind, wp_collect_quiet.
  { eapply wp_mono; [|apply login_frame]. by intros ? ? (_ & _ & ?). }
  intros tr o Hr. destruct (proj1 (wp_runs _ _) (login_frame _ _ _) _ _ Hr) as [[r ->] _].
  cbn [fst snd]. destruct r as [uid must_change| | | ];
    try (rewrite collect_json; cbn [wp fst snd collect]; intros _; left; by apply refused_json).
  destruct (login_post_read config jar q token HC Hj Ht Hq) as (_ & _ & _ & _ & Ha).
  eapply wp_mono; [|by apply (issue_session_served genuine config _ settings data token uid must_change)].
  intros after served H. destruct served as [so sr]. cbn [fst snd] in *.
  destruct so as [[]|e].
  - cbn [wp collect]. rewrite app_nil_r. intros Hpl. apply Forall_cons in Hpl as [_ Hpl].
    apply Forall_app in Hpl as [Hpl Hpa]. destruct (H Hpa) as [[e [=]]|[[= ->]|(_ & access & issued & Hop)]].
    { left. by apply refused_json. }
    right. exists uid, must_change, settings, access, issued, ctx, tr, after. split_and!; try done.
    destruct (proj1 (wp_runs _ _) (login_success_user _ _ _) _ _ Hr uid must_change eq_refl) as (name & user & Hin & ->).
    exact (proj1 (Forall_forall _ _) Hpl _ Hin user eq_refl).
  - apply wp_runs. intros t b Hruns Hpl. apply Forall_cons in Hpl as [_ Hpl]. apply Forall_app in Hpl as [Hpl _].
    apply Forall_app in Hpl as [_ Hpa]. destruct (H Hpa) as [[e' [= -> ->]]|[[=]|([=] & _)]].
    destruct Hruns as [_ Hb]. left. subst b. by apply (refused_json 500 (Http.detail (u "Internal error"))).
Qed.

(** ** The cookies and the page after the answer *)

Lemma url_text_ascii s : url_text s = true -> ascii_str s.
Proof.
  unfold url_text. rewrite forallb_forall. intros H. apply Forall_forall. intros c Hc%list_elem_of_In. specialize (H c Hc).
  unfold is_upper, is_lower, is_digit in H. rewrite !orb_true_iff, !andb_true_iff, !Z.leb_le, !Z.eqb_eq in H. lia.
Qed.

Lemma csrf_read token r : status r = 200 -> body_json r = Some (VObj [(u "csrf_token", VStr token)]) ->
  csrf_answer (Val r) = Some token.
Proof. intros Hs Hb. unfold csrf_answer, RefreshFetch.ok. by rewrite Hs, Hb. Qed.

(** The state of the page once its token has come and the form is sent. *)
Definition sent_form (token : jstr) (q : login_request) : login_form :=
  {| l_csrf := token; l_error := None; l_pending := true; l_left := None; l_requests := [q] |}.

Lemma form_sent next username password token r : csrf_answer (Val r) = Some token -> token <> [] ->
  username <> [] -> password <> [] ->
  login_step next (LoginSubmit username password) (login_step next (LoginCsrf (Val r)) login_mount) =
  sent_form token {| lr_fields := login_fields next username password token; lr_csrf_header := token |}.
Proof.
  intros Hr Ht Hu Hp. cbn [login_step]. unfold on_login_csrf. rewrite Hr. cbn [login_step l_pending l_csrf login_mount orb].
  rewrite bool_decide_false by done. unfold on_login_submit. rewrite !bool_decide_false by done. reflexivity.
Qed.

Lemma opened_jar genuine config settings token uid must_change tr reply access issued jar :
  connected config -> jar_ok jar -> cookie_value_ok token ->
  opened genuine config settings token uid must_change tr reply access issued ->
  let jar' := fold_left store_cookie (reply_cookies reply) jar in
  jar_ok jar' /\ forall pathname, starts_with (u "/") pathname = true ->
    map_get ACCESS_COOKIE_NAME (cookies_at pathname jar') = Some access.
Proof.
  intros HC Hj Ht [_ _ _ [_ Hv] (age & refresh & Hage & Hr & ->)]. cbn [reply_cookies json_reply app fold_left].
  assert (Hcsrf : cookie_name_ok CSRF_COOKIE_NAME) by (apply names_ok; set_solver).
  assert (Hacc : cookie_name_ok ACCESS_COOKIE_NAME) by (apply names_ok; set_solver).
  assert (Href : cookie_name_ok REFRESH_COOKIE_NAME) by (apply names_ok; set_solver).
  pose proof (store_ok jar CSRF_COOKIE_NAME token _ Hj Hcsrf Ht : jar_ok (store_cookie jar (csrf_cookie token (cookie_secure config)))) as H1.
  pose proof (store_ok _ ACCESS_COOKIE_NAME access _ H1 Hacc Hv : jar_ok (store_cookie _ (access_cookie access (cookie_secure config) age))) as H2.
  assert (Hfound : forall pathname, starts_with (u "/") pathname = true -> map_get ACCESS_COOKIE_NAME (cookies_at pathname
    (store_cookie (store_cookie jar (csrf_cookie token (cookie_secure config))) (access_cookie access (cookie_secure config) age)))
    = Some access).
  { intros pathname Hp. apply store_found; try done. apply (secure_ok _ _ _ HC). }
  destruct refresh as [[t a]|]; cbn [fold_left]; [|by split]. destruct Hr as [Htv _]. split.
  - by apply store_ok.
  - intros pathname Hp. unfold refresh_cookie. rewrite store_others by done. by apply Hfound.
Qed.

Lemma form_answered next q s response : l_requests s = [q] ->
  let s' := login_step next (LoginAnswer 0 (Val response)) s in
  l_requests s' = [] /\ l_pending s' = false /\
  (RefreshFetch.ok response = false -> l_left s' = l_left s) /\
  (status response = 200 -> l_left s' = Some next).
Proof.
  intros Hq. cbn [login_step]. rewrite Hq. cbn [lookup list_lookup]. unfold on_login_answer. split_and!.
  - done.
  - done.
  - intros Hok. rewrite Hok. cbn [negb]. by repeat case_match.
  - intros Hst. unfold RefreshFetch.ok. by rewrite Hst.
Qed.

(** What a sign-in has come to, after the calls [tr]: the page is at rest, and
    it has left only for a login that opens the documents. *)
Definition signed_in (config : AuthConfig) (jar : Jar) (next username password : jstr)
    (tr : trace) (sj : outcome login_form * Jar) : Prop :=
  exists s, sj.1 = Val s /\ l_requests s = [] /\ l_pending s = false /\
  match l_left s with
  | None => forall pathname, map_get ACCESS_COOKIE_NAME (cookies_at pathname sj.2) =
                             map_get ACCESS_COOKIE_NAME (cookies_at pathname jar)
  | Some to => to = next /\ exists settings ctx before tr' after uid must_change access now0,
      tr = before ++ tr' ++ after /\ Ev GetSettings (Val settings) ∈ before /\ Ev NewDate now0 ∈ after /\
      runs (run_login_pipeline (login settings) (dummy_hash config) ctx) tr' (Val (LoginSuccess uid must_change)) /\
      provided_username ctx = username /\ login_password ctx = password /\
      forall pathname search now, starts_with (u "/") pathname = true ->
        now0 / 1000 - 60 <= now / 1000 < now0 / 1000 + session_access_ttl_seconds settings ->
        runs (require_document_access (document_request sj.2 pathname search))
          [Ev JwtPublicKey (Val tt); Ev ServerNow now]
          (if must_change : bool then Thrown (ThrownResponse (Gate.redirect (u "/expired-password") []))
           else Loaded (AccessToken access))
  end.

(** The second request of the page, with the cookies [jar1]. *)
Lemma login_connected `{ZS : !ZodStrings} genuine `{JL : !JoseLaws genuine} config jar1 next username password token q :
  connected config -> jar_ok jar1 -> url_pathname Http.LOGIN_PATH = Some Http.LOGIN_PATH ->
  cookie_value_ok token -> token <> [] -> q = {| lr_fields := login_fields next username password token; lr_csrf_header := token |} ->
  map_get CSRF_COOKIE_NAME (cookies_at Http.LOGIN_PATH jar1) = Some token ->
  Forall (fun kv => well_formed kv.1 = true /\ well_formed kv.2 = true) (lr_fields q) ->
  wp (connect config (let* answer := attempt (call (Fetch (InString RefreshFetch.LOGIN_PATH) (login_init q))) in
                      ret (login_step next (LoginAnswer 0 answer) (sent_form token q))) jar1)
    (fun tr sj => Forall (sign_in_platform genuine) tr -> signed_in config jar1 next username password tr sj).
Proof.
  intros HC Hj1 Hp Hv Htok Hq Hc1 Hw. unfold then_, attempt, call. cbn [bind BrowserService.connect answer].
  apply wp_bind, wp_bind. fold (login_post jar1 q).
  eapply wp_mono; [|apply (login_served genuine config jar1 q token next username password); first [done|by rewrite Hq]].
  intros tr served H. cbn [wp bind BrowserService.connect fst snd ret]. rewrite !app_nil_r. intros Hpl.
  destruct (form_answered next q (sent_form token q) (response_of served.2) eq_refl) as (Hnone & Hpe & Hno & Hyes).
  eexists. split; [reflexivity|]. split; [exact Hnone|]. split; [exact Hpe|].
  destruct (H Hpl) as [[Hck Hok]|(uid & must_change & settings & access & issued & Hacc)].
  - rewrite (Hno Hok). cbn [l_left sent_form snd]. by rewrite Hck.
  - destruct Hacc as (ctx & tr' & after & -> & Hruns & Hcu & Hcp & Huid & Hop).
    destruct (opened_jar genuine config settings token uid must_change after _ access issued jar1 HC Hj1 Hv Hop) as [Hj2 Hfound].
    destruct Hop as [(now0 & Hin & Hiss & Hab) Httl (args & sid & Hsid & Hne & Hmc & Hg) [Hane _] (age & refresh & _ & _ & Hrep)].
    rewrite Hyes by by rewrite Hrep. split; [done|].
    exists settings, ctx, [Ev GetSettings (Val settings)], tr', after, uid, must_change, access, now0.
    split_and!; try done; [apply list_elem_of_here|].
    intros pathname search now Hpath Hnow. subst issued.
    pose proof (document_opened genuine _ pathname search access uid sid args _ _ now Hj2 (Hfound pathname Hpath) Hane Huid
      Hsid Hne Hg Hab Hnow Httl) as Hd.
    rewrite Hmc in Hd. by destruct must_change.
Qed.

(** The first request of the page, with the token of its answer. *)
Lemma csrf_connected config jar : connected config ->
  wp (connect config (attempt (call (Fetch (InString RefreshFetch.CSRF_PATH) csrf_request))) jar) (fun tr oj =>
    exists bs, tr = [Ev (RandomBytes 32) bs] /\
    (Forall is_byte bs -> exists r, oj = (Val (Val r), csrf_jar config (token_of bs) jar) /\
                                    csrf_answer (Val r) = Some (token_of bs))).
Proof.
  intros HC. unfold attempt, call. cbn [bind connect answer].
  rewrite (csrf_served _ _ _ config jar (csrf_url _ _ _ HC)). cbn [bind wp fst snd]. intros bs.
  exists bs. split; [done|]. intros Hb. eexists. split; [reflexivity|].
  destruct (url_text_clean _ (b64_url_text bs Hb)) as [_ Hu].
  apply csrf_read; [reflexivity|]. apply response_of_json; [|reflexivity].
  cbn [json_ok forallb fst snd]. unfold token_of. by rewrite Hu.
Qed.


End SignIn.

(** ** A sign-in to run *)

#[local] Instance z_accepts_dec kind value : Decision (z_accepts kind value).
Proof. destruct kind, value; cbn; apply _. Defined.

(** A parser that takes the objects that the schema describes as they are. *)
Definition sample_zod : Zod := fun schema value =>
  match value with
  | VObj fields => if decide (Forall (fun f => z_accepts f.2 (fields_get f.1 fields)) schema) then Some fields else None
  | _ => None
  end.

Lemma sample_zod_strings : @ZodStrings sample_zod.
Proof. intros schema fields H. exists fields. unfold safeParse, sample_zod. by rewrite decide_True. Qed.

Definition sign_in_args (must_change : bool) : SignAccessTokenArgs := {|
  sign_ttl_seconds := Some (NInt 900); sign_exp := None;
  sign_sid := Some (uuid7_of 1000000 (repeat 7 10));
  sign_password_change_required := Some must_change; sign_now := Some 1000000 |}.

Definition sign_in_payload : JWTPayload :=
  signed_payload (access_claims (sign_in_args false)) (user_id sample_user) 1000 (NInt 1900).

(** The calls of a login that succeeds. *)
Definition sign_in_calls : forall X, AuthE X -> X := fun X c =>
  match c in AuthE X return X -> X with
  | GetSettings => fun _ => Val sample_settings
  | SignJwt _ _ _ _ => fun _ => Val (u "T")
  | x => fun x => x
  end (login_calls X c).

Definition sample_sign_in : prog AuthE (outcome login_form * @Jar map_store_instance) :=
  @connect map_store_instance (table_jose [(u "T", sign_in_payload)]) (fun _ t => t) (fun _ _ => NInt 1) (fun _ => None) Some
    sample_zod (u "https://app.example") (u "/", []) [] None _ sample_config
    (sign_in (u "/home") (u "alice") (u "secret")) [].

Definition sample_genuine (token : jstr) (p : JWTPayload) : Prop :=
  token_table [(u "T", sign_in_payload)] token = Some p.

Lemma seven_bytes n : Forall is_byte (repeat 7 n) /\ Z.of_nat (length (repeat 7 n)) = Z.of_nat n.
Proof. split; [by apply Forall_forall; intros b ->%list_elem_of_In%repeat_spec|by rewrite repeat_length]. Qed.

Lemma sample_sign_in_platform :
  Forall (sign_in_platform sample_genuine) (trace_of (answers sign_in_calls) sample_sign_in tt).
Proof.
  match goal with |- Forall _ ?t => let t' := eval vm_compute in t in replace t with t' by (vm_compute; reflexivity) end.
  repeat apply List.Forall_cons; try exact I; try apply List.Forall_nil; cbn [sign_in_platform].
  - exact (seven_bytes 32).
  - by intros ? [= <-].
  - done.
  - done.
  - done.
  - exact (seven_bytes 10).
  - exact (seven_bytes 32).
  - intros token [= <-]. split_and!; [done|by apply url_text_clean|]. vm_compute. reflexivity.
Qed.

(** The reading of the clock and the settings of a call, where it is one. *)
Definition read_at (e : event AuthE) : bool :=
  match e with
  | @Ev _ X c x =>
      match c in AuthE X return X -> bool with
      | NewDate => fun t => t =? 1000000
      | GetSettings => fun o => match o with Val s => session_access_ttl_seconds s =? 900 | Exc _ => true end
      | _ => fun _ => true
      end x
  end.

