(* ===== verification/Renewal.v ===== *)
(** Renewing a session, end to end: the page of auth/refresh_bootstrap.tsx, that
    a document with an expired token shows, asks the auth service for a renewal
    until it is done ([RefreshFetch]), and then loads the document again or
    leads to the sign-in page.  The programs are connected as in
    [BrowserService], and the documents meet the gate as in [SignIn]. *)
From S2P Require Import Prelude JsString JsValue JsText JsUtf8 JsDate Settings Effects Tokens Base64.
From S2P Require Import Sessions Jwt Login Refresh Cookies ChangePassword Http RefreshFetch BrowserService Gate SignIn.

Section Renewal.
Context `{CS : CookieStore} `{J : Jose} `{HM : Hmac} `{ZX : Zxcvbn} `{UP : UrlParser} `{PA : UrlPath} `{ZO : Zod}.
Variable page_origin : jstr.
Variable page_location : jstr * jstr.
Variable added_headers : list (jstr * HeaderValue).
Variable peer : option jstr.

#[local] Notation connect := (connect page_origin page_location added_headers peer).
#[local] Notation connected := (connected page_origin added_headers).
#[local] Notation refresh_exchanged := (refresh_exchanged page_origin added_headers peer).

Lemma sign_in_platform_ok genuine tr : Forall (sign_in_platform genuine) tr -> Forall platform_ok tr.
Proof.
  intros H. eapply Forall_impl; [exact H|]. intros [X c x]. destruct c; cbn; try done.
  intros Hs token Ht. apply (Hs token Ht).
Qed.

(** A token that may be renewed is that of a user and a session. *)
Lemma renewable_claims token at_ payload sid : verify_access_token_for_refresh token at_ = Val payload ->
  session_id_claim payload = Some sid -> uuid_re (subject payload) = true /\ sid <> [].
Proof.
  unfold verify_access_token_for_refresh, verify_access_jwt. intros Hv Hs.
  assert (Hc : exists n, custom_claims_ok payload n = true) by (repeat case_match; naive_solver). destruct Hc as [n Hc].
  unfold custom_claims_ok in Hc. rewrite !andb_true_iff in Hc. destruct Hc as (((_ & Hsub) & Hsid) & _).
  unfold session_id_claim in Hs. unfold subject. split.
  - by destruct (fields_get "sub" payload).
  - destruct (fields_get SESSION_ID_CLAIM payload); try done. destruct (seqb s []) eqn:E; [done|].
    injection Hs as <-. by apply seqb_neq.
Qed.

(** The token that a renewal gives out. *)
Record renewed (genuine : jstr -> JWTPayload -> Prop) (settings : AuthRuntimeSettings) (old : option jstr) (tr : trace)
    (access : jstr) (issued : Z) : Prop := {
  renewed_now : exists now, Ev NewDate now ∈ tr /\ issued = now / 1000 /\ Z.abs issued <= 8640000000000;
  renewed_ttl : 1 <= session_access_ttl_seconds settings;
  renewed_claims : exists token at_ payload sid args, old = Some token /\
    verify_access_token_for_refresh token at_ = Val payload /\ session_id_claim payload = Some sid /\
    sign_sid args = Some sid /\ sign_password_change_required args = None /\
    genuine access (signed_payload (access_claims args) (subject payload) issued
                      (NInt (issued + session_access_ttl_seconds settings)));
  renewed_access : access <> [] }.

Lemma refresh_renews genuine settings secret ctx :
  wp (run_refresh_pipeline settings secret ctx) (fun tr o => Forall (sign_in_platform genuine) tr ->
    forall nr access ra aa, o = Val (RefreshSuccess nr (Some access) ra aa) ->
    exists issued, renewed genuine settings (access_token ctx) tr access issued).
Proof.
  refresh_cases. wp_run; try discriminate.
  match goal with E : sign_now _ = Some _ |- _ => injection E as -> end.
  match goal with E : sign_ttl_seconds _ = Some _ |- _ => injection E as Ettl end. subst.
  match goal with H : Val _ = Val _ |- _ => injection H as _ <- _ _ end.
  repeat match goal with H : Forall (sign_in_platform _) (_ :: _) |- _ => apply Forall_cons in H as [? H] end.
  cbn [sign_in_platform] in *.
  match goal with Hs : forall token, Val ?t = Val token -> _ |- _ => destruct (Hs t eq_refl) as (Hne & Hv & Hg) end.
  eexists. split; [|by apply Z.ltb_ge| |exact Hne].
  - eexists. split; [do 4 right; left; reflexivity|]. split; [reflexivity|]. Z.to_euclidean_division_equations. lia.
  - eexists _, _, _, _, _. split_and!; [reflexivity|eassumption|eassumption|..|exact Hg]; reflexivity.
Qed.

(** ** The page *)

(** What a renewal comes to.  The page always comes to an end.  When it does not
    succeed, the tokens of the cookies are those it began with; otherwise the
    pipeline has taken exactly these and given out the ones of the cookies
    now, and a new access token opens the documents while it lasts. *)
Definition renewal_outcome (config : AuthConfig) (jar : Jar) (tr : trace)
    (oj : outcome (option RefreshAttemptResult) * Jar) : Prop :=
  exists result, oj.1 = Val (Some result) /\ jar_ok oj.2 /\
  match result with
  | hard_fail => jar_value REFRESH_COOKIE_NAME oj.2 = jar_value REFRESH_COOKIE_NAME jar /\
      forall href, starts_with (u "/") href = true -> access_at href oj.2 = access_at href jar
  | refresh_ok => exists settings ctx before tr' new_refresh access refresh_age access_age,
      tr = before ++ Ev GetSettings (Val settings) :: tr' /\
      runs (run_refresh_pipeline settings (refresh_hmac_secret config) ctx) tr'
        (Val (RefreshSuccess new_refresh access refresh_age access_age)) /\
      access_token ctx = nonempty (jar_value ACCESS_COOKIE_NAME jar) /\
      refresh_token ctx = nonempty (jar_value REFRESH_COOKIE_NAME jar) /\
      jar_value REFRESH_COOKIE_NAME oj.2 = Some new_refresh /\
      match access with
      | None => forall href, starts_with (u "/") href = true -> access_at href oj.2 = access_at href jar
      | Some token => exists now0, Ev NewDate now0 ∈ tr' /\ forall pathname search now,
          starts_with (u "/") pathname = true ->
          now0 / 1000 - 60 <= now / 1000 < now0 / 1000 + session_access_ttl_seconds settings ->
          runs (require_document_access (document_request oj.2 pathname search))
            [Ev JwtPublicKey (Val tt); Ev ServerNow now] (Loaded (AccessToken token))
      end
  end.

(** One success. *)
Lemma renewal_succeeds genuine `{JL : !JoseLaws genuine} config jar jar' before settings ctx tr' nr access ra aa :
  jar_ok jar' -> Forall (sign_in_platform genuine) tr' ->
  runs (run_refresh_pipeline settings (refresh_hmac_secret config) ctx) tr' (Val (RefreshSuccess nr access ra aa)) ->
  access_token ctx = nonempty (jar_value ACCESS_COOKIE_NAME jar) ->
  refresh_token ctx = nonempty (jar_value REFRESH_COOKIE_NAME jar) ->
  jar_value REFRESH_COOKIE_NAME jar' = Some nr ->
  (forall href, starts_with (u "/") href = true ->
     access_at href jar' = match access with Some t => Some t | None => access_at href jar end) ->
  renewal_outcome config jar (before ++ Ev GetSettings (Val settings) :: tr') (Val (Some refresh_ok), jar').
Proof.
  intros Hj Hp Hr Ha Hre Hnr Hacc. exists refresh_ok. split; [done|]. split; [done|].
  exists settings, ctx, before, tr', nr, access, ra, aa. split_and!; try done. destruct access as [token|]; [|done].
  destruct (proj1 (wp_runs _ _) (refresh_renews genuine settings _ ctx) _ _ Hr Hp _ _ _ _ eq_refl)
    as (issued & [(now0 & Hin & -> & Hab) Httl (old & at_ & payload & sid & args & _ & Hv & Hs & Hsid & Hmc & Hg) Hne]).
  exists now0. split; [done|]. intros pathname search now Hpath Hnow.
  destruct (renewable_claims _ _ _ _ Hv Hs) as [Huid Hsn].
  pose proof (document_opened genuine jar' pathname search token (subject payload) sid args (now0 / 1000)
    (session_access_ttl_seconds settings) now Hj (Hacc _ Hpath) Hne Huid Hsid Hsn Hg Hab Hnow Httl) as Hd.
  rewrite Hmc in Hd. exact Hd.
Qed.

(** The jar between two requests: only the CSRF token may be another. *)
Record renewal_jar (jar0 jar : Jar) : Prop := {
  rj_ok : jar_ok jar;
  rj_refresh : jar_value REFRESH_COOKIE_NAME jar = jar_value REFRESH_COOKIE_NAME jar0;
  rj_access : forall href, starts_with (u "/") href = true -> access_at href jar = access_at href jar0 }.

Lemma renewal_fails config jar0 jar tr : renewal_jar jar0 jar ->
  renewal_outcome config jar0 tr (Val (Some hard_fail), jar).
Proof. intros [Hj Hr Ha]. by exists hard_fail. Qed.

Lemma refresh_loop_connected genuine `{JL : !JoseLaws genuine} config jar0 fuel attempts jar : connected config ->
  0 <= attempts < 10 -> 10 <= attempts + Z.of_nat fuel -> renewal_jar jar0 jar ->
  (attempts <> 0 -> script_token jar = jar_value CSRF_COOKIE_NAME jar) ->
  wp (connect config (refresh_loop fuel attempts) jar) (fun tr oj => Forall (sign_in_platform genuine) tr ->
    renewal_outcome config jar0 tr oj).
Proof.
  intros HC. revert attempts jar. induction fuel as [|fuel IH]; intros attempts jar Hat Hfuel HR Hscript; [lia|].
  cbn [refresh_loop]. unfold then_. apply wp_connect_bind. eapply wp_mono; [|apply renewal_post_connected; [done|apply HR|]].
  2: { intros Hforce. apply Hscript. intros ->. discriminate. }
  intros tr1 [o jar1] H. apply wp_runs. intros tr2 oj2 Hr Hp. apply Forall_app in Hp as [Hp1 Hp2].
  destruct (H (sign_in_platform_ok _ _ Hp1)) as (token & drawn & tr' & response & -> & _ & Ho & Hj1 & Hc1 & Hs1 & Hx).
  cbn [fst snd] in *. subst o. apply Forall_app in Hp1 as [_ Hp1].
  assert (Href : starts_with (u "/") Http.REFRESH_PATH = true) by reflexivity.
  destruct Hx as [(e & -> & Hst & Hre & Hac)|(settings & tr'' & ctx & r & -> & Hrun & Hca & Hcr & Hst & Hal & Hto & Hre & Hac)].
  - rewrite Hst in Hr. unfold response_allows_refresh in Hr. rewrite Hst in Hr. destruct Hr as [-> ->].
    apply renewal_fails. split; [done|by rewrite Hre; apply HR|]. intros. rewrite Hac by done. by apply HR.
  - rewrite Hst, Hal in Hr. apply Forall_cons in Hp1 as [_ Hp1].
    assert (Hca' : access_token ctx = nonempty (jar_value ACCESS_COOKIE_NAME jar0)).
    { rewrite Hca. f_equal. exact (rj_access _ _ HR _ Href). }
    assert (Hkept : is_success r = false -> renewal_jar jar0 jar1).
    { intros Hn. split; [done|rewrite Hre; destruct r; try done; apply HR|]. intros href Hh. rewrite Hac by done.
      destruct r; try done; by apply HR. }
    destruct r as [nr access ra aa| | | | ]; cbn [is_success] in Hr;
      try (destruct Hr as [-> ->]; by apply renewal_fails, Hkept).
    + destruct Hr as [-> ->]. rewrite app_nil_r. eapply renewal_succeeds; try done; [by rewrite Hcr, (rj_refresh _ _ HR)|].
      intros href Hh. rewrite Hac by done. destruct access; [done|by apply HR].
    + destruct (attempts + 1 <? told_bound response) eqn:Hb; [|destruct Hr as [-> ->]; by apply renewal_fails, Hkept].
      apply Z.ltb_lt in Hb. rewrite Hto in Hb by done.
      pose proof (retries_for_client_range (VNum (NInt (session_max_refresh_retries settings)))).
      destruct (proj1 (wp_runs _ _) (IH (attempts + 1) jar1 ltac:(lia) ltac:(lia) (Hkept eq_refl) ltac:(congruence)) _ _ Hr Hp2)
        as (result & Hres & Hj2 & Hx). exists result. split; [done|]. split; [done|]. destruct result; [|done].
      destruct Hx as (settings' & ctx' & before & t' & nr & access & ra & aa & -> & Hx).
      exists settings', ctx', ((drawn ++ Ev GetSettings (Val settings) :: tr'') ++ before), t', nr, access, ra, aa.
      split; [by rewrite <- !app_assoc|exact Hx].
Qed.


End Renewal.

(** ** A renewal to run *)

#[local] Existing Instance map_store_instance.

Definition expired_payload : JWTPayload :=
  signed_payload [(u "typ", VStr "access"); (u "sid", VStr "s1")] (user_id sample_user) 10 (NInt 500).

Definition renewed_payload : JWTPayload :=
  signed_payload [(u "typ", VStr "access"); (u "sid", VStr "s1")] (user_id sample_user) 1000 (NInt 1900).

(** The calls of a renewal that succeeds. *)
Definition renewal_calls : forall X, AuthE X -> X := fun X c =>
  match c in AuthE X return X -> X with
  | GetSettings => fun _ => Val sample_settings
  | SessAttemptRotate _ => fun _ => Val (Rotated 605800000 2593000000)
  | SignJwt _ _ _ _ => fun _ => Val (u "N")
  | x => fun x => x
  end (sample_calls X c).

Definition renewal_jose : Jose := table_jose [(u "T", expired_payload); (u "N", renewed_payload)].

Definition renewal_genuine (token : jstr) (p : JWTPayload) : Prop :=
  token_table [(u "T", expired_payload); (u "N", renewed_payload)] token = Some p.

Definition renewal_cookies : jsmap := [(ACCESS_COOKIE_NAME, u "T"); (REFRESH_COOKIE_NAME, u "R")].

Definition sample_renewal : prog AuthE (outcome (option RefreshAttemptResult) * @Jar map_store_instance) :=
  @connect map_store_instance renewal_jose (fun _ t => t) (fun _ _ => NInt 1) (fun _ => None) Some
    sample_zod (u "https://app.example") (u "/", []) [] None _ sample_config run_refresh_attempts renewal_cookies.

Lemma sample_renewal_platform :
  Forall (sign_in_platform renewal_genuine) (trace_of (answers renewal_calls) sample_renewal tt).
Proof.
  match goal with |- Forall _ ?t => let t' := eval vm_compute in t in replace t with t' by (vm_compute; reflexivity) end.
  repeat apply List.Forall_cons; try exact I; try apply List.Forall_nil; cbn [sign_in_platform];
    first [exact (seven_bytes 32) | exact (seven_bytes 10) | intros token [= <-] | lia].
  split_and!; [done|by apply url_text_clean|]. vm_compute. reflexivity.
Qed.

