(* ===== verification/SignOut.v ===== *)
(** Signing out, end to end: the form of auth/logout_form.tsx is posted to the
    action of routes/logout.tsx, the web server calls the auth service with
    what it read of the request, and the browser takes the cookies of its
    answer.  The programs are those of [Gate] and [Http]; the service answers
    the call of the web server, or the call is lost on either way. *)
From S2P Require Import Prelude JsString JsValue JsText JsUtf8 JsDate Settings Effects AuditEvents Tokens Base64.
From S2P Require Import Sessions Jwt Login Refresh Cookies ChangePassword Http RefreshFetch ListColumns BrowserService Gate.
From S2P Require Import SignIn.

(** What a browser documents of a cookie that is set to expire: the one of the
    name, host and path goes, and the others stay.  [cookie_paths] gives the
    paths of the cookies of a name. *)
Class ExpiringStore `{CS : CookieStore} := {
  cookie_paths : jstr -> Jar -> list jstr;
  expired_ok : forall jar name path secure, jar_ok jar -> cookie_name_ok name ->
    jar_ok (store_cookie jar (Gate.serialize_cookie name [] path (NInt 0) true secure));
  expired_gone : forall jar name path secure href, jar_ok jar -> cookie_name_ok name -> 59 ∉ path ->
    (secure = true -> secure_page = true) -> (forall p, p ∈ cookie_paths name jar -> p = path) ->
    map_get name (cookies_at href (store_cookie jar (Gate.serialize_cookie name [] path (NInt 0) true secure))) = None;
  expired_others : forall jar name path secure href other, jar_ok jar -> cookie_name_ok name -> other <> name ->
    map_get other (cookies_at href (store_cookie jar (Gate.serialize_cookie name [] path (NInt 0) true secure))) =
    map_get other (cookies_at href jar);
  expired_paths : forall jar name path secure other, jar_ok jar -> other <> name ->
    cookie_paths other (store_cookie jar (Gate.serialize_cookie name [] path (NInt 0) true secure)) =
    cookie_paths other jar }.

(** What becomes of the call of the web server. *)
Inductive Fate :=
| Delivered
| Unsent (e : exn)
| AnswerLost (e : exn).

Section SignOut.
Context `{CS : CookieStore} `{ES : !ExpiringStore} `{J : Jose} `{HM : Hmac} `{ZX : Zxcvbn} `{UP : UrlParser}
        `{PA : UrlPath} `{ZO : Zod}.
(** The addresses of the service and of the requests to it, what the way to it
    adds to the headers, and the setting of the secure cookies. *)
Variable auth_base : jstr.
Variable target : jstr -> jstr.
Variable added_headers : list (jstr * HeaderValue).
Variable peer : option jstr.
Variable cookie_secure_env : option jstr.

(** ** The programs connected *)

Definition service_request (url method : jstr) (h : jsmap) (body : option jstr) : Request := {|
  req_method := Some method;
  req_url := Some (target url);
  req_headers := map (fun kv => (kv.1, HOne kv.2)) h ++ added_headers;
  req_remote := peer;
  req_body := match body with Some text => [utf8_bytes text] | None => [] end;
  req_body_error := None |}.

(** The answer to a call of the web server.  Signing out calls only the
    service. *)
Definition web_answer {X} (config : AuthConfig) (fate : Fate) (e : ServerE X) : prog AuthE X :=
  match e in ServerE X return prog AuthE X with
  | ServerNow => Vis NewDate (fun t => Ret t)
  | JwtPublicKey => Ret (Val tt)
  | ServerFetch url method h body =>
      match fate with
      | Unsent e => Ret (Exc e)
      | Delivered => bind (collect (serve config (service_request url method h body)) no_reply)
                          (fun served => Ret (Val (response_of served.2)))
      | AnswerLost e => bind (collect (serve config (service_request url method h body)) no_reply)
                             (fun served => Ret (Exc e))
      end
  | ReadEntry => Ret None
  | WriteEntry _ => Ret tt
  | FirstRejects => Ret false
  end.

Fixpoint on_server {A} (config : AuthConfig) (fate : Fate) (p : prog ServerE A) : prog AuthE A :=
  match p with
  | Ret a => Ret a
  | Vis e k => bind (web_answer config fate e) (fun x => on_server config fate (k x))
  end.

(** The post of the form, with the other headers of the request. *)
Definition logout_request (jar : Jar) (headers : jsmap) : DocRequest := {|
  dr_method := u "POST"; dr_pathname := u "/logout"; dr_search := [];
  dr_headers := match cookies_at (u "/logout") jar with
                | [] => []
                | cs => [(u "cookie", cookie_header cs)]
                end ++ headers |}.

Definition sign_out (config : AuthConfig) (fate : Fate) (jar : Jar) (headers : jsmap) (form : form_value)
    : prog AuthE (loaded HttpResponse * Jar) :=
  bind (on_server config fate (logout_action cookie_secure_env (Val auth_base) (logout_request jar headers) form))
    (fun r => Ret (r, match r with
                      | Loaded answer => fold_left store_cookie (set_cookie answer) jar
                      | Thrown _ => jar
                      end)).

(** ** What the property says *)

(** The form was posted by a page of the site: not from elsewhere, from the
    origin of the service and with the token of the CSRF cookie. *)
Definition asked_by_page (config : AuthConfig) (jar : Jar) (headers : jsmap) (form : form_value) : bool :=
  let request := logout_request jar headers in
  negb (bool_decide (map_get (u "sec-fetch-site") (dr_headers request) = Some (u "cross-site"))) &&
  origin_is_exact_match (map_get (u "origin") (dr_headers request)) (public_origin config) &&
  csrf_ok (read_csrf_cookie request) (submitted_csrf_token request form).

(** The session of the token was invalidated and the logout audited, and no
    repository that did so exchanges a refresh token of it; or the token names
    no session, and nothing was changed. *)
Definition session_ended (token : option jstr) (tr : trace) : Prop :=
  (exists t at_ payload sid event, token = Some t /\ head (dates tr) = Some at_ /\
     verify_access_token_for_refresh t at_ = Val payload /\ session_id_claim payload = Some sid /\
     invalidations tr = [(subject payload, sid, true)] /\
     audits tr = [(event, true)] /\ event_type event = AUTH_LOGOUT /\ event_user_id event = Some (subject payload) /\
     forall m args, rotate_user_id args = subject payload -> rotate_session_id args = sid ->
       (memory_attempt_rotate args (memory_invalidate (subject payload) sid m)).1 = UnknownToken) \/
  (invalidations tr = [] /\ audits tr = [] /\
   forall t at_ payload, token = Some t -> head (dates tr) = Some at_ ->
     verify_access_token_for_refresh t at_ = Val payload -> session_id_claim payload = None).

(** No request carries a token any more, and no document is opened. *)
Definition signed_out (jar jar' : Jar) : Prop :=
  (forall href, map_get ACCESS_COOKIE_NAME (cookies_at href jar') = None /\
                map_get REFRESH_COOKIE_NAME (cookies_at href jar') = None /\
                map_get CSRF_COOKIE_NAME (cookies_at href jar') = map_get CSRF_COOKIE_NAME (cookies_at href jar)) /\
  forall pathname search, wp (require_document_access (document_request jar' pathname search))
    (fun tr r => tr = [] /\ exists t, r = Thrown t).

(** The calls of the service that failed. *)
Definition service_failed (tr : trace) : Prop :=
  (exists uid sid, invalidations tr = [(uid, sid, false)]) \/ (exists event, audits tr = [(event, false)]).

(** ** What the service reads of the call *)

(** The headers that [fetch_logout] sends. *)
Definition logout_headers (access_token origin : option jstr) (csrf_cookie csrf_token : jstr) : jsmap :=
  let h := [(u "accept", u "application/json")] in
  let h := add_header (u "origin") (Gate.or_empty origin) h in
  let h := add_header (u "x-csrf-token") csrf_token h in
  let h := if bool_decide (csrf_cookie = []) then h
           else map_set (u "cookie") (CSRF_COOKIE_NAME ++ u "=" ++ csrf_cookie) h in
  match access_token with
  | Some ((_ :: _) as t) => map_set (u "authorization") (bearer t) h
  | _ => h
  end.

Lemma map_get_add name other value h : map_get other (add_header name value h) =
  if seqb name other && negb (bool_decide (value = [])) then Some value else map_get other h.
Proof.
  unfold add_header. case_bool_decide; [by rewrite andb_false_r|]. by rewrite map_get_set, andb_true_r.
Qed.

Lemma logout_headers_read access_token origin csrf_cookie csrf_token :
  let h := logout_headers access_token origin csrf_cookie csrf_token in
  map_get (u "origin") h = nonempty origin /\
  map_get (u "x-csrf-token") h = nonempty (Some csrf_token) /\
  map_get (u "cookie") h = (if bool_decide (csrf_cookie = []) then None
                            else Some (CSRF_COOKIE_NAME ++ u "=" ++ csrf_cookie)) /\
  map_get (u "authorization") h = option_map bearer (nonempty access_token) /\
  map_get (u "content-type") h = None.
Proof.
  unfold logout_headers. split_and!; destruct access_token as [[|c t]|], (bool_decide (csrf_cookie = []));
    rewrite ?map_get_set, ?map_get_add; cbn; rewrite ?map_get_add; cbn;
    try (destruct origin as [[|o os]|]; reflexivity); try (destruct csrf_token; reflexivity).
Qed.

(** What holds of the way to the service. *)
Record linked : Prop := {
  target_path : target (auth_base ++ Http.LOGOUT_PATH) = Http.LOGOUT_PATH;
  logout_url : url_pathname Http.LOGOUT_PATH = Some Http.LOGOUT_PATH;
  nothing_added : forall name, name ∈ [u "origin"; u "x-csrf-token"; u "cookie"; u "authorization"; u "content-type"] ->
    find (fun kv => seqb kv.1 name) added_headers = None }.

Lemma sent_header url method h body name : find (fun kv => seqb kv.1 name) added_headers = None ->
  header (service_request url method h body) name = map_get name h.
Proof.
  intros Ha. unfold header, service_request, map_get. cbn [req_headers].
  induction h as [|[k v] h IH]; cbn [map app find fst]; [by rewrite Ha|]. by destruct (seqb k name).
Qed.

Definition logout_post (access_token origin : option jstr) (csrf_cookie csrf_token : jstr) : Request :=
  service_request (auth_base ++ Http.LOGOUT_PATH) (u "POST")
    (logout_headers access_token origin csrf_cookie csrf_token) None.

(** The only cookie that is sent on. *)
Lemma sent_cookie csrf_cookie : cookie_value_ok csrf_cookie ->
  parse_cookie_header (if bool_decide (csrf_cookie = []) then None else Some (CSRF_COOKIE_NAME ++ u "=" ++ csrf_cookie)) =
  if bool_decide (csrf_cookie = []) then [] else [(CSRF_COOKIE_NAME, csrf_cookie)].
Proof.
  intros Hc. case_bool_decide as He; [done|].
  assert (Hok : Forall (fun kv => cookie_name_ok kv.1 /\ cookie_value_ok kv.2) [(CSRF_COOKIE_NAME, csrf_cookie)]).
  { apply List.Forall_cons; [|apply List.Forall_nil]. split; [apply names_ok; set_solver|done]. }
  exact (proj2 (cookie_roundtrip [(CSRF_COOKIE_NAME, csrf_cookie)] ltac:(done) Hok) (NoDup_singleton _)).
Qed.

Lemma bearer_read t : trim t = t ->
  starts_with (u "bearer ") (to_lower (bearer t)) = true /\ trim (slice_from (bearer t) 7) = t.
Proof. intros Ht. split; [reflexivity|]. exact Ht. Qed.

Lemma logout_post_read access_token origin csrf_cookie csrf_token : linked -> cookie_value_ok csrf_cookie ->
  (forall t, access_token = Some t -> trim t = t) ->
  let req := logout_post access_token origin csrf_cookie csrf_token in
  header req "origin" = nonempty origin /\ csrf_cookie_of req = csrf_cookie /\
  parse_logout_body req [] = Some [] /\ Http.submitted_csrf_token req [] = csrf_token /\
  access_token_from_request req = nonempty access_token.
Proof.
  intros HL Hc Ht req. pose proof (nothing_added HL) as Hn.
  destruct (logout_headers_read access_token origin csrf_cookie csrf_token) as (Ho & Hx & Hk & Ha & Hct).
  assert (Hh : forall name, name ∈ [u "origin"; u "x-csrf-token"; u "cookie"; u "authorization"; u "content-type"] ->
    header req name = map_get name (logout_headers access_token origin csrf_cookie csrf_token))
    by (intros name Hin; by apply sent_header, Hn).
  split_and!.
  - by rewrite Hh by set_solver.
  - unfold csrf_cookie_of. rewrite Hh, Hk, sent_cookie by (done || set_solver).
    case_bool_decide as He; [by subst|]. unfold map_get. cbn [find fst]. by rewrite seqb_refl.
  - unfold parse_logout_body, parse_body. rewrite Hh, Hct by set_solver. reflexivity.
  - unfold Http.submitted_csrf_token. rewrite Hh, Hx by set_solver. unfold nonempty.
    destruct (seqb csrf_token []) eqn:E; [by apply seqb_eq in E as ->|by rewrite E].
  - unfold access_token_from_request. rewrite !Hh, Ha by set_solver. rewrite Hk.
    assert (Hnone : nonempty (map_get ACCESS_COOKIE_NAME (parse_cookie_header
      (if bool_decide (csrf_cookie = []) then None else Some (CSRF_COOKIE_NAME ++ u "=" ++ csrf_cookie)))) = None)
      by (rewrite sent_cookie by done; by case_bool_decide).
    rewrite Hnone. destruct access_token as [t|]; [|reflexivity]. destruct (seqb t []) eqn:E.
    { apply seqb_eq in E as ->. reflexivity. }
    assert (Hs : nonempty (Some t) = Some t) by (unfold nonempty; by rewrite E).
    rewrite !Hs. cbn [option_map Http.or_empty]. destruct (bearer_read t (Ht t eq_refl)) as [-> ->]. exact Hs.
Qed.

Definition logout_context (config : AuthConfig) (req : Request) (access_token : option jstr) : RefreshRequestContext :=
  let identity := identity_of config req in
  {| Refresh.access_token := access_token; refresh_token := None;
     refresh_source_ip := source_ip identity; refresh_protocol := protocol identity;
     refresh_host := identity_host identity; refresh_context_path := Http.LOGOUT_PATH;
     refresh_user_agent := header req "user-agent" |}.

Definition logout_answer (config : AuthConfig) (result : LogoutPipelineResult) : M unit :=
  match result with
  | LogoutInternalError => json 500 (Http.detail (u "Internal error"))
  | LogoutDenied => json 401 (Http.detail ACCESS_DENIED)
  | LogoutSuccess =>
      let* _ := set_cookies [expire_access_cookie (cookie_secure config);
                             Cookies.expire_refresh_cookie (cookie_secure config)] in
      json 200 [(u "ok", VBool true)]
  end.

Lemma logout_handled config a o c t : linked -> cookie_value_ok c -> (forall tok, a = Some tok -> trim tok = tok) ->
  let req := logout_post a o c t in
  handle_request config req =
  if negb (origin_is_exact_match (nonempty o) (public_origin config)) then
    refuse_csrf_origin config req CSRF_DENIED_ORIGIN Http.LOGOUT_PATH None
  else if negb (csrf_ok c t) then refuse_csrf_origin config req CSRF_DENIED_CSRF Http.LOGOUT_PATH None
  else let* result := run_logout_pipeline (logout_context config req (nonempty a)) in logout_answer config result.
Proof.
  intros HL Hc Ht req. destruct (logout_post_read a o c t HL Hc Ht) as (Ho & Hk & Hp & Hx & Ha). fold req in Ho, Hk, Hp, Hx, Ha.
  assert (Hr : handle_request config req = handle_logout config req).
  { unfold handle_request, req, logout_post, service_request. cbn [req_url]. rewrite (target_path HL), (logout_url HL).
    reflexivity. }
  rewrite Hr. unfold handle_logout. assert (read_body req = Val []) as -> by reflexivity.
  rewrite Ho, Hp, Hk, Hx, Ha. reflexivity.
Qed.

(** A refusal invalidates nothing. *)
Lemma refuse_collected config req reason path name r :
  wp (collect (refuse_csrf_origin config req reason path name) r) (fun tr served =>
    served.1 = Val tt /\ invalidations tr = [] /\ (reply_status served.2 = 403 \/ reply_status served.2 = 500)).
Proof.
  unfold refuse_csrf_origin, csrf_denied_audit_event, make_event, new_correlation_id, audit_timestamp.
  io_unfold. cbn [bind collect respond wp seqb]. intros id now [[]|e]; rewrite collect_json; cbn [wp fst snd reply_status]; (split; [done|]; split; [done|]); [by left|by right].
Qed.

Lemma rotate_after_invalidate m args uid sid : rotate_user_id args = uid -> rotate_session_id args = sid ->
  (memory_attempt_rotate args (memory_invalidate uid sid m)).1 = UnknownToken.
Proof.
  intros <- <-. unfold memory_attempt_rotate, memory_invalidate. cbn [rows used].
  assert (H1 : find (session_matches (old_hmac args) (rotate_user_id args) (rotate_session_id args))
    (List.filter (fun r => negb (session_is (rotate_user_id args) (rotate_session_id args) r)) (rows m)) = None).
  { induction (rows m) as [|r l IH]; [done|]. cbn [List.filter]. destruct (session_is _ _ r) eqn:E; [done|].
    cbn [negb find]. unfold session_matches at 1. unfold session_is in E. rewrite <- andb_assoc, (andb_comm (seqb _ _)), E.
    by rewrite andb_false_r. }
  assert (H2 : find (used_matches (old_hmac args) (rotate_user_id args) (rotate_session_id args))
    (List.filter (fun r => negb (used_is (rotate_user_id args) (rotate_session_id args) r)) (used m)) = None).
  { induction (used m) as [|r l IH]; [done|]. cbn [List.filter]. destruct (used_is _ _ r) eqn:E; [done|].
    cbn [negb find]. unfold used_matches at 1. unfold used_is in E. rewrite <- andb_assoc, (andb_comm (seqb (used_user_id _) _)), E.
    by rewrite andb_false_r. }
  by rewrite H1, H2.
Qed.

(** A handler that does not throw is served with the reply it gave. *)
Lemma collect_served config req r (Q : trace -> Reply -> Prop) :
  wp (collect (handle_request config req) r) (fun tr served => served.1 = Val tt /\ Q tr served.2) ->
  wp (collect (serve config req) r) (fun tr served => Q tr served.2).
Proof.
  intros H. unfold serve, try_catch. apply wp_collect_bind. eapply wp_mono; [|exact H].
  intros tr [so sr] [-> HQ]. cbn [fst snd wp collect]. by rewrite app_nil_r.
Qed.

(** What the service answers, and what it has done. *)
Lemma logout_served config a o c t : linked -> cookie_value_ok c -> (forall tok, a = Some tok -> trim tok = tok) ->
  wp (collect (serve config (logout_post a o c t)) no_reply) (fun tr served =>
    if origin_is_exact_match (nonempty o) (public_origin config) && csrf_ok c t then
      (reply_status served.2 = 200 \/ reply_status served.2 = 401) /\ session_ended (nonempty a) tr \/
      reply_status served.2 = 500 /\ service_failed tr
    else invalidations tr = [] /\ (reply_status served.2 = 403 \/ reply_status served.2 = 500)).
Proof.
  intros HL Hc Ht. apply (collect_served config _ no_reply (fun tr reply =>
    if origin_is_exact_match (nonempty o) (public_origin config) && csrf_ok c t then
      (reply_status reply = 200 \/ reply_status reply = 401) /\ session_ended (nonempty a) tr \/
      reply_status reply = 500 /\ service_failed tr
    else invalidations tr = [] /\ (reply_status reply = 403 \/ reply_status reply = 500))).
  rewrite (logout_handled config a o c t HL Hc Ht).
  destruct (origin_is_exact_match _ _); cbn [negb andb]; [|apply refuse_collected].
  destruct (csrf_ok c t); cbn [negb]; [|apply refuse_collected].
  apply wp_collect_bind, wp_collect_quiet. { eapply wp_mono; [|apply logout_frame]. by intros ? ? (_ & _ & ?). }
  intros tr so Hr. pose proof (proj1 (wp_runs _ _) (logout_sound _) _ _ Hr) as H. clear Hr.
  destruct so as [[]|e]; [| | |done]; cbn [fst snd logout_answer]; rewrite ?collect_set_cookies, ?collect_json;
    cbn [wp fst snd reply_status]; rewrite app_nil_r; (split; [done|]).
  - left. split; [by left|]. left. destruct H as (tok & at_ & payload & sid & event & Hi & Ha & Ht' & Hu & Htok & Hd & Hv & Hs).
    exists tok, at_, payload, sid, event. split_and!; try done. intros m args. apply rotate_after_invalidate.
  - left. split; [by right|]. right. exact H.
  - right. split; [done|]. destruct H as (uid & sid & b & Hi & [->|Ha]); [left; by exists uid, sid|by right].
Qed.

(** ** The web server and the cookies *)

(** What is read of the cookies that a request carries. *)
Lemma carried_cookies href jar headers : jar_ok jar -> map_get (u "cookie") headers = None ->
  parse_cookie_header (map_get (u "cookie")
    (match cookies_at href jar with [] => [] | cs => [(u "cookie", cookie_header cs)] end ++ headers)) = cookies_at href jar.
Proof.
  intros Hj Hh. destruct (cookies_ok href jar Hj) as [Hok Hnd].
  destruct (cookies_at href jar) as [|k cs]; [cbn [app]; by rewrite Hh|].
  exact (proj2 (cookie_roundtrip (k :: cs) ltac:(done) Hok) Hnd).
Qed.

Lemma logout_cookies jar headers : jar_ok jar -> map_get (u "cookie") headers = None ->
  parse_cookie_header (dr_cookie (logout_request jar headers)) = cookies_at (u "/logout") jar.
Proof. apply carried_cookies. Qed.

(** Without the access cookie a document is refused at once. *)
Lemma document_refused jar pathname search : jar_ok jar -> map_get ACCESS_COOKIE_NAME (cookies_at pathname jar) = None ->
  wp (require_document_access (document_request jar pathname search)) (fun tr r => tr = [] /\ exists t, r = Thrown t).
Proof.
  intros Hj Hn. unfold require_document_access, classify_access_cookie, read_access_cookie.
  pose proof (carried_cookies pathname jar [] Hj eq_refl) as Hc. rewrite app_nil_r in Hc.
  change (match cookies_at pathname jar with [] => [] | cs => [(u "cookie", cookie_header cs)] end) with
    (dr_headers (document_request jar pathname search)) in Hc. unfold dr_cookie. rewrite Hc, Hn.
  cbn [bindL bind wp]. unfold throw_response. destruct (redirect_unauthenticated _); cbn [wp]; (split; [done|]); by eexists.
Qed.

Lemma map_get_in name value (m : jsmap) : map_get name m = Some value -> exists k, (k, value) ∈ m.
Proof.
  unfold map_get. destruct (find _ m) as [[k v]|] eqn:E; [|done]. intros [= <-]. exists k.
  by apply list_elem_of_In, (find_some _ _ E).
Qed.

(** What the request carries is clean. *)
Lemma logout_cookies_clean jar headers : jar_ok jar -> map_get (u "cookie") headers = None ->
  cookie_value_ok (read_csrf_cookie (logout_request jar headers)) /\
  (forall t, read_access_cookie (logout_request jar headers) = Some t -> trim t = t) /\
  nonempty (read_access_cookie (logout_request jar headers)) = read_access_cookie (logout_request jar headers).
Proof.
  intros Hj Hh. unfold read_csrf_cookie, read_access_cookie. rewrite (logout_cookies jar headers Hj Hh).
  destruct (cookies_ok (u "/logout") jar Hj) as [Hok _]. rewrite Forall_forall in Hok. split_and!.
  - destruct (map_get CSRF_COOKIE_NAME _) eqn:E; [|split; [by intros ?%elem_of_nil|done]].
    apply map_get_in in E as [k Hin]. apply (Hok _ Hin).
  - destruct (map_get ACCESS_COOKIE_NAME _) as [[|c v]|] eqn:E; try done. intros t [= <-].
    apply map_get_in in E as [k Hin]. apply (Hok _ Hin).
  - by destruct (map_get ACCESS_COOKIE_NAME _) as [[|c v]|].
Qed.

Lemma cookies_expired jar secure : jar_ok jar -> (secure = true -> secure_page = true) ->
  (forall p, p ∈ cookie_paths ACCESS_COOKIE_NAME jar -> p = ACCESS_COOKIE_PATH) ->
  (forall p, p ∈ cookie_paths REFRESH_COOKIE_NAME jar -> p = REFRESH_COOKIE_PATH) ->
  signed_out jar (fold_left store_cookie
    [Gate.serialize_cookie ACCESS_COOKIE_NAME [] ACCESS_COOKIE_PATH (NInt 0) true secure;
     Gate.serialize_cookie REFRESH_COOKIE_NAME [] REFRESH_COOKIE_PATH (NInt 0) true secure] jar).
Proof.
  intros Hj Hs Ha Hr. cbn [fold_left].
  assert (Hna : cookie_name_ok ACCESS_COOKIE_NAME) by (apply names_ok; set_solver).
  assert (Hnr : cookie_name_ok REFRESH_COOKIE_NAME) by (apply names_ok; set_solver).
  pose proof (expired_ok jar ACCESS_COOKIE_NAME ACCESS_COOKIE_PATH secure Hj Hna) as Hj1.
  assert (Hgone : forall href, map_get ACCESS_COOKIE_NAME (cookies_at href (store_cookie (store_cookie jar
      (Gate.serialize_cookie ACCESS_COOKIE_NAME [] ACCESS_COOKIE_PATH (NInt 0) true secure))
      (Gate.serialize_cookie REFRESH_COOKIE_NAME [] REFRESH_COOKIE_PATH (NInt 0) true secure))) = None).
  { intros href. rewrite expired_others by done. apply expired_gone; try done. by intros ?%list_elem_of_singleton. }
  split.
  - intros href. split; [apply Hgone|]. split.
    + apply expired_gone; try done; [intros Hin; vm_compute in Hin; set_solver|].
      intros p Hp. apply Hr. by rewrite expired_paths in Hp.
    + by rewrite !expired_others.
  - intros pathname search. apply document_refused; [|apply Hgone]. by apply expired_ok.
Qed.

Lemma origin_nonempty o origin : origin_is_exact_match (nonempty o) origin = origin_is_exact_match o origin.
Proof. by destruct o as [[|c o]|]. Qed.

(** What a post of the form comes to. *)
Definition sign_out_outcome (asked : bool) (fate : Fate) (jar : Jar) (token : option jstr) (tr : trace)
    (aj : loaded HttpResponse * Jar) : Prop :=
  exists answer, aj.1 = Loaded answer /\
  if asked then
    http_status answer = 302 /\ location answer = Some (u "/login") /\ signed_out jar aj.2 /\ session_ended token tr \/
    http_status answer = 503 /\ aj.2 = jar /\ (fate = Delivered -> service_failed tr)
  else invalidations tr = [] /\ aj.2 = jar /\ (http_status answer = 403 \/ http_status answer = 503).

Lemma sign_out_unavailable (asked : bool) fate jar token tr :
  (if asked then fate = Delivered -> service_failed tr else invalidations tr = []) ->
  sign_out_outcome asked fate jar token tr (Loaded (response 503 (u "Sign-out is temporarily unavailable")), jar).
Proof. intros H. eexists. split; [reflexivity|]. destruct asked; [by right|]. split_and!; [done..|by right]. Qed.


End SignOut.

(** ** A sign-out to run *)

#[local] Existing Instance map_store_instance.

Lemma map_get_gone name (jar : jsmap) : map_get name (List.filter (fun kv => negb (seqb kv.1 name)) jar) = None.
Proof.
  unfold map_get. induction jar as [|[n v] jar IH]; [done|]. cbn [List.filter fst].
  destruct (seqb n name) eqn:E; cbn [negb find fst]; [exact IH|]. rewrite E. exact IH.
Qed.

#[local, program] Instance map_expiring : ExpiringStore := {| cookie_paths := fun _ _ => [] |}.
Next Obligation.
  intros jar name path secure Hj Hn.
  destruct (map_store_either jar name [] (Gate.serialize_cookie name [] path (NInt 0) true secure) Hn
    (conj (not_elem_of_nil _) eq_refl) ltac:(by eexists _, _)) as [H|H].
  - change (map_jar_ok (map_store jar (Gate.serialize_cookie name [] path (NInt 0) true secure))). rewrite H.
    by apply map_set_ok; [..|split; [apply not_elem_of_nil|]].
  - change (map_jar_ok (map_store jar (Gate.serialize_cookie name [] path (NInt 0) true secure))). rewrite H.
    by apply map_without_ok.
Qed.
Next Obligation.
  intros jar name path secure href _ Hn Hp _ _.
  change (map_get name (map_store jar (Gate.serialize_cookie name [] path (NInt 0) true secure)) = None).
  unfold Gate.serialize_cookie. cbn [app].
  rewrite (map_store_text jar name []); [|done|by split; [apply not_elem_of_nil|]|].
  - apply map_get_gone.
  - apply List.Forall_cons; [intros [Hin|Hin]%elem_of_app; [by vm_compute in Hin; set_solver|done]|].
    destruct secure; cbn [app]; repeat (apply List.Forall_cons || apply List.Forall_nil);
      intros Hin; vm_compute in Hin; set_solver.
Qed.
Next Obligation.
  intros jar name path secure href other _ Hn Hne.
  change (map_get other (map_store jar (Gate.serialize_cookie name [] path (NInt 0) true secure)) = map_get other jar).
  destruct (map_store_either jar name [] (Gate.serialize_cookie name [] path (NInt 0) true secure) Hn
    (conj (not_elem_of_nil _) eq_refl) ltac:(by eexists _, _)) as [-> | ->]; [|by apply map_get_without].
  rewrite map_get_set. by rewrite (proj2 (seqb_neq name _)) by congruence.
Qed.
Next Obligation. done. Qed.

Definition sample_jar : jsmap := [(CSRF_COOKIE_NAME, u "c"); (ACCESS_COOKIE_NAME, u "T"); (REFRESH_COOKIE_NAME, u "R")].

Definition sample_sign_out : prog AuthE (loaded HttpResponse * @Jar map_store_instance) :=
  @sign_out map_store_instance (table_jose [(u "T", sign_in_payload)]) (fun _ t => t) (fun _ _ => NInt 1) (fun _ => None)
    Some sample_zod (u "http://auth:3000") (fun url => drop 16 url) [] None None sample_config Delivered sample_jar
    [(u "origin", u "https://app.example")] (FormString (u "c")).

