(* ===== verification/PolicyPages.v ===== *)
(** auth/password_policy.ts and auth/system_config_cache.server.ts, with the
    loaders of routes/change_password.tsx and routes/expired_password.tsx: the
    password pages on the server and the policy that they show.

    The entry of the cache is shared by all requests: it is read and written by
    calls, so that whatever other requests and invalidations do between them is
    among the answers. *)
From S2P Require Import Prelude JsString JsValue JsText JsArray RedisRateLimit Cookies Jwt WebAccess ListColumns Nav Detail.
From S2P Require Import RefreshFetch BrowserApi Gate PasswordForms.

(** ** password_policy.ts *)

Definition zod_error : exn := Error_ (u "ZodError").

(** The transform of the drift factor; [Number(value)] of a text. *)
Definition drift_factor (value : jstr + num) : option num :=
  let n := match value with inl text => js_number text | inr n => n end in
  if negb (is_finite n) || num_ltb n (NInt 1) || num_ltb (NInt 10) n then None else Some n.

Section Pages.
(** [z.number().int()] and [z.union([z.string(), z.number()])] *)
Context (zod_int : jsval -> option Z) (zod_string_or_number : jsval -> option (jstr + num)).

Definition parse_password_policy (record : fields) : outcome PasswordPolicy :=
  match zod_int (fields_get (u "password_minimum_chars") record),
        zod_int (fields_get (u "password_maximum_chars") record),
        zod_int (fields_get (u "password_acceptable_crack_time_days") record),
        zod_int (fields_get (u "password_guess_per_second") record),
        zod_string_or_number (fields_get (u "password_estimate_drift_factor") record) ≫= drift_factor with
  | Some minimum, Some maximum, Some days, Some guesses, Some drift =>
      Val {| policy_minimum_chars := minimum; policy_maximum_chars := maximum;
             policy_acceptable_crack_time_days := days; policy_guess_per_second := guesses;
             policy_estimate_drift_factor := drift |}
  | _, _, _, _, _ => Exc zod_error
  end.

(** ** system_config_cache.server.ts *)

Context (cookie_secure_env : option jstr) (api_base_url auth_base_url : outcome jstr)
        (user_profile_parse : jsval -> outcome UserProfile)
        (record_schema : jsval -> outcome fields) (fk_identity_parse : jsval -> outcome unit)
        (class_field_meta : jstr -> option ClassFieldMeta) (SYSTEM_CONFIG_ID : jstr).

(** [n * z] for an integer [z]. *)
Definition num_scale (n : num) (z : Z) : num :=
  match n with
  | NInt x => NInt (x * z)
  | NFrac a d => num_of_fraction (a * z) d
  | n => n
  end.

(** The lifetime of a record in seconds. *)
Definition config_ttl (record : fields) : num :=
  match fields_get (u "system_config_cache_ttl_seconds") record with
  | VNum n => if is_finite n && num_ltb (NInt 0) n then n else NInt 900
  | _ => NInt 900
  end.

Definition entry_at (now : Z) (record : fields) : CacheEntry :=
  {| entry_record := record; expires_at_ms := num_add (num_scale (config_ttl record) 1000) now |}.

Definition read_entry : L (option CacheEntry) := Vis ReadEntry (fun e => give e).

Definition write_entry (e : CacheEntry) : L unit := Vis (WriteEntry e) (fun _ => give tt).

Definition fetch_config (access_token : jstr) : L fields :=
  fetch_record api_base_url record_schema fk_identity_parse class_field_meta access_token (u "system_config")
    SYSTEM_CONFIG_ID.

Definition get_cached_system_config (access_token : jstr) : L fields :=
  let+ now := now_ in
  let+ entry := read_entry in
  let reload :=
    let+ record := fetch_config access_token in
    let+ _ := write_entry (entry_at now record) in
    give record in
  match entry with
  | Some e => if num_ltb (NInt now) (expires_at_ms e) then give (entry_record e) else reload
  | None => reload
  end.

(** [invalidate_system_config_cache] *)
Definition invalidate_entry (entry : option CacheEntry) : option CacheEntry := None.

(** The promise of the subscription that empties the cache. *)
Inductive subscription : Type :=
| Starting
| Started
| StartFailed (e : exn).

(** The promise that is returned, which the loader of every document awaits,
    and [subscribe_started] after the call; outside of the tests. *)
Definition ensure_system_config_subscriber (started : option subscription) : subscription * option subscription :=
  match started with
  | Some s => (s, started)
  | None => (Starting, Some Starting)
  end.

(** The subscription ends. *)
Definition subscription_settles (o : outcome unit) (started : option subscription) : option subscription :=
  match started with
  | Some Starting => Some match o with Val _ => Started | Exc e => StartFailed e end
  | _ => started
  end.

(** ** The loaders *)

(** [Promise.all([p, q])]: the first rejection is thrown.  The calls of [p] and
    [q] do not depend on each other, so that one order of them stands for all. *)
Definition both {A B : Type} (p : L A) (q : L B) : L (A * B) :=
  bind p (fun r1 => bind q (fun r2 =>
    match r1, r2 with
    | Loaded a, Loaded b => give (a, b)
    | Thrown t, Loaded _ => raise t
    | Loaded _, Thrown t => raise t
    | Thrown t1, Thrown t2 => Vis FirstRejects (fun first : bool => raise (if first then t1 else t2))
    end)).

Definition policy_unavailable : thrown := ThrownResponse (response 503 (u "Password policy unavailable")).

Record PasswordPageData : Type := {
  page_username : jstr;
  page_display_name : jstr;
  page_policy : PasswordPolicy;
}.

Section Requests.
Context `{Jose}.

(** The part that both loaders share. *)
Definition password_page (access_token : jstr) : L PasswordPageData :=
  let+ (me, record) := both (fetch_me auth_base_url user_profile_parse access_token)
                         (get_cached_system_config access_token) in
  let+ policy := from_outcome (parse_password_policy record) in
  give {| page_username := username me; page_display_name := display_name me; page_policy := policy |}.

Definition change_password_loader (request : DocRequest) : L (option PasswordPageData) :=
  let+ access := require_document_access request in
  match access with
  | Bootstrap => give None
  | AccessToken token =>
      catchL (let+ data := password_page token in give (Some data))
        (fun t => match t with
                  | ThrownResponse _ => raise t
                  | ApiUnauthorizedError => throw_response (redirect_unauthorized cookie_secure_env request)
                  | ApiForbiddenError => raise (ThrownResponse forbidden_response)
                  | _ => raise policy_unavailable
                  end)
  end.

(** With the token of the CSRF cookie. *)
Definition expired_password_loader (request : DocRequest) : L (PasswordPageData * jstr) :=
  let+ session := get_access_session request in
  match session with
  | None => throw_response (redirect_unauthenticated request)
  | Some (token, required) =>
      if negb required then raise (ThrownResponse (redirect (u "/") []))
      else
        catchL (let+ data := password_page token in give (data, read_csrf_cookie request))
          (fun t => match t with
                    | ThrownResponse _ => raise t
                    | ApiUnauthorizedError => throw_response (redirect_unauthorized cookie_secure_env request)
                    | _ => raise policy_unavailable
                    end)
  end.
End Requests.

(** ** What the pages send *)

Lemma sends_as_read token : sends_as token read_entry.
Proof. intros e. constructor. Qed.

Lemma sends_as_write token e : sends_as token (write_entry e).
Proof. intros x. constructor. Qed.

Lemma sends_as_both {A B : Type} token (p : L A) (q : L B) :
  sends_as token p -> sends_as token q -> sends_as token (both p q).
Proof.
  intros Hp Hq. eapply wp_bind_rule; [exact Hp|]. intros tr1 r1 H1.
  eapply wp_bind_rule; [exact Hq|]. intros tr2 r2 H2.
  assert (H : forall tl, requests tl = [] ->
    Forall (fun h => map_get (u "authorization") h = Some (bearer token)) (requests (tr1 ++ tr2 ++ tl))).
  { intros tl Htl. rewrite !requests_app, Htl, app_nil_r. by apply Forall_app. }
  destruct r1 as [a|t1], r2 as [b|t2]; try exact (H [] eq_refl).
  intros first. exact (H [Ev FirstRejects first] eq_refl).
Qed.

#[local] Hint Resolve sends_as_read sends_as_write : sends.

Lemma sends_as_config token : sends_as token (get_cached_system_config token).
Proof. unfold get_cached_system_config, fetch_config. sends. Qed.

Lemma sends_as_page token : sends_as token (password_page token).
Proof.
  unfold password_page. apply sends_as_bind; [apply sends_as_both; [auto with sends|apply sends_as_config]|]. sends.
Qed.

#[local] Hint Resolve sends_as_page : sends.

Section Gating.
Context `{Jose}.

(** The token of a request verified at the time read from the clock, and a
    change of the password is required. *)
Definition must_change (request : DocRequest) (tr : list (event ServerE)) (token : jstr) : Prop :=
  read_access_cookie request = Some token /\
  exists now payload, Ev ServerNow now ∈ tr /\ verify_access_jwt token now = AccessValid payload /\
    password_change_required payload = true.

Lemma get_access_session_spec request :
  wp (get_access_session request) (fun tr r => requests tr = [] /\
    match r with Loaded (Some (token, true)) => must_change request tr token | _ => True end).
Proof.
  unfold get_access_session, verified_access_session, must_change. destruct (read_access_cookie request) as [token|] eqn:Hc; [|done].
  simpl. intros [[]|e]; simpl; [|done]. intros now. simpl. unfold classify_access_token.
  destruct (verify_access_jwt token now) as [p|p|] eqn:Hv; simpl; [|done|done].
  destruct (password_change_required p) eqn:Hp; [|done]. split; [done|]. split; [done|].
  exists now, p. split; [|done]. right. left.
Qed.

(** The password pages are for the reader only: the change page asks the
    services only with a token that needs no change of the password, the page
    of an expired password only with one that needs it, each verified at that
    moment, and every request carries that token. *)
Theorem password_pages_gated request :
  gated request (change_password_loader request) /\
  wp (expired_password_loader request) (fun tr _ => requests tr <> [] -> exists token, must_change request tr token /\
    Forall (fun h => map_get (u "authorization") h = Some (bearer token)) (requests tr)).
Proof.
  split; [apply gated_access; [intros token; simpl; sends|by intros ?|done]|].
  eapply wp_bind_rule; [apply get_access_session_spec|].
  intros tr [[[token [|]]|]|t] [Hr Hm]; simpl; rewrite ?app_nil_r, ?Hr; try done.
  - assert (Hs : sends_as token (catchL (let+ data := password_page token in give (data, read_csrf_cookie request))
      (fun t => match t with
                | ThrownResponse _ => raise t
                | ApiUnauthorizedError => throw_response (redirect_unauthorized cookie_secure_env request)
                | _ => raise policy_unavailable
                end))) by sends.
    eapply wp_mono; [|exact Hs]. intros tr' r Htr' _. exists token. rewrite requests_app, Hr.
    split; [|exact Htr']. destruct Hm as [Hc (now & p & Hin & Hv)]. split; [done|].
    exists now, p. split; [|done]. apply elem_of_app. by left.
  - unfold throw_response. destruct (redirect_unauthenticated request); simpl; by rewrite app_nil_r, Hr.
Qed.
End Gating.

(** ** The cache *)

Definition written (e : event ServerE) : option CacheEntry :=
  match e with Ev c _ => match c with WriteEntry e => Some e | _ => None end end.

Lemma fetch_config_writes token : wp (fetch_config token) (fun tr _ => omap written tr = []).
Proof.
  unfold fetch_config, fetch_record, api_fetch_with_token, check_auth_status, in_json, domain_failure, bindL, from_outcome,
    tryL, give, raise.
  repeat first [done | progress (intros; simpl)
    | match goal with x : outcome Response |- _ => destruct x end | case_match].
Qed.

#[local] Arguments num_ltb : simpl never.

(** The cache serves an entry only before it expires, and without a request.
    Otherwise it fetches the record: a success is what it serves and stores,
    for the lifetime that the record itself says, counted from before the
    fetch; a failure is thrown, and nothing is stored. *)
Lemma get_cached_system_config_spec token :
  wp (get_cached_system_config token) (fun tr r => exists now entry rest,
    tr = Ev ServerNow now :: Ev ReadEntry entry :: rest /\
    match entry with
    | Some e => if num_ltb (NInt now) (expires_at_ms e) then rest = [] /\ r = Loaded (entry_record e)
                else omap written rest = match r with Loaded record => [entry_at now record] | Thrown _ => [] end
    | None => omap written rest = match r with Loaded record => [entry_at now record] | Thrown _ => [] end
    end).
Proof.
  unfold get_cached_system_config. simpl. intros now entry.
  assert (Hre : wp (let+ record := fetch_config token in let+ _ := write_entry (entry_at now record) in give record)
    (fun rest r => omap written rest = match r with Loaded record => [entry_at now record] | Thrown _ => [] end)).
  { eapply wp_bind_rule; [apply fetch_config_writes|]. intros tr [record|t] Hw; simpl.
    - intros x. rewrite omap_app, Hw. done.
    - by rewrite app_nil_r. }
  destruct entry as [e|].
  - destruct (num_ltb (NInt now) (expires_at_ms e)) eqn:Hn.
    + exists now, (Some e), []. by rewrite Hn.
    + eapply wp_mono; [|exact Hre]. intros tr r Htr. exists now, (Some e), tr. by rewrite Hn.
  - eapply wp_mono; [|exact Hre]. intros tr r Htr. by exists now, None, tr.
Qed.
End Pages.

(** ** A server with an invalidation *)

Definition config_record (minimum : Z) : fields := [(u "password_minimum_chars", VNum (NInt minimum))].

Definition config_meta (_ : jstr) : option ClassFieldMeta := Some {|
  meta_name_snake := u "system_config"; meta_display_name := u "System Config"; meta_attributes := [];
  meta_friendly_id_attr := None; meta_display_attribute := None; meta_public := true; meta_permissions := [] |}.

(** The domain answers with the old record; while the answer is on its way the
    record changes, and the subscriber empties the cache. *)
Definition invalidating_server : handler ServerE (option CacheEntry) := fun X e entry =>
  match e in ServerE X return X * option CacheEntry with
  | ServerNow => (1000, entry)
  | JwtPublicKey => (Val tt, entry)
  | ServerFetch _ _ _ _ =>
      (Val {| status := 200; body_json := Some (VObj (config_record 8)) |}, invalidate_entry entry)
  | ReadEntry => (entry, entry)
  | WriteEntry e => (tt, Some e)
  | FirstRejects => (true, entry)
  end.

Definition sample_config (entry : option CacheEntry) : loaded fields * option CacheEntry :=
  interp invalidating_server
    (get_cached_system_config (Val (u "http://api")) (fun v => match v with VObj r => Val r | _ => Exc zod_error end)
       (fun _ => Val tt) config_meta (u "1") (u "T")) entry.

(** An invalidation that comes while the record is fetched is lost: the old
    record is stored as fresh for its whole lifetime. *)
Example invalidation_in_flight_lost :
  sample_config None = (Loaded (config_record 8), Some (entry_at 1000 (config_record 8))) /\
  expires_at_ms (entry_at 1000 (config_record 8)) = NInt 901000.
Proof. by vm_compute. Qed.

Example drift_factors :
  drift_factor (inl (u "1.5")) = Some (NFrac 15 10) /\ drift_factor (inr (NInt 10)) = Some (NInt 10) /\
  drift_factor (inl (u "0.9")) = None /\ drift_factor (inl (u "x")) = None.
Proof. by vm_compute. Qed.

(** A subscription that failed once is never started again: every later document
    awaits the same rejected promise. *)
Example failed_subscription_kept e :
  let started := subscription_settles (Exc e) (snd (ensure_system_config_subscriber None)) in
  ensure_system_config_subscriber started = (StartFailed e, started).
Proof. reflexivity. Qed.
