(* ===== verification/CoherenceBus.v ===== *)
(** coherence/redis_bus.server.ts of the frontend, with coherence/topics.ts: the
    signals over Redis that empty the caches of the web server.  The clients of
    the Redis library are calls; the field [command] of the bus is read and
    written by calls, so that whatever other uses of the bus do in between is
    among the answers. *)
From S2P Require Import Prelude JsString JsValue JsText ServiceSetup Gate PolicyPages.

(** ** The calls *)

Inductive BusE : Type -> Type :=
| ReadCommand : BusE (option nat)
| WriteCommand (client : option nat) : BusE unit
| CreateClient (url : jstr) : BusE nat
| ClientIsOpen (client : nat) : BusE bool
| ClientConnect (client : nat) : BusE (outcome unit)
| ClientPublish (client : nat) (topic message : jstr) : BusE (outcome unit)
| ClientSubscribe (client : nat) (topic : jstr) : BusE (outcome unit)
| ClientUnsubscribe (client : nat) (topic : jstr) : BusE (outcome unit)
| ClientQuit (client : nat) : BusE (outcome unit)
| ClientDisconnect (client : nat) : BusE (outcome unit).

Abbreviation BM := (IO BusE).

(** ** RedisCoherenceBus *)

Section Bus.
Context `{RU : RedisUrl} (url : jstr).

Definition unreachable (purpose : jstr) : exn :=
  Error_ (u "Redis unreachable for coherence " ++ purpose ++ u " (" ++ redact_redis_url url ++ u ")").

Definition command_client : BM nat :=
  let* command := perform ReadCommand in
  let create :=
    let* client := perform (CreateClient url) in
    let* _ := try_catch (call (ClientConnect client)) (fun _ => throw (unreachable (u "publish"))) in
    let* _ := perform (WriteCommand (Some client)) in
    ret client in
  match command with
  | Some client =>
      let* open := perform (ClientIsOpen client) in
      if (open : bool) then ret client else create
  | None => create
  end.

Definition publish (topic : jstr) (payload : jsval) : BM unit :=
  let* client := command_client in
  call (ClientPublish client topic (match json_stringify payload with Some text => text | None => u "undefined" end)).

(** What the listener hands to the handler; [None] for a message that it
    ignores with a warning. *)
Definition on_message (message : jstr) : option jsval :=
  match json_parse message with
  | Some (VObj fields) => Some (VObj fields)
  | _ => None
  end.

(** The subscription: its client. *)
Definition subscribe (topic : jstr) : BM nat :=
  let* subscriber := perform (CreateClient url) in
  let* _ := try_catch (call (ClientConnect subscriber)) (fun _ => throw (unreachable (u "subscriber"))) in
  let* _ := call (ClientSubscribe subscriber topic) in
  ret subscriber.

(** The function that [subscribe] returns, on its variable [stopped]. *)
Definition stop (subscriber : nat) (topic : jstr) (stopped : bool) : BM bool :=
  if stopped then ret true
  else
    let* _ := attempt (call (ClientUnsubscribe subscriber topic)) in
    let* quit := attempt (call (ClientQuit subscriber)) in
    match quit with
    | Val _ => ret true
    | Exc _ => let* _ := attempt (call (ClientDisconnect subscriber)) in ret true
    end.

Definition close : BM unit :=
  let* command := perform ReadCommand in
  let* _ :=
    match command with
    | Some client =>
        let* open := perform (ClientIsOpen client) in
        if (open : bool) then try_catch (call (ClientQuit client)) (fun _ => call (ClientDisconnect client)) else ret tt
    | None => ret tt
    end in
  perform (WriteCommand None).
End Bus.

(** ** topics.ts and the handler of the web server *)

Definition SYSTEM_CONFIG_INVALIDATE_PAYLOAD : jsval := VObj [(u "v", VNum (NInt 1))].

(** A message on the topic, at the cache of the web server. *)
Definition deliver (message : jstr) (entry : option CacheEntry) : option CacheEntry :=
  match on_message message with Some _ => invalidate_entry entry | None => entry end.

(** ** What arrives *)

(** The messages that a run published, and the clients that it opened and left
    open. *)
Definition published (e : event BusE) : option (jstr * jstr) :=
  match e with Ev c _ => match c with ClientPublish _ topic message => Some (topic, message) | _ => None end end.

(** An object that JSON carries arrives at the handlers as it was published, in
    one message, whenever the publication succeeds. *)
Theorem publish_arrives `{RU : RedisUrl} url topic fields : json_ok (VObj fields) = true ->
  wp (publish url topic (VObj fields)) (fun tr o => o = Val tt ->
    exists message, omap published tr = [(topic, message)] /\ on_message message = Some (VObj fields)).
Proof.
  intros Hok. unfold publish. rewrite json_stringify_ok by done. unfold command_client.
  assert (Hm : on_message (json_text (VObj fields)) = Some (VObj fields)).
  { unfold on_message. by rewrite json_parse_text. }
  revert Hm. generalize (json_text (VObj fields)). intros message Hm.
  wp_run; try discriminate; by exists message.
Qed.

(** The signal of a change of the configuration empties the cache of every web
    server that it reaches; a message that is no object changes nothing. *)
Lemma invalidation_delivered entry :
  json_ok SYSTEM_CONFIG_INVALIDATE_PAYLOAD = true /\
  deliver (json_text SYSTEM_CONFIG_INVALIDATE_PAYLOAD) entry = None /\
  deliver (u "not json") entry = entry /\ deliver (u "[1]") entry = entry /\ deliver (u "null") entry = entry.
Proof. by vm_compute. Qed.

(** A subscription that is returned is connected and subscribed; otherwise the
    call throws. *)
Lemma subscribe_connected `{RU : RedisUrl} url topic : wp (subscribe url topic) (fun tr o =>
  forall client, o = Val client -> Ev (CreateClient url) client ∈ tr /\
    Ev (ClientConnect client) (Val tt) ∈ tr /\ Ev (ClientSubscribe client topic) (Val tt) ∈ tr).
Proof. unfold subscribe. wp_run; try discriminate. simplify_eq. set_solver. Qed.

(** Stopping never throws. *)
Lemma stop_total subscriber topic stopped : wp (stop subscriber topic stopped) (fun _ o => o = Val true).
Proof. unfold stop. destruct stopped; wp_run; done. Qed.

(** A Redis that takes every command, with the clients open by number and the
    field of the bus. *)
Record bus_world : Type := { bw_command : option nat; bw_next : nat; bw_open : list nat }.

Definition redis_up : handler BusE bus_world := fun X e w =>
  match e in BusE X return X * bus_world with
  | ReadCommand => (bw_command w, w)
  | WriteCommand c => (tt, {| bw_command := c; bw_next := bw_next w; bw_open := bw_open w |})
  | CreateClient _ => (bw_next w, {| bw_command := bw_command w; bw_next := S (bw_next w); bw_open := bw_open w |})
  | ClientIsOpen c => (bool_decide (c ∈ bw_open w), w)
  | ClientConnect c => (Val tt, {| bw_command := bw_command w; bw_next := bw_next w; bw_open := c :: bw_open w |})
  | ClientPublish _ _ _ => (Val tt, w)
  | ClientSubscribe _ _ => (Val tt, w)
  | ClientUnsubscribe _ _ => (Val tt, w)
  | ClientQuit c | ClientDisconnect c =>
      (Val tt, {| bw_command := bw_command w; bw_next := bw_next w; bw_open := filter (fun d => d <> c) (bw_open w) |})
  end.

Definition idle_bus : bus_world := {| bw_command := None; bw_next := 0; bw_open := [] |}.

(** Publications one after the other share a client, which [close] closes. *)
Lemma bus_closes_client `{RU : RedisUrl} url :
  bw_open (snd (interp redis_up (let* _ := publish url (u "t") VNull in
                                 let* _ := publish url (u "t") VNull in close) idle_bus)) = [].
Proof. reflexivity. Qed.

(** The same, while the connection of the first client is under way another
    publication runs. *)
Definition redis_busy `{RU : RedisUrl} (url : jstr) : handler BusE bus_world := fun X e w =>
  redis_up X e (match e with
                | ClientConnect 0 => snd (interp redis_up (publish url (u "t") VNull) w)
                | _ => w
                end).

(** Two publications that start together open two clients, and [close] closes
    only the one that the field kept. *)
Example concurrent_publications_leak `{RU : RedisUrl} url :
  bw_open (snd (interp (redis_busy url) (let* _ := publish url (u "t") VNull in close) idle_bus)) = [1%nat].
Proof. reflexivity. Qed.
