(* ===== verification/ListControls.v ===== *)
(** list/basic_list.tsx and the controls of list/list_context_bar.tsx: how what
    the reader does to the list becomes events of [DestinationList].

    The table is a state of its own: the gestures on its headers move columns and
    widths on the screen and commit to the page only at their end.  What the
    browser measures (the rectangles of the headers) comes with the event, in
    exact coordinates. *)
From Stdlib Require Import QArith.
From S2P Require Import Prelude JsString JsValue JsText JsArray RedisRateLimit LocalTime ListColumns Pagination QuickFilter.
From S2P Require Import Nav Detail DestinationList.
#[local] Open Scope Z_scope.

(** ** The headers of the table *)

(** [getBoundingClientRect] *)
Record client_rect : Type := {
  r_left : Q;
  r_top : Q;
  r_width : Q;
  r_height : Q;
}.

Definition as_header (r : client_rect) : header_rect := {| rect_left := r_left r; rect_width := r_width r |}.

Record column_drag : Type := {
  from_index : nat;
  drop_index : Z;
  grab_offset_x : Q;
  grab_offset_y : Q;
  drag_width : Q;
  drag_height : Q;
}.

Record column_resize : Type := {
  resize_attribute : jstr;
  start_x : Q;
  start_width : Z;
}.

(** The ghost of a dragged header, and the separator where it would go: left,
    top and height.  [None]: hidden. *)
Record ghost : Type := {
  ghost_label : jstr;
  ghost_left : Q;
  ghost_top : Q;
  ghost_width : Q;
  ghost_height : Q;
}.

(** The table: its properties, the refs, and what is painted: the width of each
    column and of the table, and the overlays. *)
Record table : Type := {
  t_columns : list ListColumn;
  t_widths : gmap jstr num;
  t_live : gmap jstr Z;
  t_drag : option column_drag;
  t_resize : option column_resize;
  t_cols : gmap jstr Z;
  t_width : Z;
  t_ghost : option ghost;
  t_separator : option (Q * Q * Q);
}.

Definition set_drag (d : option column_drag) (g : option ghost) (sep : option (Q * Q * Q)) (t : table) : table :=
  {| t_columns := t_columns t; t_widths := t_widths t; t_live := t_live t; t_drag := d; t_resize := t_resize t;
     t_cols := t_cols t; t_width := t_width t; t_ghost := g; t_separator := sep |}.

Definition set_resize (r : option column_resize) (t : table) : table :=
  {| t_columns := t_columns t; t_widths := t_widths t; t_live := t_live t; t_drag := t_drag t; t_resize := r;
     t_cols := t_cols t; t_width := t_width t; t_ghost := t_ghost t; t_separator := t_separator t |}.

(** The widths of the columns and their sum; a column without a live width
    keeps what it has. *)
Definition paint_column (live : gmap jstr Z) (painted : gmap jstr Z * Z) (column : ListColumn) : gmap jstr Z * Z :=
  match live !! col_name_snake column with
  | None => painted
  | Some raw =>
      let width := clamp_column_width (NInt raw) in
      (<[col_name_snake column := width]> painted.1, painted.2 + width)
  end.

Definition apply_colgroup_widths (columns : list ListColumn) (live cols : gmap jstr Z) : gmap jstr Z * Z :=
  fold_left (paint_column live) columns (cols, 0).

Definition set_live (live : gmap jstr Z) (t : table) : table :=
  let painted := apply_colgroup_widths (t_columns t) live (t_cols t) in
  {| t_columns := t_columns t; t_widths := t_widths t; t_live := live; t_drag := t_drag t; t_resize := t_resize t;
     t_cols := fst painted; t_width := snd painted; t_ghost := t_ghost t; t_separator := t_separator t |}.

Definition live_width (widths : gmap jstr num) (live : gmap jstr Z) (column : ListColumn) : gmap jstr Z :=
  <[col_name_snake column := width_for_attribute widths (col_name_snake column) (col_type_name column)]> live.

Definition live_widths (columns : list ListColumn) (widths : gmap jstr num) : gmap jstr Z :=
  fold_left (live_width widths) columns ∅.

(** The effect on [columns] and [widths]; a gesture under way is abandoned. *)
Definition table_effect (columns : list ListColumn) (widths : gmap jstr num) (t : table) : table :=
  let live := live_widths columns widths in
  let painted := apply_colgroup_widths columns live (t_cols t) in
  {| t_columns := columns; t_widths := widths; t_live := live; t_drag := None; t_resize := None;
     t_cols := fst painted; t_width := snd painted; t_ghost := None; t_separator := None |}.

Definition empty_table : table :=
  {| t_columns := []; t_widths := ∅; t_live := ∅; t_drag := None; t_resize := None; t_cols := ∅; t_width := 0;
     t_ghost := None; t_separator := None |}.

Definition table_mount (columns : list ListColumn) (widths : gmap jstr num) : table :=
  table_effect columns widths empty_table.

Definition type_of_column (columns : list ListColumn) (attribute : jstr) : jstr :=
  match find (fun c => seqb (col_name_snake c) attribute) columns with
  | Some c => col_type_name c
  | None => u "text"
  end.

Definition on_resize_pointer_down (attribute : jstr) (client_x : Q) (t : table) : table :=
  set_resize (Some {| resize_attribute := attribute; start_x := client_x;
    start_width := width_for_attribute (t_widths t) attribute (type_of_column (t_columns t) attribute) |}) t.

(** A coordinate as a number. *)
Definition num_of_q (q : Q) : num := num_of_fraction (Qnum q) (Qden q).

Definition on_resize_pointer_move (client_x : Q) (t : table) : table :=
  match t_resize t with
  | None => t
  | Some drag =>
      let next := clamp_column_width (num_of_q (inject_Z (start_width drag) + (client_x - start_x drag))) in
      set_live (<[resize_attribute drag := next]> (t_live t)) t
  end.

Notation list_event := (page_event (P:=SearchPredicate) (Row:=fields)).

Definition commit_resize (attribute : jstr) (t : table) : list list_event :=
  match t_live t !! attribute with
  | Some width => [ResizeCommit attribute (NInt (clamp_column_width (NInt width)))]
  | None => []
  end.

Definition on_resize_pointer_end (t : table) : table * list list_event :=
  match t_resize t with
  | None => (t, [])
  | Some drag => (set_resize None t, commit_resize (resize_attribute drag) t)
  end.

(** The separator of [paint_reorder_overlays]. *)
Definition paint_separator (headers : list client_rect) (insert_before_index : Z) : option (Q * Q * Q) :=
  match headers with
  | [] => None
  | first :: _ =>
      (fun x => (x - 1, r_top first, r_height first)%Q) <$>
        drop_separator_x_for_insert_before (map as_header headers) insert_before_index
  end.

Definition paint_ghost (label : jstr) (client_x client_y : Q) (drag : column_drag) : ghost :=
  {| ghost_label := label; ghost_left := (client_x - grab_offset_x drag)%Q;
     ghost_top := (client_y - grab_offset_y drag)%Q; ghost_width := drag_width drag; ghost_height := drag_height drag |}.

Definition on_grip_pointer_down (headers : list client_rect) (index : nat) (client_x client_y : Q) (t : table) : table :=
  match headers !! index, t_columns t !! index with
  | Some rect, Some column =>
      let drag := {| from_index := index; drop_index := Z.of_nat index;
                     grab_offset_x := (client_x - r_left rect)%Q; grab_offset_y := (client_y - r_top rect)%Q;
                     drag_width := r_width rect; drag_height := r_height rect |} in
      set_drag (Some drag) (Some (paint_ghost (col_label column) client_x client_y drag))
        (paint_separator headers (Z.of_nat index)) t
  | _, _ => t
  end.

Definition on_grip_pointer_move (headers : list client_rect) (client_x client_y : Q) (t : table) : table :=
  match t_drag t with
  | None => t
  | Some drag =>
      let next_drop := insert_before_index_for_client_x (map as_header headers) client_x in
      let drag := {| from_index := from_index drag; drop_index := next_drop; grab_offset_x := grab_offset_x drag;
                     grab_offset_y := grab_offset_y drag; drag_width := drag_width drag;
                     drag_height := drag_height drag |} in
      let label := match t_columns t !! from_index drag with Some c => col_label c | None => [] end in
      set_drag (Some drag) (Some (paint_ghost label client_x client_y drag)) (paint_separator headers next_drop) t
  end.

Definition on_grip_pointer_end (t : table) : table * list list_event :=
  match t_drag t with
  | None => (t, [])
  | Some drag =>
      let from := Z.of_nat (from_index drag) in
      let to := drop_index drag in
      (set_drag None None None t,
       if negb (to =? from) && negb (to =? from + 1) then [Reorder from to] else [])
  end.

(** What happens to the table: new properties, and the pointer on its headers. *)
Inductive table_event : Type :=
| TableProps (columns : list ListColumn) (widths : gmap jstr num)
| ResizeDown (attribute : jstr) (client_x : Q)
| ResizeMove (client_x : Q)
| ResizeEnd
| GripDown (headers : list client_rect) (index : nat) (client_x client_y : Q)
| GripMove (headers : list client_rect) (client_x client_y : Q)
| GripEnd
| HeaderClick (attribute : jstr).

Definition table_step (e : table_event) (t : table) : table * list list_event :=
  match e with
  | TableProps columns widths => (table_effect columns widths t, [])
  | ResizeDown attribute x => (on_resize_pointer_down attribute x t, [])
  | ResizeMove x => (on_resize_pointer_move x t, [])
  | ResizeEnd => on_resize_pointer_end t
  | GripDown headers index x y => (on_grip_pointer_down headers index x y t, [])
  | GripMove headers x y => (on_grip_pointer_move headers x y t, [])
  | GripEnd => on_grip_pointer_end t
  | HeaderClick attribute => (t, [SortClick attribute])
  end.

(** The document has one header for each column. *)
Definition rendered (t : table) (e : table_event) : Prop :=
  match e with
  | GripDown headers _ _ _ | GripMove headers _ _ => length headers = length (t_columns t)
  | _ => True
  end.

Inductive table_reaches (columns : list ListColumn) (widths : gmap jstr num) : table -> Prop :=
| TableMounted : table_reaches columns widths (table_mount columns widths)
| TableSteps t e : table_reaches columns widths t -> rendered t e ->
    table_reaches columns widths (fst (table_step e t)).

(** ** What the table commits *)

(** The width that a live width paints. *)
Definition painted_width (live : gmap jstr Z) (column : ListColumn) : Z :=
  match live !! col_name_snake column with Some raw => clamp_column_width (NInt raw) | None => 0 end.

Definition covers (live : gmap jstr Z) (columns : list ListColumn) : Prop :=
  Forall (fun c => is_Some (live !! col_name_snake c)) columns.

(** The columns and the table are painted together: each column has its width,
    and the table has their sum. *)
Definition paints (live : gmap jstr Z) (columns : list ListColumn) (painted : gmap jstr Z * Z) : Prop :=
  Forall (fun c => painted.1 !! col_name_snake c = Some (painted_width live c)) columns /\
  painted.2 = sumZ (map (painted_width live) columns).

Lemma apply_colgroup_paints columns live cols :
  covers live columns -> paints live columns (apply_colgroup_widths columns live cols).
Proof.
  unfold apply_colgroup_widths. intros Hc.
  assert (H : forall cs acc, covers live cs -> let r := fold_left (paint_column live) cs acc in
    r.2 = acc.2 + sumZ (map (painted_width live) cs) /\
    (forall n, r.1 !! n = if existsb (fun c => seqb (col_name_snake c) n) cs
       then (fun raw => clamp_column_width (NInt raw)) <$> live !! n else acc.1 !! n)).
  { induction cs as [|c cs IH]; intros [cols0 sum] Hcs; simpl; [split; [simpl; lia|done]|].
    apply Forall_cons in Hcs as [[raw Hraw] Hcs].
    assert (Hp : paint_column live (cols0, sum) c =
      (<[col_name_snake c:=clamp_column_width (NInt raw)]> cols0, sum + clamp_column_width (NInt raw)))
      by (unfold paint_column; by rewrite Hraw).
    rewrite Hp.
    destruct (IH (<[col_name_snake c:=clamp_column_width (NInt raw)]> cols0, sum + clamp_column_width (NInt raw)) Hcs)
      as [H1 H2]. split.
    - rewrite H1. simpl. unfold painted_width at 2. rewrite Hraw. lia.
    - intros n. rewrite H2. destruct (existsb _ cs); [by rewrite orb_true_r|]. rewrite orb_false_r. simpl.
      destruct (seqb (col_name_snake c) n) eqn:Hn.
      + apply seqb_eq in Hn as <-. by rewrite lookup_insert_eq, Hraw.
      + apply seqb_neq in Hn. by rewrite lookup_insert_ne. }
  destruct (H columns (cols, 0) Hc) as [H1 H2]. split; [|rewrite H1; simpl; lia].
  apply Forall_forall. intros c Hin. rewrite H2.
  assert (He : existsb (fun c0 => seqb (col_name_snake c0) (col_name_snake c)) columns = true).
  { apply existsb_exists. exists c. split; [by apply list_elem_of_In|apply seqb_refl]. }
  rewrite He. unfold covers in Hc. rewrite Forall_forall in Hc. destruct (Hc c Hin) as [raw Hraw].
  unfold painted_width. by rewrite Hraw.
Qed.

Lemma live_widths_covers columns widths : covers (live_widths columns widths) columns.
Proof.
  assert (H : forall cs acc n, is_Some (acc !! n) \/ existsb (fun c => seqb (col_name_snake c) n) cs = true ->
    is_Some (fold_left (live_width widths) cs acc !! n)).
  { induction cs as [|c cs IH]; intros acc n Hn; simpl in *; [by destruct Hn|].
    apply IH. unfold live_width. destruct (decide (col_name_snake c = n)) as [<-|Hne].
    - left. by rewrite lookup_insert_eq.
    - rewrite lookup_insert_ne by done. apply seqb_neq in Hne. by rewrite Hne in Hn. }
  apply Forall_forall. intros c Hin. apply H. right. apply existsb_exists. exists c.
  split; [by apply list_elem_of_In|apply seqb_refl].
Qed.

Record table_ok (t : table) : Prop := {
  ok_covers : covers (t_live t) (t_columns t);
  ok_paints : paints (t_live t) (t_columns t) (t_cols t, t_width t);
  ok_overlays : t_drag t = None -> t_ghost t = None /\ t_separator t = None;
  ok_drag : forall d, t_drag t = Some d ->
    (from_index d < length (t_columns t))%nat /\ 0 <= drop_index d <= Z.of_nat (length (t_columns t));
}.

Lemma table_effect_ok columns widths t : table_ok (table_effect columns widths t).
Proof.
  split; simpl; [apply live_widths_covers| |done|done].
  pose proof (apply_colgroup_paints columns (live_widths columns widths) (t_cols t) (live_widths_covers _ _)) as H.
  by destruct (apply_colgroup_widths _ _ _).
Qed.

Lemma set_live_ok attribute w t : table_ok t -> table_ok (set_live (<[attribute := w]> (t_live t)) t).
Proof.
  intros [H1 H2 H3 H4]. assert (Hc : covers (<[attribute:=w]> (t_live t)) (t_columns t)).
  { eapply Forall_impl; [exact H1|]. intros c Hc. destruct (decide (attribute = col_name_snake c)) as [->|Hn].
    - by rewrite lookup_insert_eq.
    - by rewrite lookup_insert_ne. }
  split; simpl; try done.
  pose proof (apply_colgroup_paints _ _ (t_cols t) Hc) as H. by destruct (apply_colgroup_widths _ _ _).
Qed.

Lemma table_step_ok e t : table_ok t -> rendered t e -> table_ok (fst (table_step e t)).
Proof.
  intros Hok Hr. pose proof Hok as [H1 H2 H3 H4].
  destruct e as [columns widths|attribute x|x| |headers index x y|headers x y| |attribute]; simpl in *; try done.
  - apply table_effect_ok.
  - unfold on_resize_pointer_move. destruct (t_resize t); [by apply set_live_ok|done].
  - unfold on_resize_pointer_end. by destruct (t_resize t).
  - unfold on_grip_pointer_down. destruct (headers !! index) as [r|]; [|done].
    destruct (t_columns t !! index) as [c|] eqn:Hc; [|done].
    split; simpl; [done|done|done|]. intros d [= <-]. simpl. apply lookup_lt_Some in Hc. lia.
  - unfold on_grip_pointer_move. destruct (t_drag t) as [d|] eqn:Hd; [|done].
    split; simpl; [done|done|done|]. intros d' [= <-]. simpl. destruct (H4 d eq_refl) as [Hf _]. split; [done|].
    pose proof (insert_before_index_bounds (map as_header headers) x) as Hb. rewrite length_map, Hr in Hb. lia.
  - unfold on_grip_pointer_end. by destruct (t_drag t).
Qed.

(** A commit that the page can take: a move of a column of the list to another
    place of it, or a width that is a whole number and not too small. *)
Definition commit_ok (columns : list ListColumn) (e : list_event) : Prop :=
  match e with
  | Reorder from to => 0 <= from < Z.of_nat (length columns) /\ 0 <= to <= Z.of_nat (length columns) /\
      to <> from /\ to <> from + 1
  | ResizeCommit _ width => exists z, width = NInt z /\ MIN_COLUMN_WIDTH_PX <= z
  | SortClick _ => True
  | _ => False
  end.

Lemma painted_width_min live c : is_Some (live !! col_name_snake c) -> MIN_COLUMN_WIDTH_PX <= painted_width live c.
Proof. unfold painted_width. intros [raw ->]. apply clamp_column_width_min. Qed.

(** However the reader drags the headers, and whenever the columns change under
    the pointer: the table is always as wide as its columns, none of which is
    too small; the ghost and the separator show only during a drag; and what is
    committed to the page is a real move inside the list, or a whole width that
    is not too small. *)
Theorem table_gestures_sound columns widths t e : table_reaches columns widths t -> rendered t e ->
  let '(t', commits) := table_step e t in
  (exists ws, map (fun c => t_cols t' !! col_name_snake c) (t_columns t') = map Some ws /\
     t_width t' = sumZ ws /\ Forall (fun w => MIN_COLUMN_WIDTH_PX <= w) ws) /\
  (t_drag t' = None -> t_ghost t' = None /\ t_separator t' = None) /\
  Forall (commit_ok (t_columns t)) commits.
Proof.
  intros Hreach Hr. assert (Hok : table_ok t).
  { clear e Hr. induction Hreach as [|t e _ IH Hr]; [apply table_effect_ok|by apply table_step_ok]. }
  pose proof (table_step_ok e t Hok Hr) as Hok'. destruct (table_step e t) as [t' commits] eqn:Hs.
  destruct Hok' as [H1 [H2 H2'] H3 H4]. simpl in *. split_and!.
  - exists (map (painted_width (t_live t')) (t_columns t')). split; [|split; [done|]].
    + rewrite map_map. apply map_ext_in. intros c Hc%list_elem_of_In. rewrite Forall_forall in H2. by apply H2.
    + apply Forall_map. eapply Forall_impl; [exact H1|]. intros c Hc. by apply painted_width_min.
  - done.
  - destruct e; simpl in Hs; try (injection Hs as _ <-; repeat constructor).
    + unfold on_resize_pointer_end, commit_resize in Hs. destruct (t_resize t); injection Hs as _ <-; [|constructor].
      destruct (t_live t !! _); repeat constructor. eexists. split; [done|apply clamp_column_width_min].
    + unfold on_grip_pointer_end in Hs. destruct (t_drag t) as [d|] eqn:Hd; injection Hs as _ <-; [|constructor].
      destruct (ok_drag t Hok d Hd) as [Hf Hd']. destruct (_ && _) eqn:Hc; repeat constructor; simpl; lia.
Qed.

(** ** The cells *)

(** What a cell shows. *)
Inductive cell : Type :=
| NoCell
| TextCell (text : jstr)
| LinkCell (text href : jstr).

Section Cells.
Context (wall_of utc_of_wall : Z -> Z) (other_dates : jstr -> option Z)
        (is_fk_identity : jsval -> bool) (class_field_meta : jstr -> option ClassFieldMeta).

Definition format_cell_value (type_name : jstr) (value : jsval) : jstr :=
  display_field_value wall_of utc_of_wall other_dates type_name value.

(** [value == null || value === ""] *)
Definition blank (value : jsval) : bool :=
  match value with VUndef | VNull | VStr [] => true | _ => false end.

Definition is_text (value : jsval) : bool := match value with VStr _ => true | _ => false end.

(** A date shows after the mount.  An exception of a link is the cell's. *)
Definition ListCell (class_name : jstr) (column : ListColumn) (value : jsval) : outcome cell :=
  if blank value then Val NoCell
  else if seqb (col_type_name column) "datetime" then Val (TextCell (format_cell_value (u "datetime") value))
  else
    match col_references column with
    | Some references =>
        if is_fk_identity value || is_text value then
          match fk_display_label is_fk_identity value with
          | None => Val NoCell
          | Some label =>
              match class_field_meta references, fk_link_locator is_fk_identity value with
              | Some _, Some locator =>
                  match record_detail_path references locator with
                  | Exc e => Exc e
                  | Val href => Val (LinkCell label href)
                  end
              | _, _ => Val (TextCell label)
              end
          end
        else Val (TextCell (format_cell_value (col_type_name column) value))
    | None =>
        let text := format_cell_value (col_type_name column) value in
        match value with
        | VStr locator =>
            if col_is_friendly_id column then
              match record_detail_path class_name locator with
              | Exc e => Exc e
              | Val href => Val (LinkCell text href)
              end
            else Val (TextCell text)
        | _ => Val (TextCell text)
        end
    end.

Definition cell_title (type_name : jstr) (value : jsval) : option jstr :=
  if blank value || seqb type_name "datetime" then None
  else if is_fk_identity value || match value with VObj o => has_field (u "id") o | _ => false end then
    fk_display_label is_fk_identity value
  else match format_cell_value type_name value with [] => None | text => Some text end.

Definition row_key (row : fields) (index : Z) : jstr :=
  match fields_get (u "id") row with
  | VStr ((_ :: _) as id) => id
  | _ => u "row-" ++ num_to_string index
  end.
End Cells.

(** ** The context bar *)

(** What the bar is given: the attributes it offers, the field, the values and
    the filter in effect, and whether the page is busy. *)
Record bar : Type := {
  b_filterable : list AttributeFieldMeta;
  b_selected_name : jstr;
  b_values : QuickFilterValues;
  b_effective : option SearchPredicate;
  b_busy : bool;
}.

Definition bar_selected (b : bar) : option AttributeFieldMeta :=
  match find (fun a => seqb (attr_name_snake a) (b_selected_name b)) (b_filterable b) with
  | Some a => Some a
  | None => head (b_filterable b)
  end.

Definition with_side (side : range_side) (combined : jstr) (v : QuickFilterValues) : QuickFilterValues :=
  match side with
  | FromSide => {| qf_text := qf_text v; qf_from := Some combined; qf_to := qf_to v; qf_not := qf_not v |}
  | ToSide => {| qf_text := qf_text v; qf_from := qf_from v; qf_to := Some combined; qf_not := qf_not v |}
  end.

Definition side_value (side : range_side) (v : QuickFilterValues) : option jstr :=
  match side with FromSide => qf_from v | ToSide => qf_to v end.

Definition side_default_time (side : range_side) : jstr :=
  match side with FromSide => DATETIME_FROM_DEFAULT_TIME | ToSide => DATETIME_TO_DEFAULT_TIME end.

Section Bar.
Context (utc_of_wall : Z -> Z) (other_dates : jstr -> option Z).

(** [on_quick_filter_enter] with the values, as events of the page. *)
Definition enter (b : bar) (values : QuickFilterValues) : list list_event :=
  match on_quick_filter_enter utc_of_wall other_dates (bar_selected b) values (b_effective b) with
  | None => []
  | Some effect =>
      WarningChange (bar_warning effect) ::
      match bar_search effect with Some (p, reset_start) => [FilterSubmit p reset_start] | None => [] end
  end.

(** [apply_time]: the events, and the values when the time is accepted. *)
Definition apply_time (side : range_side) (raw_time : jstr) (base : QuickFilterValues)
  : list list_event * option QuickFilterValues :=
  match apply_datetime_time_change raw_time (side_value side base) (side_default_time side) with
  | Warning w => ([WarningChange (Some w)], None)
  | Ok_ combined =>
      let updated := with_side side combined base in
      ([WarningChange None; ValuesChange updated], Some updated)
  end.

Definition commit_date_and_enter (side : range_side) (date_value : jstr) (b : bar) : list list_event :=
  let updated := with_side side (apply_datetime_date_change side date_value (side_value side (b_values b))) (b_values b) in
  [ValuesChange updated; WarningChange None] ++ enter b updated.

(** Leaving a time field, or the enter key in it: nothing happens to a draft
    that is the committed time, or while the field is disabled. *)
Definition time_field (side : range_side) (draft : jstr) (via_enter : bool) (b : bar) : list list_event :=
  let '(date, time) := split_datetime_local (side_value side (b_values b)) in
  if bool_decide (date = []) || seqb draft time then []
  else
    let '(events, updated) := apply_time side draft (b_values b) in
    events ++ match updated with Some values => if via_enter then enter b values else [] | None => [] end.

(** What the reader does to the bar; the copied link leaves a warning when it
    cannot be written to the clipboard. *)
Inductive bar_action : Type :=
| BarRefresh
| SelectField (name : jstr)
| TypeText (v : jstr)
| CheckNot (v : bool)
| TypeNumber (side : range_side) (v : jstr)
| EnterKey
| PickDate (side : range_side) (v : jstr)
| DateEnter (side : range_side) (live : jstr)
| DateEnterLater (side : range_side) (delayed : jstr)
| LeaveTime (side : range_side) (draft : jstr)
| TimeEnter (side : range_side) (draft : jstr)
| CopyFailed.

Definition bar_control (b : bar) : option QuickFilterControlKind :=
  match bar_selected b with Some a => quick_filter_control_kind (attr_type_name a) | None => None end.

(** The control that an action needs; the others are always there. *)
Definition shown (b : bar) (a : bar_action) : bool :=
  match a, bar_control b with
  | TypeText _, Some (text_kind | friendly_id_kind) => true
  | CheckNot _, Some boolean_kind => true
  | TypeNumber _ _, Some numeric_kind => true
  | EnterKey, Some (text_kind | friendly_id_kind | boolean_kind | numeric_kind) => true
  | (PickDate _ _ | DateEnter _ _ | DateEnterLater _ _ | LeaveTime _ _ | TimeEnter _ _), Some datetime_kind => true
  | BarRefresh, _ => negb (b_busy b)
  | CopyFailed, _ => true
  | SelectField _, Some _ => true
  | _, _ => false
  end.

Definition bar_act (b : bar) (a : bar_action) : list list_event :=
  let v := b_values b in
  if negb (shown b a) then []
  else match a with
  | BarRefresh => [WarningChange None; Refresh]
  | SelectField name => [SelectedNameChange name]
  | TypeText t => [ValuesChange {| qf_text := Some t; qf_from := qf_from v; qf_to := qf_to v; qf_not := qf_not v |}]
  | CheckNot c => [ValuesChange {| qf_text := qf_text v; qf_from := qf_from v; qf_to := qf_to v; qf_not := Some c |}]
  | TypeNumber side t => [ValuesChange (with_side side t v)]
  | EnterKey => enter b v
  | PickDate side date =>
      [WarningChange None; ValuesChange (with_side side (apply_datetime_date_change side date (side_value side v)) v)]
  | DateEnter side live => if bool_decide (trim live = []) then [] else commit_date_and_enter side (trim live) b
  | DateEnterLater side delayed =>
      if bool_decide (trim delayed = []) then enter b v else commit_date_and_enter side (trim delayed) b
  | LeaveTime side draft => time_field side draft false b
  | TimeEnter side draft => time_field side draft true b
  | CopyFailed => [WarningChange (Some (u "Could not copy link."))]
  end.
End Bar.

(** ** What the bar searches for *)

(** The values that the page shows after the events. *)
Definition shown_values (events : list list_event) (v : QuickFilterValues) : QuickFilterValues :=
  fold_left (fun v e => match e with ValuesChange v' => v' | _ => v end) events v.

(** A search of the quick filter: from its first record, with the predicates of
    the values. *)
Definition filter_search (utc_of_wall : Z -> Z) (other_dates : jstr -> option Z) (b : bar)
    (values : QuickFilterValues) (p : option SearchPredicate) (reset_start : bool) : Prop :=
  reset_start = true /\ exists attr predicates, bar_selected b = Some attr /\ predicates <> [] /\
    build_quick_filter_predicates utc_of_wall other_dates attr values = Ok_ predicates /\
    p = and_predicates (b_effective b) predicates.

Section BarProofs.
Context (utc_of_wall : Z -> Z) (other_dates : jstr -> option Z).

Lemma enter_values b values : shown_values (enter utc_of_wall other_dates b values) values = values /\
  forall v, shown_values (enter utc_of_wall other_dates b values) v = v.
Proof.
  unfold enter. split; [|intros v]; (destruct (on_quick_filter_enter _ _ _ _ _) as [e|]; [|done]);
    by destruct (bar_search e) as [[p r]|].
Qed.

Lemma enter_searches b values p r : FilterSubmit p r ∈ enter utc_of_wall other_dates b values ->
  filter_search utc_of_wall other_dates b values p r.
Proof.
  unfold enter, on_quick_filter_enter. destruct (bar_selected b) as [attr|] eqn:Hs; [|by intros ?%not_elem_of_nil].
  destruct (build_quick_filter_predicates _ _ attr values) as [[|q qs]|w] eqn:Hb; simpl; intros Hin;
    repeat (apply elem_of_cons in Hin as [[=]|Hin]); try by apply not_elem_of_nil in Hin.
  subst. split; [done|]. by exists attr, (q :: qs).
Qed.

Lemma filter_submit_app p r (l1 l2 : list list_event) : (forall p r, FilterSubmit p r ∉ l1) ->
  FilterSubmit p r ∈ l1 ++ l2 -> FilterSubmit p r ∈ l2.
Proof. intros H [Hin|Hin]%elem_of_app; [by apply H in Hin|done]. Qed.

(** No stale filter: when the bar submits a search, it is with the values that
    the page then shows, also when the same keystroke has just committed them,
    for the field that is selected; it starts at the first record; and it only
    narrows the filter in effect. *)
Theorem bar_searches_shown_values {R : Type} (leaf : SearchPredicate -> R -> bool) b a p r :
  FilterSubmit p r ∈ bar_act utc_of_wall other_dates b a ->
  filter_search utc_of_wall other_dates b (shown_values (bar_act utc_of_wall other_dates b a) (b_values b)) p r /\
  forall record, filter_holds leaf p record = true -> filter_holds leaf (b_effective b) record = true.
Proof.
  intros Hin. assert (Hf : filter_search utc_of_wall other_dates b
    (shown_values (bar_act utc_of_wall other_dates b a) (b_values b)) p r).
  { unfold bar_act in *. destruct (negb (shown b a)); [by apply not_elem_of_nil in Hin|].
    destruct a as [|name|t|c|side t| |side d|side d|side d|side d|side d|]; simpl in *;
      try (repeat (apply elem_of_cons in Hin as [[=]|Hin]); by apply not_elem_of_nil in Hin).
    - rewrite (proj2 (enter_values b _)). by apply enter_searches.
    - case_bool_decide; [by apply not_elem_of_nil in Hin|]. simpl in *.
      rewrite (proj2 (enter_values b _)). do 2 (apply elem_of_cons in Hin as [[=]|Hin]). by apply enter_searches.
    - case_bool_decide; simpl in *; rewrite (proj2 (enter_values b _)); [by apply enter_searches|].
      do 2 (apply elem_of_cons in Hin as [[=]|Hin]). by apply enter_searches.
    - unfold time_field in *. destruct (split_datetime_local _) as [date time].
      destruct (_ || _); [by apply not_elem_of_nil in Hin|]. unfold apply_time in *.
      destruct (apply_datetime_time_change _ _ _); simpl in *;
        repeat (apply elem_of_cons in Hin as [[=]|Hin]); by apply not_elem_of_nil in Hin.
    - unfold time_field in *. destruct (split_datetime_local _) as [date time].
      destruct (_ || _); [by apply not_elem_of_nil in Hin|]. unfold apply_time in *.
      destruct (apply_datetime_time_change _ _ _); simpl in *.
      + rewrite (proj2 (enter_values b _)). do 2 (apply elem_of_cons in Hin as [[=]|Hin]). by apply enter_searches.
      + repeat (apply elem_of_cons in Hin as [[=]|Hin]). by apply not_elem_of_nil in Hin. }
  split; [done|]. destruct Hf as (_ & attr & predicates & _ & _ & _ & ->). intros record.
  rewrite and_predicates_meaning. by intros [? _]%andb_true_iff.
Qed.
End BarProofs.

(** ** A bar and a table in use *)

Definition sample_bar (values : QuickFilterValues) : bar := {|
  b_filterable := [{| attr_name_snake := u "opened_at"; attr_type_name := u "datetime"; attr_required := false;
                      attr_references := None; attr_order := NInt 0; attr_create_default := None; attr_min_value := None;
                      attr_max_value := None |}];
  b_selected_name := u "opened_at"; b_values := values; b_effective := None; b_busy := false |}.

Definition sample_act : bar -> bar_action -> list list_event := bar_act (fun wall => wall) (fun _ => None).

Definition dated : QuickFilterValues :=
  {| qf_text := None; qf_from := Some (u "2024-05-01T00:00:00"); qf_to := None; qf_not := None |}.

Definition since_may : option SearchPredicate :=
  Some (Pred (u "gte") (Some (u "opened_at")) (Some (VStr (u "2024-05-01T00:00:00.000Z"))) None None).

(** The date that the enter key commits is the one that is searched for. *)
Example date_enter_searches :
  sample_act (sample_bar no_values) (DateEnter FromSide (u "2024-05-01")) =
  [ValuesChange dated; WarningChange None; WarningChange None; FilterSubmit since_may true].
Proof. by vm_compute. Qed.

(** The enter key in a time field that was not edited searches for nothing. *)
Example time_enter_unedited_ignored : sample_act (sample_bar dated) (TimeEnter FromSide (u "00:00:00")) = [].
Proof. by vm_compute. Qed.

Lemma bar_searches_shown_values_witness :
  filter_search (fun wall => wall) (fun _ => None) (sample_bar no_values) dated since_may true.
Proof.
  apply (bar_searches_shown_values (fun wall => wall) (fun _ => None) (fun (_ : SearchPredicate) (_ : unit) => true)
           (sample_bar no_values) (DateEnter FromSide (u "2024-05-01")) since_may true).
  change (FilterSubmit since_may true ∈ sample_act (sample_bar no_values) (DateEnter FromSide (u "2024-05-01"))).
  rewrite date_enter_searches. do 3 (apply elem_of_cons; right). apply elem_of_cons. by left.
Defined.

Definition sample_list_column (name : jstr) : ListColumn := {|
  col_name_snake := name; col_type_name := u "text"; col_references := None; col_label := name;
  col_is_friendly_id := false; col_order := NInt 0 |}.

Definition two_columns : list ListColumn := [sample_list_column (u "a"); sample_list_column (u "b")].

Definition sample_headers : list client_rect :=
  [{| r_left := 0; r_top := 0; r_width := 100; r_height := 20 |};
   {| r_left := 100; r_top := 0; r_width := 100; r_height := 20 |}].

(** The table while its first column is dragged behind the second. *)
Definition dragged : table :=
  fst (table_step (GripMove sample_headers 180 5) (fst (table_step (GripDown sample_headers 0 10 5)
    (table_mount two_columns ∅)))).

Lemma table_gestures_sound_witness :
  table_step GripEnd dragged = (fst (table_step GripEnd dragged), [Reorder 0 2]) /\
  Forall (commit_ok two_columns) [Reorder 0 2].
Proof.
  assert (Hr : table_reaches two_columns ∅ dragged).
  { apply TableSteps; [|reflexivity]. apply TableSteps; [apply TableMounted|reflexivity]. }
  split; [by vm_compute|]. exact (proj2 (proj2 (table_gestures_sound two_columns ∅ dragged GripEnd Hr I))).
Defined.
