(* ===== verification/DetailControls.v ===== *)
(** detail/detail_form.tsx with the input of datetime/local_datetime_input.tsx:
    how what the reader does to a field of the form becomes events of
    [RecordPage]. *)
From S2P Require Import Prelude JsString JsValue JsText JsArray RedisRateLimit LocalTime ListColumns QuickFilter Nav Detail.
From S2P Require Import RecordPage.

(** The control of a slot. *)
Inductive control_kind : Type := checkbox_control | datetime_control | text_control | multiline_control | fk_control.

(** [FieldControl] of a compact column, [TextField] of the text section. *)
Definition control_of (text_section : bool) (slot : DetailFieldSlot) : control_kind :=
  if text_section then if seqb (slot_type slot) "multiline_text" then multiline_control else text_control
  else match slot_references slot with
       | Some _ => fk_control
       | None =>
           if seqb (slot_type slot) "boolean" then checkbox_control
           else if seqb (slot_type slot) "datetime" then datetime_control
           else text_control
       end.

(** What a control shows. *)
Inductive control_view : Type :=
| CheckboxView (checked : bool)
| DatetimeView (date time : jstr)
| TextView (text : jstr)
| FkView (label : jstr) (open : FkOpenRelated).

Section Form.
Context (wall_of utc_of_wall : Z -> Z) (other_dates : jstr -> option Z)
        (is_fk_identity : jsval -> bool) (class_field_meta : jstr -> option ClassFieldMeta).

Definition FkReadControl (slot : DetailFieldSlot) (value : jsval) : outcome control_view :=
  match fk_open_related is_fk_identity class_field_meta (slot_references slot) value with
  | Exc e => Exc e
  | Val open => Val (FkView match fk_display_label is_fk_identity value with Some l => l | None => [] end open)
  end.

Definition control_shows (text_section : bool) (slot : DetailFieldSlot) (value : jsval) : outcome control_view :=
  match control_of text_section slot with
  | checkbox_control => Val (CheckboxView (is_true value))
  | datetime_control =>
      let '(date, time) := local_datetime_control_parts wall_of utc_of_wall other_dates value in
      Val (DatetimeView date time)
  | fk_control => FkReadControl slot value
  | _ => Val (TextView (display_field_value wall_of utc_of_wall other_dates (slot_type slot) value))
  end.

(** What the reader does to a control.  A time field is left for another part of
    the page or for the date beside it. *)
Inductive control_action : Type :=
| Check (checked : bool)
| PickDay (date : jstr)
| EnterTime (draft : jstr)
| LeaveTime (draft : jstr) (outside : bool)
| Type_ (raw : jstr)
| FocusIn
| FocusOut.

(** A committed date: null when it is cleared. *)
Definition iso_value (iso : option jstr) : jsval := match iso with Some s => VStr s | None => VNull end.

(** What a time field commits: nothing when its draft is what it shows, while it
    is disabled, or when the draft is no time. *)
Definition time_commit (slot : DetailFieldSlot) (value : jsval) (draft : jstr) : option (jstr * jsval) :=
  let '(date, time) := local_datetime_control_parts wall_of utc_of_wall other_dates value in
  if bool_decide (date = []) || seqb draft time then None
  else match commit_time wall_of utc_of_wall other_dates value draft with
       | None => None
       | Some (iso, _) => Some (slot_name slot, iso_value iso)
       end.

Definition change (c : option (jstr * jsval)) : list detail_event :=
  match c with Some (name, value) => [FieldChange name value] | None => [] end.

Definition field_act (text_section can_update : bool) (slot : DetailFieldSlot) (value : jsval) (a : control_action)
  : list detail_event :=
  let name := slot_name slot in
  if negb (can_update && is_slot_editable slot) then []
  else match control_of text_section slot, a with
  | fk_control, _ => []
  | _, FocusIn => [FieldFocus name]
  | _, FocusOut => [FieldBlur None]
  | checkbox_control, Check checked => [FieldChange name (VBool checked)]
  | datetime_control, PickDay date =>
      [FieldChange name (iso_value (commit_date wall_of utc_of_wall other_dates value date))]
  | datetime_control, EnterTime draft => change (time_commit slot value draft)
  | datetime_control, LeaveTime draft outside =>
      if outside then [FieldBlur (time_commit slot value draft)] else change (time_commit slot value draft)
  | (text_control | multiline_control), Type_ raw =>
      [FieldChange name (if text_section then coerce_text_value raw else coerce_value (slot_type slot) raw)]
  | _, _ => []
  end.

(** The edit in an event. *)
Definition edit_of (e : detail_event) : option (jstr * jsval) :=
  match e with
  | FieldChange name value => Some (name, value)
  | FieldBlur committed => committed
  | _ => None
  end.

(** A value that a form can give a field of a type: null, a text, a truth value
    for a boolean, and a number only for a numeric type, whole for an integer. *)
Definition form_value (type_name : jstr) (v : jsval) : Prop :=
  match v with
  | VNull | VStr _ => True
  | VBool _ => type_name = u "boolean"
  | VNum n => (type_name = u "integer" /\ is_integer n = true) \/ (type_name = u "float" /\ is_finite n = true)
  | _ => False
  end.

Lemma coerce_value_form type_name raw : form_value type_name (coerce_value type_name raw).
Proof.
  unfold coerce_value. case_bool_decide; [done|].
  destruct (seqb type_name (u "integer")) eqn:Hi.
  - apply seqb_eq in Hi. destruct (is_finite _ && is_integer _) eqn:Hn; [|done]. simpl.
    apply andb_true_iff in Hn as [_ Hn]. by left.
  - destruct (seqb type_name (u "float")) eqn:Hf; [|done].
    apply seqb_eq in Hf. destruct (is_finite _) eqn:Hn; [|done]. simpl. by right.
Qed.

Lemma time_commit_form slot value draft name v : time_commit slot value draft = Some (name, v) ->
  name = slot_name slot /\ form_value (slot_type slot) v.
Proof.
  unfold time_commit. destruct (local_datetime_control_parts _ _ _ _) as [date time].
  destruct (_ || _); [done|]. destruct (commit_time _ _ _ _ _) as [[iso t]|]; [|done].
  intros [= <- <-]. split; [done|]. by destruct iso.
Qed.

(** The form edits nothing but what may be edited: an edit comes from a reader
    who may update, of a field of the layout that is editable (the author's, and
    no reference), with a value of a kind that the type of the field takes. *)
Theorem form_edits_editable_fields (layout : DetailLayout) (text_section can_update : bool) slot value a e name v :
  slot ∈ (if text_section then text layout else compact_left layout ++ compact_right layout) ->
  e ∈ field_act text_section can_update slot value a -> edit_of e = Some (name, v) ->
  can_update = true /\ name ∈ editable_field_names layout /\ name = slot_name slot /\ form_value (slot_type slot) v.
Proof.
  intros Hslot He Hv. unfold field_act in He.
  destruct (can_update && is_slot_editable slot) eqn:Hed; simpl in He; [|by apply not_elem_of_nil in He].
  apply andb_true_iff in Hed as [-> Hed]. split; [done|].
  assert (Hname : slot_name slot ∈ editable_field_names layout).
  { unfold editable_field_names. apply list_elem_of_In, in_map, filter_In. split; [|done].
    apply list_elem_of_In. rewrite app_assoc. apply elem_of_app. destruct text_section; [by right|by left]. }
  assert (H : name = slot_name slot /\ form_value (slot_type slot) v).
  { destruct (control_of text_section slot) eqn:Hc, a; simpl in He;
      try (apply not_elem_of_nil in He; done);
      try (apply list_elem_of_singleton in He as ->; simpl in Hv; try done).
    all: try (injection Hv as <- <-; split; [done|]).
    - unfold control_of in Hc. repeat case_match; try done. by apply seqb_eq.
    - by destruct (commit_date _ _ _ _ _).
    - unfold change in He. destruct (time_commit slot value draft) as [[m w]|] eqn:Ht; [|by apply not_elem_of_nil in He].
      apply list_elem_of_singleton in He as ->. simpl in Hv. injection Hv as -> ->. by apply time_commit_form in Ht.
    - destruct outside.
      + apply list_elem_of_singleton in He as ->. simpl in Hv. by apply time_commit_form in Hv.
      + unfold change in He. destruct (time_commit slot value draft) as [[m w]|] eqn:Ht; [|by apply not_elem_of_nil in He].
        apply list_elem_of_singleton in He as ->. simpl in Hv. injection Hv as -> ->. by apply time_commit_form in Ht.
    - destruct text_section; [unfold coerce_text_value; by case_bool_decide|apply coerce_value_form].
    - destruct text_section; [unfold coerce_text_value; by case_bool_decide|apply coerce_value_form]. }
  destruct H as [-> H]. done.
Qed.
End Form.

(** ** A form in use *)

Definition count_slot : DetailFieldSlot := {|
  slot_name := u "count"; slot_type := u "integer"; slot_label := u "Count"; slot_references := None;
  slot_kind_of := author |}.

Definition count_layout : DetailLayout :=
  {| compact := [count_slot]; text := []; compact_left := [count_slot]; compact_right := [] |}.

Definition type_count (raw : jstr) : list detail_event :=
  field_act (fun t => t) (fun t => t) (fun _ => None) false true count_slot VNull (Type_ raw).

Example typed_numbers :
  type_count (u "42") = [FieldChange (u "count") (VNum (NInt 42))] /\
  type_count (u "4x") = [FieldChange (u "count") (VStr (u "4x"))] /\
  type_count (u "") = [FieldChange (u "count") VNull].
Proof. by vm_compute. Qed.

Lemma form_edits_editable_fields_witness :
  type_count (u "42") = [FieldChange (u "count") (VNum (NInt 42))] /\
  u "count" ∈ editable_field_names count_layout.
Proof.
  split; [by vm_compute|].
  apply (form_edits_editable_fields (fun t => t) (fun t => t) (fun _ => None) count_layout false true count_slot VNull
           (Type_ (u "42")) (FieldChange (u "count") (VNum (NInt 42))) (u "count") (VNum (NInt 42)));
    [apply elem_of_cons; by left| |reflexivity].
  assert (H : type_count (u "42") = [FieldChange (u "count") (VNum (NInt 42))]) by by vm_compute.
  unfold type_count in H. rewrite H. apply elem_of_cons. by left.
Defined.
