(* ===== verification/RecordChrome.v ===== *)
(** detail/detail_context_bar.tsx, detail/use_record_editor_undo.ts, the layout
    of detail/detail_form.tsx and the widgets of datetime/local_datetime_input.tsx
    and time_24_field.tsx: what is around the fields of a record page, how keys
    and the pointer become events of [RecordPage], and what a date and its time
    show while they are edited. *)
From S2P Require Import Prelude JsString JsValue JsText JsArray RedisRateLimit LocalTime ListColumns QuickFilter Nav Detail.
From S2P Require Import RecordPage DetailControls.

(** ** Keys and the pointer *)

(** A key with its modifiers; whether its target is in the form. *)
Record key_press : Type := {
  ctrl_key : bool;
  meta_key : bool;
  shift_key : bool;
  key_text : jstr;
  key_in_form : bool;
}.

(** [document.activeElement]: whether it is in the form and an HTML element, and
    what its field commits when it loses the focus. *)
Record focus : Type := {
  focus_in_form : bool;
  focus_html : bool;
  focus_commits : option (jstr * jsval);
}.

(** The focus after an element was left for the page. *)
Definition no_focus : focus := {| focus_in_form := false; focus_html := true; focus_commits := None |}.

Definition is_command (k : key_press) (letter : jstr) : bool :=
  (ctrl_key k || meta_key k) && seqb (to_lower (key_text k)) letter.

(** [on_keydown] of the form, for the active element [f]. *)
Definition undo_keydown (enabled : bool) (f : focus) (k : key_press) : list detail_event :=
  if negb enabled then []
  else if negb (is_command k (u "z")) || shift_key k then []
  else if negb (key_in_form k) then []
  else if negb (focus_in_form f) then []
  else [UndoKey].

(** [on_pointer_down] of the document: the active field is left, and its chunk
    closed; the focus after it. *)
Definition outside_press (enabled target_in_form : bool) (f : focus) : list detail_event * focus :=
  if negb enabled || target_in_form then ([], f)
  else if focus_html f && focus_in_form f then ([FieldBlur (focus_commits f); FieldBlur None], no_focus)
  else ([], f).

(** [on_keydown] of the window: the page-level save. *)
Definition save_keydown (can_update : bool) (f : focus) (k : key_press) : list detail_event :=
  if negb can_update then []
  else if negb (is_command k (u "s")) then []
  else [Save (focus_html f && focus_in_form f) (focus_commits f)].

(** ** detail_context_bar.tsx *)

Section Bar.
Context (generated_update : jstr -> ZodSchema) (class_field_meta : jstr -> option ClassFieldMeta).

#[local] Notation detail_step := (detail_step generated_update class_field_meta).
#[local] Notation detail_run := (detail_run generated_update class_field_meta).

Definition dirty (s : detail_page) : bool :=
  is_dirty (baseline (d_editor s)) (draft (d_editor s)) (editable s).

Definition save_enabled (s : detail_page) : bool := d_can_update s && dirty s.

Inductive save_icon : Type := Save_ | SaveCheck.

Record bar_view : Type := {
  bar_title : jstr;
  bar_icon : save_icon;
  bar_save_title : jstr;
  bar_save_disabled : bool;
  bar_copy_title : jstr;
  bar_refresh_disabled : bool;
}.

Definition DetailContextBar (class_display_name title_token : jstr) (copy_status : option jstr) (s : detail_page)
  : bar_view := {|
  bar_title := class_display_name ++ u " " ++ title_token;
  bar_icon := if dirty s then Save_ else SaveCheck;
  bar_save_title := if dirty s then u "Save" else u "Save (no changes)";
  bar_save_disabled := negb (save_enabled s) || d_save_pending s;
  bar_copy_title := match copy_status with Some t => t | None => u "Copy link" end;
  bar_refresh_disabled := d_pending_refresh s || negb (d_idle s) |}.

(** A click on Save reaches the page when the button is enabled. *)
Definition save_click (f : focus) (s : detail_page) : list detail_event :=
  if negb (save_enabled s) || d_save_pending s then [] else [Save (focus_html f && focus_in_form f) (focus_commits f)].

(** [copy_link]: the address that is written to the clipboard, and the status
    that is shown for a while. *)
Definition absolute_url (origin copy_url : jstr) : jstr :=
  if starts_with (u "http://") copy_url || starts_with (u "https://") copy_url then copy_url
  else origin ++ (if starts_with (u "/") copy_url then copy_url else u "/" ++ copy_url).

Definition copy_status (written : outcome unit) : jstr :=
  match written with Val _ => u "Copied" | Exc _ => u "Copy failed" end.

Definition MENU_ITEMS : list jstr :=
  map (fun item => item ++ [8230]) [u "Print"; u "Export"; u "Assign"; u "Follow"; u "Delete"].

(** The menu: open or not, after a click on its button or a press of the pointer. *)
Definition menu_step (button_click : bool) (press_inside : bool) (menu_open : bool) : bool :=
  if button_click then negb menu_open else if menu_open && negb press_inside then false else menu_open.

(** ** Lemmas *)

Lemma close_active_chunk_idemp e : close_active_chunk (close_active_chunk e) = close_active_chunk e.
Proof. done. Qed.

Lemma set_editor_twice f g s : set_editor f (set_editor g s) = set_editor (fun e => f (g e)) s.
Proof. done. Qed.

Lemma settled_step e s : settled s -> d_pending_refresh (detail_handle generated_update class_field_meta e s) = d_pending_refresh s ->
  d_idle (detail_handle generated_update class_field_meta e s) = d_idle s ->
  detail_step e s = detail_handle generated_update class_field_meta e s.
Proof. intros Hs Hp Hi. unfold detail_step. by apply (settled_effect s). Qed.

(** Leaving a field is one step of the editor. *)
Lemma blur_step committed s : settled s -> detail_step (FieldBlur committed) s = set_editor (blur_active committed) s.
Proof. intros Hs. by apply (settled_step (FieldBlur committed)). Qed.

Lemma outside_press_run f s : settled s -> focus_html f && focus_in_form f = true ->
  detail_run (fst (outside_press true false f)) s = set_editor (blur_active (focus_commits f)) s.
Proof.
  intros Hs Hf. unfold outside_press. cbn [negb orb]. rewrite Hf. cbn [fst]. unfold detail_run. cbn [fold_left].
  rewrite (blur_step _ s Hs). rewrite blur_step by exact Hs. by rewrite set_editor_twice.
Qed.

Lemma save_step focused committed s : settled s ->
  detail_step (Save focused committed) s = activate_save generated_update class_field_meta committed focused s.
Proof.
  intros Hs. destruct (activate_save_router generated_update class_field_meta committed focused s) as [Hp Hi].
  by apply (settled_step (Save focused committed)).
Qed.

End Bar.

(** Undo belongs to the editor: with the focus or the key elsewhere, or with
    Shift, nothing happens; in it, for a reader who may update, it is the undo of
    the page.  After a press outside of the form the focus has left it. *)
Lemma undo_scoped enabled f k :
  (undo_keydown enabled f k <> [] <->
     enabled = true /\ is_command k (u "z") = true /\ shift_key k = false /\
     key_in_form k = true /\ focus_in_form f = true) /\
  (undo_keydown enabled f k <> [] -> undo_keydown enabled f k = [UndoKey]) /\
  (focus_html f = true -> undo_keydown enabled (snd (outside_press enabled false f)) k = []).
Proof.
  unfold undo_keydown, outside_press.
  destruct enabled, (is_command k (u "z")), (shift_key k), (key_in_form k), (focus_in_form f) eqn:Hf, (focus_html f) eqn:Hh;
    cbn [negb orb andb snd focus_in_form no_focus]; rewrite ?Hf; naive_solver.
Qed.

(** A copied link is a whole address. *)
Lemma absolute_url_whole origin copy_url :
  absolute_url origin copy_url = copy_url \/ exists path, absolute_url origin copy_url = origin ++ u "/" ++ path.
Proof.
  unfold absolute_url. destruct (_ || _); [by left|]. right.
  destruct (starts_with (u "/") copy_url) eqn:Hs; [|by exists copy_url].
  apply starts_with_spec in Hs as [path ->]. by exists path.
Qed.

(** ** The layout of detail_form.tsx *)

Section Layout.
Context (wall_of utc_of_wall : Z -> Z) (other_dates : jstr -> option Z)
        (is_fk_identity : jsval -> bool) (class_field_meta : jstr -> option ClassFieldMeta).

Record field_view : Type := {
  field_label : jstr;
  field_editable : bool;
  field_control : control_view;
}.

(** [CompactField] and [TextField] *)
Definition field_row (text_section can_update : bool) (record draft : fields) (slot : DetailFieldSlot)
  : outcome field_view :=
  match control_shows wall_of utc_of_wall other_dates is_fk_identity class_field_meta text_section slot
          (slot_value can_update record draft slot) with
  | Exc e => Exc e
  | Val control => Val {|
      field_label := if text_section then slot_label slot else slot_label slot ++ u ":";
      field_editable := can_update && is_slot_editable slot && match control with FkView _ _ => false | _ => true end;
      field_control := control |}
  end.

(** [CompactColumn], and the list of text fields. *)
Fixpoint field_rows (text_section can_update : bool) (record draft : fields) (slots : list DetailFieldSlot)
  : outcome (list field_view) :=
  match slots with
  | [] => Val []
  | slot :: slots =>
      match field_row text_section can_update record draft slot with
      | Exc e => Exc e
      | Val row =>
          match field_rows text_section can_update record draft slots with Exc e => Exc e | Val rows => Val (row :: rows) end
      end
  end.

(** The two columns and the text fields; the section of these is there when
    there are any. *)
Definition DetailForm (layout : DetailLayout) (can_update : bool) (record draft : fields)
  : outcome (list field_view * list field_view * option (list field_view)) :=
  match field_rows false can_update record draft (compact_left layout) with
  | Exc e => Exc e
  | Val left_rows =>
      match field_rows false can_update record draft (compact_right layout) with
      | Exc e => Exc e
      | Val right_rows =>
          match field_rows true can_update record draft (text layout) with
          | Exc e => Exc e
          | Val text_rows => Val (left_rows, right_rows, match text_rows with [] => None | _ => Some text_rows end)
          end
      end
  end.

Lemma field_rows_spec text_section can_update record draft slots rows :
  field_rows text_section can_update record draft slots = Val rows ->
  Forall2 (fun slot row => field_row text_section can_update record draft slot = Val row) slots rows.
Proof.
  revert rows. induction slots as [|slot slots IH]; intros rows H; simpl in H; [by injection H as <-|].
  destruct (field_row text_section can_update record draft slot) as [row|e] eqn:Hr; [|done].
  destruct (field_rows _ _ _ _ slots) as [rest|e] eqn:Hs; [|done]. injection H as <-. constructor; auto.
Qed.

(** Without the permission to update, no control takes input. *)
Lemma form_read_only layout record draft left_rows right_rows texts :
  DetailForm layout false record draft = Val (left_rows, right_rows, texts) ->
  Forall (fun row => field_editable row = false) (left_rows ++ right_rows ++ match texts with Some t => t | None => [] end).
Proof.
  assert (H : forall ts slots rows, field_rows ts false record draft slots = Val rows ->
    Forall (fun row => field_editable row = false) rows).
  { intros ts slots rows Hr%field_rows_spec. induction Hr as [|slot row slots rows Hr _ IH]; constructor; [|done].
    unfold field_row in Hr. destruct (control_shows _ _ _ _ _ _ _ _) as [c|e]; [|done]. by injection Hr as <-. }
  unfold DetailForm. destruct (field_rows false _ _ _ (compact_left layout)) as [l|] eqn:Hl; [|done].
  destruct (field_rows false _ _ _ (compact_right layout)) as [r|] eqn:Hr; [|done].
  destruct (field_rows true _ _ _ (text layout)) as [t|] eqn:Ht; [|done]. intros [= <- <- <-].
  apply Forall_app. split; [by eapply H|]. apply Forall_app. split; [by eapply H|].
  destruct t; [constructor|]. by eapply H.
Qed.

(** ** The widget of a date and its time *)

(** The committed value, the parts shown, the key of the date input, and the
    draft of the time field. *)
Record datetime_widget : Type := {
  dw_value : jsval;
  dw_parts : jstr * jstr;
  dw_key : Z;
  dw_draft : jstr;
}.

#[local] Notation parts_of := (local_datetime_control_parts wall_of utc_of_wall other_dates).

Definition widget_mount (value : jsval) : datetime_widget :=
  {| dw_value := value; dw_parts := parts_of value; dw_key := 0; dw_draft := snd (parts_of value) |}.

(** Whether the effect on [value] leaves the parts alone; for the other values
    it sets the parts that they have. *)
Definition same_value (v w : jsval) : bool :=
  match v, w with VStr a, VStr b => seqb a b | VNull, VNull | VUndef, VUndef => true | _, _ => false end.

(** The effects on [value] of the pair, then of the time field: a time that
    changed replaces the draft. *)
Definition widget_value (value : jsval) (w : datetime_widget) : datetime_widget :=
  let parts := if same_value value (dw_value w) then dw_parts w else parts_of value in
  {| dw_value := value; dw_parts := parts; dw_key := dw_key w;
     dw_draft := if seqb (snd parts) (snd (dw_parts w)) then dw_draft w else snd parts |}.

Definition set_draft (draft : jstr) (w : datetime_widget) : datetime_widget :=
  {| dw_value := dw_value w; dw_parts := dw_parts w; dw_key := dw_key w; dw_draft := draft |}.

(** [attempt_commit]; the page stores the value that [on_change] is given. *)
Definition attempt_commit (w : datetime_widget) : datetime_widget :=
  if seqb (dw_draft w) (snd (dw_parts w)) then w
  else match commit_time wall_of utc_of_wall other_dates (dw_value w) (dw_draft w) with
       | None => set_draft (snd (dw_parts w)) w
       | Some (iso, shown) => widget_value (iso_value iso) (set_draft shown w)
       end.

(** [onBlur] of the pair, after that of the time field. *)
Definition pair_blur (outside : bool) (w : datetime_widget) : datetime_widget :=
  let w := attempt_commit w in
  if outside then
    let '(key, parts) := sync_datetime_chrome_from_committed wall_of utc_of_wall other_dates (dw_key w) (dw_value w) in
    {| dw_value := dw_value w; dw_parts := parts; dw_key := key; dw_draft := dw_draft w |}
  else w.

Inductive widget_event : Type :=
| NewValue (value : jsval)
| PickDate (date : jstr)
| TypeTime (draft : jstr)
| EnterKey
| LeaveField (outside : bool).

(** The time field is disabled while there is no date. *)
Definition widget_step (e : widget_event) (w : datetime_widget) : datetime_widget :=
  match e with
  | NewValue value => widget_value value w
  | PickDate date => widget_value (iso_value (commit_date wall_of utc_of_wall other_dates (dw_value w) date)) w
  | TypeTime draft => if bool_decide (fst (dw_parts w) = []) then w else set_draft draft w
  | EnterKey => if bool_decide (fst (dw_parts w) = []) then w else attempt_commit w
  | LeaveField outside => pair_blur outside w
  end.

Definition widget_run (es : list widget_event) (w : datetime_widget) : datetime_widget :=
  fold_left (fun w e => widget_step e w) es w.

Lemma widget_value_parts value w : dw_parts w = parts_of (dw_value w) ->
  dw_parts (widget_value value w) = parts_of value.
Proof.
  intros H. simpl. destruct (same_value value (dw_value w)) eqn:Hs; [|done]. rewrite H.
  destruct value, (dw_value w); try done. by apply seqb_eq in Hs as ->.
Qed.

Lemma attempt_commit_parts w : dw_parts w = parts_of (dw_value w) ->
  dw_parts (attempt_commit w) = parts_of (dw_value (attempt_commit w)).
Proof.
  intros H. unfold attempt_commit. destruct (seqb _ _); [done|].
  destruct (commit_time _ _ _ _ _) as [[iso shown]|]; [|done]. by rewrite widget_value_parts.
Qed.

(** The pair shows the committed value, whatever is picked, typed, entered or
    left; a draft that is no time is dropped when the field is left. *)
Lemma widget_shows_value value es :
  let w := widget_run es (widget_mount value) in
  dw_parts w = parts_of (dw_value w) /\
  forall draft, commit_time wall_of utc_of_wall other_dates (dw_value w) draft = None ->
    fst (dw_parts w) <> [] ->
    let w' := widget_run [TypeTime draft; LeaveField true] w in
    dw_value w' = dw_value w /\ dw_parts w' = dw_parts w /\ dw_draft w' = snd (dw_parts w) /\ dw_key w' = dw_key w + 1.
Proof.
  intros w. assert (H : dw_parts w = parts_of (dw_value w)).
  { unfold w, widget_run. assert (H0 : dw_parts (widget_mount value) = parts_of (dw_value (widget_mount value))) by done.
    revert H0. generalize (widget_mount value). induction es as [|e es IH]; intros w0 H0; simpl; [done|]. apply IH.
    destruct e as [v|d|t| |o]; cbn [widget_step];
      [by rewrite widget_value_parts|by rewrite widget_value_parts|by case_bool_decide| |].
    - case_bool_decide; [done|by apply attempt_commit_parts].
    - unfold pair_blur. destruct o; [done|by apply attempt_commit_parts]. }
  split; [done|]. intros draft Hc Hd. unfold widget_run. cbn [fold_left widget_step].
  rewrite bool_decide_false by done. unfold pair_blur, attempt_commit, sync_datetime_chrome_from_committed. simpl.
  destruct (seqb draft (snd (dw_parts w))) eqn:He; simpl.
  - apply seqb_eq in He as ->. by split_and!.
  - rewrite Hc. simpl. by split_and!.
Qed.
End Layout.

(** A zone that skips the hour after the instant 3600000. *)
Definition gap_wall (v : Z) : Z := if v <? 3600000 then v else v + 3600000.
Definition gap_utc (wall : Z) : Z := if wall <? 7200000 then wall else wall - 3600000.

(** A time that the clock skips is stored as the one an hour later.  When this
    is the one already stored, nothing changes, and the field goes on showing
    the time that was typed. *)
Example skipped_time_stays :
  let value := VStr (u "1970-01-01T01:30:00.000Z") in
  let w := widget_run gap_wall gap_utc (fun _ => None) [TypeTime (u "1:30"); LeaveField true]
             (widget_mount gap_wall gap_utc (fun _ => None) value) in
  dw_value w = value /\ dw_parts w = (u "1970-01-01", u "02:30:00") /\ dw_draft w = u "01:30:00".
Proof. vm_compute. split_and!; reflexivity. Qed.

