(* ===== verification/ListChrome.v ===== *)
(** What the list page shows: the table of list/basic_list.tsx, the pager of
    list/list_pagination.tsx, the panel of list/filter_chrome.tsx and the bar of
    list/list_context_bar.tsx, as views of the states of [ListColumns],
    [Pagination], [FilterEditor] and [ListControls]. *)
From S2P Require Import Prelude JsString JsValue JsText JsArray RedisRateLimit LocalTime ListColumns Pagination QuickFilter.
From S2P Require Import FilterEditor PredicateText Nav Detail DestinationList ListControls.

(** ** The table (basic_list.tsx) *)

Record header_view : Type := {
  header_attribute : jstr;
  header_width : Z;
  header_aria_sort : option sort_direction;
  header_aria_label : jstr;
  header_title : jstr;
}.

Record cell_view : Type := { cell_of : cell; cell_hint : option jstr }.

(** The body: a line that says why it is empty, an alert when the search
    failed, or the rows. *)
Inductive body_view : Type :=
| EmptyBody (text : jstr) (is_alert : bool)
| Rows (rows : list (jstr * list cell_view)).

Record table_view : Type := {
  table_width : Z;
  table_headers : list header_view;
  table_body : body_view;
}.

Section Table.
Context (wall_of utc_of_wall : Z -> Z) (other_dates : jstr -> option Z)
        (is_fk_identity : jsval -> bool) (class_field_meta : jstr -> option ClassFieldMeta).

Definition is_primary (sort : list ListSortSpec) (column : ListColumn) : bool :=
  match sort with primary :: _ => seqb (sort_attribute primary) (col_name_snake column) | [] => false end.

Definition table_header (widths : gmap jstr num) (sort : list ListSortSpec) (column : ListColumn) : header_view :=
  let sort_label := sort_accessible_label sort (col_name_snake column) in
  {| header_attribute := col_name_snake column;
     header_width := width_for_attribute widths (col_name_snake column) (col_type_name column);
     header_aria_sort := if is_primary sort column then sort_dir <$> head sort else None;
     header_aria_label := match sort_label with
                          | None => u "Sort by " ++ col_label column
                          | Some label => col_label column ++ u ", " ++ label
                          end;
     header_title := match sort_label with
                     | None => u "Sort by " ++ col_label column
                     | Some label => col_label column ++ u " (" ++ label ++ u ")"
                     end |}.

Fixpoint row_cells (class_name : jstr) (columns : list ListColumn) (row : fields) : outcome (list cell_view) :=
  match columns with
  | [] => Val []
  | column :: columns =>
      let value := fields_get (col_name_snake column) row in
      match ListCell wall_of utc_of_wall other_dates is_fk_identity class_field_meta class_name column value with
      | Exc e => Exc e
      | Val c =>
          match row_cells class_name columns row with
          | Exc e => Exc e
          | Val cells =>
              Val ({| cell_of := c;
                      cell_hint := cell_title wall_of utc_of_wall other_dates is_fk_identity (col_type_name column) value |}
                   :: cells)
          end
      end
  end.

Fixpoint table_rows (class_name : jstr) (columns : list ListColumn) (index : Z) (rows : list fields)
  : outcome (list (jstr * list cell_view)) :=
  match rows with
  | [] => Val []
  | row :: rows =>
      match row_cells class_name columns row with
      | Exc e => Exc e
      | Val cells =>
          match table_rows class_name columns (index + 1) rows with
          | Exc e => Exc e
          | Val rest => Val ((row_key row index, cells) :: rest)
          end
      end
  end.

Definition empty_body (failed : bool) : body_view :=
  if failed then EmptyBody (u "This search could not be run. Previous results were cleared.") true
  else EmptyBody (u "No records match this list.") false.

Definition BasicList (class_name : jstr) (columns : list ListColumn) (widths : gmap jstr num)
    (sort : list ListSortSpec) (rows : list fields) (failed : bool) : outcome table_view :=
  let view body := {| table_width := total_column_widths_px columns widths;
                      table_headers := map (table_header widths sort) columns; table_body := body |} in
  match rows with
  | [] => Val (view (empty_body failed))
  | _ =>
      match table_rows class_name columns 0 rows with
      | Exc e => Exc e
      | Val rows => Val (view (Rows rows))
      end
  end.

Lemma row_cells_length class_name columns row cells :
  row_cells class_name columns row = Val cells -> length cells = length columns.
Proof.
  revert cells. induction columns as [|c columns IH]; intros cells H; simpl in H; [by injection H as <-|].
  destruct (ListCell _ _ _ _ _ _ _ _); [|done]. destruct (row_cells _ columns row) as [cs|]; [|done].
  injection H as <-. simpl. by rewrite (IH cs).
Qed.

Lemma table_rows_spec class_name columns index rows view : table_rows class_name columns index rows = Val view ->
  length view = length rows /\ Forall (fun r => length r.2 = length columns) view.
Proof.
  revert index view. induction rows as [|row rows IH]; intros index view H; simpl in H; [by injection H as <-|].
  destruct (row_cells _ columns row) as [cells|] eqn:Hc; [|done].
  destruct (table_rows _ columns (index + 1) rows) as [rest|] eqn:Hr; [|done]. injection H as <-.
  destruct (IH _ _ Hr) as [Hl Hf]. split; [by simpl; rewrite Hl|]. constructor; [by eapply row_cells_length|done].
Qed.

Lemma sum_widths widths columns acc :
  fold_left (fun sum c => sum + width_for_attribute widths (col_name_snake c) (col_type_name c)) columns acc =
  acc + sumZ (map (fun c => width_for_attribute widths (col_name_snake c) (col_type_name c)) columns).
Proof. revert acc. induction columns as [|c columns IH]; intros acc; simpl; [lia|]. rewrite IH. lia. Qed.

(** The table has a header for each column, as wide as they are together; at
    most the header of the first sort key is marked, when the columns differ;
    every row has a cell in each column; without rows it says why. *)
Lemma list_table_shape class_name columns widths sort rows failed view :
  NoDup (map col_name_snake columns) -> BasicList class_name columns widths sort rows failed = Val view ->
  map header_attribute (table_headers view) = map col_name_snake columns /\
  table_width view = sumZ (map header_width (table_headers view)) /\
  (length (omap header_aria_sort (table_headers view)) <= 1)%nat /\
  match table_body view with
  | EmptyBody _ is_alert => rows = [] /\ is_alert = failed
  | Rows body => length body = length rows /\ Forall (fun r => length r.2 = length columns) body
  end.
Proof.
  intros Hnd H. assert (Hv : table_headers view = map (table_header widths sort) columns /\
    table_width view = total_column_widths_px columns widths /\
    match table_body view with
    | EmptyBody _ is_alert => rows = [] /\ is_alert = failed
    | Rows body => length body = length rows /\ Forall (fun r => length r.2 = length columns) body
    end).
  { unfold BasicList in H. destruct rows as [|row rows]; [injection H as <-; by destruct failed|].
    destruct (table_rows _ columns 0 (row :: rows)) as [body|] eqn:Hr; [|done]. injection H as <-.
    split_and!; [done|done|]. by apply table_rows_spec in Hr. }
  destruct Hv as (Hh & Hw & Hb). rewrite Hh, Hw. split_and!; [by rewrite map_map| | |done].
  - unfold total_column_widths_px. rewrite sum_widths, map_map. simpl. lia.
  - clear -Hnd. induction columns as [|c columns IH]; [simpl; lia|]. cbn [map omap list_omap].
    simpl in Hnd. apply NoDup_cons in Hnd as [Hni Hnd]. specialize (IH Hnd).
    unfold table_header at 1. cbn [header_aria_sort].
    destruct (is_primary sort c) eqn:Hp; [|exact IH]. destruct sort as [|primary rest]; [done|]. simpl in Hp.
    apply seqb_eq in Hp. assert (Hnone : omap header_aria_sort (map (table_header widths (primary :: rest)) columns) = []).
    { clear IH Hnd. induction columns as [|d columns IH]; simpl; [done|]. simpl in Hni.
      apply not_elem_of_cons in Hni as [Hne Hni]. rewrite (proj2 (seqb_neq _ _)) by congruence. by apply IH. }
    change (list_omap _ _ header_aria_sort) with (omap header_aria_sort). rewrite Hnone. simpl. lia.
Qed.
End Table.

(** ** The pager (list_pagination.tsx) *)

(** The draft of the starting record, and the locales of the count. *)
Record pager_state : Type := {
  draft_start : jstr;
  count_locales : option (list jstr);
}.

Definition shown_start (p : pager_props) : jstr := num_to_string (start_from_offset (pager_offset p)).

Definition pager_mount (p : pager_props) : pager_state := {| draft_start := shown_start p; count_locales := None |}.

Definition set_draft_start (draft : jstr) (s : pager_state) : pager_state :=
  {| draft_start := draft; count_locales := count_locales s |}.

(** The effect that reads [navigator.languages], else [navigator.language]. *)
Definition locales_effect (languages : option (list jstr)) (language : jstr) (s : pager_state) : pager_state :=
  {| draft_start := draft_start s;
     count_locales := match languages with
                      | Some ((_ :: _) as l) => Some l
                      | _ => if bool_decide (language = []) then count_locales s else Some [language]
                      end |}.

Inductive pager_event : Type :=
| PagerProps (p : pager_props)
| PagerLanguages (languages : option (list jstr)) (language : jstr)
| TypeStart (text : jstr)
| StartKey (key : jstr)
| StartBlur
| PagerButton (a : pager_action).

(** The pager with its properties: the state after an event, and the change of
    the page that it asks for.  The effect on the properties sets the draft. *)
Definition pager_step (e : pager_event) (p : pager_props) (s : pager_state)
  : pager_props * pager_state * option paging_change :=
  match e with
  | PagerProps p' =>
      (p', if (pager_offset p' =? pager_offset p) && (pager_limit p' =? pager_limit p) && (pager_total p' =? pager_total p)
           then s else set_draft_start (shown_start p') s, None)
  | PagerLanguages languages language => (p, locales_effect languages language s, None)
  | TypeStart text => if pager_busy p then (p, s, None) else (p, set_draft_start (digits_only text) s, None)
  | StartKey key =>
      if pager_busy p || negb (seqb key "Enter") then (p, s, None)
      else
        let next_start := clamp_starting_record (inl (draft_start s)) (pager_total p) (pager_limit p) in
        (p, set_draft_start (num_to_string next_start) s, commit_start p (draft_start s))
  | StartBlur => (p, set_draft_start (shown_start p) s, None)
  | PagerButton a => (p, s, match a with CommitStart _ => None | _ => pager_handle p a end)
  end.

Record pager_view : Type := {
  view_per_page : Z;
  view_options : list Z;
  view_count : jstr;
  view_start : jstr;
  view_prev_disabled : bool;
  view_next_disabled : bool;
  view_busy : bool;
}.

Definition ListPagination (number_format : option (list jstr) -> Z -> outcome jstr) (p : pager_props) (s : pager_state)
  : pager_view := {|
  view_per_page := pager_limit p;
  view_options := PER_PAGE_OPTIONS;
  view_count := format_record_count number_format (pager_total p) (count_locales s) ++ u " records";
  view_start := draft_start s;
  view_prev_disabled := negb (prev_enabled p);
  view_next_disabled := negb (next_enabled p);
  view_busy := pager_busy p |}.

(** What stands in the field of the starting record is digits only, and after
    the enter key it is the number of a record that starts a search, or the one
    that is shown. *)
Lemma digits_only_digits raw : forallb is_digit (digits_only raw) = true.
Proof.
  unfold digits_only. apply forallb_forall. intros c Hc%list_elem_of_In.
  by apply list_elem_of_filter in Hc as [Hc _].
Qed.

Lemma pager_draft_commits p s : pager_busy p = false ->
  let '(_, s', change) := pager_step (StartKey (u "Enter")) p s in
  let start := clamp_starting_record (inl (draft_start s)) (pager_total p) (pager_limit p) in
  draft_start s' = num_to_string start /\
  match change with
  | Some c => next_offset c = offset_from_start start /\ next_offset c <> pager_offset p /\ next_limit c = pager_limit p
  | None => draft_start s' = shown_start p
  end.
Proof.
  intros Hb. cbn [pager_step]. rewrite Hb. cbn [orb]. change (seqb (u "Enter") "Enter") with true. cbn [negb].
  split; [done|]. unfold commit_start. destruct (Z.eqb_spec (offset_from_start
    (clamp_starting_record (inl (draft_start s)) (pager_total p) (pager_limit p))) (pager_offset p)) as [He|Hne].
  - unfold shown_start. cbn [draft_start set_draft_start]. f_equal. unfold offset_from_start, start_from_offset in *. lia.
  - by split_and!.
Qed.

(** ** The panel (filter_chrome.tsx) *)

(** The control of a value: a check box, a number, a date with its time, or a
    text. *)
Inductive value_view : Type :=
| CheckedValue (checked : bool)
| NumberValue (text : jstr)
| DatetimeValue (date time : jstr) (time_disabled : bool)
| TextValue (text : jstr).

Record editor_row : Type := {
  row_id : jstr;
  row_depth : nat;
  row_parent_op : option logical_op;
  row_operator : jstr;
  row_operators : list (jstr * jstr);
  row_placeholder : bool;                          (* the choice of no operator *)
  row_field : option (jstr * list (jstr * jstr));  (* a leaf: its field and the choices *)
  row_value : option value_view;
}.

Section Panel.
Context (wall_of utc_of_wall : Z -> Z) (other_dates : jstr -> option Z) (String_ : jsval -> jstr)
        (compare_display_name : jstr -> jstr -> Z) (filterable : list AttributeFieldMeta).

Definition ValueControl (type_name : jstr) (value : jsval) : value_view :=
  let text := match value with VUndef | VNull => [] | v => String_ v end in
  match quick_filter_control_kind type_name with
  | Some boolean_kind => CheckedValue (is_true value)
  | Some numeric_kind => NumberValue text
  | Some datetime_kind =>
      let as_string := match value with VStr s => s | _ => [] end in
      let '(date, time) :=
        split_datetime_local (Some (iso_to_local_combined wall_of utc_of_wall other_dates as_string)) in
      DatetimeValue date time (bool_decide (date = []))
  | _ => TextValue (match value with VStr s => s | _ => text end)
  end.

Definition operator_choices (ops : list jstr) : list (jstr * jstr) := map (fun op => (op, operator_display_name op)) ops.

Definition LeafRow (depth : nat) (parent_op : option logical_op) (id : jstr) (attribute op : option jstr) (value : jsval)
  : editor_row :=
  let type_name := match attribute with Some a => type_of_attribute filterable a | None => None end in
  {| row_id := id; row_depth := depth; row_parent_op := parent_op;
     row_operator := match op with Some o => o | None => [] end;
     row_operators := operator_choices (eligible_ops_for_row compare_display_name (EditorLeaf id attribute op value)
                                          parent_op type_name);
     row_placeholder := match op with None => true | Some _ => false end;
     row_field := Some (match attribute with Some a => a | None => [] end,
       ([], u "Field" ++ [8230]) ::
       map (fun attr => (attr_name_snake attr, attribute_display_label (attr_name_snake attr))) filterable);
     row_value := match op, type_name with
                  | Some o, Some t => if op_requires_value (Some o) then Some (ValueControl t value) else None
                  | _, _ => None
                  end |}.

Fixpoint EditorNodeRow (depth : nat) (parent_op : option logical_op) (node : EditorNode) : list editor_row :=
  match node with
  | EditorLeaf id attribute op value => [LeafRow depth parent_op id attribute op value]
  | EditorGroup id op children =>
      {| row_id := id; row_depth := depth; row_parent_op := parent_op;
         row_operator := logical_name op;
         row_operators := operator_choices (eligible_ops_for_row compare_display_name node parent_op None);
         row_placeholder := false; row_field := None; row_value := None |}
      :: List.concat (map (EditorNodeRow (S depth) (Some op)) children)
  end.

(** The rows are those of the tree, each once and in its order, and the
    operators that a row offers are chosen for the group that
    [parent_op_of] finds, which is how the panel reads an edit of the row. *)
Lemma editor_rows_ids depth parent_op node : map row_id (EditorNodeRow depth parent_op node) = ids node.
Proof.
  revert depth parent_op. induction node as [id a op v|id op children IH] using EditorNode_rect'; intros depth parent_op;
    simpl; [done|]. f_equal. rewrite concat_map. f_equal. rewrite map_map.
  induction IH as [|c children Hc _ IHc]; simpl; f_equal; auto.
Qed.

Lemma row_in_ids depth parent_op node row : row ∈ EditorNodeRow depth parent_op node -> row_id row ∈ ids node.
Proof. intros H. rewrite <- (editor_rows_ids depth parent_op). by apply list_elem_of_fmap_2. Qed.

Lemma walk_absent node target parent_op : target ∉ ids node -> parent_op_of_walk node target parent_op = None.
Proof.
  revert parent_op. induction node as [id a op v|id op children IH] using EditorNode_rect'; intros parent_op; cbn;
    rewrite not_elem_of_cons; intros [Hne H]; rewrite (proj2 (seqb_neq id target)) by congruence; [done|].
  induction IH as [|c children Hc _ IHc]; [done|]. simpl in H. apply not_elem_of_app in H as [Hl Hr].
  rewrite Hc by done. assert (node_id c <> target) as Hn by (intros <-; apply Hl; destruct c; left).
  rewrite (proj2 (seqb_neq _ _)) by done. by apply IHc.
Qed.

Lemma nested_parent depth op node row : row ∈ EditorNodeRow depth (Some op) node -> row_parent_op row <> None.
Proof.
  revert depth op. induction node as [id a o v|id o children IH] using EditorNode_rect'; intros depth op; simpl.
  - by intros ->%list_elem_of_singleton.
  - intros [->|H]%elem_of_cons; [done|]. revert H. induction IH as [|c children Hc _ IHc]; simpl; [by intros ?%elem_of_nil|].
    intros [H|H]%elem_of_app; [by eapply Hc|by apply IHc].
Qed.

Lemma editor_row_parent depth parent_op node row : NoDup (ids node) -> row ∈ EditorNodeRow depth parent_op node ->
  parent_op_of_walk node (row_id row) parent_op = row_parent_op row.
Proof.
  revert depth parent_op. induction node as [id a op v|id op children IH] using EditorNode_rect';
    intros depth parent_op; cbn -[LeafRow].
  - intros _ ->%list_elem_of_singleton. cbn. by rewrite seqb_refl.
  - intros [Hni Hnd]%NoDup_cons [->|H]%elem_of_cons; [cbn; by rewrite seqb_refl|].
    assert (id <> row_id row) as Hne.
    { intros ->. apply Hni. revert H. clear. induction children as [|c children IH]; simpl; [by intros ?%elem_of_nil|].
      intros [H|H]%elem_of_app; apply elem_of_app; [left; by eapply row_in_ids|right; by apply IH]. }
    rewrite (proj2 (seqb_neq _ _)) by done. clear Hni Hne. revert Hnd H.
    induction IH as [|c children Hc _ IHc]; simpl; [by intros _ ?%elem_of_nil|].
    intros (Hc1 & Hdis & Hrest)%NoDup_app [H|H]%elem_of_app.
    + rewrite (Hc _ _ Hc1 H). destruct (seqb (node_id c) (row_id row)) eqn:Hs.
      * apply seqb_eq in Hs. rewrite <- (Hc _ _ Hc1 H), <- Hs. destruct c; cbn; by rewrite seqb_refl.
      * destruct (row_parent_op row) eqn:Hp; [done|]. by apply nested_parent in H.
    + assert (row_id row ∉ ids c) as Hout.
      { intros Hin. apply (Hdis _ Hin). revert H. clear. induction children as [|d children IH]; simpl;
          [by intros ?%elem_of_nil|]. intros [H|H]%elem_of_app; apply elem_of_app;
          [left; by eapply row_in_ids|right; by apply IH]. }
      rewrite walk_absent by done. assert (node_id c <> row_id row) as Hn by (intros Hn; apply Hout; rewrite <- Hn; destruct c; left).
      rewrite (proj2 (seqb_neq _ _)) by done. by apply IHc.
Qed.

Lemma editor_rows_exact root row : NoDup (ids root) -> row ∈ EditorNodeRow 0 None root ->
  parent_op_of (Some root) (row_id row) = row_parent_op row /\ map row_id (EditorNodeRow 0 None root) = ids root.
Proof. intros Hnd H. split; [by apply (editor_row_parent 0)|apply editor_rows_ids]. Qed.

(** The funnel's text, the panel when it is open, and its buttons. *)
Record panel_view : Type := {
  pv_text : jstr;
  pv_rows : option (list editor_row);      (* [None]: no filter, or one that cannot be edited *)
  pv_status : option jstr;
  pv_execute_disabled : bool;
  pv_add_disabled : bool;
  pv_reset_disabled : bool;
}.

Definition ListFilterChrome (attributes : list AttributeFieldMeta) (effective : option SearchPredicate) (busy : bool)
    (p : panel) : jstr * option panel_view :=
  let filter_text := render_predicate_text wall_of utc_of_wall other_dates effective attributes in
  (filter_text,
   if panel_open p then Some {|
     pv_text := filter_text;
     pv_rows := if panel_blocked_not p then None
                else match panel_draft p with Some root => Some (EditorNodeRow 0 None root) | None => None end;
     pv_status := panel_warning p;
     pv_execute_disabled := busy || panel_blocked_not p;
     pv_add_disabled := busy || panel_blocked_not p || match panel_draft p with Some _ => true | None => false end;
     pv_reset_disabled := busy |}
   else None).
End Panel.

(** ** The bar (list_context_bar.tsx) *)

Record bar_page : Type := {
  bp_class_display_name : jstr;
  bp_class_name : jstr;
  bp_list_path : jstr;
  bp_can_create : bool;
  bp_attributes : list AttributeFieldMeta;
  bp_selected_name : jstr;
  bp_warning : option jstr;
  bp_busy : bool;
}.

(** The bar's own state: whether its menu is open, and the copies of the link
    whose timer has not fired yet with the label that the last one left. *)
Record bar_state : Type := { bar_menu_open : bool; bar_copied : bool; bar_timers : nat }.

Definition bar_mount : bar_state := {| bar_menu_open := false; bar_copied := false; bar_timers := 0 |}.

Definition MENU_STUBS : list jstr :=
  [u "Export" ++ [8230]; u "Print" ++ [8230]; u "Share view" ++ [8230]; u "Column defaults" ++ [8230];
   u "Preferences" ++ [8230]].

Inductive chrome_event : Type :=
| MenuButton
| MouseDown (inside_menu : bool)     (* anywhere in the document *)
| DocumentKey (key : jstr)
| CopyLink (written : bool)          (* and what the clipboard answers *)
| CopiedTimer.                       (* 1500 ms after a copy *)

(** The listeners of the document are there while the menu is open. *)
Definition ContextMenu (e : chrome_event) (menu_open : bool) : bool :=
  match e with
  | MenuButton => negb menu_open
  | MouseDown inside_menu => menu_open && inside_menu
  | DocumentKey key => menu_open && negb (seqb key "Escape")
  | _ => menu_open
  end.

(** The step, and the warning that the page is told. *)
Definition on_copy_link (written : bool) (s : bar_state) : bar_state * option jstr :=
  if written then ({| bar_menu_open := bar_menu_open s; bar_copied := true; bar_timers := S (bar_timers s) |}, None)
  else (s, Some (u "Could not copy link.")).

Definition bar_step (e : chrome_event) (s : bar_state) : bar_state * option jstr :=
  let s := {| bar_menu_open := ContextMenu e (bar_menu_open s); bar_copied := bar_copied s; bar_timers := bar_timers s |} in
  match e with
  | CopyLink written => on_copy_link written s
  | CopiedTimer =>
      match bar_timers s with
      | O => (s, None)
      | S n => ({| bar_menu_open := bar_menu_open s; bar_copied := false; bar_timers := n |}, None)
      end
  | _ => (s, None)
  end.

(** What is copied: [URL] of the path of the list in the origin, a parameter. *)
Definition copied_link (new_URL : jstr -> jstr -> jstr) (origin : jstr) (p : bar_page) : jstr :=
  new_URL (bp_list_path p) origin.

Record bar_view : Type := {
  bar_title : jstr;
  bar_new : option jstr;                               (* the link, or the greyed out mark *)
  bar_menu : option (list jstr);                       (* the entries, all disabled *)
  bar_field : option (jstr * list (jstr * jstr) * QuickFilterControlKind);
  bar_status : option jstr;
  bar_refresh_label : jstr;
  bar_refresh_disabled : bool;
  bar_copy_label : jstr;
}.

Definition selected_attribute (filterable : list AttributeFieldMeta) (p : bar_page) : option AttributeFieldMeta :=
  match find (fun a => seqb (attr_name_snake a) (bp_selected_name p)) filterable with
  | Some a => Some a
  | None => head filterable
  end.

(** The field is there when an attribute is selected that has a control. *)
Definition bar_field_view (filterable : list AttributeFieldMeta) (p : bar_page)
  : option (jstr * list (jstr * jstr) * QuickFilterControlKind) :=
  match selected_attribute filterable p with
  | None => None
  | Some selected =>
      match quick_filter_control_kind (attr_type_name selected) with
      | None => None
      | Some kind =>
          Some (attr_name_snake selected,
                map (fun a => (attr_name_snake a, attribute_display_label (attr_name_snake a))) filterable, kind)
      end
  end.

Definition ListContextBar (p : bar_page) (s : bar_state) : outcome bar_view :=
  match quick_filterable_attributes (bp_attributes p) with
  | Exc e => Exc e
  | Val filterable => Val {|
      bar_title := bp_class_display_name p;
      bar_new := if bp_can_create p then Some (u "/" ++ bp_class_name p ++ u "/new") else None;
      bar_menu := if bar_menu_open s then Some MENU_STUBS else None;
      bar_field := bar_field_view filterable p;
      bar_status := bp_warning p;
      bar_refresh_label := if bp_busy p then u "Refreshing" ++ [8230] else u "Refresh";
      bar_refresh_disabled := bp_busy p;
      bar_copy_label := if bar_copied s then u "Link copied" else u "Copy link" |}
  end.

(** The field on show is one of the choices, and its control is that of a type
    that a quick filter takes. *)
Lemma bar_field_offered filterable p name choices kind : bar_field_view filterable p = Some (name, choices, kind) ->
  name ∈ map fst choices /\ length choices = length filterable /\
  exists a, a ∈ filterable /\ attr_name_snake a = name /\ quick_filter_control_kind (attr_type_name a) = Some kind.
Proof.
  unfold bar_field_view. destruct (selected_attribute filterable p) as [a|] eqn:Ha; [|done].
  assert (Hin : a ∈ filterable).
  { unfold selected_attribute in Ha. destruct (find _ _) as [b|] eqn:Hf.
    - injection Ha as <-. apply find_some in Hf as [Hf _]. by apply list_elem_of_In.
    - destruct filterable; [done|]. injection Ha as <-. left. }
  destruct (quick_filter_control_kind _) as [k|] eqn:Hk; [|done]. intros [= <- <- <-]. rewrite length_map, map_map. cbn.
  split_and!; [|done|by exists a]. apply list_elem_of_In, in_map_iff. exists a. split; [done|by apply list_elem_of_In].
Qed.

(** No copy is told as done for longer than its timer: when the last one has
    fired the label is the first one again, whatever happened in between. *)
Lemma copied_until_timer es :
  let s := fold_left (fun s e => fst (bar_step e s)) es bar_mount in
  bar_timers s = 0%nat -> bar_copied s = false.
Proof.
  assert (H : forall es s, (bar_timers s = 0%nat -> bar_copied s = false) ->
    let s' := fold_left (fun s e => fst (bar_step e s)) es s in bar_timers s' = 0%nat -> bar_copied s' = false).
  { clear es. induction es as [|e es IH]; intros s Hs; simpl; [done|]. apply IH.
    destruct e as [| | |[]|]; simpl; try done. by destruct (bar_timers s). }
  apply H. done.
Qed.
